(* ===== verification/_CoqProject ===== *)
-Q . S2P
Prelude.v
Text.v
MemSpan.v
WindowCache.v
Backing.v
NativeRam.v
WindowCacheSpec.v
WindowCacheThm.v
WindowCacheActions.v
WindowCacheBank.v
EventWriter.v
Kernel.v
StdMem.v
Sink.v
Stream.v
Command.v
Regions.v
MemIssue.v
InsnClass.v
Pipeline.v
PipelineThm.v
PipelineDrain.v
PipelineCore.v
Gpu.v
GpuLatency.v
GpuDma.v
GpuOp.v
GpuIrq.v
Mailbox.v
IrqMailbox.v
AcceleratorPort.v
BalarPort.v
BalarPortThm.v
BalarAnswers.v
CpuSync.v
Cpu.v
Plugin.v
PluginThm.v
CpuSyncThm.v
CpuAnswers.v
CpuThm.v
CoreStats.v
Shmem.v
CacheRegs.v
CacheRegsThm.v
Stages.v
StagesThm.v
Collector.v
Ipc.v
IpcThm.v
Bridge.v
BridgeThm.v
BridgeOptions.v
UserMmio.v
UserMmioThm.v
Platform.v
PlatformThm.v
Config.v
ConfigThm.v
Launch.v
LaunchThm.v
Child.v
Process.v
ProcessThm.v
System.v
SystemThm.v
Elements.v
ElementsThm.v
WindowThm.v
Fft.v
FftThm.v
FftDft.v
