(* ===== verification/Prelude.v ===== *)
(** * Quetz: a verification library for the QEMU-to-SST bridge

    Quetz runs a guest program under QEMU and times its memory accesses in an
    SST simulation.  Two processes share a segment of memory:

    - on QEMU's side a plugin writes what each vCPU executes into a ring
      ([src/src/qemu_plugin]); accesses to a device aperture do not go to the
      ring but through a mailbox that blocks the vCPU until the simulation
      answers, from a bridge device in system mode and from a fault handler in
      user mode ([src/qemu-overlay]);
    - on the simulator's side a component ([src/src]) starts QEMU, drains the
      rings through one pipeline per core, answers the mailboxes from window
      caches, accelerator ports or a plain link, and ends the simulation when
      the guests are gone; SST devices (an accelerator, a stream, a sink) stand
      at the end of the links.

    Definitions are translated from the source and executable; a machine
    integer is a [Z] with its wrap-around written out; a fatal error, an
    exception and a failed assertion are the [Throw]s of [result].  Theorems
    are about those definitions.  [bool], [list] and [gmap] stand for the
    sources' flags, vectors and hash maps; an argument stands for what is not
    in the repository.

    ** Files

    Shared: this file (integers, the [result], state and [Keep] monads, record
    update, lists); [Text] (C strings and printed numbers); [MemSpan]
    (quetz_memory_span.h, quetz_balar_flush_range.h); [StdMem] (requests and
    responses of SST's memory interface, quetz_irq_event.h); [Command]
    (commands of quetz_ipc_types.h, counters of quetz_stats.h).

    The guest's side:
    - [InsnClass] the decoders, insn_classifier.cpp, registry.h and
      coldfire_cache_ops.h; [Plugin] instrument.cpp, mem_access_handler.cpp,
      plugin_state.cpp and the exit of plugin_main.cpp.  [PluginThm]: the ring
      of a vCPU, runs unfolded, is what it executed, in order; and what the
      core has sent of it is a prefix of its accesses in program order.
      [CacheRegs] the register handles of a vCPU and the cache instructions
      that read through them; [CacheRegsThm]: as with the registers at hand.
    - [Ipc], [Bridge], [UserMmio]: quetz_ipc_client.c, sst_mmio_bridge.c and
      linux-user/sst_mmio.c with sst_mmio_m68k.h.  [IpcThm]: no client is
      attached to a segment too small for what it will touch, and resets are
      seen by all.  [BridgeThm]: the request each access makes;
      [BridgeOptions] the bridge's properties.  [UserMmioThm]: against reference
      encodings and meanings of loads, stores and moves, a fault is resumed
      exactly as the instruction would have been executed.

    Between the two:
    - [Shmem] the shared data and its initialisation (quetz_shmem.h,
      quetz_sync_manager.h, quetz_statistics_collector.h, quetz_mmio_sync.h);
    - [NativeRam] guest RAM kept in the segment (quetz_ipc_types.h);
    - [Mailbox] the request slot and [IrqMailbox] the interrupt slot, as step
      relations over every interleaving of the two sides, taken to be
      sequentially consistent: mutual exclusion, the right answer to each
      request, no level lost, each poll ends.

    The simulator's side:
    - [Pipeline] (quetz_pipeline and its default stages) with [Regions]
      (region table and handlers) and [MemIssue] (quetz_mem_issue).
      [PipelineThm]: requests are a prefix of those of a reference without
      queues or limits; [PipelineDrain]: what a drained core means;
      [PipelineCore]: what cores that share a request counter owe each other.
      [Stages] the interface of output stages with the default, the unsplit and
      the logging one (quetz_pipeline_api.h, quetz_logging_pipeline_output.cc)
      and the core backend; [StagesThm]: the logging stage only adds lines.
      [CoreStats] what a core's counters add up to (quetzcore.cc); [Collector]
      quetz_statistics_collector.
    - [WindowCache] (quetz_window_cache.h) and [WindowCacheBank].  [Backing] is
      the interface of the memory behind the cache, with its laws; instances
      are a flat memory and, in [NativeRam], the native regions in front of
      the link.  [WindowCacheSpec] and [WindowCacheThm]: cache and memory
      together are one flat memory; [WindowCacheActions]: each action stays in
      a line.
    - [AcceleratorPort] the interface of a port and the laws it owes the
      component; [BalarPort] the Balar port, [BalarPortThm] what it promises
      (answers, flush before doorbell, accounting, progress), [BalarAnswers]
      the instance of the laws.
    - [CpuSync] (quetzcpu_mmio_sync.cc) and [Cpu] (quetzcpu.cc, quetzcore.cc),
      for any port.  [CpuSyncThm]: a mailbox access is one access of the
      guest's memory; [CpuAnswers]: one answer for each request; [CpuThm]: when
      the simulation ends.
    - [Platform] (quetz_platform_contract.h and the two launch checks),
      [Config] (quetz_config, quetz_config_manager, quetz_platform_profiles,
      checks of the constructor), [Launch] (QemuLauncher::spawn up to the fork,
      and qemu_plugin_install, which reads what it wrote), [Process] (fork,
      supervision and teardown in quetz_launcher.cc, quetz_qemu_frontend.cc),
      each with its theorems in the file of the same name and [Thm]: accepted
      command lines and configurations, agreement of the two sides, signals
      and waiting.  [Child]: the launched process up to its exec.
    - [System] the component from its constructor to its end, composed of
      [Config], [Regions], [Cpu] with its ports, and [Process].  [SystemThm]:
      what the constructor accepts and init starts, when and with what verdict
      the simulation ends, and that no process is left.  [WindowThm]: one
      window, from the configuration through QEMU's command line, the plugin
      and the bridge.
    - [Elements] the documented parameters and statistics of the SST elements
      and what their constructors read; [ElementsThm]: the two agree.

    Devices: [Gpu] (quetz_gpu_device) with [GpuLatency] (the latency model),
    [GpuDma] and [GpuOp] (compute operations against a memory that answers in
    any order) and [GpuIrq]; [Kernel] (quetz_kernel_api.h and the scale/offset
    kernel); [Fft] with [FftThm] (the loops compute the recursive transform in
    any arithmetic) and [FftDft] (over the real numbers it is the discrete
    Fourier transform); [Stream]; [Sink]; [EventWriter].

    ** Fuel

    - [drive_fuel] and [service_fuel], 32: the actions of one cache
      transaction: at most eight bytes in at most two lines make at most 26, by
      the measure of [WindowCacheSpec];
    - [link_fuel], 40: responses of the link that one mailbox command needs,
      proved enough in [CpuSyncThm];
    - [window_fuel], 65: the requests of one DMA window (at most 64 in
      flight), proved enough in [GpuOp];
    - [reap_fuel]: one more than the polls a time limit allows, proved enough
      in [ProcessThm]; [log_loop] of [Fft]: 32, for a 32-bit size, proved
      enough for powers of two; 20 digits in [Text] for 64 bits;
    - [waitForChildAttach] has no bound in the code: its fuel is an argument,
      and the theorem says in which round it ends.

    ** What is assumed of other code

    Each is an argument or a class with laws and has a concrete instance:
    QEMU's order of plugin callbacks and its object and interrupt interfaces;
    QEMU's reading of [-device] options; SST's parameter conversions, which
    read the documented defaults as the numbers they denote, its links and
    slots, and its fresh request ids; the operating system
    ([Os]: waitpid, kill, fork, usleep; the calls of one attach); the file
    system of logs and captures; floating-point arithmetic ([Arith],
    [FloatBits]); Balar, the device behind the port, as a memory that answers.

    ** Not modelled

    SST's own registration of components, links, slots and statistics, and
    QEMU's of the bridge's class and the plugin's callbacks: tables those
    programs read.  Verbose and status messages, except the reports of
    overlapping ranges and the lines of the logging stage.  Destructors and the
    tunnel of SST, which owns the rings.  Test programs and build scripts.
    Weak memory is not modelled either: acquire and release are sequentially
    consistent steps. *)

From Stdlib Require Export ZArith Lia Bool String.
From stdpp Require Export base option list numbers strings gmap.

#[global] Open Scope Z_scope.

(** ** Machine integers

    A w-bit unsigned integer is a [Z] in [0, 2^w); every C++ operation that
    can leave that range is followed by [wrap w]. *)

Definition wrap (w x : Z) : Z := x mod 2 ^ w.
Abbreviation u8 := (wrap 8).
Abbreviation u16 := (wrap 16).
Abbreviation u32 := (wrap 32).
Abbreviation u64 := (wrap 64).

Definition max_u32 : Z := 2 ^ 32 - 1.
Definition max_u64 : Z := 2 ^ 64 - 1.

(** [~x] on a [uint32_t]. *)
Definition not32 (x : Z) : Z := Z.lxor x max_u32.

(** [x] is representable in [w] bits. *)
Definition is_word (w x : Z) : Prop := 0 <= x < 2 ^ w.
Abbreviation is_u8 := (is_word 8).
Abbreviation is_u32 := (is_word 32).
Abbreviation is_u64 := (is_word 64).

(** Conversion of an unsigned [w]-bit pattern to the signed value with that
    two's complement representation. *)
Definition sign (w x : Z) : Z := (x + 2 ^ (w - 1)) mod 2 ^ w - 2 ^ (w - 1).

(** The tactic for goals with constant division and remainder. *)
Ltac dlia := Z.to_euclidean_division_equations; lia.

Lemma wrap_range w x : 0 <= w -> 0 <= wrap w x < 2 ^ w.
Proof. intros; unfold wrap; apply Z.mod_pos_bound; lia. Qed.

Lemma wrap_small w x : is_word w x -> wrap w x = x.
Proof. intros; unfold wrap; apply Z.mod_small; assumption. Qed.

Lemma wrap_wrap w x : wrap w (wrap w x) = wrap w x.
Proof. unfold wrap; apply Zmod_mod. Qed.

Lemma wrap_nonneg w x : 0 <= w -> 0 <= wrap w x.
Proof. intros; apply wrap_range; assumption. Qed.

Lemma wrap_le w x : 0 <= w -> 0 <= x -> wrap w x <= x.
Proof. intros; unfold wrap; apply Z.mod_le; lia. Qed.

Lemma is_word_wrap w x : 0 <= w -> is_word w (wrap w x).
Proof. apply wrap_range. Qed.

Create HintDb quetz.
Create Rewrite HintDb quetz_rw.
#[export] Hint Resolve wrap_nonneg is_word_wrap : quetz.

(** Constant powers of two as literals, so that [lia] sees them. *)
Ltac pow2 :=
  repeat match goal with
  | H : context [2 ^ ?n] |- _ =>
      match isZcst n with true => idtac end;
      let v := eval vm_compute in (2 ^ n) in change (2 ^ n) with v in H
  | |- context [2 ^ ?n] =>
      match isZcst n with true => idtac end;
      let v := eval vm_compute in (2 ^ n) in change (2 ^ n) with v
  end.

(** Close arithmetic goals about words: representability unfolded, powers of
    two computed, and wraps of small values removed by the caller. *)
Ltac word :=
  unfold is_word, max_u32, max_u64 in *; pow2; lia.

Ltac wrap_small :=
  repeat match goal with
  | |- context [wrap ?w ?x] => rewrite (wrap_small w x) by word
  end.

(** ** Results: C++ exceptions and fatal errors

    [output_->fatal] and [throw] end the operation; the model keeps the kind
    and the reason.  [OutOfFuel] is no behaviour of the program: the theorems
    show that the fuel given to a loop is enough. *)

Inductive exn : Set :=
  | LogicError | InvalidArgument | RuntimeError | OutOfRange | Fatal | OutOfFuel.

Inductive result (A : Type) : Type :=
  | Ok (a : A)
  | Throw (e : exn) (msg : string).
Arguments Ok {A} _.
Arguments Throw {A} _ _.

#[global] Instance result_ret : MRet result := fun A a => Ok a.
#[global] Instance result_bind : MBind result := fun A B k m =>
  match m with Ok a => k a | Throw e s => Throw e s end.

(** [if (b) throw e(msg);] *)
Definition throw_if (b : bool) (e : exn) (msg : string) : result unit :=
  if b then Throw e msg else Ok tt.

Definition is_ok {A} (r : result A) : bool :=
  match r with Ok _ => true | Throw _ _ => false end.

Lemma bind_ok {A B} (m : result A) (k : A -> result B) b :
  (m ≫= k) = Ok b <-> exists a, m = Ok a /\ k a = Ok b.
Proof.
  destruct m; cbn; split.
  - intros H; eexists; split; [reflexivity | exact H].
  - intros (? & H & ?); injection H as ->; assumption.
  - discriminate.
  - intros (? & ? & ?); discriminate.
Qed.

Lemma throw_if_ok b e msg u : throw_if b e msg = Ok u <-> b = false.
Proof. destruct b, u; cbn; split; congruence. Qed.

Lemma throw_if_false {B} (b : bool) e msg (k : unit -> result B) :
  b = false -> (throw_if b e msg ≫= k) = k tt.
Proof. intros ->; reflexivity. Qed.

(** Split a hypothesis [m ≫= k = Ok b] along its binds and guards. *)
Ltac inv_ok :=
  repeat match goal with
  | H : (_ ≫= _) = Ok _ |- _ =>
      let a := fresh "a" in let E := fresh "E" in
      apply bind_ok in H; destruct H as (a & E & H)
  | H : throw_if _ _ _ = Ok _ |- _ => apply throw_if_ok in H
  | H : Ok _ = Ok _ |- _ => injection H as H
  | H : mret _ = Ok _ |- _ => injection H as H
  | H : Throw _ _ = Ok _ |- _ => discriminate H
  end.

(** ** Record update

    [r <| f := v |>] is [r] with field [f] set to [v].  A record type is made
    updatable by an instance of [Settable] that rebuilds it from its own
    projections; the update of a field is then found by abstracting that
    projection. *)

Class Settable (R : Type) := eta_record : R -> R.
Class Update {R T : Type} (proj : R -> T) := update_field : (T -> T) -> R -> R.
Arguments update_field {_ _} _ {_} / _ _.

Ltac find_update :=
  match goal with
  | |- @Update ?R ?T ?proj =>
      let eta := eval cbv beta delta [eta_record] in (_ : Settable R) in
      let eta := eval red in eta in
      let eta := eval hnf in eta in
      match eval pattern proj in eta with
      | ?F _ => let u := eval cbv beta in
          (fun (f : T -> T) (r : R) => F (fun r' => f (proj r')) r) in exact u
      end
  end.
#[export] Hint Extern 1 (Update _) => find_update : typeclass_instances.

Declare Scope quetz_scope.
Delimit Scope quetz_scope with quetz.
#[global] Open Scope quetz_scope.
#[warnings="-postfix-notation-not-level-1"] Notation "r <| f := v |>" := (update_field f (fun _ => v) r)
  (at level 12, f at next level, left associativity) : quetz_scope.
#[warnings="-postfix-notation-not-level-1"] Notation "r <| f ::= g |>" := (update_field f g r)
  (at level 12, f at next level, left associativity) : quetz_scope.

(** ** State, errors and handlers

    A handler of a device is a function of its state that ends with a value
    and a new state, or stops with an error. *)

Definition M (S A : Type) : Type := S -> result (A * S).
#[global] Instance M_ret {S} : MRet (M S) := fun A a s => Ok (a, s).
#[global] Instance M_bind {S} : MBind (M S) := fun A B k m s =>
  match m s with Ok (a, s') => k a s' | Throw e msg => Throw e msg end.

Definition gets {S A} (f : S -> A) : M S A := fun s => Ok (f s, s).
Definition modify {S} (f : S -> S) : M S unit := fun s => Ok (tt, f s).
Definition raise {S A} (e : exn) (msg : string) : M S A := fun _ => Throw e msg.
Definition skip {S} : M S unit := fun s => Ok (tt, s).
Definition when {S} (b : bool) (m : M S unit) : M S unit := if b then m else skip.
Definition lift {S A} (r : result A) : M S A := fun s =>
  match r with Ok a => Ok (a, s) | Throw e msg => Throw e msg end.

(** [sends P m Q]: from a state in [P], if [m] ends normally it does so in [Q]. *)
Definition hoare {S A} (P : S -> Prop) (m : M S A) (Q : A -> S -> Prop) : Prop :=
  forall s, P s -> forall a s', m s = Ok (a, s') -> Q a s'.

Lemma M_bind_ok {S A B} (m : M S A) (k : A -> M S B) s b s' :
  (m ≫= k) s = Ok (b, s') <-> exists a s1, m s = Ok (a, s1) /\ k a s1 = Ok (b, s').
Proof.
  change ((m ≫= k) s) with (match m s with Ok (a, s1) => k a s1 | Throw e t => Throw e t end).
  destruct (m s) as [[a s1]|e t]; split.
  - intros H; exists a, s1; split; [reflexivity | exact H].
  - intros (a' & s2 & H & Hk); injection H as <- <-; exact Hk.
  - discriminate.
  - intros (? & ? & ? & _); discriminate.
Qed.

Lemma hoare_bind {S A B} P (m : M S A) (k : A -> M S B) Q R :
  hoare P m Q -> (forall a, hoare (Q a) (k a) R) -> hoare P (m ≫= k) R.
Proof.
  intros Hm Hk s Hs b s' H. apply M_bind_ok in H as (a & s1 & H1 & H2).
  eapply Hk; [eapply Hm; [exact Hs | exact H1] | exact H2].
Qed.

Lemma hoare_conseq {S A} (P P' : S -> Prop) (m : M S A) (Q Q' : A -> S -> Prop) :
  hoare P' m Q' -> (forall s, P s -> P' s) -> (forall a s, Q' a s -> Q a s) ->
  hoare P m Q.
Proof. unfold hoare; eauto. Qed.

Lemma hoare_ret {S A} (P : A -> S -> Prop) a : hoare (P a) (mret a : M S A) P.
Proof. intros s Hs a' s' H; injection H as <- <-; exact Hs. Qed.

Lemma hoare_gets {S A} (f : S -> A) (P : A -> S -> Prop) :
  hoare (fun s => P (f s) s) (gets f) P.
Proof. intros s Hs a s' H; injection H as <- <-; exact Hs. Qed.

Lemma hoare_modify {S} (f : S -> S) (P : unit -> S -> Prop) :
  hoare (fun s => P tt (f s)) (modify f) P.
Proof. intros s Hs a s' H; injection H as <- <-; exact Hs. Qed.

Lemma hoare_raise {S A} e msg P (Q : A -> S -> Prop) : hoare P (raise e msg) Q.
Proof. intros s _ a s' H; discriminate H. Qed.

Lemma hoare_when {S} (b : bool) P (m : M S unit) (Q : unit -> S -> Prop) :
  hoare (fun s => P s /\ b = true) m Q -> (forall s, P s -> b = false -> Q tt s) ->
  hoare P (when b m) Q.
Proof.
  intros Ht Hf s Hs a s' H; destruct b; cbn in H.
  - eapply Ht; eauto.
  - injection H as <- <-; auto.
Qed.

(** ** Operations that keep their state when they fail *)

Definition Keep (S A : Type) : Type := S -> result A * S.
#[global] Instance keep_ret {S} : MRet (Keep S) := fun A a s => (Ok a, s).
#[global] Instance keep_bind {S} : MBind (Keep S) := fun A B k m s =>
  match m s with (Ok a, s') => k a s' | (Throw e msg, s') => (Throw e msg, s') end.
Definition fatal {S A} (msg : string) : Keep S A := fun s => (Throw Fatal msg, s).
Definition out_of_fuel {S A} : Keep S A := fun s => (Throw OutOfFuel "", s).

(** ** Bytes *)

Abbreviation byte := Z (only parsing).
Definition bytes_ok (l : list Z) : Prop := Forall (fun b => is_u8 b) l.

(** [accelU64ToData], [u64ToData]: the low [n] bytes of [v], low byte first. *)
Fixpoint le_bytes (n : nat) (v : Z) : list Z :=
  match n with
  | O => []
  | S n => Z.land v 255 :: le_bytes n (Z.shiftr v 8)
  end.

(** [accelDataToU64], [dataToU64]: from the last byte to the first,
    [val <<= 8; val |= data[i]] on a [uint64_t]. *)
Definition le_value (l : list Z) : Z :=
  foldr (fun b acc => Z.lor (u64 (Z.shiftl acc 8)) b) 0 l.

(** Most significant byte first: [value = (value << 8) | byte] in list order. *)
Definition be_value (l : list Z) : Z :=
  foldl (fun acc b => Z.lor (u64 (Z.shiftl acc 8)) b) 0 l.

Lemma length_le_bytes n v : length (le_bytes n v) = n.
Proof. revert v; induction n; intros; cbn; auto. Qed.

Lemma land_255 v : Z.land v 255 = v mod 256.
Proof. exact (Z.land_ones v 8 ltac:(lia)). Qed.

Lemma shiftr_8 v : Z.shiftr v 8 = v / 256.
Proof. exact (Z.shiftr_div_pow2 v 8 ltac:(lia)). Qed.

Lemma shiftl_8 v : Z.shiftl v 8 = v * 256.
Proof. exact (Z.shiftl_mul_pow2 v 8 ltac:(lia)). Qed.

Lemma lor_add_low a b w : 0 <= w -> 0 <= b < 2 ^ w -> Z.lor (a * 2 ^ w) b = a * 2 ^ w + b.
Proof.
  intros Hw Hb. symmetry. rewrite <- Z.shiftl_mul_pow2 by assumption.
  rewrite <- Z.lxor_lor, Z.add_nocarry_lxor; [reflexivity | ..];
    apply Z.bits_inj'; intros i Hi; rewrite Z.land_spec, Z.bits_0;
    (destruct (Z.lt_ge_cases i w);
     [rewrite Z.shiftl_spec_low by lia; reflexivity |
      rewrite <- (Z.mod_small b (2 ^ w)) by lia;
      rewrite Z.mod_pow2_bits_high by lia; apply andb_false_r]).
Qed.

Lemma le_value_cons b l : is_u8 b -> le_value (b :: l) = u64 (le_value l * 256) + b.
Proof.
  intros Hb. change (le_value (b :: l)) with (Z.lor (u64 (Z.shiftl (le_value l) 8)) b).
  rewrite shiftl_8. unfold wrap.
  replace (le_value l * 256 mod 2 ^ 64) with ((le_value l mod 2 ^ 56) * 2 ^ 8)
    by (change (2 ^ 64) with (2 ^ 56 * 256); rewrite Z.mul_mod_distr_r by lia; reflexivity).
  apply lor_add_low; [lia | word].
Qed.

Lemma le_bytes_ok n v : bytes_ok (le_bytes n v).
Proof.
  revert v; induction n; intros; cbn; constructor; [|apply IHn].
  rewrite land_255. unfold is_word. change (2 ^ 8) with 256. apply Z.mod_pos_bound; lia.
Qed.

Lemma le_value_range l : bytes_ok l -> is_u64 (le_value l).
Proof.
  destruct l as [|b l]; intros H; [cbn; word |].
  apply Forall_cons in H as [Hb _]. rewrite le_value_cons by assumption.
  replace (u64 (le_value l * 256)) with ((le_value l mod 2 ^ 56) * 256)
    by (unfold wrap; change (2 ^ 64) with (2 ^ 56 * 256); rewrite Z.mul_mod_distr_r by lia; reflexivity).
  pose proof (Z.mod_pos_bound (le_value l) (2 ^ 56)). word.
Qed.

Lemma le_value_bound l : bytes_ok l -> (length l <= 8)%nat ->
  0 <= le_value l < 256 ^ Z.of_nat (length l).
Proof.
  induction l as [|b l IH]; intros H Hl; [cbn; lia |].
  apply Forall_cons in H as [Hb H]. cbn [length] in *.
  specialize (IH H ltac:(lia)). rewrite le_value_cons by assumption.
  rewrite Nat2Z.inj_succ, Z.pow_succ_r by lia.
  assert (256 ^ Z.of_nat (length l) * 256 <= 2 ^ 64).
  { change (2 ^ 64) with (256 ^ 7 * 256).
    apply Z.mul_le_mono_nonneg_r; [lia |]. apply Z.pow_le_mono_r; lia. }
  rewrite wrap_small by word. word.
Qed.

(** Round trip: up to eight bytes, the value determines the bytes. *)
Lemma le_bytes_value l : bytes_ok l -> (length l <= 8)%nat ->
  le_bytes (length l) (le_value l) = l.
Proof.
  induction l as [|b l IH]; intros H Hl; [reflexivity |].
  apply Forall_cons in H as [Hb H]. cbn [length] in *. cbn [le_bytes].
  pose proof (le_value_bound l H ltac:(lia)) as Hv.
  assert (256 ^ Z.of_nat (length l) * 256 <= 2 ^ 64).
  { change (2 ^ 64) with (256 ^ 7 * 256).
    apply Z.mul_le_mono_nonneg_r; [lia |]. apply Z.pow_le_mono_r; lia. }
  rewrite le_value_cons by assumption. rewrite wrap_small by word.
  rewrite land_255, shiftr_8.
  replace ((le_value l * 256 + b) mod 256) with b by (unfold is_word in Hb; pow2; dlia).
  replace ((le_value l * 256 + b) / 256) with (le_value l) by (unfold is_word in Hb; pow2; dlia).
  f_equal. apply IH; [assumption | lia].
Qed.

(** Round trip: [n] bytes hold the value modulo [2^(8n)]. *)
Lemma le_value_bytes n v : (n <= 8)%nat -> le_value (le_bytes n v) = v mod 256 ^ Z.of_nat n.
Proof.
  revert v; induction n as [|n IH]; intros v Hn; [rewrite Z.mod_1_r; reflexivity |].
  cbn [le_bytes].
  assert (Hb : is_u8 (Z.land v 255))
    by (rewrite land_255; unfold is_word; change (2 ^ 8) with 256; apply Z.mod_pos_bound; lia).
  rewrite le_value_cons by assumption. rewrite IH by lia.
  rewrite land_255, shiftr_8, Nat2Z.inj_succ, Z.pow_succ_r by lia.
  assert (256 ^ Z.of_nat n <= 256 ^ 7) by (apply Z.pow_le_mono_r; lia).
  assert (0 < 256 ^ Z.of_nat n) by (apply Z.pow_pos_nonneg; lia).
  pose proof (Z.mod_pos_bound (v / 256) (256 ^ Z.of_nat n)).
  rewrite wrap_small by (unfold is_word; change (256 ^ 7) with (2 ^ 56) in *; pow2; lia).
  rewrite Z.rem_mul_r by lia. lia.
Qed.

(** Big-endian packing of the low [n] bytes of a value. *)
Definition be_bytes (n : nat) (v : Z) : list Z := reverse (le_bytes n v).

Lemma foldl_reverse {A B} (f : A -> B -> A) a l :
  foldl f a l = foldr (fun b acc => f acc b) a (reverse l).
Proof.
  revert a; induction l as [|b l IH]; intros a; [reflexivity |].
  rewrite reverse_cons, foldr_app. apply IH.
Qed.

Lemma be_value_reverse l : be_value l = le_value (reverse l).
Proof. apply foldl_reverse. Qed.

Lemma length_be_bytes n v : length (be_bytes n v) = n.
Proof. unfold be_bytes. rewrite length_reverse. apply length_le_bytes. Qed.

Lemma be_bytes_ok n v : bytes_ok (be_bytes n v).
Proof. unfold be_bytes, bytes_ok. rewrite Forall_reverse. apply le_bytes_ok. Qed.

Lemma be_value_bytes n v : (n <= 8)%nat -> be_value (be_bytes n v) = v mod 256 ^ Z.of_nat n.
Proof.
  intros. rewrite be_value_reverse. unfold be_bytes. rewrite reverse_involutive.
  apply le_value_bytes; assumption.
Qed.

Lemma be_bytes_value l : bytes_ok l -> (length l <= 8)%nat -> be_bytes (length l) (be_value l) = l.
Proof.
  intros Hl H8. rewrite be_value_reverse. unfold be_bytes.
  rewrite <- (length_reverse l), le_bytes_value.
  - apply reverse_involutive.
  - unfold bytes_ok; rewrite Forall_reverse; exact Hl.
  - rewrite length_reverse; exact H8.
Qed.

(** ** Copies between arrays *)

(** [n] elements of [l] from index [i]: [{l.begin() + i, l.begin() + i + n}]. *)
Definition slice {A} (l : list A) (i n : nat) : list A := take n (drop i l).

(** [std::copy] of [xs] over [l] from index [i]. *)
Definition splice {A} (l : list A) (i : nat) (xs : list A) : list A :=
  take i l ++ xs ++ drop (i + length xs) l.

Lemma length_slice {A} (l : list A) i n : (i + n <= length l)%nat -> length (slice l i n) = n.
Proof. intros. unfold slice. rewrite length_take, length_drop. lia. Qed.

Lemma lookup_slice {A} (l : list A) i n k : (k < n)%nat -> slice l i n !! k = l !! (i + k)%nat.
Proof. intros. unfold slice. rewrite lookup_take_lt by lia. apply lookup_drop. Qed.

Lemma length_splice {A} (l : list A) i xs : (i + length xs <= length l)%nat ->
  length (splice l i xs) = length l.
Proof. intros. unfold splice. rewrite !length_app, length_take, length_drop. lia. Qed.

Lemma lookup_splice_in {A} (l : list A) i xs k :
  (i + length xs <= length l)%nat -> (i <= k < i + length xs)%nat ->
  splice l i xs !! k = xs !! (k - i)%nat.
Proof.
  intros Hl Hk. unfold splice. rewrite lookup_app_r by (rewrite length_take; lia).
  rewrite length_take, lookup_app_l by lia. f_equal; lia.
Qed.

Lemma lookup_splice_out {A} (l : list A) i xs k :
  (i + length xs <= length l)%nat -> (k < i \/ i + length xs <= k)%nat ->
  splice l i xs !! k = l !! k.
Proof.
  intros Hl [Hk|Hk]; unfold splice.
  - rewrite lookup_app_l by (rewrite length_take; lia). apply lookup_take_lt; lia.
  - rewrite lookup_app_r by (rewrite length_take; lia). rewrite length_take.
    rewrite lookup_app_r by lia. rewrite lookup_drop. f_equal; lia.
Qed.

Lemma bytes_ok_slice l i n : bytes_ok l -> bytes_ok (slice l i n).
Proof. intros. unfold slice, bytes_ok. apply Forall_take, Forall_drop. assumption. Qed.

Lemma bytes_ok_splice l i xs : bytes_ok l -> bytes_ok xs -> bytes_ok (splice l i xs).
Proof.
  intros. unfold splice, bytes_ok. rewrite !Forall_app.
  repeat split; [apply Forall_take | | apply Forall_drop]; assumption.
Qed.

#[export] Hint Resolve le_bytes_ok be_bytes_ok bytes_ok_slice bytes_ok_splice : quetz.
#[export] Hint Rewrite @length_le_bytes @length_be_bytes @reverse_involutive : quetz_rw.

(** ** Counting the entries of a map *)

Definition mcount {A} (f : A -> bool) (m : gmap Z A) : Z :=
  Z.of_nat (base.size (filter (fun kv => f kv.2 = true) m)).

Lemma mcount_nonneg {A} (f : A -> bool) m : 0 <= mcount f m.
Proof. unfold mcount. lia. Qed.

Lemma mcount_empty {A} (f : A -> bool) : mcount f ∅ = 0.
Proof. unfold mcount. rewrite map_filter_empty, map_size_empty. reflexivity. Qed.

Lemma mcount_insert {A} (f : A -> bool) m i x : m !! i = None ->
  mcount f (<[i := x]> m) = mcount f m + (if f x then 1 else 0).
Proof.
  intros Hi. unfold mcount. destruct (f x) eqn:E.
  - rewrite map_filter_insert_True by exact E. rewrite map_size_insert_None; [lia |].
    apply map_lookup_filter_None. left. exact Hi.
  - rewrite map_filter_insert_not' by (cbn; congruence). lia.
Qed.

Lemma mcount_delete {A} (f : A -> bool) m i x : m !! i = Some x ->
  mcount f (delete i m) = mcount f m - (if f x then 1 else 0).
Proof.
  intros Hi. rewrite <- (insert_delete_id m i x Hi) at 2.
  rewrite (mcount_insert f (delete i m) i x); [lia |]. apply lookup_delete_eq.
Qed.
