(* ===== verification/Text.v ===== *)
(** * C strings and their numbers

    What the launcher, the plugin and the user-mode handler use of the C and
    C++ libraries on text: [strtoull] and [std::stoull] with base 0, the
    conversions [%PRIx64] and [%PRIu32], [strtok_r] with one separator,
    [strncmp] with a literal and the truncation of [snprintf].

    A C string is the list of its characters before the terminator.  The
    theorem of the file: a number that was printed is read back. *)
From Stdlib Require Export Ascii.
From S2P Require Import Prelude.

Abbreviation text := (list ascii).

(** A literal. *)
Abbreviation tx := String.list_ascii_of_string.

(** ** Characters *)

Definition code (c : ascii) : Z := Z.of_N (N_of_ascii c).
Definition char (n : Z) : ascii := ascii_of_N (Z.to_N n).

Definition is_space (c : ascii) : bool := (code c =? 32) || ((9 <=? code c) && (code c <=? 13)).

(** The value of a digit of a base up to 36. *)
Definition digit (base : Z) (c : ascii) : option Z :=
  let n := code c in
  let d := if (48 <=? n) && (n <=? 57) then n - 48
           else if (97 <=? n) && (n <=? 122) then n - 87
           else if (65 <=? n) && (n <=? 90) then n - 55
           else base in
  if d <? base then Some d else None.

(** ** Reading *)

(** The longest run of digits: its value, how many, and the rest. *)
Fixpoint read_digits (base : Z) (s : text) (acc : Z) (n : nat) : Z * nat * text :=
  match s with
  | c :: s' =>
      match digit base c with
      | Some d => read_digits base s' (acc * base + d) (S n)
      | None => (acc, n, s)
      end
  | [] => (acc, n, [])
  end.

Fixpoint skip_space (s : text) : text :=
  match s with c :: s' => if is_space c then skip_space s' else s | [] => [] end.

(** The sign, and the text after it. *)
Definition read_sign (s : text) : bool * text :=
  match s with
  | c :: s' => if code c =? 45 then (true, s') else if code c =? 43 then (false, s') else (false, s)
  | [] => (false, [])
  end.

(** The base a prefix announces, and the text after the prefix. *)
Definition read_base (s : text) : Z * text :=
  match s with
  | z :: x :: c :: s' =>
      if code z =? 48 then
        if ((code x =? 120) || (code x =? 88)) && bool_decide (is_Some (digit 16 c)) then (16, c :: s') else (8, s)
      else (10, s)
  | z :: _ => (if code z =? 48 then 8 else 10, s)
  | [] => (10, s)
  end.

Record Number := mkNumber { value : Z; rest : text; converted : bool; erange : bool }.

(** [strtoull(s, &end, 0)]: [rest] is [end], [erange] is [errno == ERANGE]. *)
Definition strtoull (s : text) : Number :=
  let '(neg, s1) := read_sign (skip_space s) in
  let '(base, s2) := read_base s1 in
  let '(v, n, end_) := read_digits base s2 0 0 in
  if Nat.eqb n 0 then mkNumber 0 s false false
  else if max_u64 <? v then mkNumber max_u64 end_ true true
  else mkNumber (if neg then u64 (- v) else v) end_ true false.

(** [std::stoull(s, &used, 0)]: the value and the unused rest. *)
Definition stoull (s : text) : result (Z * text) :=
  let n := strtoull s in
  throw_if (negb (converted n)) InvalidArgument "stoull" ≫= fun _ =>
  throw_if (erange n) OutOfRange "stoull" ≫= fun _ => Ok (value n, rest n).

(** ** Writing *)

Definition digit_char (d : Z) : ascii := char (if d <? 10 then 48 + d else 87 + d).

Fixpoint write_digits (base : Z) (fuel : nat) (n : Z) (acc : text) : text :=
  match fuel with
  | O => acc
  | S fuel =>
      let acc := digit_char (n mod base) :: acc in
      if n / base =? 0 then acc else write_digits base fuel (n / base) acc
  end.

(** [%PRIx64], and [std::to_string] or [%PRIu32]; 20 digits hold every
    64-bit number in either base. *)
Definition hex (n : Z) : text := write_digits 16 20 n [].
Definition dec (n : Z) : text := write_digits 10 20 n [].

(** [snprintf] into a buffer of [n] bytes. *)
Definition snprintf (n : nat) (s : text) : text := take (n - 1) s.

(** ** Searching *)

(** [strncmp(s, p, strlen(p)) == 0]: the text after the prefix. *)
Fixpoint after (p s : text) : option text :=
  match p, s with
  | [], _ => Some s
  | a :: p, b :: s => if Ascii.eqb a b then after p s else None
  | _ :: _, [] => None
  end.

(** Is [p] a part of [s]?  [s.find(p) != npos] *)
Fixpoint contains (p s : text) : bool :=
  match after p s with
  | Some _ => true
  | None => match s with [] => false | _ :: s => contains p s end
  end.

(** [s.find_first_of(set) != npos] *)
Definition has_any (set s : text) : bool := existsb (fun c => existsb (Ascii.eqb c) set) s.

(** The text before the first [c], and after it if there is one. *)
Fixpoint cut (c : ascii) (s : text) : text * option text :=
  match s with
  | [] => ([], None)
  | a :: s => if Ascii.eqb a c then ([], Some s) else let '(l, r) := cut c s in (a :: l, r)
  end.

(** The parts between separators, empty ones included. *)
Fixpoint split (c : ascii) (s : text) : list text :=
  match s with
  | [] => [[]]
  | a :: s =>
      if Ascii.eqb a c then [] :: split c s
      else match split c s with p :: ps => (a :: p) :: ps | [] => [[a]] end
  end.

(** The words [>>] extracts from a stream. *)
Fixpoint words_from (s w : text) : list text :=
  match s with
  | [] => match w with [] => [] | _ => [w] end
  | c :: s => if is_space c then match w with [] => words_from s [] | _ => w :: words_from s [] end else words_from s (w ++ [c])
  end.
Definition words (s : text) : list text := words_from s [].

(** The tokens of [strtok_r]. *)
Definition tokens (c : ascii) (s : text) : list text := List.filter (fun t => negb (bool_decide (t = []))) (split c s).

(** ** Lemmas *)

Lemma after_app p s : after p (p ++ s) = Some s.
Proof. induction p as [|a p IH]; cbn; [reflexivity |]. rewrite Ascii.eqb_refl. exact IH. Qed.

Lemma after_Some p s r : after p s = Some r <-> s = p ++ r.
Proof.
  split; [| intros ->; apply after_app]. revert s. induction p as [|a p IH]; intros [|b s]; cbn; try congruence.
  destruct (Ascii.eqb_spec a b) as [->|]; [| discriminate]. intros H. f_equal. auto.
Qed.

Lemma cut_app c s r : c ∉ s -> cut c (s ++ c :: r) = (s, Some r).
Proof.
  induction s as [|a s IH]; cbn; intros H; [rewrite Ascii.eqb_refl; reflexivity |].
  apply not_elem_of_cons in H as [Hne H]. destruct (Ascii.eqb_spec a c) as [->|]; [congruence |].
  rewrite (IH H). reflexivity.
Qed.

Lemma cut_whole c s : c ∉ s -> cut c s = (s, None).
Proof.
  induction s as [|a s IH]; cbn; intros H; [reflexivity |].
  apply not_elem_of_cons in H as [Hne H]. destruct (Ascii.eqb_spec a c) as [->|]; [congruence |].
  rewrite (IH H). reflexivity.
Qed.

Lemma split_app c s r : c ∉ s -> split c (s ++ c :: r) = s :: split c r.
Proof.
  induction s as [|a s IH]; cbn; intros H; [rewrite Ascii.eqb_refl; reflexivity |].
  apply not_elem_of_cons in H as [Hne H]. destruct (Ascii.eqb_spec a c) as [->|]; [congruence |].
  rewrite (IH H). reflexivity.
Qed.

Lemma split_whole c s : c ∉ s -> split c s = [s].
Proof.
  induction s as [|a s IH]; cbn; intros H; [reflexivity |].
  apply not_elem_of_cons in H as [Hne H]. destruct (Ascii.eqb_spec a c) as [->|]; [congruence |].
  rewrite (IH H). reflexivity.
Qed.

(** Parts joined by a separator. *)
Fixpoint join (c : ascii) (l : list text) : text :=
  match l with [] => [] | [s] => s | s :: l => s ++ c :: join c l end.

Lemma split_join c l : l <> [] -> Forall (fun s => c ∉ s) l -> split c (join c l) = l.
Proof.
  intros Hne. induction l as [|s [|s' l] IH]; [congruence | |]; intros [Hs Hl]%Forall_cons; cbn [join].
  - apply split_whole, Hs.
  - rewrite split_app by exact Hs. f_equal. apply IH; [discriminate | exact Hl].
Qed.

Lemma tokens_join c l : l <> [] -> Forall (fun s => (c ∉ s) /\ s <> []) l -> tokens c (join c l) = l.
Proof.
  intros Hne H. unfold tokens. rewrite split_join; [| exact Hne | eapply Forall_impl; [exact H |]; intros x Hx; apply Hx].
  clear Hne. induction l as [|s l IH]; [reflexivity |]. apply Forall_cons in H as [[_ Hs] H]. cbn.
  rewrite bool_decide_false by exact Hs. cbn. f_equal. exact (IH H).
Qed.

Lemma code_char n : 0 <= n < 256 -> code (char n) = n.
Proof. intros H. unfold code, char. rewrite N_ascii_embedding by lia. lia. Qed.

Lemma code_digit_char d : 0 <= d < 36 -> code (digit_char d) = (if d <? 10 then 48 + d else 87 + d).
Proof. intros H. unfold digit_char. rewrite code_char; [reflexivity |]. destruct (Z.ltb_spec d 10); lia. Qed.

Lemma digit_digit_char base d : base <= 36 -> 0 <= d < base -> digit base (digit_char d) = Some d.
Proof.
  intros Hb Hd. unfold digit. rewrite code_digit_char by lia.
  destruct (Z.ltb_spec d 10); repeat case_match; try lia; f_equal; lia.
Qed.

Lemma read_write_digits base : 2 <= base <= 36 -> forall fuel n acc v k, 0 <= n < base ^ Z.of_nat fuel ->
  exists j, (0 < fuel -> 0 < j)%nat /\
  read_digits base (write_digits base fuel n acc) v k = read_digits base acc (v * base ^ Z.of_nat j + n) (j + k).
Proof.
  intros Hb. induction fuel as [|fuel IH]; intros n acc v k Hn.
  - exists 0%nat. split; [lia |]. cbn in Hn |- *. assert (n = 0) as -> by lia. f_equal. lia.
  - cbn [write_digits]. rewrite Nat2Z.inj_succ, Z.pow_succ_r in Hn by lia.
    assert (Hd : 0 <= n mod base < base) by (apply Z.mod_pos_bound; lia).
    pose proof (Z.div_mod n base ltac:(lia)) as Hdm.
    destruct (Z.eqb_spec (n / base) 0) as [H0|H0].
    + exists 1%nat. split; [lia |]. cbn [read_digits]. rewrite digit_digit_char by lia. f_equal. cbn. lia.
    + destruct (IH (n / base) (digit_char (n mod base) :: acc) v k) as (j & _ & ->).
      { split; [apply Z.div_pos; lia | apply Z.div_lt_upper_bound; lia]. }
      exists (S j). split; [lia |]. cbn [read_digits]. rewrite digit_digit_char by lia.
      f_equal. rewrite Nat2Z.inj_succ, Z.pow_succ_r by lia. nia.
Qed.

(** What follows a number ends it. *)
Definition ends_number (base : Z) (s : text) : Prop := match s with c :: _ => digit base c = None | [] => True end.

Lemma read_digits_end base s v n : ends_number base s -> read_digits base s v n = (v, n, s).
Proof. destruct s as [|c s]; cbn; [reflexivity |]. intros ->. reflexivity. Qed.

Lemma write_digits_head base : 2 <= base <= 36 -> forall fuel n acc, 0 <= n -> (0 < fuel)%nat ->
  exists d s, 0 <= d < base /\ write_digits base fuel n acc = digit_char d :: s.
Proof.
  intros Hb. induction fuel as [|fuel IH]; intros n acc Hn Hf; [lia |]. cbn [write_digits].
  destruct (n / base =? 0); [do 2 eexists; split; [| reflexivity]; apply Z.mod_pos_bound; lia |].
  destruct fuel as [|fuel]; [cbn; do 2 eexists; split; [| reflexivity]; apply Z.mod_pos_bound; lia |].
  apply IH; [apply Z.div_pos; lia | lia].
Qed.

(** A printed hexadecimal number is read back. *)
Lemma strtoull_hex n s : is_u64 n -> ends_number 16 s -> strtoull (tx "0x" ++ hex n ++ s) = mkNumber n s true false.
Proof.
  intros Hn Hs. unfold strtoull. change (skip_space (tx "0x" ++ hex n ++ s)) with ("0" :: "x" :: (hex n ++ s))%char.
  change (read_sign _) with (false, ("0" :: "x" :: (hex n ++ s))%char).
  destruct (write_digits_head 16 ltac:(lia) 20 n [] ltac:(unfold is_word in Hn; lia) ltac:(lia)) as (d & w & Hd & Ew).
  assert (Eb : read_base ("0" :: "x" :: (hex n ++ s))%char = (16, hex n ++ s)).
  { unfold hex in Ew |- *. rewrite Ew. cbn [app read_base].
    change (code "0"%char) with 48. change (code "x"%char) with 120. cbn [Z.eqb Pos.eqb orb andb].
    rewrite digit_digit_char by lia. rewrite bool_decide_true by eauto. reflexivity. }
  rewrite Eb.
  assert (Ea : forall m acc, write_digits 16 m n acc ++ s = write_digits 16 m n (acc ++ s)).
  { clear. intros m. revert n. induction m as [|m IH]; intros n acc; [reflexivity |]. cbn [write_digits].
    destruct (_ =? _); [reflexivity | apply IH]. }
  unfold hex. rewrite Ea. cbn [app].
  destruct (read_write_digits 16 ltac:(lia) 20 n s 0 0) as (j & Hj & ->); [word |].
  rewrite read_digits_end by exact Hs. rewrite Nat.add_0_r. destruct (Nat.eqb_spec j 0); [lia |].
  destruct (Z.ltb_spec max_u64 (0 * 16 ^ Z.of_nat j + n)); [word |]. f_equal.
Qed.

Lemma code_hex c n : c ∈ hex n -> 0 <= n -> 48 <= code c <= 57 \/ 97 <= code c <= 102.
Proof.
  unfold hex. intros Hc Hn. assert (Hacc : c ∈ @nil ascii -> 48 <= code c <= 57 \/ 97 <= code c <= 102) by (intros []%elem_of_nil).
  revert n Hn Hc Hacc. generalize (@nil ascii) as acc. generalize 20%nat as m.
  induction m as [|m IH]; intros acc n Hn Hc Hacc; [exact (Hacc Hc) |]. cbn [write_digits] in Hc.
  assert (Hd : 48 <= code (digit_char (n mod 16)) <= 57 \/ 97 <= code (digit_char (n mod 16)) <= 102).
  { pose proof (Z.mod_pos_bound n 16 ltac:(lia)). rewrite code_digit_char by lia. destruct (Z.ltb_spec (n mod 16) 10); lia. }
  destruct (_ =? _).
  - apply elem_of_cons in Hc as [->|Hc]; auto.
  - apply (IH _ (n / 16)) in Hc; [exact Hc | apply Z.div_pos; lia |]. intros [->|H]%elem_of_cons; auto.
Qed.

Lemma length_write_digits base fuel n acc : (length (write_digits base fuel n acc) <= fuel + length acc)%nat.
Proof.
  revert n acc. induction fuel as [|fuel IH]; intros n acc; cbn [write_digits]; [lia |].
  destruct (_ =? _); [cbn; lia |]. etransitivity; [apply IH |]. cbn. lia.
Qed.

Lemma digit_range base c d : 0 <= base -> digit base c = Some d -> 0 <= d < base.
Proof.
  intros Hb. unfold digit. assert (0 <= code c) by (unfold code; lia).
  destruct (_ <? base) eqn:E; [| discriminate]. intros [= <-]. apply Z.ltb_lt in E. split; [| exact E].
  repeat case_match; lia.
Qed.

Lemma read_digits_nonneg base s : 0 <= base -> forall v n, 0 <= v -> 0 <= (read_digits base s v n).1.1.
Proof.
  intros Hb. induction s as [|c s IH]; intros v n Hv; cbn [read_digits]; [exact Hv |].
  destruct (digit base c) as [d|] eqn:E; [| exact Hv]. apply IH. apply digit_range in E; nia.
Qed.

Lemma read_base_nonneg s : 0 <= (read_base s).1.
Proof. unfold read_base. repeat case_match; cbn; lia. Qed.

(** [strtoull] returns a 64-bit number. *)
Lemma strtoull_range s : is_u64 (value (strtoull s)).
Proof.
  unfold strtoull. destruct (read_sign _) as [neg s1]. pose proof (read_base_nonneg s1) as Hb.
  destruct (read_base s1) as [base s2]. pose proof (read_digits_nonneg base s2 Hb 0 0 ltac:(lia)) as Hd.
  destruct (read_digits base s2 0 0) as [[v n] e]. cbn in Hd. destruct (Nat.eqb n 0); [cbn; word |].
  destruct (Z.ltb_spec max_u64 v); [cbn; word |]. destruct neg; cbn; [apply is_word_wrap; lia | word].
Qed.
