(* ===== verification/MemSpan.v ===== *)
(** * Address spans, line splitting and flush ranges

    [src/src/quetz_memory_span.h] and [src/src/quetz_balar_flush_range.h]:
    the address arithmetic the memory issuer, the GPU's DMA and the Balar port
    share.  The theorems state it without wrap-around: what the 64-bit
    expressions compute is what unbounded integers would. *)
From S2P Require Import Prelude.

Definition memorySpanValid (address bytes : Z) : bool :=
  (bytes =? 0) || (u64 (bytes - 1) <=? u64 (max_u64 - address)).

Definition memoryChunkSize (address remaining line_size request_limit : Z) : Z :=
  let bytes := Z.min remaining request_limit in
  if line_size =? 0 then bytes else Z.min bytes (line_size - address mod line_size).

(** The caller guarantees a nonzero line size; the result is cut to 32 bits. *)
Definition memorySlots (address bytes line_size : Z) : Z :=
  if bytes =? 0 then 0
  else u32 (1 + u64 (u64 (address mod line_size + bytes) - 1) / line_size).

Record BalarFlushRange := mkFlushRange { first_line : Z; end_ : Z; line_count : Z }.

(** [None]: the function returns false. *)
Definition computeBalarFlushRange (scratch flush_bytes line_size : Z) : option BalarFlushRange :=
  if (line_size =? 0) || (u64 (max_u64 - scratch) <? flush_bytes) then None
  else
    let first := u64 (scratch / line_size * line_size) in
    let last := u64 (scratch + flush_bytes) in
    if flush_bytes =? 0 then Some (mkFlushRange first last 0)
    else
      let span := u64 (last - first) in
      let lines := u64 (span / line_size + (if span mod line_size =? 0 then 0 else 1)) in
      if lines =? 0 then Some (mkFlushRange first last lines)
      else
        let steps := u64 (lines - 1) in
        if u64 (max_u64 - first) / line_size <? steps then None
        else
          let last_line := u64 (first + u64 (steps * line_size)) in
          if line_size <=? u64 (max_u64 - last_line) then Some (mkFlushRange first last lines)
          else None.

(** ** Spans *)

Lemma memorySpanValid_iff address bytes :
  is_u64 address -> is_u64 bytes ->
  memorySpanValid address bytes = true <-> (bytes = 0 \/ address + bytes <= 2 ^ 64).
Proof.
  intros Ha Hb; unfold memorySpanValid.
  destruct (Z.eqb_spec bytes 0); cbn; [tauto |].
  wrap_small. rewrite Z.leb_le. word.
Qed.

(** A chunk makes progress, respects both limits and stays in one line. *)
Lemma memoryChunkSize_bounds a n line limit : 0 <= a -> 0 < n -> 0 < limit -> 0 <= line ->
  0 < memoryChunkSize a n line limit <= n /\ memoryChunkSize a n line limit <= limit /\
  (line <> 0 -> a mod line + memoryChunkSize a n line limit <= line).
Proof.
  intros Ha Hn Hl Hline. unfold memoryChunkSize.
  destruct (Z.eqb_spec line 0) as [->|]; [lia |].
  pose proof (Z.mod_pos_bound a line). lia.
Qed.

(** ** Splitting a span into chunks *)

(** The requests that cover [n] bytes from [a]: address and size of each. *)
Fixpoint span_chunks (fuel : nat) (a n line limit : Z) : list (Z * Z) :=
  match fuel with
  | O => []
  | S fuel =>
      if n <=? 0 then []
      else let k := memoryChunkSize a n line limit in (a, k) :: span_chunks fuel (a + k) (n - k) line limit
  end.

Definition chunk_bytes (l : list (Z * Z)) : Z := foldr (fun c acc => c.2 + acc) 0 l.

(** The chunks follow each other without gap, each positive, within the limit
    and inside one line, and together they are the span. *)
Fixpoint tiles (a n line limit : Z) (l : list (Z * Z)) : Prop :=
  match l with
  | [] => n = 0
  | (x, k) :: l => x = a /\ 0 < k <= limit /\ (line <> 0 -> a mod line + k <= line) /\
      tiles (a + k) (n - k) line limit l
  end.

Lemma span_chunks_tile a n line limit : 0 <= a -> 0 <= n -> 0 < limit -> 0 <= line ->
  tiles a n line limit (span_chunks (Z.to_nat n) a n line limit).
Proof.
  intros Ha Hn Hl Hline.
  assert (H : forall fuel a n, 0 <= a -> 0 <= n <= Z.of_nat fuel ->
    tiles a n line limit (span_chunks fuel a n line limit)).
  { clear a n Ha Hn. induction fuel as [|fuel IH]; intros a n Ha Hn; cbn [span_chunks tiles]; [lia |].
    destruct (Z.leb_spec n 0); cbn [tiles]; [lia |].
    pose proof (memoryChunkSize_bounds a n line limit Ha ltac:(lia) Hl Hline) as (? & ? & ?).
    split; [reflexivity | split; [lia | split; [assumption |]]]. apply IH; lia. }
  apply H; lia.
Qed.

(** ** Lines touched *)

(** [memorySlots] is the number of lines an access meets, computed without
    leaving 64 bits. *)
Lemma memorySlots_spec address bytes line_size :
  is_u64 address -> is_u32 bytes -> 0 < line_size <= 2 ^ 63 ->
  memorySlots address bytes line_size =
  if bytes =? 0 then 0 else (address + bytes - 1) / line_size - address / line_size + 1.
Proof.
  intros Ha Hb Hl. unfold memorySlots. destruct (Z.eqb_spec bytes 0); [reflexivity |].
  pose proof (Z.mod_pos_bound address line_size ltac:(lia)). pose proof (Z.div_mod address line_size ltac:(lia)).
  rewrite (wrap_small 64 (address mod line_size + bytes)) by word.
  rewrite (wrap_small 64 (_ - 1)) by word.
  replace (address + bytes - 1) with (address mod line_size + bytes - 1 + address / line_size * line_size) by lia.
  rewrite Z.div_add by lia.
  assert (0 <= (address mod line_size + bytes - 1) / line_size <= bytes - 1).
  { split; [apply Z.div_pos; word |].
    assert (1 * (bytes - 1) <= line_size * (bytes - 1)) by (apply Z.mul_le_mono_nonneg_r; word).
    assert (address mod line_size + bytes - 1 <= line_size * (bytes - 1) + (line_size - 1)) by word.
    apply Z.le_trans with ((line_size * (bytes - 1) + (line_size - 1)) / line_size);
      [apply Z.div_le_mono; lia |].
    rewrite Z.mul_comm, Z.div_add_l, Z.div_small by lia. lia. }
  rewrite wrap_small by word. lia.
Qed.

(** ** Flush ranges *)

Lemma computeBalarFlushRange_eq s n line : is_u64 s -> is_u64 n -> is_u64 line ->
  computeBalarFlushRange s n line =
  if decide (0 < line /\ s + n < 2 ^ 64 /\ (n = 0 \/ ((s + n - 1) / line + 1) * line < 2 ^ 64)) then
    Some (mkFlushRange (s / line * line) (s + n)
            (if n =? 0 then 0 else (s + n - 1) / line - s / line + 1))
  else None.
Proof.
  intros Hs Hn Hl. unfold computeBalarFlushRange.
  destruct (Z.eqb_spec line 0) as [->|Hl0].
  { rewrite decide_False by lia. reflexivity. }
  cbn [orb]. rewrite (wrap_small 64 (max_u64 - s)) by word.
  destruct (Z.ltb_spec (max_u64 - s) n).
  { rewrite decide_False by word. reflexivity. }
  assert (Hlp : 0 < line) by word.
  pose proof (Z.div_mod s line Hl0) as Ds. pose proof (Z.mod_pos_bound s line Hlp) as Ms.
  assert (0 <= s / line) by (apply Z.div_pos; word).
  set (q := s / line) in *. set (r := s mod line) in *.
  rewrite (wrap_small 64 (q * line)) by word. rewrite (wrap_small 64 (s + n)) by word.
  destruct (Z.eqb_spec n 0) as [->|Hn0].
  { rewrite decide_True by word. reflexivity. }
  rewrite (wrap_small 64 (s + n - q * line)) by word.
  set (e := (s + n - 1) / line).
  assert (He : line * e <= s + n - 1 < line * e + line).
  { pose proof (Z.div_mod (s + n - 1) line Hl0). pose proof (Z.mod_pos_bound (s + n - 1) line Hlp).
    unfold e. lia. }
  assert (Hqe : q <= e) by (unfold q, e; apply Z.div_le_mono; word).
  assert (Hspan : (s + n - q * line) / line + (if (s + n - q * line) mod line =? 0 then 0 else 1) = e - q + 1).
  { pose proof (Z.div_mod (s + n - q * line) line Hl0) as Dd.
    pose proof (Z.mod_pos_bound (s + n - q * line) line Hlp) as Md.
    set (d := (s + n - q * line) / line) in *. set (m := (s + n - q * line) mod line) in *.
    destruct (Z.eqb_spec m 0); nia. }
  rewrite Hspan.
  assert (Hk : e - q + 1 <= 2 ^ 64 - 1) by (unfold is_word in *; nia).
  rewrite (wrap_small 64 (e - q + 1)) by word.
  destruct (Z.eqb_spec (e - q + 1) 0); [lia |].
  rewrite (wrap_small 64 (e - q + 1 - 1)) by word. rewrite (wrap_small 64 (max_u64 - q * line)) by word.
  replace (e - q + 1 - 1) with (e - q) by lia.
  assert (e * line < 2 ^ 64) by (unfold is_word, max_u64 in *; nia).
  destruct (Z.ltb_spec ((max_u64 - q * line) / line) (e - q)) as [Hlt|Hge].
  { exfalso. assert (e - q <= (max_u64 - q * line) / line); [| lia].
    apply Z.div_le_lower_bound; [lia |]. unfold max_u64. nia. }
  rewrite (wrap_small 64 ((e - q) * line)) by (unfold is_word; nia).
  replace (q * line + (e - q) * line) with (e * line) by lia.
  rewrite (wrap_small 64 (e * line)) by (unfold is_word; nia).
  rewrite (wrap_small 64 (max_u64 - e * line)) by (unfold is_word, max_u64; nia).
  destruct (Z.leb_spec line (max_u64 - e * line)).
  - rewrite decide_True by (unfold max_u64, is_word in *; split; [lia | split; [lia | right; nia]]).
    reflexivity.
  - rewrite decide_False; [reflexivity |]. unfold max_u64, is_word in *. intros (_ & _ & [?|?]); [lia | nia].
Qed.

(** The flush covers exactly the lines that meet the scratch bytes, and is
    refused exactly when the last of them does not fit below [2^64]. *)
Lemma computeBalarFlushRange_spec s n line : is_u64 s -> is_u64 n -> is_u64 line ->
  computeBalarFlushRange s n line =
  if decide (0 < line /\ s + n < 2 ^ 64 /\ (n = 0 \/ ((s + n - 1) / line + 1) * line < 2 ^ 64)) then
    Some (mkFlushRange (s / line * line) (s + n)
            (if n =? 0 then 0 else (s + n - 1) / line - s / line + 1))
  else None.
Proof. apply computeBalarFlushRange_eq. Qed.

(** ** The theorems at concrete inputs *)

Lemma memorySlots_spec_witness : memorySlots 0x103f 2 64 = 2.
Proof. rewrite (memorySlots_spec 0x103f 2 64); [reflexivity | word | word | lia]. Defined.

Lemma computeBalarFlushRange_spec_witness :
  computeBalarFlushRange 0x1010 0x40 64 = Some (mkFlushRange 0x1000 0x1050 2).
Proof. rewrite (computeBalarFlushRange_spec 0x1010 0x40 64); [reflexivity | word | word | word]. Defined.
