(* ===== verification/WindowCache.v ===== *)
(** * The ColdFire window data cache

    [src/src/quetz_window_cache.h], class [WindowDataCache]: a four-way,
    512-set, 16-byte-line cache driven as a state machine.  A transaction is
    started by [access_], [push] or [movec]; [next] yields the backing-memory
    actions it needs one at a time and [complete] answers them. *)
From S2P Require Import Prelude.

(** ** Geometry and control bits *)

Definition LineBytes : Z := 16.
Definition Sets : Z := 512.
Definition Ways : Z := 4.
Definition CapacityBytes : Z := Sets * Ways * LineBytes.
Definition DEC : Z := 0x80000000.
Definition DDPI : Z := 0x10000000.
Definition DHLCK : Z := 0x08000000.
Definition DCINVA : Z := 0x01000000.
Definition NoSlot : Z := Sets * Ways.

(** ** Data *)

Inductive Kind : Set := Done | Read | Write.

Record Action := mkAction
  { act_kind : Kind; act_address : Z; act_size : Z; act_bytes : list Z }.

Record Region := mkRegion { base : Z; size : Z }.

Record Line := mkLine
  { l_bytes : list Z; l_address : Z; l_valid : bool; l_dirty : bool }.

(** A default-constructed line: zero bytes, invalid and clean. *)
Definition Line0 : Line := mkLine (replicate 16 0) 0 false false.
#[export] Instance Line_inhabited : Inhabited Line := populate Line0.
#[export] Instance Line_settable : Settable Line := fun l =>
  mkLine (l_bytes l) (l_address l) (l_valid l) (l_dirty l).

Inductive Pending : Set :=
  | None_ | Fill | BypassRead | BypassWrite | WriteThrough | Push | Evict.

Record WindowDataCache := mkCache
  { regions : list Region;
    cacr : Z;
    acr : list Z;
    lines : list Line;
    replacement : Z;
    pending_slot : Z;
    dirty_discards : Z;
    active : bool;
    pushing : bool;
    invalidate_push : bool;
    write : bool;
    pending : Pending;
    address : Z;
    pending_address : Z;
    count : Z;
    offset : Z;
    pending_size : Z;
    bytes : list Z }.

#[export] Instance Cache_settable : Settable WindowDataCache := fun c =>
  mkCache (regions c) (cacr c) (acr c) (lines c) (replacement c) (pending_slot c)
    (dirty_discards c) (active c) (pushing c) (invalidate_push c) (write c) (pending c)
    (address c) (pending_address c) (count c) (offset c) (pending_size c) (bytes c).

#[export] Instance Pending_eq_dec : EqDecision Pending.
Proof. solve_decision. Defined.
#[export] Instance Kind_eq_dec : EqDecision Kind.
Proof. solve_decision. Defined.

(** The initial state of the class's members. *)
Definition cache0 : WindowDataCache :=
  mkCache [] 0 [0; 0; 0; 0] (replicate (Z.to_nat (Sets * Ways)) Line0) 0 0 0
    false false false false None_ 0 0 0 0 0 [].

(** Indexing of [lines_]. *)
Definition line (c : WindowDataCache) (slot : Z) : Line := lines c !!! Z.to_nat slot.
Definition set_line (slot : Z) (l : Line) (c : WindowDataCache) : WindowDataCache :=
  c <| lines ::= <[Z.to_nat slot := l]> |>.

(** ** Regions *)

Definition in_region (address : Z) (r : Region) : bool :=
  (base r <=? address) && (u64 (address - base r) <? size r).

Fixpoint find_region (address : Z) (rs : list Region) : option Region :=
  match rs with
  | [] => None
  | r :: rs => if in_region address r then Some r else find_region address rs
  end.

Definition regionFor (c : WindowDataCache) (address : Z) : option Region :=
  find_region address (regions c).

Definition contains (c : WindowDataCache) (address : Z) : bool :=
  match regionFor c address with Some _ => true | None => false end.

Definition bad_region (base0 size0 : Z) : bool :=
  (size0 =? 0) || (1024 * 1024 <? size0) || (max_u32 <? base0) ||
  (u64 (max_u32 - base0) <? u64 (size0 - 1)) ||
  negb (base0 mod LineBytes =? 0) || negb (size0 mod LineBytes =? 0).

Definition regions_overlap (base0 size0 : Z) (r : Region) : bool :=
  (base0 <? u64 (base r + size r)) && (base r <? u64 (base0 + size0)).

Definition addRegion (base0 size0 : Z) (c : WindowDataCache) : result WindowDataCache :=
  throw_if (active c) LogicError "region change during a window cache transaction" ≫= fun _ =>
  throw_if (bad_region base0 size0) InvalidArgument
    "window cache requires an aligned 16-byte to 1-MiB 32-bit window" ≫= fun _ =>
  throw_if (existsb (regions_overlap base0 size0) (regions c)) InvalidArgument
    "overlapping window cache regions" ≫= fun _ =>
  Ok (c <| regions ::= fun rs => rs ++ [mkRegion base0 size0] |>).

Definition configure (base0 size0 : Z) (c : WindowDataCache) : result WindowDataCache :=
  throw_if (active c || negb (bool_decide (regions c = []))) LogicError
    "window cache geometry cannot be changed after configuration" ≫= fun _ =>
  addRegion base0 size0 c.

Definition reset (c : WindowDataCache) : result WindowDataCache :=
  throw_if (active c) LogicError "reset during a window cache transaction" ≫= fun _ =>
  Ok (c <| cacr := 0 |> <| acr := [0; 0; 0; 0] |>).

(** ** Lookup, replacement and access mode *)

Definition setIndex (address : Z) : Z := Z.land (u32 (address / LineBytes)) (Sets - 1).

(** Is there a valid line for [line_address] in slot [s]? *)
Definition hit (c : WindowDataCache) (line_address s : Z) : bool :=
  l_valid (line c s) && (l_address (line c s) =? line_address).

(** [for (slot = first; slot < first + n; ++slot) if (p(slot)) return slot;] *)
Fixpoint first_slot (p : Z -> bool) (n : nat) (slot : Z) : option Z :=
  match n with
  | O => None
  | S n => if p slot then Some slot else first_slot p n (slot + 1)
  end.

Definition find (c : WindowDataCache) (line_address : Z) : Z :=
  default NoSlot
    (first_slot (hit c line_address) (Z.to_nat Ways) (setIndex line_address * Ways)).

Definition victim (c : WindowDataCache) (set : Z) : Z :=
  let first_way := if Z.land (cacr c) DHLCK =? 0 then 0 else 2 in
  match first_slot (fun s => negb (l_valid (line c s)))
          (Z.to_nat (Ways - first_way)) (set * Ways + first_way) with
  | Some s => s
  | None =>
      let way := if first_way =? 0 then replacement c
                 else 2 + Z.shiftr (replacement c) 1 in
      set * Ways + way
  end.

(** Does data ACR [a] match [address]?  [None]: the register is disabled. *)
Definition acr_match (a address : Z) : bool :=
  let sm := Z.land (Z.shiftr a 13) 3 in
  if (Z.land a 0x8000 =? 0) || (sm =? 0) then false
  else if negb (Z.land a 0x400 =? 0) then
    (Z.shiftr address 24 =? Z.shiftr a 24) &&
    (Z.land (Z.land (Z.lxor (Z.shiftr address 20) (Z.shiftr a 20))
       (not32 (Z.shiftr a 16))) 15 =? 0)
  else
    let mask := Z.land (Z.shiftr a 16) 0xff in
    Z.land (Z.land (Z.lxor (Z.shiftr address 24) (Z.shiftr a 24)) (not32 mask)) 0xff =? 0.

Fixpoint acr_mode (acrs : list Z) (address : Z) : option Z :=
  match acrs with
  | [] => None
  | a :: acrs =>
      if acr_match a address then Some (Z.land (Z.shiftr a 5) 3) else acr_mode acrs address
  end.

(** 0: write-through; 1: copyback; 2 and 3: cache-inhibited. *)
Definition mode (c : WindowDataCache) (address : Z) : Z :=
  if Z.land (cacr c) DEC =? 0 then 2
  else match acr_mode (take 2 (acr c)) address with
       | Some m => m
       | None => Z.land (Z.shiftr (cacr c) 25) 3
       end.

(** ** Transactions *)

Definition start (c : WindowDataCache) : result WindowDataCache :=
  throw_if (active c) LogicError "overlapping window cache transactions" ≫= fun _ =>
  Ok (c <| active := true |> <| pending := None_ |> <| pushing := false |>
        <| count := 0 |> <| offset := 0 |> <| bytes := [] |> <| write := false |>).

Definition bad_access (c : WindowDataCache) (address0 size0 : Z) (write0 : bool)
    (bytes0 : list Z) : bool :=
  (size0 =? 0) || (8 <? size0) ||
  match regionFor c address0 with
  | None => true
  | Some r => u64 (size r - (address0 - base r)) <? size0
  end || (write0 && negb (Z.of_nat (length bytes0) =? size0)).

Definition access_ (address0 size0 : Z) (write0 : bool) (bytes0 : list Z)
    (c : WindowDataCache) : result WindowDataCache :=
  throw_if (bad_access c address0 size0 write0 bytes0) InvalidArgument
    "invalid window cache access" ≫= fun _ =>
  start c ≫= fun c =>
  Ok (c <| address := address0 |> <| count := size0 |> <| offset := 0 |>
        <| write := write0 |>
        <| bytes := if write0 then bytes0 else replicate (Z.to_nat size0) 0 |>).

(** Invalidation of every line; dirty lines are dropped, and counted. *)
Definition invalidate_line (l : Line) : Line := l <| l_valid := false |> <| l_dirty := false |>.
Definition count_dirty (ls : list Line) : Z :=
  Z.of_nat (length (filter (fun l => l_valid l && l_dirty l = true) ls)).

Definition movec (reg value : Z) (c : WindowDataCache) : result WindowDataCache :=
  throw_if (negb (reg =? 2) && negb ((4 <=? reg) && (reg <=? 7))) InvalidArgument
    "unsupported ColdFire cache control register" ≫= fun _ =>
  throw_if ((reg =? 2) && negb (Z.land value 0x60000000 =? 0)) InvalidArgument
    "unsupported CACR write-protection/store-buffer controls" ≫= fun _ =>
  throw_if (((reg =? 4) || (reg =? 5)) && negb (Z.land value 4 =? 0)) InvalidArgument
    "unsupported data ACR write protection" ≫= fun _ =>
  start c ≫= fun c =>
  if reg =? 2 then
    let c := if Z.land value DCINVA =? 0 then c
             else c <| dirty_discards ::= fun n => u64 (n + count_dirty (lines c)) |>
                    <| lines ::= map invalidate_line |> in
    Ok (c <| cacr := Z.land value (not32 (Z.lor DCINVA 0x00040100)) |>)
  else Ok (c <| acr ::= <[Z.to_nat (reg - 4) := value]> |>).

Definition push (instruction operand : Z) (c : WindowDataCache) : result WindowDataCache :=
  throw_if (negb (Z.land instruction 0xff38 =? 0xf428) || (Z.land instruction 0xc0 =? 0))
    InvalidArgument "invalid ColdFire CPUSHL instruction" ≫= fun _ =>
  start c ≫= fun c =>
  if Z.land instruction 0x40 =? 0 then Ok c
  else Ok (c <| pushing := true |>
             <| invalidate_push := Z.land (cacr c) DDPI =? 0 |>
             <| pending_slot := setIndex operand * Ways + Z.land operand (Ways - 1) |>).

(** One pass of the loop of [next]: an action to perform, or the state in
    which the loop goes on. *)
Definition next_body (c : WindowDataCache) : option Action * WindowDataCache :=
  let addr := u64 (address c + offset c) in
  let line_address := Z.land addr (Z.lxor (LineBytes - 1) max_u64) in
  let in_line := u32 (addr - line_address) in
  let n := Z.min (count c - offset c) (LineBytes - in_line) in
  let c := c <| pending_size := n |> <| pending_address := line_address |> in
  let cache_mode := mode c addr in
  let slot := find c line_address in
  let chunk := slice (bytes c) (Z.to_nat (offset c)) (Z.to_nat n) in
  if (2 <=? cache_mode) || (write c && (cache_mode =? 0) && (slot =? NoSlot)) then
    (Some (mkAction (if write c then Write else Read) addr n
             (if write c then chunk else [])),
     c <| pending := if write c then BypassWrite else BypassRead |>)
  else if slot =? NoSlot then
    let v := victim c (setIndex line_address) in
    let c := c <| pending_slot := v |> in
    let old := line c v in
    if l_valid old && l_dirty old then
      (Some (mkAction Write (l_address old) LineBytes (l_bytes old)), c <| pending := Evict |>)
    else (Some (mkAction Read line_address LineBytes []), c <| pending := Fill |>)
  else
    let l := line c slot in
    if write c then
      let l := l <| l_bytes := splice (l_bytes l) (Z.to_nat in_line) chunk |> in
      if cache_mode =? 0 then
        (Some (mkAction Write addr n chunk),
         set_line slot l c <| pending := WriteThrough |> <| pending_slot := slot |>)
      else (None, set_line slot (l <| l_dirty := true |>) c
                    <| offset ::= fun o => u32 (o + n) |>)
    else
      (None, c <| bytes ::= fun bs => splice bs (Z.to_nat (offset c))
                    (slice (l_bytes l) (Z.to_nat in_line) (Z.to_nat n)) |>
               <| offset ::= fun o => u32 (o + n) |>).

(** [while (offset_ < count_)], then the end of the transaction. *)
Definition finish (c : WindowDataCache) : Action * WindowDataCache :=
  (mkAction Done 0 0 (if write c then [] else bytes c), c <| active := false |>).

Fixpoint next_loop (fuel : nat) (c : WindowDataCache) : result (Action * WindowDataCache) :=
  match fuel with
  | O => Throw OutOfFuel "next"
  | S fuel =>
      if offset c <? count c then
        match next_body c with
        | (Some a, c) => Ok (a, c)
        | (None, c) => next_loop fuel c
        end
      else Ok (finish c)
  end.

(** Every pass consumes at least one of the [count_] bytes. *)
Definition next_fuel (c : WindowDataCache) : nat := S (Z.to_nat (count c)).

Definition next (c : WindowDataCache) : result (Action * WindowDataCache) :=
  throw_if (negb (active c) || negb (bool_decide (pending c = None_))) LogicError
    "window cache transaction ordering error" ≫= fun _ =>
  if pushing c then
    let l := line c (pending_slot c) in
    if l_valid l && l_dirty l then
      Ok (mkAction Write (l_address l) LineBytes (l_bytes l), c <| pending := Push |>)
    else
      let c := if invalidate_push c
               then set_line (pending_slot c) (l <| l_valid := false |>) c else c in
      Ok (finish (c <| pushing := false |>))
  else next_loop (next_fuel c) c.

Definition complete (data : list Z) (c : WindowDataCache) : result WindowDataCache :=
  throw_if (negb (active c) || bool_decide (pending c = None_)) LogicError
    "unexpected window cache memory response" ≫= fun _ =>
  match pending c with
  | Fill =>
      throw_if (negb (Z.of_nat (length data) =? LineBytes)) RuntimeError
        "short window cache line fill" ≫= fun _ =>
      Ok (set_line (pending_slot c) (mkLine data (pending_address c) true false) c
            <| replacement ::= fun r => Z.land (u32 (r + 1)) (Ways - 1) |>)
  | BypassRead =>
      throw_if (negb (Z.of_nat (length data) =? pending_size c)) RuntimeError
        "short window cache read" ≫= fun _ =>
      Ok (c <| bytes ::= fun bs => splice bs (Z.to_nat (offset c)) data |>
            <| offset ::= fun o => u32 (o + pending_size c) |>)
  | Push =>
      let l := (line c (pending_slot c)) <| l_dirty := false |> in
      let l := if invalidate_push c then l <| l_valid := false |> else l in
      Ok (set_line (pending_slot c) l c <| pushing := false |>)
  | Evict => Ok (set_line (pending_slot c) (invalidate_line (line c (pending_slot c))) c)
  | WriteThrough =>
      Ok (set_line (pending_slot c) ((line c (pending_slot c)) <| l_dirty := false |>) c
            <| offset ::= fun o => u32 (o + pending_size c) |>)
  | BypassWrite | None_ => Ok (c <| offset ::= fun o => u32 (o + pending_size c) |>)
  end ≫= fun c =>
  Ok (c <| pending := None_ |>).

(** ** Address arithmetic *)

Lemma line_mask addr : is_u64 addr ->
  Z.land addr (Z.lxor (LineBytes - 1) max_u64) = addr - addr mod 16.
Proof.
  intros Ha. change (Z.lxor (LineBytes - 1) max_u64) with (Z.ldiff max_u64 (Z.ones 4)).
  replace (Z.land addr (Z.ldiff max_u64 (Z.ones 4))) with (Z.ldiff addr (Z.ones 4)).
  - rewrite Z.ldiff_ones_r, Z.shiftl_mul_pow2, Z.shiftr_div_pow2 by lia.
    change (2 ^ 4) with 16. dlia.
  - apply Z.bits_inj'; intros i Hi.
    rewrite Z.land_spec, !Z.ldiff_spec. change max_u64 with (Z.ones 64).
    destruct (Z.lt_ge_cases i 64).
    + rewrite (Z.ones_spec_low 64 i) by lia. destruct (Z.testbit addr i); reflexivity.
    + rewrite <- (Z.mod_small addr (2 ^ 64)) by exact Ha.
      rewrite Z.mod_pow2_bits_high by lia. reflexivity.
Qed.

Lemma setIndex_mod a : setIndex a = (a / 16) mod 512.
Proof.
  unfold setIndex, wrap. change (Sets - 1) with (Z.ones 9). change LineBytes with 16.
  rewrite Z.land_ones by lia. change (2 ^ 9) with 512.
  change (2 ^ 32) with (512 * 8388608). rewrite Z.rem_mul_r by lia.
  rewrite Z.mul_comm, Z_mod_plus_full. apply Zmod_mod.
Qed.

Lemma setIndex_range a : 0 <= setIndex a < 512.
Proof. rewrite setIndex_mod. apply Z.mod_pos_bound; lia. Qed.

Lemma land_ways x : Z.land x (Ways - 1) = x mod 4.
Proof. change (Ways - 1) with (Z.ones 2). apply Z.land_ones; lia. Qed.

(** The mode is decided at a granularity far above a line. *)
Lemma mode_line c a a' : a / 16 = a' / 16 -> mode c a = mode c a'.
Proof.
  intros H.
  assert (Hs : forall k, 4 <= k -> Z.shiftr a k = Z.shiftr a' k).
  { intros k Hk. replace k with (4 + (k - 4)) by lia. rewrite <- !Z.shiftr_shiftr by lia.
    rewrite !(Z.shiftr_div_pow2 _ 4) by lia. change (2 ^ 4) with 16. rewrite H. reflexivity. }
  unfold mode. replace (acr_mode (take 2 (acr c)) a) with (acr_mode (take 2 (acr c)) a');
    [reflexivity |].
  induction (take 2 (acr c)) as [|r rs IH]; cbn; [reflexivity |].
  unfold acr_match. rewrite !(Hs 24), !(Hs 20) by lia. rewrite IH. reflexivity.
Qed.

(** ** Well-formed caches *)

Definition is_slot (s : Z) : Prop := 0 <= s < NoSlot.

(** Slot [s] holds a valid line covering address [x]. *)
Definition owner (c : WindowDataCache) (s x : Z) : Prop :=
  is_slot s /\ l_valid (line c s) = true /\ l_address (line c s) = x - x mod 16.

Record wf (c : WindowDataCache) : Prop :=
  { wf_len : length (lines c) = Z.to_nat NoSlot;
    wf_acr : length (acr c) = 4%nat;
    wf_bytes : forall s, is_slot s -> length (l_bytes (line c s)) = 16%nat;
    wf_aligned : forall s, is_slot s -> l_valid (line c s) = true ->
      is_u32 (l_address (line c s)) /\ l_address (line c s) mod 16 = 0;
    wf_place : forall s, is_slot s -> l_valid (line c s) = true ->
      setIndex (l_address (line c s)) = s / 4;
    wf_unique : forall s s' x, owner c s x -> owner c s' x -> s = s';
    wf_repl : 0 <= replacement c < 4 }.

Lemma line_set_line c s l s' : length (lines c) = Z.to_nat NoSlot -> is_slot s -> 0 <= s' ->
  line (set_line s l c) s' = if decide (s = s') then l else line c s'.
Proof.
  unfold is_slot, line, set_line. intros Hl Hs Hs'. cbn. case_decide as E.
  - subst. apply list_lookup_total_insert_eq. lia.
  - apply list_lookup_total_insert_ne. lia.
Qed.

Lemma first_slot_spec p n slot :
  match first_slot p n slot with
  | Some s => slot <= s < slot + Z.of_nat n /\ p s = true /\ (forall t, slot <= t < s -> p t = false)
  | None => forall t, slot <= t < slot + Z.of_nat n -> p t = false
  end.
Proof.
  revert slot; induction n as [|n IH]; intros slot; cbn; [lia |].
  destruct (p slot) eqn:E.
  - repeat split; [lia | lia | assumption | intros; lia].
  - specialize (IH (slot + 1)). destruct (first_slot p n (slot + 1)).
    + destruct IH as (? & ? & H3). repeat split; [lia | lia | assumption |].
      intros t Ht. destruct (Z.eq_dec t slot); [subst; assumption | apply H3; lia].
    + intros t Ht. destruct (Z.eq_dec t slot); [subst; assumption | apply IH; lia].
Qed.

Lemma hit_owner c x s : is_slot s -> hit c (x - x mod 16) s = true <-> owner c s x.
Proof. intros. unfold hit, owner. rewrite andb_true_iff, Z.eqb_eq. tauto. Qed.

Lemma find_range c la : is_slot (find c la) \/ find c la = NoSlot.
Proof.
  unfold find. pose proof (setIndex_range la).
  pose proof (first_slot_spec (hit c la) (Z.to_nat Ways) (setIndex la * Ways)) as H1.
  destruct (first_slot _ _ _); cbn; [left | right; reflexivity].
  unfold is_slot, NoSlot, Sets, Ways in *. lia.
Qed.

(** [find] returns the slot that owns the line, and [NoSlot] if there is none. *)
Lemma find_spec c x : wf c ->
  (find c (x - x mod 16) <> NoSlot /\ owner c (find c (x - x mod 16)) x) \/
  (find c (x - x mod 16) = NoSlot /\ forall s, ~ owner c s x).
Proof.
  intros W. pose proof (setIndex_range (x - x mod 16)) as Hr. unfold find.
  pose proof (first_slot_spec (hit c (x - x mod 16)) (Z.to_nat Ways)
    (setIndex (x - x mod 16) * Ways)) as H1.
  change (Z.of_nat (Z.to_nat Ways)) with 4 in H1. change Ways with 4 in *.
  destruct (first_slot _ _ _) as [s|]; cbn.
  - left. destruct H1 as (Hs & Hh & _).
    assert (is_slot s) by (unfold is_slot, NoSlot, Sets, Ways; lia).
    split; [unfold is_slot in *; lia | apply hit_owner; assumption].
  - right. split; [reflexivity |]. intros s Ho.
    pose proof Ho as (Hs & Hv & Ha).
    pose proof (wf_place c W s Hs Hv) as Hp. rewrite Ha in Hp.
    enough (hit c (x - x mod 16) s = false) by (apply hit_owner in Ho; congruence).
    apply H1. dlia.
Qed.

Lemma find_owner c s x : wf c -> owner c s x -> find c (x - x mod 16) = s.
Proof.
  intros W Ho. destruct (find_spec c x W) as [[_ H]|[_ H]].
  - eapply wf_unique; eauto.
  - destruct (H s Ho).
Qed.

(** The victim of a set is one of its slots, and outside the locked half. *)
Lemma victim_range c set : 0 <= replacement c < 4 -> 0 <= set < 512 ->
  set * 4 + (if Z.land (cacr c) DHLCK =? 0 then 0 else 2) <= victim c set < set * 4 + 4.
Proof.
  intros HR Hs. unfold victim. change Ways with 4.
  destruct (Z.land (cacr c) DHLCK =? 0).
  - pose proof (first_slot_spec (fun s => negb (l_valid (line c s))) (Z.to_nat 4) (set * 4 + 0)) as H1.
    change (4 - 0) with 4. destruct (first_slot _ _ _); [lia | cbn [Z.eqb]; lia].
  - pose proof (first_slot_spec (fun s => negb (l_valid (line c s))) (Z.to_nat 2) (set * 4 + 2)) as H1.
    change (4 - 2) with 2. destruct (first_slot _ _ _); [lia |].
    cbn [Z.eqb]. rewrite Z.shiftr_div_pow2 by lia. change (2 ^ 1) with 2. dlia.
Qed.

(** If the victim is valid, so are all ways the replacement may use. *)
Lemma victim_valid c set : l_valid (line c (victim c set)) = true ->
  forall s, set * 4 + (if Z.land (cacr c) DHLCK =? 0 then 0 else 2) <= s < set * 4 + 4 ->
  l_valid (line c s) = true.
Proof.
  intros Hv s. unfold victim in Hv. change Ways with 4 in *.
  destruct (Z.land (cacr c) DHLCK =? 0); cbn [Z.eqb] in *.
  - pose proof (first_slot_spec (fun s => negb (l_valid (line c s))) (Z.to_nat (4 - 0)) (set * 4 + 0)) as H1.
    destruct (first_slot _ _ _).
    + destruct H1 as (_ & H1 & _). rewrite Hv in H1. discriminate.
    + intros Hs. specialize (H1 s ltac:(lia)). apply negb_false_iff in H1. exact H1.
  - pose proof (first_slot_spec (fun s => negb (l_valid (line c s))) (Z.to_nat (4 - 2)) (set * 4 + 2)) as H1.
    destruct (first_slot _ _ _).
    + destruct H1 as (_ & H1 & _). rewrite Hv in H1. discriminate.
    + intros Hs. specialize (H1 s ltac:(lia)). apply negb_false_iff in H1. exact H1.
Qed.

(** ** Well-formedness is preserved *)

Lemma wf_frame c c' : wf c -> lines c' = lines c -> length (acr c') = 4%nat ->
  0 <= replacement c' < 4 -> wf c'.
Proof.
  intros W Hl Ha Hr.
  assert (Hline : forall s, line c' s = line c s) by (intros; unfold line; rewrite Hl; reflexivity).
  assert (Hown : forall s x, owner c' s x <-> owner c s x)
    by (intros; unfold owner; rewrite Hline; tauto).
  constructor; try assumption; intros *; rewrite ?Hline, ?Hown.
  - rewrite Hl; apply wf_len; assumption.
  - apply wf_bytes; assumption.
  - apply wf_aligned; assumption.
  - apply wf_place; assumption.
  - apply wf_unique; assumption.
Qed.

(** Line [l] may be stored in slot [s]. *)
Definition fits (c : WindowDataCache) (s : Z) (l : Line) : Prop :=
  is_slot s /\ length (l_bytes l) = 16%nat /\
  (l_valid l = true ->
    (is_u32 (l_address l) /\ l_address l mod 16 = 0) /\ setIndex (l_address l) = s / 4 /\
    forall s', is_slot s' -> l_valid (line c s') = true ->
      l_address (line c s') = l_address l -> s' = s).

Lemma owner_set_line c s l s' x : wf c -> is_slot s ->
  owner (set_line s l c) s' x <->
  (s' = s /\ l_valid l = true /\ l_address l = x - x mod 16) \/ (s' <> s /\ owner c s' x).
Proof.
  intros W Hs. unfold owner. split.
  - intros (Hs' & Hv & Ha). rewrite line_set_line in Hv, Ha by (apply wf_len || assumption || apply Hs'; assumption).
    case_decide; [left | right]; subst; auto.
  - intros [(-> & Hv & Ha)|(Hne & Hs' & Hv & Ha)].
    + rewrite line_set_line by (apply wf_len || assumption || apply Hs; assumption).
      rewrite decide_True by reflexivity. auto.
    + rewrite line_set_line by (apply wf_len || assumption || apply Hs'; assumption).
      rewrite decide_False by congruence. auto.
Qed.

Lemma wf_set_line c s l : wf c -> fits c s l -> wf (set_line s l c).
Proof.
  intros W (Hs & Hb & Hv).
  assert (Hset : forall s', is_slot s' -> line (set_line s l c) s' = if decide (s = s') then l else line c s').
  { intros s' [? ?]. apply line_set_line; [apply wf_len | | lia]; assumption. }
  constructor.
  - cbn. rewrite length_insert. apply wf_len; assumption.
  - apply W.
  - intros s' Hs'. rewrite Hset by assumption. case_decide; [assumption | apply wf_bytes; assumption].
  - intros s' Hs'. rewrite Hset by assumption. case_decide; [apply Hv | apply wf_aligned; assumption].
  - intros s' Hs'. rewrite Hset by assumption. case_decide; [subst; apply Hv | apply wf_place; assumption].
  - intros s1 s2 x H1 H2. apply owner_set_line in H1, H2; try assumption.
    destruct H1 as [(-> & Hv1 & Ha1)|(Hn1 & O1)], H2 as [(-> & Hv2 & Ha2)|(Hn2 & O2)].
    + reflexivity.
    + destruct O2 as (? & ? & ?). symmetry. apply Hv; congruence.
    + destruct O1 as (? & ? & ?). apply Hv; congruence.
    + eapply wf_unique; eauto.
  - apply W.
Qed.

(** A line with the address and validity of the old one fits in its slot. *)
Lemma fits_same c s l : wf c -> is_slot s -> length (l_bytes l) = 16%nat ->
  (l_valid l = true -> l_valid (line c s) = true) -> l_address l = l_address (line c s) ->
  fits c s l.
Proof.
  intros W Hs Hb Hv Ha. split; [assumption | split; [assumption |]]. intros Hl.
  specialize (Hv Hl). rewrite Ha. split; [| split].
  - apply wf_aligned; assumption.
  - apply wf_place; assumption.
  - intros s' Hs' Hv' Ha'. pose proof (wf_aligned c W s Hs Hv) as [_ H0].
    apply (wf_unique c W _ _ (l_address (line c s))); unfold owner;
      rewrite H0, Z.sub_0_r; auto.
Qed.

Lemma fits_fill c s x data : wf c -> is_u32 x -> s / 4 = setIndex x -> is_slot s ->
  length data = 16%nat -> (forall s', ~ owner c s' x) ->
  fits c s (mkLine data (x - x mod 16) true false).
Proof.
  intros W Hx Hp Hs Hd Hno. split; [exact Hs | split; [exact Hd |]]. intros _; cbn.
  split; [split |split].
  - unfold is_word in *. pow2. dlia.
  - dlia.
  - rewrite Hp, !setIndex_mod. dlia.
  - intros s' Hs' Hv Ha. destruct (Hno s'). split; auto.
Qed.

#[export] Instance owner_dec c s x : Decision (owner c s x).
Proof. unfold owner, is_slot. apply _. Defined.

Lemma wf_cache0 : wf cache0.
Proof.
  assert (Hl : forall s, is_slot s -> line cache0 s = Line0).
  { intros s Hs. unfold line, cache0, is_slot in *. cbn [lines].
    apply lookup_total_replicate_2. change (Z.to_nat (Sets * Ways)) with (Z.to_nat NoSlot). lia. }
  constructor; try reflexivity.
  - intros s Hs; rewrite Hl by assumption; reflexivity.
  - intros s Hs; rewrite Hl by assumption; discriminate.
  - intros s Hs; rewrite Hl by assumption; discriminate.
  - intros s s' x (Hs & Hv & _); rewrite Hl in Hv by assumption; discriminate.
  - cbn; lia.
Qed.
