(* ===== verification/Backing.v ===== *)
(** * Backing memories

    What the window cache asks of the memory behind it: the interface
    [Backing] with its laws, the flat byte memory that serves as the
    specification, and equality of memories up to their contents. *)
From S2P Require Import Prelude.
From Stdlib Require Import Morphisms Setoid.

(** The byte addresses [a, a + n). *)
Definition in_range (a n x : Z) : Prop := a <= x < a + n.
#[export] Instance in_range_dec a n x : Decision (in_range a n x).
Proof. unfold in_range. apply _. Defined.

(** An access that stays inside one 16-byte line. *)
Definition in_line (a n : Z) : Prop := 0 <= a /\ 0 <= n /\ a mod 16 + n <= 16.

(** ** The interface *)

Class Backing (B : Type) :=
  { bk_ok : B -> Prop;                       (* representation invariant *)
    bk_byte : B -> Z -> Z;                   (* contents, for specifications *)
    bk_read : B -> Z -> Z -> list Z;         (* address, size *)
    bk_write : B -> Z -> list Z -> B }.

Class BackingLaws (B : Type) `{Backing B} : Prop :=
  { bk_read_length : forall b a n, bk_ok b -> in_line a n -> length (bk_read b a n) = Z.to_nat n;
    bk_read_byte : forall b a n i, bk_ok b -> in_line a n -> 0 <= i < n ->
      bk_read b a n !!! Z.to_nat i = bk_byte b (a + i);
    bk_write_ok : forall b a bs, bk_ok b -> in_line a (Z.of_nat (length bs)) ->
      bk_ok (bk_write b a bs);
    bk_write_byte : forall b a bs x, bk_ok b -> in_line a (Z.of_nat (length bs)) ->
      bk_byte (bk_write b a bs) x =
      if decide (in_range a (Z.of_nat (length bs)) x) then bs !!! Z.to_nat (x - a)
      else bk_byte b x }.

(** ** Flat memories *)

Definition mem : Type := Z -> Z.
Definition mem_eq (m m' : mem) : Prop := forall x, m x = m' x.
Infix "≐" := mem_eq (at level 70) : quetz_scope.

#[export] Instance mem_eq_equiv : Equivalence mem_eq.
Proof.
  split.
  - intros m x; reflexivity.
  - intros m m' H x; symmetry; apply H.
  - intros m1 m2 m3 H1 H2 x; rewrite H1; apply H2.
Qed.

(** The memory [m] with the bytes [bs] stored from address [a]. *)
Definition mwrite (m : mem) (a : Z) (bs : list Z) : mem := fun x =>
  if decide (in_range a (Z.of_nat (length bs)) x) then bs !!! Z.to_nat (x - a) else m x.

(** The [n] bytes from address [a]. *)
Definition mread (m : mem) (a n : Z) : list Z := m <$> seqZ a n.

#[export] Instance mwrite_proper : Proper (mem_eq ==> eq ==> eq ==> mem_eq) mwrite.
Proof. intros m m' H a ? <- bs ? <- x. unfold mwrite. case_decide; auto. Qed.

#[export] Instance mread_proper : Proper (mem_eq ==> eq ==> eq ==> eq) mread.
Proof. intros m m' H a ? <- n ? <-. unfold mread. apply list_fmap_ext. intros; apply H. Qed.

Lemma length_mread m a n : length (mread m a n) = Z.to_nat n.
Proof. unfold mread. rewrite length_fmap. apply length_seqZ. Qed.

Lemma mread_byte m a n i : 0 <= i < n -> mread m a n !!! Z.to_nat i = m (a + i).
Proof.
  intros Hi. unfold mread. apply list_lookup_total_correct.
  apply list_lookup_fmap_Some. exists (a + i). split; [reflexivity |].
  apply lookup_seqZ. lia.
Qed.

(** Lists of the same length with the same elements. *)
Lemma list_eq_total (l l' : list Z) : length l = length l' ->
  (forall i, 0 <= i < Z.of_nat (length l) -> l !!! Z.to_nat i = l' !!! Z.to_nat i) -> l = l'.
Proof.
  intros Hl H. apply list_eq_same_length with (n := length l); [congruence | reflexivity |].
  intros i x y Hi Hx Hy. apply list_lookup_total_correct in Hx, Hy.
  specialize (H (Z.of_nat i) ltac:(lia)). rewrite Nat2Z.id in H. congruence.
Qed.

Lemma lookup_total_slice (l : list Z) i n k : 0 <= i -> 0 <= k < n ->
  slice l (Z.to_nat i) (Z.to_nat n) !!! Z.to_nat k = l !!! Z.to_nat (i + k).
Proof.
  intros. rewrite !list_lookup_total_alt, lookup_slice by lia. do 2 f_equal. lia.
Qed.

Lemma lookup_total_splice (l xs : list Z) i k : 0 <= i -> 0 <= k ->
  (Z.to_nat i + length xs <= length l)%nat ->
  splice l (Z.to_nat i) xs !!! Z.to_nat k =
  if decide (in_range i (Z.of_nat (length xs)) k) then xs !!! Z.to_nat (k - i)
  else l !!! Z.to_nat k.
Proof.
  intros Hi Hk Hl. unfold in_range. rewrite !list_lookup_total_alt. case_decide.
  - rewrite lookup_splice_in by lia. do 2 f_equal. lia.
  - rewrite lookup_splice_out by lia. reflexivity.
Qed.

(** Reading back what was written. *)
Lemma mread_mwrite m a bs : mread (mwrite m a bs) a (Z.of_nat (length bs)) = bs.
Proof.
  apply list_eq_total; rewrite length_mread; [lia |].
  intros i Hi. rewrite mread_byte by lia. unfold mwrite.
  rewrite decide_True by (unfold in_range; lia). f_equal; lia.
Qed.

(** The flat memory is a backing memory. *)
#[export] Instance mem_backing : Backing mem | 100 :=
  {| bk_ok := fun _ => True; bk_byte := fun m => m; bk_read := mread; bk_write := mwrite |}.

#[export] Instance mem_backing_laws : BackingLaws mem | 100.
Proof.
  split; cbn; intros.
  - apply length_mread.
  - apply mread_byte; assumption.
  - exact I.
  - reflexivity.
Qed.
