(* ===== verification/NativeRam.v ===== *)
(** * Native RAM regions in shared memory

    [src/include/quetz/quetz_ipc_types.h]: the regions of guest RAM that live
    in the shared segment - their validation, configuration and lookup - and
    the part of [src/src/quetzcpu_mmio_sync.cc], [serviceWindowCache], that
    decides whether an access is served from them.  A valid configuration and
    the memory behind the links together are one backing memory for the window
    cache (the instance of [Backing] at the end). *)
From S2P Require Import Prelude.
From S2P Require Import Backing.

Definition QUETZ_MAX_MMIO_VCORES : Z := 256.
Definition QUETZ_MAX_NATIVE_REGIONS : Z := 2.
Definition QUETZ_NATIVE_REGION_BYTES : Z := 65536.

Record NativeRegion := mkRegion { base : Z; size : Z; offset : Z; reserved : Z }.
Definition region0 : NativeRegion := mkRegion 0 0 0 0.
#[export] Instance NativeRegion_inhabited : Inhabited NativeRegion := populate region0.

(** The part of [QuetzSharedData] that concerns the regions: the address the
    segment is mapped at, and its bytes by offset. *)
Record Shared := mkShared
  { address : Z; native_region_count : Z; native_regions : list NativeRegion; bytes : mem }.
#[export] Instance Shared_settable : Settable Shared := fun s =>
  mkShared (address s) (native_region_count s) (native_regions s) (bytes s).

(** [offsetof(QuetzSharedData, native_ram_storage)] on an LP64 host: the
    fields before it, in order, and the size of the storage. *)
Definition storage_begin : Z :=
  (8 + 8 + 8 + 4 + 4) + QUETZ_MAX_MMIO_VCORES * 16 + QUETZ_MAX_MMIO_VCORES * 32 +
  QUETZ_MAX_MMIO_VCORES * 64 * 8 + (4 + 4) + QUETZ_MAX_MMIO_VCORES * 4 + 4 + QUETZ_MAX_NATIVE_REGIONS * 16.
Definition storage_bytes : Z := (QUETZ_MAX_NATIVE_REGIONS + 1) * QUETZ_NATIVE_REGION_BYTES - 1.

(** The checks of one region, and of a pair. *)
Definition region_valid (shared : Z) (a : NativeRegion) : bool :=
  let begin_ := storage_begin in
  let end_ := begin_ + storage_bytes in
  negb ((size a =? 0) || (QUETZ_NATIVE_REGION_BYTES <? size a) ||
        negb (Z.land (base a) 4095 =? 0) || negb (Z.land (size a) 4095 =? 0) ||
        (2 ^ 32 <? u64 (base a + size a)) ||
        (offset a <? begin_) || (end_ - size a <? offset a) || negb (reserved a =? 0) ||
        negb (Z.land (u64 (shared + offset a)) 4095 =? 0)).
Definition regions_overlap (a b : NativeRegion) : bool :=
  ((base a <? u64 (base b + size b)) && (base b <? u64 (base a + size a))) ||
  ((offset a <? u32 (offset b + size b)) && (offset b <? u32 (offset a + size a))).

Definition quetz_native_regions_valid (s : Shared) : bool :=
  negb (QUETZ_MAX_NATIVE_REGIONS <? native_region_count s) &&
  forallb (fun i => let a := native_regions s !!! i in
    region_valid (address s) a && forallb (fun b => negb (regions_overlap a b)) (take i (native_regions s)))
    (seq 0 (Z.to_nat (native_region_count s))).

(** [quetz_native_ram]: the offset of a region's bytes. *)
Definition quetz_native_ram (s : Shared) (region : Z) : option Z :=
  if (native_region_count s <=? region) || negb (quetz_native_regions_valid s) then None
  else Some (offset (native_regions s !!! Z.to_nat region)).

(** [quetz_configure_native_regions]; the boolean is the result. *)
Definition align_up (x : Z) : Z := Z.land (u64 (x + (QUETZ_NATIVE_REGION_BYTES - 1))) (Z.lxor (QUETZ_NATIVE_REGION_BYTES - 1) max_u64).
Definition place (shared first : Z) (i : nat) (r : NativeRegion) : NativeRegion :=
  mkRegion (base r) (size r) (u32 (u32 (first - shared) + Z.of_nat i * QUETZ_NATIVE_REGION_BYTES)) 0.
Definition quetz_configure_native_regions (regions : option (list NativeRegion)) (count : Z) (s : Shared)
  : bool * Shared :=
  if (QUETZ_MAX_NATIVE_REGIONS <? count) || (negb (count =? 0) && bool_decide (regions = None)) then (false, s)
  else
    let first := align_up (u64 (address s + storage_begin)) in
    let placed := imap (place (address s) first) (take (Z.to_nat count) (default [] regions)) in
    let s := s <| native_region_count := count |>
               <| native_regions ::= fun l => placed ++ drop (length placed) l |> in
    if quetz_native_regions_valid s then (true, s) else (false, s <| native_region_count := 0 |>).

(** ** Serving an access from a region

    The loop of [serviceWindowCache]: [None] where no region has the address. *)
Definition in_region (a : Z) (r : NativeRegion) : bool := (base r <=? a) && (a - base r <? size r).

Fixpoint native_from (s : Shared) (a n : Z) (i : nat) (rs : list NativeRegion) : result (option Z) :=
  match rs with
  | [] => Ok None
  | r :: rs =>
      if in_region a r then
        let off := a - base r in
        throw_if (size r - off <? n) RuntimeError "cache backing access crosses native RAM boundary" ≫= fun _ =>
        match quetz_native_ram s (Z.of_nat i) with
        | None => Throw RuntimeError "invalid registered native RAM backing"
        | Some backing => Ok (Some (backing + off))
        end
      else native_from s a n (S i) rs
  end.
Definition native_at (s : Shared) (a n : Z) : result (option Z) :=
  native_from s a n 0 (take (Z.to_nat (native_region_count s)) (native_regions s)).

(** ** What a valid region is *)

Record region_fields (a : NativeRegion) : Prop :=
  { rf_base : is_u32 (base a); rf_size : is_u32 (size a); rf_offset : is_u32 (offset a) }.

(** A region a configuration may ask for, and disjoint requests. *)
Definition request_ok (a : NativeRegion) : Prop :=
  0 < size a <= QUETZ_NATIVE_REGION_BYTES /\ base a mod 4096 = 0 /\ size a mod 4096 = 0 /\ base a + size a <= 2 ^ 32.
Definition apart (a b : NativeRegion) : Prop := base a + size a <= base b \/ base b + size b <= base a.

#[export] Instance request_ok_dec a : Decision (request_ok a).
Proof. unfold request_ok. apply _. Defined.
#[export] Instance apart_dec a b : Decision (apart a b).
Proof. unfold apart. apply _. Defined.

(** A region with its storage: inside the storage area, at a page boundary. *)
Definition stored (shared : Z) (a : NativeRegion) : Prop :=
  storage_begin <= offset a /\ offset a + size a <= storage_begin + storage_bytes /\
  reserved a = 0 /\ u64 (shared + offset a) mod 4096 = 0.

Lemma land_page x : Z.land x 4095 = x mod 4096.
Proof. exact (Z.land_ones x 12 ltac:(lia)). Qed.

Lemma region_valid_spec shared a : region_fields a ->
  region_valid shared a = true <-> request_ok a /\ stored shared a.
Proof.
  intros [Hb Hs Ho]. unfold region_valid, request_ok, stored. rewrite !land_page.
  rewrite (wrap_small 64 (base a + size a)) by word.
  rewrite negb_true_iff, !orb_false_iff, !negb_false_iff, !Z.eqb_eq, !Z.ltb_ge, Z.eqb_neq.
  unfold is_word in *. intuition lia.
Qed.

Lemma regions_overlap_spec a b : region_fields a -> region_fields b -> request_ok a -> request_ok b ->
  offset a + size a < 2 ^ 32 -> offset b + size b < 2 ^ 32 ->
  regions_overlap a b = false <->
  apart a b /\ (offset a + size a <= offset b \/ offset b + size b <= offset a).
Proof.
  intros [] [] (? & _) (? & _) H1 H2. unfold regions_overlap, apart.
  rewrite !(wrap_small 64), !(wrap_small 32) by word.
  rewrite orb_false_iff, !andb_false_iff, !Z.ltb_ge. lia.
Qed.

(** ** Configuring

    The storage area has one region's size more than two regions need, less a
    byte: wherever the segment is mapped, two aligned regions fit. *)

Lemma align_up_spec x : 0 <= x <= 2 ^ 64 - QUETZ_NATIVE_REGION_BYTES ->
  x <= align_up x < x + QUETZ_NATIVE_REGION_BYTES /\ align_up x mod QUETZ_NATIVE_REGION_BYTES = 0.
Proof.
  unfold align_up, QUETZ_NATIVE_REGION_BYTES. intros Hx. rewrite wrap_small by word.
  set (y := x + (65536 - 1)). replace (Z.land y _) with (y - y mod 65536).
  - unfold y. dlia.
  - change (Z.lxor (65536 - 1) max_u64) with (Z.ldiff (Z.ones 64) (Z.ones 16)).
    replace (Z.land y (Z.ldiff (Z.ones 64) (Z.ones 16))) with (Z.ldiff (Z.land y (Z.ones 64)) (Z.ones 16)).
    + rewrite Z.land_ones by lia. rewrite (Z.mod_small y (2 ^ 64)) by (unfold y; word).
      rewrite Z.ldiff_ones_r, Z.shiftl_mul_pow2, Z.shiftr_div_pow2 by lia. change (2 ^ 16) with 65536.
      pose proof (Z.div_mod y 65536). lia.
    + apply Z.bits_inj'. intros i Hi. rewrite Z.land_spec, !Z.ldiff_spec, Z.land_spec.
      destruct (Z.testbit y i), (Z.testbit (Z.ones 64) i), (Z.testbit (Z.ones 16) i); reflexivity.
Qed.

Section Configure.
Variable s : Shared.
Hypothesis Ha : 0 <= address s /\ address s + storage_begin + storage_bytes < 2 ^ 64.

Definition first_of : Z := align_up (u64 (address s + storage_begin)).

Lemma first_spec : storage_begin <= first_of - address s < storage_begin + QUETZ_NATIVE_REGION_BYTES /\
  first_of mod 65536 = 0.
Proof.
  assert (storage_begin = 144460) as E by reflexivity. assert (storage_bytes = 196607) as E' by reflexivity.
  unfold first_of. rewrite wrap_small by (rewrite E, E' in *; word).
  pose proof (align_up_spec (address s + storage_begin)) as H. unfold QUETZ_NATIVE_REGION_BYTES in *. rewrite E, E' in *. lia.
Qed.

Lemma place_spec i r : (i < 2)%nat -> is_u32 (base r) -> is_u32 (size r) -> size r <= QUETZ_NATIVE_REGION_BYTES ->
  let p := place (address s) first_of i r in
  region_fields p /\ stored (address s) p /\
  offset p = first_of - address s + Z.of_nat i * QUETZ_NATIVE_REGION_BYTES.
Proof.
  intros Hi Hb Hs Hle p. pose proof first_spec as [H1 H2].
  assert (storage_begin = 144460) as E by reflexivity. assert (storage_bytes = 196607) as E' by reflexivity.
  unfold QUETZ_NATIVE_REGION_BYTES in *.
  assert (Ho : offset p = first_of - address s + Z.of_nat i * 65536).
  { unfold p, place. cbn. unfold QUETZ_NATIVE_REGION_BYTES.
    rewrite (wrap_small 32 (first_of - address s)) by word. rewrite wrap_small by word. lia. }
  split; [split; [exact Hb | exact Hs | rewrite Ho; word] |]. split; [| exact Ho]. unfold stored.
  rewrite Ho. change (size p) with (size r). split; [lia | split; [lia | split; [reflexivity |]]].
  replace (address s + (first_of - address s + Z.of_nat i * 65536)) with (first_of + Z.of_nat i * 65536) by lia.
  rewrite wrap_small by word. dlia.
Qed.

(** Requests as the caller has them: 32-bit fields. *)
Definition request_fields (r : NativeRegion) : Prop := is_u32 (base r) /\ is_u32 (size r).

Definition requests_ok (rs : list NativeRegion) : Prop :=
  Forall request_ok rs /\ match rs with [a; b] => apart a b | _ => True end.

Definition placed (rs : list NativeRegion) : list NativeRegion := imap (place (address s) first_of) rs.

Lemma place_valid i r : (i < 2)%nat -> request_fields r ->
  region_valid (address s) (place (address s) first_of i r) = bool_decide (request_ok r).
Proof.
  intros Hi [Hb Hs]. set (p := place _ _ _ _).
  destruct (Z.le_gt_cases (size r) QUETZ_NATIVE_REGION_BYTES) as [Hle|Hgt].
  - destruct (place_spec i r Hi Hb Hs Hle) as (F & St & _). fold p in F, St.
    apply eq_true_iff_eq. rewrite (region_valid_spec (address s) p F), bool_decide_eq_true.
    change (request_ok p) with (request_ok r). tauto.
  - rewrite bool_decide_false by (unfold request_ok; lia). unfold region_valid. change (size p) with (size r).
    rewrite (proj2 (Z.ltb_lt QUETZ_NATIVE_REGION_BYTES (size r))) by lia. rewrite orb_true_r. reflexivity.
Qed.

Lemma place_overlap a b : request_fields a -> request_fields b -> request_ok a -> request_ok b ->
  regions_overlap (place (address s) first_of 1 b) (place (address s) first_of 0 a) = bool_decide (~ apart a b).
Proof.
  intros [Ha1 Ha2] [Hb1 Hb2] Ra Rb. pose proof first_spec as [H1 _]. pose proof Ra as ([_ Hsa] & _). pose proof Rb as ([_ Hsb] & _).
  destruct (place_spec 0 a ltac:(lia) Ha1 Ha2 Hsa) as (Fa & (Sa1 & Sa2 & _) & Oa).
  destruct (place_spec 1 b ltac:(lia) Hb1 Hb2 Hsb) as (Fb & (Sb1 & Sb2 & _) & Ob).
  set (pa := place _ _ 0 a) in *. set (pb := place _ _ 1 b) in *.
  assert (storage_begin = 144460) as E by reflexivity. assert (storage_bytes = 196607) as E' by reflexivity.
  unfold QUETZ_NATIVE_REGION_BYTES in *. change (size pa) with (size a) in *. change (size pb) with (size b) in *.
  pose proof (regions_overlap_spec pb pa Fb Fa Rb Ra) as Hov.
  change (size pa) with (size a) in *. change (size pb) with (size b) in *. rewrite E, E', Oa, Ob in *.
  specialize (Hov ltac:(word) ltac:(word)). apply eq_true_iff_eq. rewrite bool_decide_eq_true.
  rewrite <- not_false_iff_true, Hov. unfold apart. change (base pa) with (base a). change (base pb) with (base b).
  change (size pa) with (size a). change (size pb) with (size b). lia.
Qed.

#[export] Instance requests_ok_dec rs : Decision (requests_ok rs).
Proof. unfold requests_ok. destruct rs as [|a [|b [|]]]; apply _. Defined.

(** The check on one and on two regions. *)
Lemma valid_one sh a x : quetz_native_regions_valid (mkShared (address s) 1 [a; x] sh) = region_valid (address s) a.
Proof. unfold quetz_native_regions_valid. cbn [native_region_count]. change (Z.to_nat 1) with 1%nat. cbn -[region_valid]. destruct (region_valid _ _); reflexivity. Qed.

Lemma valid_two sh a b : quetz_native_regions_valid (mkShared (address s) 2 [a; b] sh) =
  region_valid (address s) a && (region_valid (address s) b && negb (regions_overlap b a)).
Proof. unfold quetz_native_regions_valid. cbn [native_region_count]. change (Z.to_nat 2) with 2%nat. cbn -[region_valid regions_overlap].
  destruct (region_valid _ a), (region_valid _ b), (regions_overlap _ _); reflexivity.
Qed.

Lemma placed_stored rs : Forall request_fields rs -> Forall request_ok rs -> (length rs <= 2)%nat ->
  Forall (stored (address s)) (placed rs) /\
  forall i a, placed rs !! i = Some a -> offset a = first_of - address s + Z.of_nat i * QUETZ_NATIVE_REGION_BYTES.
Proof.
  intros Hf Ho Hl.
  assert (H : forall i a, placed rs !! i = Some a -> stored (address s) a /\
    offset a = first_of - address s + Z.of_nat i * QUETZ_NATIVE_REGION_BYTES).
  { intros i a Hi. unfold placed in Hi. rewrite list_lookup_imap in Hi.
    destruct (rs !! i) as [r|] eqn:E; [| discriminate]. injection Hi as <-.
    pose proof (lookup_lt_Some _ _ _ E). destruct (Forall_lookup_1 _ _ _ _ Hf E), (Forall_lookup_1 _ _ _ _ Ho E) as (? & _).
    destruct (place_spec i r) as (_ & ? & ?); auto; lia. }
  split; [apply Forall_lookup; intros i a Hi; apply (H i a Hi) | intros i a Hi; apply (H i a Hi)].
Qed.

(** The regions of a configuration, placed: valid exactly when asked for
    rightly. *)
Lemma placed_valid rs : Forall request_fields rs -> (length rs <= 2)%nat -> length (native_regions s) = 2%nat ->
  quetz_native_regions_valid (s <| native_region_count := Z.of_nat (length rs) |>
    <| native_regions ::= fun l => placed rs ++ drop (length (placed rs)) l |>) = bool_decide (requests_ok rs).
Proof.
  intros Hf Hl Hlen. set (s1 := _ <| native_regions ::= _ |>).
  destruct (native_regions s) as [|x [|y [|]]] eqn:Er; try discriminate.
  assert (E1 : s1 = mkShared (address s) (Z.of_nat (length rs)) (placed rs ++ drop (length (placed rs)) [x; y]) (bytes s))
    by (rewrite <- Er; reflexivity).
  rewrite E1. clear E1 s1. destruct rs as [|a [|b [|]]]; cbn in Hl; try lia; cbn [length Z.of_nat placed imap app drop].
  - rewrite bool_decide_true; [reflexivity | split; constructor].
  - apply Forall_cons in Hf as [Fa _]. unfold placed. cbn [imap app length drop].
    etransitivity; [apply valid_one |]. rewrite place_valid by (assumption || lia).
    apply bool_decide_ext. unfold requests_ok. rewrite Forall_singleton. tauto.
  - apply Forall_cons in Hf as [Fa Hf]. apply Forall_cons in Hf as [Fb _]. unfold placed. cbn [imap app length drop].
    etransitivity; [apply valid_two |]. change (compose (place (address s) first_of) S 0%nat b) with (place (address s) first_of 1 b).
    rewrite !place_valid by (assumption || lia). unfold requests_ok.
    destruct (decide (request_ok a)) as [Ra|Na]; [destruct (decide (request_ok b)) as [Rb|Nb] |].
    + rewrite place_overlap by assumption. rewrite !(bool_decide_true (request_ok _)) by assumption. cbn [andb].
      rewrite <- bool_decide_not. apply bool_decide_ext.
      rewrite !Forall_cons, Forall_nil. destruct (decide (apart a b)); tauto.
    + rewrite (bool_decide_false (request_ok b)), andb_false_r by assumption. symmetry. apply bool_decide_false.
      rewrite !Forall_cons. tauto.
    + rewrite (bool_decide_false (request_ok a)) by assumption. symmetry. apply bool_decide_false.
      rewrite !Forall_cons. tauto.
Qed.

Lemma configure_accepts rs : Forall request_fields rs -> (length rs <= 2)%nat -> length (native_regions s) = 2%nat ->
  (quetz_configure_native_regions (Some rs) (Z.of_nat (length rs)) s).1 = bool_decide (requests_ok rs).
Proof.
  intros Hf Hl Hlen. unfold quetz_configure_native_regions. fold first_of.
  rewrite (proj2 (Z.ltb_ge _ _)) by (unfold QUETZ_MAX_NATIVE_REGIONS; lia).
  rewrite (bool_decide_false (Some rs = None)) by discriminate. rewrite andb_false_r. cbn [orb default from_option id].
  rewrite Nat2Z.id, firstn_all. fold (placed rs). rewrite placed_valid by assumption.
  destruct (bool_decide (requests_ok rs)); reflexivity.
Qed.

(** C38. A configuration of at most two regions is accepted exactly when each is
    a whole number of pages, at most 64 KiB, page-aligned below [2^32], and
    the two do not overlap.  The regions are then those asked for, with
    page-aligned storage inside the segment and apart from each other,
    wherever the segment is mapped; a refusal leaves none configured. *)
Theorem native_configure_spec rs : Forall request_fields rs -> (length rs <= 2)%nat ->
  length (native_regions s) = 2%nat ->
  let '(ok, s') := quetz_configure_native_regions (Some rs) (Z.of_nat (length rs)) s in
  ok = bool_decide (requests_ok rs) /\ quetz_native_regions_valid s' = true /\
  native_region_count s' = (if ok then Z.of_nat (length rs) else 0) /\
  (ok = true -> take (length rs) (native_regions s') = placed rs /\ Forall (stored (address s)) (placed rs) /\
     forall i a, placed rs !! i = Some a -> offset a = first_of - address s + Z.of_nat i * QUETZ_NATIVE_REGION_BYTES).
Proof.
  intros Hf Hl Hlen. unfold quetz_configure_native_regions. fold first_of.
  rewrite (proj2 (Z.ltb_ge _ _)) by (unfold QUETZ_MAX_NATIVE_REGIONS; lia).
  rewrite (bool_decide_false (Some rs = None)) by discriminate. rewrite andb_false_r. cbn [orb default from_option id].
  rewrite Nat2Z.id, firstn_all. fold (placed rs). set (s1 := _ <| native_regions ::= _ |>).
  assert (Hv : quetz_native_regions_valid s1 = bool_decide (requests_ok rs)) by (apply placed_valid; assumption).
  rewrite Hv. destruct (decide (requests_ok rs)) as [Hok|Hno].
  - rewrite bool_decide_true by exact Hok. split; [reflexivity | split; [rewrite Hv; apply bool_decide_true; exact Hok | split; [reflexivity |]]].
    intros _. split; [| apply placed_stored; [exact Hf | apply Hok | exact Hl]].
    cbn. rewrite take_app_length'; [reflexivity |]. unfold placed. symmetry. apply length_imap.
  - rewrite bool_decide_false by exact Hno. split; [reflexivity | split; [reflexivity | split; [reflexivity | discriminate]]].
Qed.
End Configure.

Lemma native_configure_spec_witness :
  let s := mkShared 4096 0 [region0; region0] (fun _ => 0) in
  let rs := [mkRegion 0x100000 4096 0 0; mkRegion 0x200000 65536 0 0] in
  let '(ok, s') := quetz_configure_native_regions (Some rs) 2 s in
  ok = bool_decide (requests_ok rs) /\ quetz_native_regions_valid s' = true /\
  native_region_count s' = (if ok then 2 else 0) /\
  (ok = true -> take 2 (native_regions s') = placed s rs /\ Forall (stored (address s)) (placed s rs) /\
     forall i a, placed s rs !! i = Some a -> offset a = first_of s - address s + Z.of_nat i * QUETZ_NATIVE_REGION_BYTES).
Proof.
  intros s rs. apply (native_configure_spec s ltac:(vm_compute; intuition discriminate) rs).
  - repeat constructor; vm_compute; discriminate.
  - cbn; lia.
  - reflexivity.
Defined.

(** ** The regions and the memory behind the links, as one backing memory *)

Definition live (s : Shared) : list NativeRegion := take (Z.to_nat (native_region_count s)) (native_regions s).

(** A configured segment, mapped where an offset does not wrap. *)
Record configured (s : Shared) : Prop :=
  { cf_valid : quetz_native_regions_valid s = true;
    cf_count : 0 <= native_region_count s;
    cf_length : length (native_regions s) = 2%nat;
    cf_fields : Forall region_fields (native_regions s) }.

(** The storage byte of a guest address. *)
Definition storage_of (a : Z) (r : NativeRegion) : Z := offset r + (a - base r).
Fixpoint region_at (a : Z) (rs : list NativeRegion) : option NativeRegion :=
  match rs with
  | [] => None
  | r :: rs => if in_region a r then Some r else region_at a rs
  end.

Definition guest_byte (s : Shared) (m : mem) (x : Z) : Z :=
  match region_at x (live s) with
  | Some r => bytes s (storage_of x r)
  | None => m x
  end.
Definition guest_read (s : Shared) (m : mem) (a n : Z) : list Z :=
  match native_at s a n with
  | Ok (Some p) => mread (bytes s) p n
  | _ => mread m a n
  end.
Definition store (p : Z) (bs : list Z) (s : Shared) : Shared := s <| bytes ::= fun m => mwrite m p bs |>.
Definition guest_write (s : Shared) (m : mem) (a : Z) (bs : list Z) : Shared * mem :=
  match native_at s a (Z.of_nat (length bs)) with
  | Ok (Some p) => (store p bs s, m)
  | _ => (s, mwrite m a bs)
  end.

#[export] Instance guest_backing : Backing (Shared * mem) | 10 :=
  {| bk_ok := fun b => configured b.1;
     bk_byte := fun b => guest_byte b.1 b.2;
     bk_read := fun b => guest_read b.1 b.2;
     bk_write := fun b => guest_write b.1 b.2 |}.

Lemma in_region_spec a r : in_region a r = true <-> in_range (base r) (size r) a.
Proof. unfold in_region, in_range. rewrite andb_true_iff, Z.leb_le, Z.ltb_lt. lia. Qed.

Section Configured.
Variable s : Shared.
Hypothesis Hs : configured s.

Lemma live_lookup i r : live s !! i = Some r ->
  (i < Z.to_nat (native_region_count s))%nat /\ native_regions s !! i = Some r.
Proof. unfold live. intros H. apply lookup_take_Some in H. tauto. Qed.

Lemma valid_at i r : live s !! i = Some r ->
  region_valid (address s) r = true /\
  forall j r', (j < i)%nat -> live s !! j = Some r' -> regions_overlap r r' = false.
Proof.
  intros Hi. destruct (live_lookup i r Hi) as [Hlt Hr]. pose proof (cf_valid s Hs) as Hv.
  unfold quetz_native_regions_valid in Hv. apply andb_true_iff in Hv as [_ Hv].
  rewrite forallb_forall in Hv. specialize (Hv i). rewrite in_seq in Hv. specialize (Hv ltac:(lia)).
  rewrite (list_lookup_total_correct _ _ _ Hr) in Hv. apply andb_true_iff in Hv as [H1 H2].
  split; [exact H1 |]. intros j r' Hj Hr'. rewrite forallb_forall in H2.
  apply negb_true_iff, H2, list_elem_of_In, (list_elem_of_lookup_2 _ j).
  apply lookup_take_Some. split; [apply live_lookup; exact Hr' | exact Hj].
Qed.

Lemma fields_at i r : live s !! i = Some r -> region_fields r.
Proof. intros Hi. apply (Forall_lookup_1 _ _ _ _ (cf_fields s Hs) (proj2 (live_lookup i r Hi))). Qed.

Lemma live_ok i r : live s !! i = Some r -> request_ok r /\ stored (address s) r.
Proof. intros Hi. apply (region_valid_spec _ r (fields_at i r Hi)), (valid_at i r Hi). Qed.

Lemma stored_small i r : live s !! i = Some r -> offset r + size r < 2 ^ 32.
Proof. intros Hi. destruct (live_ok i r Hi) as (_ & _ & H & _). change (storage_begin + storage_bytes) with 341067 in H. lia. Qed.

(** Two regions share neither guest addresses nor storage. *)
Lemma live_disjoint i j r r' : live s !! i = Some r -> live s !! j = Some r' -> i <> j ->
  apart r r' /\ (offset r + size r <= offset r' \/ offset r' + size r' <= offset r).
Proof.
  intros Hi Hj Hne.
  assert (H : forall i j r r', live s !! i = Some r -> live s !! j = Some r' -> (j < i)%nat ->
    apart r r' /\ (offset r + size r <= offset r' \/ offset r' + size r' <= offset r)).
  { clear -Hs. intros i j r r' Hi Hj Hlt. apply regions_overlap_spec.
    - apply (fields_at i r Hi).
    - apply (fields_at j r' Hj).
    - apply (live_ok i r Hi).
    - apply (live_ok j r' Hj).
    - apply (stored_small i r Hi).
    - apply (stored_small j r' Hj).
    - apply (proj2 (valid_at i r Hi) j r' Hlt Hj). }
  destruct (Nat.lt_ge_cases j i) as [Hlt|Hge]; [apply (H i j); assumption |].
  destruct (H j i r' r Hj Hi ltac:(lia)) as [Ha Ho]. unfold apart in *. lia.
Qed.

Lemma region_at_some x rs r : region_at x rs = Some r ->
  exists i, rs !! i = Some r /\ in_range (base r) (size r) x.
Proof.
  induction rs as [|r' rs IH]; cbn; [discriminate |]. destruct (in_region x r') eqn:E.
  - intros [= <-]. exists 0%nat. split; [reflexivity | apply in_region_spec; exact E].
  - intros H. destruct (IH H) as (i & ? & ?). exists (S i). auto.
Qed.

Lemma region_at_none x rs i r : region_at x rs = None -> rs !! i = Some r -> ~ in_range (base r) (size r) x.
Proof.
  revert i; induction rs as [|r' rs IH]; intros i; cbn; [discriminate |].
  destruct (in_region x r') eqn:E; [discriminate |]. intros Hn Hi Hx. destruct i.
  - injection Hi as ->. apply in_region_spec in Hx. congruence.
  - apply (IH i Hn Hi Hx).
Qed.

Lemma region_at_unique x i r : live s !! i = Some r -> in_range (base r) (size r) x -> region_at x (live s) = Some r.
Proof.
  intros Hi Hx. destruct (region_at x (live s)) as [r'|] eqn:E; [| destruct (region_at_none x _ i r E Hi Hx)].
  destruct (region_at_some x _ r' E) as (j & Hj & Hx'). destruct (decide (i = j)) as [->|Hne]; [congruence |].
  destruct (live_disjoint i j r r' Hi Hj Hne) as [Ha _]. unfold apart, in_range in *. lia.
Qed.

(** An access inside a line is inside the region it starts in. *)
Lemma line_in_region i r a n : live s !! i = Some r -> in_line a n -> in_range (base r) (size r) a ->
  a + n <= base r + size r.
Proof.
  intros Hi (_ & Hn & Hl) Ha. destruct (live_ok i r Hi) as ((Hsz & Hb & Hm & _) & _).
  unfold in_range in Ha. assert ((base r + size r) mod 16 = 0) by dlia. dlia.
Qed.

Lemma native_from_spec a n : in_line a n -> forall rs i, (forall k r, rs !! k = Some r -> live s !! (i + k)%nat = Some r) ->
  native_from s a n i rs = Ok (storage_of a <$> region_at a rs).
Proof.
  intros Hl rs. induction rs as [|r rs IH]; intros i Hrs; [reflexivity |]. cbn [native_from region_at].
  destruct (in_region a r) eqn:E.
  - pose proof (Hrs 0%nat r eq_refl) as Hi. rewrite Nat.add_0_r in Hi.
    apply in_region_spec in E. pose proof (line_in_region i r a n Hi Hl E).
    rewrite throw_if_false by (apply Z.ltb_ge; lia). unfold quetz_native_ram. rewrite (cf_valid s Hs). cbn [negb].
    destruct (live_lookup i r Hi) as [Hlt Hr]. rewrite orb_false_r, (proj2 (Z.leb_gt _ _)) by lia.
    rewrite Nat2Z.id, (list_lookup_total_correct _ _ _ Hr). reflexivity.
  - apply IH. intros k r' Hk. specialize (Hrs (S k) r' Hk). rewrite Nat.add_succ_r in Hrs. exact Hrs.
Qed.

Lemma native_at_spec a n : in_line a n -> native_at s a n = Ok (storage_of a <$> region_at a (live s)).
Proof. intros Hl. unfold native_at. apply native_from_spec; [exact Hl | auto]. Qed.

(** A line is in one region, or in none. *)
Lemma region_at_line a n x : in_line a n -> in_range a n x ->
  region_at x (live s) = region_at a (live s).
Proof.
  intros Hl Hx. destruct (region_at a (live s)) as [r|] eqn:Ea.
  - destruct (region_at_some a _ r Ea) as (i & Hi & Ha). apply (region_at_unique x i r Hi).
    pose proof (line_in_region i r a n Hi Hl Ha). unfold in_range in *. lia.
  - destruct (region_at x (live s)) as [r|] eqn:Ex; [exfalso | reflexivity].
    destruct (region_at_some x _ r Ex) as (i & Hi & Hr). apply (region_at_none a _ i r Ea Hi).
    destruct (live_ok i r Hi) as ((Hsz & Hb & Hm & _) & _). destruct Hl as (? & ? & ?).
    unfold in_range in *. dlia.
Qed.

Lemma configured_store p bs : configured (store p bs s).
Proof. destruct Hs. constructor; assumption. Qed.

Lemma guest_byte_store m p bs x : guest_byte (store p bs s) m x =
  match region_at x (live s) with
  | Some r => mwrite (bytes s) p bs (storage_of x r)
  | None => m x
  end.
Proof. reflexivity. Qed.
End Configured.

#[export] Instance guest_backing_laws : BackingLaws (Shared * mem) | 10.
Proof.
  split; cbn.
  - intros [s m] a n Hs Hl. unfold guest_read. cbn [fst snd] in *. rewrite (native_at_spec s Hs a n Hl).
    destruct (region_at _ _); apply length_mread.
  - intros [s m] a n i Hs Hl Hi. unfold guest_read, guest_byte. cbn [fst snd] in *. rewrite (native_at_spec s Hs a n Hl).
    rewrite (region_at_line s Hs a n (a + i) Hl) by (unfold in_range; lia).
    destruct (region_at a (live s)); cbn [fmap option_fmap option_map]; rewrite mread_byte by assumption; [| reflexivity].
    f_equal. unfold storage_of. lia.
  - intros [s m] a bs Hs Hl. unfold guest_write. cbn [fst snd] in *. rewrite (native_at_spec s Hs a _ Hl).
    destruct (region_at a (live s)); [apply configured_store; exact Hs | exact Hs].
  - intros [s m] a bs x Hs Hl. unfold guest_write. cbn [fst snd] in *. rewrite (native_at_spec s Hs a _ Hl).
    destruct (region_at a (live s)) as [r|] eqn:Ea; cbn [fmap option_fmap option_map fst snd].
    + rewrite guest_byte_store. unfold guest_byte. destruct (region_at_some a _ r Ea) as (i & Hi & Ha).
      pose proof (line_in_region s Hs i r a _ Hi Hl Ha). case_decide as Hx.
      * rewrite (region_at_line s Hs a _ x Hl Hx), Ea. unfold mwrite, storage_of, in_range in *.
        rewrite decide_True by lia. f_equal. lia.
      * destruct (region_at x (live s)) as [r'|] eqn:Ex; [| reflexivity].
        destruct (region_at_some x _ r' Ex) as (j & Hj & Hx'). unfold mwrite. rewrite decide_False; [reflexivity |].
        unfold storage_of, in_range in *. destruct (decide (i = j)) as [->|Hne].
        { assert (r' = r) as -> by congruence. lia. }
        destruct (live_disjoint s Hs i j r r' Hi Hj Hne) as [_ Hd]. lia.
    + unfold guest_byte. case_decide as Hx.
      * rewrite (region_at_line s Hs a _ x Hl Hx), Ea. unfold mwrite. rewrite decide_True by exact Hx. reflexivity.
      * destruct (region_at x (live s)); [reflexivity |]. unfold mwrite. rewrite decide_False by exact Hx. reflexivity.
Qed.
