(* ===== verification/WindowCacheSpec.v ===== *)
(** * The window cache over a backing memory: coherence and transparency

    The cache of [WindowCache.v] and any memory that implements [Backing]
    together present one memory, the [view].  Accesses read and update that
    view; maintenance writes it back. *)
From S2P Require Import Prelude.
From S2P Require Import WindowCache.
From S2P Require Import Backing.

Section Coherence.
Context {B : Type} `{BackingLaws B}.

(** ** The memory a guest sees *)

Definition line_byte (c : WindowDataCache) (s x : Z) : Z :=
  l_bytes (line c s) !!! Z.to_nat (x mod 16).

Definition view (c : WindowDataCache) (b : B) : mem := fun x =>
  let s := find c (x - x mod 16) in
  if s =? NoSlot then bk_byte b x else line_byte c s x.

(** Clean lines agree with the backing memory. *)
Definition coherent (c : WindowDataCache) (b : B) : Prop := forall s x,
  owner c s x -> l_dirty (line c s) = false -> line_byte c s x = bk_byte b x.

(** Lines are held only for cacheable addresses, dirty only for copyback. *)
Definition line_allowed (c : WindowDataCache) (l : Line) : Prop :=
  l_valid l = true -> mode c (l_address l) < 2 /\ (mode c (l_address l) = 0 -> l_dirty l = false).
Definition disciplined (c : WindowDataCache) : Prop :=
  forall s, is_slot s -> line_allowed c (line c s).

Record good (c : WindowDataCache) (b : B) : Prop :=
  { good_wf : wf c; good_coh : coherent c b; good_disc : disciplined c; good_bk : bk_ok b }.

(** ** Driving a transaction against the backing memory *)

Fixpoint drive (fuel : nat) (c : WindowDataCache) (b : B) :
    result (list Z * WindowDataCache * B) :=
  match fuel with
  | O => Throw OutOfFuel "drive"
  | S fuel =>
      next c ≫= fun '(a, c) =>
      match act_kind a with
      | Done => Ok (act_bytes a, c, b)
      | Read =>
          complete (bk_read b (act_address a) (act_size a)) c ≫= fun c => drive fuel c b
      | Write =>
          complete [] c ≫= fun c => drive fuel c (bk_write b (act_address a) (act_bytes a))
      end
  end.

(** At most eight bytes in at most two lines, each with an eviction, a fill
    and a write, are at most 26 steps of the measure below. *)
Definition drive_fuel : nat := 32.

(** ** Views of changed caches *)

Lemma view_owner c b s x : wf c -> owner c s x -> view c b x = line_byte c s x.
Proof.
  intros W Ho. unfold view. rewrite (find_owner c s x W Ho).
  destruct Ho as [[? ?] _]. destruct (Z.eqb_spec s NoSlot); [lia | reflexivity].
Qed.

Lemma view_none c b x : wf c -> (forall s, ~ owner c s x) -> view c b x = bk_byte b x.
Proof.
  intros W Hno. unfold view. destruct (find_spec c x W) as [[_ Ho]|[-> _]].
  - destruct (Hno _ Ho).
  - rewrite Z.eqb_refl. reflexivity.
Qed.

Lemma owner_cases c x : wf c -> (exists s, owner c s x) \/ (forall s, ~ owner c s x).
Proof. intros W. destruct (find_spec c x W) as [[_ H1]|[_ H1]]; eauto. Qed.

Lemma view_intro c b x v : wf c ->
  (forall s, owner c s x -> line_byte c s x = v) ->
  ((forall s, ~ owner c s x) -> bk_byte b x = v) -> view c b x = v.
Proof.
  intros W H1 H2. destruct (owner_cases c x W) as [[s Ho]|Hno].
  - rewrite (view_owner c b s x W Ho). auto.
  - rewrite (view_none c b x W Hno). auto.
Qed.

Lemma view_frame c c' b x : lines c' = lines c -> view c' b x = view c b x.
Proof. intros Hl. unfold view, line_byte, find, hit, line. rewrite Hl. reflexivity. Qed.

Lemma good_frame c c' b : good c b -> lines c' = lines c -> cacr c' = cacr c ->
  acr c' = acr c -> 0 <= replacement c' < 4 -> good c' b.
Proof.
  intros [W C D K] Hl Hc Ha Hr.
  assert (Hline : forall s, line c' s = line c s) by (intros; unfold line; rewrite Hl; reflexivity).
  split; [| | | assumption].
  - apply (wf_frame c); [assumption | assumption | rewrite Ha; apply W | assumption].
  - intros s x. unfold owner, line_byte. rewrite Hline. apply C.
  - intros s Hs. unfold line_allowed, mode. rewrite Hline, Hc, Ha. apply (D s Hs).
Qed.

Lemma line_byte_set_line c s l s' x : wf c -> is_slot s -> is_slot s' ->
  line_byte (set_line s l c) s' x =
  if decide (s = s') then l_bytes l !!! Z.to_nat (x mod 16) else line_byte c s' x.
Proof.
  intros W Hs [? ?]. unfold line_byte.
  rewrite line_set_line by (apply wf_len || assumption || lia; assumption).
  case_decide; reflexivity.
Qed.

(** Replacing a line that agrees with the backing memory by one that agrees
    with the view leaves the view unchanged. *)
Lemma view_replace c b s l x : wf c -> fits c s l ->
  (owner c s x -> line_byte c s x = bk_byte b x) ->
  (l_valid l = true -> l_address l = x - x mod 16 ->
    l_bytes l !!! Z.to_nat (x mod 16) = view c b x) ->
  view (set_line s l c) b x = view c b x.
Proof.
  intros W Hf Hold Hnew. pose proof Hf as (Hs & _ & _).
  apply view_intro; [apply wf_set_line; assumption | ..].
  - intros s' Ho. pose proof (proj1 Ho) as Hs'. rewrite line_byte_set_line by assumption.
    apply owner_set_line in Ho; [| assumption..].
    destruct Ho as [(-> & Hv & Ha)|(Hne & Ho)].
    + rewrite decide_True by reflexivity. auto.
    + rewrite decide_False by congruence. symmetry. apply view_owner; assumption.
  - intros Hno. symmetry. apply view_intro; [assumption | | reflexivity].
    intros s' Ho. destruct (Z.eq_dec s' s) as [->|Hne]; [auto |].
    destruct (Hno s'). apply owner_set_line; auto.
Qed.

Lemma coherent_set_line c b s l : wf c -> is_slot s ->
  (forall s' x, s' <> s -> owner c s' x -> l_dirty (line c s') = false ->
    line_byte c s' x = bk_byte b x) ->
  (l_valid l = true -> l_dirty l = false -> forall x, l_address l = x - x mod 16 ->
    l_bytes l !!! Z.to_nat (x mod 16) = bk_byte b x) ->
  coherent (set_line s l c) b.
Proof.
  intros W Hs C Hl s' x Ho. pose proof (proj1 Ho) as Hs'.
  rewrite line_byte_set_line by assumption.
  rewrite line_set_line by (apply wf_len || assumption || apply Hs'; assumption).
  apply owner_set_line in Ho; [| assumption..].
  destruct Ho as [(-> & Hv & Ha)|(Hne & Ho)].
  - rewrite !decide_True by reflexivity. auto.
  - rewrite !decide_False by congruence. apply C; assumption.
Qed.

Lemma disciplined_set_line c s l : wf c -> is_slot s -> disciplined c ->
  line_allowed c l -> disciplined (set_line s l c).
Proof.
  intros W Hs D Hl s' Hs'.
  rewrite line_set_line by (apply wf_len || assumption || apply Hs'; assumption).
  case_decide; [exact Hl | exact (D s' Hs')].
Qed.

Lemma good_set_line c b s l : good c b -> fits c s l -> line_allowed c l ->
  (l_valid l = true -> l_dirty l = false -> forall x, l_address l = x - x mod 16 ->
    l_bytes l !!! Z.to_nat (x mod 16) = bk_byte b x) ->
  good (set_line s l c) b.
Proof.
  intros [W C D K] Hf Hl Hb. pose proof (proj1 Hf).
  split; [apply wf_set_line | apply coherent_set_line | apply disciplined_set_line |]; auto.
Qed.

(** A write to the backing memory shows where no line covers it. *)
Lemma view_write c b a bs x : wf c -> bk_ok b -> in_line a (Z.of_nat (length bs)) ->
  view c (bk_write b a bs) x =
  if decide (in_range a (Z.of_nat (length bs)) x /\ find c (x - x mod 16) = NoSlot)
  then bs !!! Z.to_nat (x - a) else view c b x.
Proof.
  intros W K Hl. unfold view. rewrite bk_write_byte by assumption.
  destruct (Z.eqb_spec (find c (x - x mod 16)) NoSlot); repeat case_decide; tauto.
Qed.

Lemma coherent_write c b a bs : bk_ok b -> in_line a (Z.of_nat (length bs)) ->
  (forall s x, owner c s x -> in_range a (Z.of_nat (length bs)) x ->
    l_dirty (line c s) = false -> line_byte c s x = bs !!! Z.to_nat (x - a)) ->
  coherent c b -> coherent c (bk_write b a bs).
Proof.
  intros K Hl Hin C s x Ho Hd. rewrite bk_write_byte by assumption.
  case_decide; [apply Hin | apply C]; assumption.
Qed.

(** ** One transaction

    [txn v0 c b]: in the middle of a transaction that started when the guest
    saw [v0]; the first [offset] bytes are done. *)

Record txn (v0 : mem) (c : WindowDataCache) (b : B) : Prop :=
  { txn_good : good c b;
    txn_active : active c = true;
    txn_pushing : pushing c = false;
    txn_offset : 0 <= offset c <= count c;
    txn_count : 0 < count c <= 8;
    txn_address : 0 <= address c /\ address c + count c <= 2 ^ 32;
    txn_length : Z.of_nat (length (bytes c)) = count c;
    txn_view : forall x, view c b x =
      if write c then mwrite v0 (address c) (take (Z.to_nat (offset c)) (bytes c)) x else v0 x;
    txn_read : write c = false -> forall i, 0 <= i < offset c ->
      bytes c !!! Z.to_nat i = v0 (address c + i) }.

(** Work still to do for the line at the current position. *)
Definition stage (c : WindowDataCache) : Z :=
  let x := address c + offset c in
  let la := x - x mod 16 in
  if find c la =? NoSlot then
    let old := line c (victim c (setIndex la)) in
    if l_valid old && l_dirty old then 2 else 1
  else 0.

Definition measure (c : WindowDataCache) : Z := 3 * (count c - offset c) + stage c.

Lemma stage_range c : 0 <= stage c <= 2.
Proof. unfold stage. repeat case_match; lia. Qed.

(** How the backing memory answers an action. *)
Definition answer (b : B) (a : Action) : list Z * B :=
  match act_kind a with
  | Read => (bk_read b (act_address a) (act_size a), b)
  | Write => ([], bk_write b (act_address a) (act_bytes a))
  | Done => ([], b)
  end.

(** The fields a transaction keeps from one position to the next. *)
Definition same_txn (c c' : WindowDataCache) : Prop :=
  active c' = active c /\ pushing c' = pushing c /\ count c' = count c /\
  address c' = address c /\ write c' = write c /\
  regions c' = regions c /\ cacr c' = cacr c /\ acr c' = acr c.

(** [c'] is a later state of the transaction [c] is in. *)
Definition goes_on (c c' : WindowDataCache) : Prop :=
  pending c' = None_ /\ same_txn c c' /\ (write c = true -> bytes c' = bytes c).

(** The action [a] leads, through its answer, to a state with less to do. *)
Definition progress (v0 : mem) (c0 : WindowDataCache) (b : B) (a : Action)
    (c : WindowDataCache) : Prop :=
  act_kind a <> Done /\
  exists c', complete (answer b a).1 c = Ok c' /\ txn v0 c' (answer b a).2 /\
    goes_on c0 c' /\ measure c' < measure c0.

(** The current address and the size of the chunk at the current position. *)
Definition cur (c : WindowDataCache) : Z := address c + offset c.
Definition chunk_size (c : WindowDataCache) : Z :=
  Z.min (count c - offset c) (16 - cur c mod 16).
Definition chunk (c : WindowDataCache) : list Z :=
  slice (bytes c) (Z.to_nat (offset c)) (Z.to_nat (chunk_size c)).

Ltac solve_same := repeat split; cbn; congruence.
Ltac solve_goes_on := split; [reflexivity || assumption | split; [solve_same |]];
  cbn; (reflexivity || congruence).

Lemma cur_facts v0 c b : txn v0 c b -> offset c < count c ->
  0 <= cur c /\ cur c < 2 ^ 32 /\ 0 < chunk_size c <= 16 /\ offset c + chunk_size c <= count c /\
  cur c mod 16 + chunk_size c <= 16.
Proof. intros T Ho. destruct T. unfold chunk_size, cur. pow2. dlia. Qed.

Lemma length_chunk v0 c b : txn v0 c b -> offset c < count c ->
  Z.of_nat (length (chunk c)) = chunk_size c.
Proof.
  intros T Ho. pose proof (cur_facts v0 c b T Ho). destruct T. unfold chunk.
  rewrite length_slice; lia.
Qed.

Lemma chunk_byte v0 c b x : txn v0 c b -> offset c < count c ->
  in_range (cur c) (chunk_size c) x -> chunk c !!! Z.to_nat (x - cur c) = bytes c !!! Z.to_nat (x - address c).
Proof.
  intros T Ho Hx. unfold in_range in Hx. destruct T. unfold chunk.
  rewrite lookup_total_slice by lia. f_equal. unfold cur. lia.
Qed.

Lemma cur_in_line v0 c b : txn v0 c b -> offset c < count c ->
  in_line (cur c) (Z.of_nat (length (chunk c))).
Proof.
  intros T Ho. rewrite (length_chunk v0 c b T Ho). pose proof (cur_facts v0 c b T Ho).
  unfold in_line. lia.
Qed.

Lemma mwrite_take m a bs o n x : 0 <= o -> 0 < n -> o + n <= Z.of_nat (length bs) ->
  mwrite m a (take (Z.to_nat (o + n)) bs) x =
  if decide (in_range (a + o) n x) then bs !!! Z.to_nat (x - a)
  else mwrite m a (take (Z.to_nat o) bs) x.
Proof.
  intros Ho Hn Hl. unfold mwrite, in_range. rewrite !length_take.
  repeat case_decide; try lia; try reflexivity.
  all: rewrite !list_lookup_total_alt, !lookup_take_lt by lia; reflexivity.
Qed.

Lemma txn_idle v0 c c' b b' : txn v0 c b -> good c' b' -> same_txn c c' ->
  bytes c' = bytes c -> offset c' = offset c ->
  (forall x, view c' b' x = view c b x) -> txn v0 c' b'.
Proof.
  intros [] G (Ha & Hp & Hc & Had & Hw & _) Hb Ho Hv.
  split; rewrite ?Ha, ?Hp, ?Hc, ?Had, ?Hw, ?Hb, ?Ho; try assumption.
  intros x. rewrite Hv. auto.
Qed.

Lemma txn_write_step v0 c c' b b' : txn v0 c b -> offset c < count c -> write c = true ->
  good c' b' -> same_txn c c' -> bytes c' = bytes c -> offset c' = offset c + chunk_size c ->
  (forall x, view c' b' x = if decide (in_range (cur c) (chunk_size c) x)
                            then bytes c !!! Z.to_nat (x - address c) else view c b x) ->
  txn v0 c' b'.
Proof.
  intros T Hlt Hwr G (Ha & Hp & Hc & Had & Hw & _) Hb Ho Hv.
  pose proof (cur_facts v0 c b T Hlt). destruct T.
  split; rewrite ?Ha, ?Hp, ?Hc, ?Had, ?Hw, ?Hb, ?Ho; try assumption; try lia.
  - intros x. rewrite Hwr, mwrite_take, Hv, txn_view0, Hwr by lia. reflexivity.
  - congruence.
Qed.

Lemma txn_read_step v0 c c' b data : txn v0 c b -> offset c < count c -> write c = false ->
  good c' b -> same_txn c c' -> offset c' = offset c + chunk_size c ->
  (forall x, view c' b x = view c b x) ->
  bytes c' = splice (bytes c) (Z.to_nat (offset c)) data ->
  Z.of_nat (length data) = chunk_size c ->
  (forall i, 0 <= i < chunk_size c -> data !!! Z.to_nat i = view c b (cur c + i)) ->
  txn v0 c' b.
Proof.
  intros T Hlt Hwr G (Ha & Hp & Hc & Had & Hw & _) Ho Hv Hb Hl Hd.
  pose proof (cur_facts v0 c b T Hlt). destruct T.
  split; rewrite ?Ha, ?Hp, ?Hc, ?Had, ?Hw, ?Hb, ?Ho; try assumption; try lia.
  - rewrite length_splice; lia.
  - intros x. rewrite Hv, txn_view0, Hwr. reflexivity.
  - intros _ i Hi. rewrite lookup_total_splice by lia. unfold in_range. case_decide.
    + rewrite Hd, txn_view0, Hwr by lia. unfold cur. f_equal. lia.
    + apply txn_read0; [assumption | lia].
Qed.

(** ** The cases of one pass of [next]'s loop *)

Definition here (c : WindowDataCache) : WindowDataCache :=
  c <| pending_size := chunk_size c |> <| pending_address := cur c - cur c mod 16 |>.
Definition slot_here (c : WindowDataCache) : Z := find c (cur c - cur c mod 16).

Lemma next_body_eq v0 c b : txn v0 c b -> offset c < count c ->
  next_body c =
  if (2 <=? mode c (cur c)) || (write c && (mode c (cur c) =? 0) && (slot_here c =? NoSlot)) then
    (Some (mkAction (if write c then Write else Read) (cur c) (chunk_size c)
             (if write c then chunk c else [])),
     here c <| pending := if write c then BypassWrite else BypassRead |>)
  else if slot_here c =? NoSlot then
    let v := victim c (setIndex (cur c - cur c mod 16)) in
    let c' := here c <| pending_slot := v |> in
    let old := line c v in
    if l_valid old && l_dirty old then
      (Some (mkAction Write (l_address old) LineBytes (l_bytes old)), c' <| pending := Evict |>)
    else (Some (mkAction Read (cur c - cur c mod 16) LineBytes []), c' <| pending := Fill |>)
  else
    let l := line c (slot_here c) in
    if write c then
      let l := l <| l_bytes := splice (l_bytes l) (Z.to_nat (cur c mod 16)) (chunk c) |> in
      if mode c (cur c) =? 0 then
        (Some (mkAction Write (cur c) (chunk_size c) (chunk c)),
         set_line (slot_here c) l (here c) <| pending := WriteThrough |>
           <| pending_slot := slot_here c |>)
      else (None, set_line (slot_here c) (l <| l_dirty := true |>) (here c)
                    <| offset ::= fun o => u32 (o + chunk_size c) |>)
    else
      (None, here c <| bytes ::= fun bs => splice bs (Z.to_nat (offset c))
                    (slice (l_bytes l) (Z.to_nat (cur c mod 16)) (Z.to_nat (chunk_size c))) |>
               <| offset ::= fun o => u32 (o + chunk_size c) |>).
Proof.
  intros T Ho. pose proof (cur_facts v0 c b T Ho) as (H1 & H2 & _).
  unfold next_body.
  assert (E1 : u64 (address c + offset c) = cur c) by (apply wrap_small; word).
  assert (E2 : Z.land (cur c) (Z.lxor (LineBytes - 1) max_u64) = cur c - cur c mod 16)
    by (apply line_mask; word).
  assert (E3 : u32 (cur c - (cur c - cur c mod 16)) = cur c mod 16)
    by (rewrite wrap_small; [lia | unfold is_word; pow2; dlia]).
  cbv zeta. rewrite !E1, !E2, !E3. reflexivity.
Qed.

(** What a completed chunk does to the offset. *)
Lemma offset_advance v0 c b : txn v0 c b -> offset c < count c ->
  u32 (offset c + chunk_size c) = offset c + chunk_size c.
Proof.
  intros T Ho. pose proof (cur_facts v0 c b T Ho). destruct T. apply wrap_small. word.
Qed.

Lemma measure_advance c c' : same_txn c c' -> offset c' = offset c + chunk_size c ->
  0 < chunk_size c -> measure c' < measure c.
Proof.
  intros (_ & _ & Hc & _) Ho Hn. unfold measure. pose proof (stage_range c).
  pose proof (stage_range c'). lia.
Qed.

Lemma slot_here_none c x : wf c -> slot_here c = NoSlot -> x - x mod 16 = cur c - cur c mod 16 ->
  forall s, ~ owner c s x.
Proof.
  intros W Hn Hx. unfold slot_here in Hn. rewrite <- Hx in Hn.
  destruct (find_spec c x W) as [[? _]|[_ ?]]; [contradiction | assumption].
Qed.

Lemma slot_here_owner c x : wf c -> slot_here c <> NoSlot -> x - x mod 16 = cur c - cur c mod 16 ->
  owner c (slot_here c) x.
Proof.
  intros W Hn Hx. unfold slot_here in *. rewrite <- Hx in *.
  destruct (find_spec c x W) as [[_ ?]|[? _]]; [assumption | contradiction].
Qed.

(** A cache-inhibited address is in no line. *)
Lemma inhibited_no_slot c b : good c b -> 2 <= mode c (cur c) -> slot_here c = NoSlot.
Proof.
  intros [W C D _] Hm. destruct (Z.eq_dec (slot_here c) NoSlot) as [|Hn]; [assumption |].
  destruct (slot_here_owner c (cur c) W Hn eq_refl) as (Hs & Hv & Ha).
  destruct (D _ Hs Hv) as [Hlt _]. rewrite Ha in Hlt.
  rewrite (mode_line c _ (cur c)) in Hlt by dlia. lia.
Qed.

(** The bytes of the current chunk are in the current line. *)
Lemma range_line v0 c b x : txn v0 c b -> offset c < count c ->
  in_range (cur c) (chunk_size c) x -> x - x mod 16 = cur c - cur c mod 16.
Proof.
  intros T Ho Hx. pose proof (cur_facts v0 c b T Ho). unfold in_range in Hx. dlia.
Qed.

Lemma bypass_progress v0 c b : txn v0 c b -> offset c < count c ->
  slot_here c = NoSlot ->
  progress v0 c b
    (mkAction (if write c then Write else Read) (cur c) (chunk_size c)
       (if write c then chunk c else []))
    (here c <| pending := if write c then BypassWrite else BypassRead |>).
Proof.
  intros T Ho Hn. pose proof (cur_facts v0 c b T Ho) as F.
  pose proof (offset_advance v0 c b T Ho) as E. pose proof (txn_active v0 c b T) as A.
  pose proof (txn_good v0 c b T) as G. pose proof (good_wf c b G) as W.
  pose proof (wf_repl c W). pose proof (good_bk c b G) as K.
  pose proof (cur_in_line v0 c b T Ho) as L.
  pose proof (length_chunk v0 c b T Ho) as HL.
  destruct (write c) eqn:Hw; (split; [discriminate |]); eexists; cbn.
  - unfold complete; cbn. rewrite A, E. split; [reflexivity |].
    split; [|split; [solve_goes_on | apply measure_advance; [solve_same | reflexivity | lia]]].
    apply (txn_write_step v0 c _ b); try assumption; try reflexivity.
    + destruct G as [_ C D _]. apply (good_frame c); [split |..]; try reflexivity; try assumption.
      * apply coherent_write; try assumption.
        intros s x Hs Hx. destruct (slot_here_none c x W Hn) with s; [| assumption].
        rewrite HL in Hx. apply (range_line v0 c b); assumption.
      * apply bk_write_ok; [exact K | exact L].
    + solve_same.
    + intros x. rewrite (view_frame c) by reflexivity. rewrite view_write by assumption.
      rewrite HL. repeat case_decide; try tauto.
      * apply (chunk_byte v0 c b); tauto.
      * destruct H2. split; [assumption |].
        rewrite (range_line v0 c b x T Ho) by assumption. exact Hn.
  - rewrite HL || idtac. unfold complete; cbn. rewrite A.
    assert (HR : length (bk_read b (cur c) (chunk_size c)) = Z.to_nat (chunk_size c))
      by (apply bk_read_length; [assumption | unfold in_line; lia]).
    rewrite HR, Z2Nat.id, Z.eqb_refl by lia. cbn. rewrite E. split; [reflexivity |].
    split; [|split; [solve_goes_on | apply measure_advance; [solve_same | reflexivity | lia]]].
    eapply (txn_read_step v0 c); try assumption; try reflexivity.
    + apply (good_frame c); try assumption; reflexivity.
    + solve_same.
    + rewrite HR; lia.
    + intros i Hi. rewrite bk_read_byte by (assumption || unfold in_line; lia).
      symmetry. apply view_none; [assumption |]. apply slot_here_none; try assumption.
      apply (range_line v0 c b); try assumption. unfold in_range; lia.
Qed.

Lemma view_modify c b b' s l x v : wf c -> fits c s l -> l_valid l = true ->
  l_address l = l_address (line c s) -> l_valid (line c s) = true ->
  (owner c s x -> l_bytes l !!! Z.to_nat (x mod 16) = v) ->
  (~ owner c s x -> bk_byte b' x = bk_byte b x) ->
  view (set_line s l c) b' x = if decide (owner c s x) then v else view c b x.
Proof.
  intros W Hf Hv Ha Hv' Hin Hout. pose proof (proj1 Hf) as Hs.
  apply view_intro; [apply wf_set_line; assumption | ..].
  - intros s' Ho. pose proof (proj1 Ho) as Hs'. rewrite line_byte_set_line by assumption.
    apply owner_set_line in Ho; [| assumption..]. destruct Ho as [(-> & _ & Ho)|(Hne & Ho)].
    + assert (owner c s x) by (split; [|split]; congruence).
      rewrite !decide_True by auto. auto.
    + rewrite decide_False by congruence. rewrite decide_False by (intros ?; apply Hne; eapply wf_unique; eauto).
      symmetry. apply view_owner; assumption.
  - intros Hno. assert (Hn : forall s', ~ owner c s' x).
    { intros s' Ho. apply (Hno s'). apply owner_set_line; [assumption.. |].
      destruct (Z.eq_dec s' s) as [->|]; [left | right; auto].
      destruct Ho as (_ & _ & Ho). split; [|split]; congruence. }
    rewrite decide_False by apply Hn. rewrite view_none by assumption. apply Hout, Hn.
Qed.

Lemma line_bytes_range l x : l_address l = x - x mod 16 -> length (l_bytes l) = 16%nat ->
  in_range (l_address l) (Z.of_nat (length (l_bytes l))) x /\ x - l_address l = x mod 16.
Proof. intros -> ->. unfold in_range. dlia. Qed.

Lemma range_line_bytes l x : l_address l mod 16 = 0 -> length (l_bytes l) = 16%nat ->
  in_range (l_address l) (Z.of_nat (length (l_bytes l))) x -> l_address l = x - x mod 16.
Proof. intros Ha -> Hx. unfold in_range in Hx. dlia. Qed.

(** Writing a dirty line back and dropping it. *)
Lemma evict_step c b v l : good c b -> is_slot v -> l = line c v -> l_valid l = true ->
  l_dirty l = true ->
  let b' := bk_write b (l_address l) (l_bytes l) in
  good c b' /\ good (set_line v (invalidate_line l) c) b' /\
  (forall x, view (set_line v (invalidate_line l) c) b' x = view c b x) /\
  (forall x, view c b' x = view c b x) /\ (forall x, owner c v x -> line_byte c v x = bk_byte b' x).
Proof.
  intros G Hv El Hval Hd b'. pose proof G as [W C D K].
  pose proof (wf_bytes c W v Hv) as Hlen. pose proof (wf_aligned c W v Hv) as Hal.
  rewrite <- El in Hlen, Hal. specialize (Hal Hval) as [Hu Hal].
  assert (L : in_line (l_address l) (Z.of_nat (length (l_bytes l))))
    by (rewrite Hlen; unfold in_line, is_word in *; lia).
  assert (Hown : forall x, owner c v x <-> l_address l = x - x mod 16)
    by (intros; unfold owner; rewrite <- El; tauto).
  assert (Hbk : forall x, owner c v x -> line_byte c v x = bk_byte b' x).
  { intros x Ho. apply Hown in Ho. unfold b', line_byte. rewrite bk_write_byte by assumption.
    destruct (line_bytes_range l x Ho Hlen) as [Hr <-]. rewrite decide_True by assumption.
    rewrite <- El. reflexivity. }
  assert (G' : good c b').
  { split; [assumption | | assumption | apply bk_write_ok; assumption].
    apply coherent_write; try assumption. intros s x Ho Hr Hc.
    apply range_line_bytes in Hr; [| assumption..]. apply Hown in Hr.
    rewrite (wf_unique c W s v x Ho Hr), <- El in Hc. congruence. }
  assert (Hvw : forall x, view c b' x = view c b x).
  { intros x. unfold b'. rewrite view_write by assumption. rewrite decide_False; [reflexivity |].
    intros [Hr Hn]. apply range_line_bytes in Hr; [| assumption..]. apply Hown in Hr.
    rewrite (find_owner c v x W Hr) in Hn. destruct Hv. lia. }
  assert (Hfit : fits c v (invalidate_line l))
    by (apply fits_same; try assumption; [discriminate | cbn; congruence]).
  split; [assumption | split; [| split; [| split; assumption]]].
  - apply good_set_line; try assumption; discriminate.
  - intros x. rewrite view_replace; try assumption; [apply Hvw | apply Hbk | discriminate].
Qed.

Lemma txn_cur v0 c b : txn v0 c b -> offset c < count c -> is_u32 (cur c).
Proof. intros T Ho. pose proof (cur_facts v0 c b T Ho). word. Qed.

(** The victim of the current line: a slot of its set. *)
Definition victim_here (c : WindowDataCache) : Z := victim c (setIndex (cur c - cur c mod 16)).

Lemma setIndex_line x : setIndex (x - x mod 16) = setIndex x.
Proof. rewrite !setIndex_mod. dlia. Qed.

Lemma victim_here_slot c : wf c -> is_slot (victim_here c) /\ victim_here c / 4 = setIndex (cur c).
Proof.
  intros W. unfold victim_here. rewrite setIndex_line.
  pose proof (setIndex_range (cur c)) as Hr.
  pose proof (victim_range c (setIndex (cur c)) (wf_repl c W) Hr) as Hv.
  unfold is_slot, NoSlot, Sets, Ways. case_match; dlia.
Qed.

Lemma fill_progress v0 c b : txn v0 c b -> offset c < count c ->
  slot_here c = NoSlot -> mode c (cur c) < 2 -> (write c = true -> mode c (cur c) <> 0) ->
  l_valid (line c (victim_here c)) && l_dirty (line c (victim_here c)) = false ->
  progress v0 c b (mkAction Read (cur c - cur c mod 16) LineBytes [])
    (here c <| pending_slot := victim_here c |> <| pending := Fill |>).
Proof.
  intros T Ho Hn Hm Hm' Hold. pose proof (cur_facts v0 c b T Ho) as F.
  pose proof (txn_active v0 c b T) as A. pose proof (txn_good v0 c b T) as G.
  pose proof G as [W C D K]. destruct (victim_here_slot c W) as [Hs Hq].
  pose proof (slot_here_none c (cur c) W Hn eq_refl) as Hno.
  assert (L : in_line (cur c - cur c mod 16) LineBytes) by (unfold in_line, LineBytes; dlia).
  set (data := bk_read b (cur c - cur c mod 16) LineBytes).
  assert (Hlen : length data = 16%nat)
    by (unfold data; rewrite bk_read_length by assumption; reflexivity).
  split; [discriminate |]. cbn. fold data. unfold complete; cbn. rewrite A, Hlen. cbn.
  eexists. split; [reflexivity |].
  set (l := mkLine data (cur c - cur c mod 16) true false).
  assert (Hb : forall x, l_address l = x - x mod 16 ->
    l_bytes l !!! Z.to_nat (x mod 16) = bk_byte b x).
  { intros x Hx. cbn in Hx |- *. unfold data.
    rewrite bk_read_byte by (assumption || unfold LineBytes; dlia). f_equal. lia. }
  assert (Hfit : fits c (victim_here c) l)
    by (apply fits_fill; [| apply (txn_cur v0 c b) | ..]; assumption).
  assert (Hcl : forall x, owner c (victim_here c) x -> line_byte c (victim_here c) x = bk_byte b x).
  { intros x Hx. apply C; [assumption |]. destruct Hx as (_ & Hv & _).
    rewrite Hv in Hold. exact Hold. }
  assert (G' : good (set_line (victim_here c) l c) b).
  { apply good_set_line; [assumption.. | |].
    - intros _. cbn. rewrite (mode_line c _ (cur c)) by dlia. auto.
    - intros _ _. exact Hb. }
  assert (Hvw : forall x, view (set_line (victim_here c) l c) b x = view c b x).
  { intros x. apply view_replace; auto. intros _ Hx. rewrite (Hb x Hx). symmetry.
    apply view_none; [assumption |]. apply slot_here_none; [assumption.. |]. symmetry. exact Hx. }
  split; [|split; [solve_goes_on |]].
  - apply (txn_idle v0 c _ b); try reflexivity; [assumption | | solve_same |].
    + apply (good_frame (set_line (victim_here c) l c)); try reflexivity; [assumption |].
      cbn. rewrite land_ways. apply Z.mod_pos_bound. lia.
    + intros x. rewrite <- Hvw. apply view_frame. reflexivity.
  - assert (S1 : stage c = 1).
    { unfold stage. fold (cur c) (slot_here c) (victim_here c).
      rewrite Hn, Z.eqb_refl, Hold. reflexivity. }
    unfold measure. rewrite S1. cbn. unfold stage; cbn.
    fold (cur c). destruct (Z.eqb_spec (find (set_line (victim_here c) l c) (cur c - cur c mod 16)) NoSlot) as [E|E].
    + exfalso. assert (Ho' : owner (set_line (victim_here c) l c) (victim_here c) (cur c))
        by (apply owner_set_line; auto).
      apply find_owner in Ho'; [| apply G']. rewrite Ho' in E. destruct Hs. lia.
    + erewrite (proj2 (Z.eqb_neq _ _)); [lia |]. exact E.
Qed.
(** An invalidated victim leaves an invalid victim. *)
Lemma victim_invalidated c l : wf c -> l_valid l = false ->
  l_valid (line (set_line (victim_here c) l c) (victim_here (set_line (victim_here c) l c))) = false.
Proof.
  intros W Hl. destruct (victim_here_slot c W) as [Hs _].
  apply not_true_iff_false. intros Hv. unfold victim_here at 2 in Hv.
  pose proof (setIndex_range (cur c - cur c mod 16)) as Hr.
  pose proof (victim_range c _ (wf_repl c W) Hr) as Hw. fold (victim_here c) in Hw.
  pose proof (victim_valid _ _ Hv (victim_here c) Hw) as Hv'.
  rewrite line_set_line in Hv' by (apply Hs || (apply wf_len; assumption)).
  rewrite decide_True in Hv' by reflexivity.
  congruence.
Qed.

Lemma evict_progress v0 c b : txn v0 c b -> offset c < count c -> slot_here c = NoSlot ->
  let l := line c (victim_here c) in l_valid l && l_dirty l = true ->
  progress v0 c b (mkAction Write (l_address l) LineBytes (l_bytes l))
    (here c <| pending_slot := victim_here c |> <| pending := Evict |>).
Proof.
  intros T Ho Hn l Hold. pose proof (txn_active v0 c b T) as A.
  pose proof (txn_good v0 c b T) as G. pose proof G as [W C D K].
  destruct (victim_here_slot c W) as [Hs _]. pose proof Hold as Hvd.
  apply andb_true_iff in Hvd as [Hv Hd].
  destruct (evict_step c b (victim_here c) l G Hs eq_refl Hv Hd) as (_ & G' & Hvw & _).
  split; [discriminate |]. cbn. unfold complete; cbn. rewrite A. cbn.
  eexists. split; [reflexivity |].
  change (line (here c <| pending_slot := victim_here c |> <| pending := Evict |>) (victim_here c)) with l.
  split; [|split; [solve_goes_on |]].
  - apply (txn_idle v0 c _ b); try reflexivity; [assumption | | solve_same |].
    + apply (good_frame (set_line (victim_here c) (invalidate_line l) c)); try reflexivity; [assumption |].
      apply W.
    + intros x. rewrite <- Hvw. apply view_frame. reflexivity.
  - set (c1 := set_line (victim_here c) (invalidate_line l) c) in *.
    assert (S1 : stage c = 2).
    { unfold stage. fold (cur c) (slot_here c) (victim_here c) l.
      rewrite Hn, Z.eqb_refl, Hold. reflexivity. }
    assert (S2 : stage c1 <= 1).
    { unfold stage. fold (cur c1) (slot_here c1) (victim_here c1).
      pose proof (victim_invalidated c (invalidate_line l) W eq_refl) as HI.
      fold c1 in HI. rewrite HI. cbn. case_match; lia. }
    unfold measure. rewrite S1. 
    match goal with |- _ * (count ?k - _) + _ < _ => change (stage k) with (stage c1) end.
    cbn. lia.
Qed.

(** A hit: the chunk lies in the owning line. *)
Lemma chunk_in_line v0 c b s : txn v0 c b -> offset c < count c -> owner c s (cur c) ->
  let bs := splice (l_bytes (line c s)) (Z.to_nat (cur c mod 16)) (chunk c) in
  length bs = 16%nat /\
  forall x, l_address (line c s) = x - x mod 16 ->
    bs !!! Z.to_nat (x mod 16) =
    if decide (in_range (cur c) (chunk_size c) x) then bytes c !!! Z.to_nat (x - address c)
    else line_byte c s x.
Proof.
  intros T Ho Hs. pose proof (cur_facts v0 c b T Ho) as F.
  pose proof (length_chunk v0 c b T Ho) as HL.
  pose proof (wf_bytes c (good_wf c b (txn_good v0 c b T)) s (proj1 Hs)) as H16.
  destruct Hs as (Hs & _ & Ha). split; [rewrite length_splice; [exact H16 | lia] |].
  intros x Hx. rewrite lookup_total_splice by (lia || dlia).
  unfold line_byte. rewrite HL.
  assert (E : x mod 16 - cur c mod 16 = x - cur c) by lia.
  unfold in_range in *. repeat case_decide; try lia.
  rewrite E. apply (chunk_byte v0 c b); try assumption.
Qed.

Lemma set_line_twice s l l' c : set_line s l' (set_line s l c) = set_line s l' c.
Proof. unfold set_line. cbn. rewrite list_insert_insert_eq. reflexivity. Qed.

(** Storing the current chunk in the line that owns it: [b'] is the backing
    memory, with the chunk written through when the line stays clean. *)
Lemma store_step v0 c b b' d : txn v0 c b -> offset c < count c -> write c = true ->
  owner c (slot_here c) (cur c) ->
  (d = true -> mode c (cur c) <> 0 /\ b' = b) ->
  (d = false -> l_dirty (line c (slot_here c)) = false /\ b' = bk_write b (cur c) (chunk c)) ->
  let l := line c (slot_here c) in
  let bs := splice (l_bytes l) (Z.to_nat (cur c mod 16)) (chunk c) in
  let l' := mkLine bs (l_address l) (l_valid l) d in
  good (set_line (slot_here c) l' c) b' /\
  forall x, view (set_line (slot_here c) l' c) b' x =
    if decide (in_range (cur c) (chunk_size c) x) then bytes c !!! Z.to_nat (x - address c)
    else view c b x.
Proof.
  intros T Ho Hw Hown Hdt Hdf l bs l'. pose proof (txn_good v0 c b T) as G.
  pose proof G as [W C D K]. pose proof Hown as (Hs & Hv & Ha).
  destruct (chunk_in_line v0 c b _ T Ho Hown) as [Hlen Hbs]. fold l bs in Hlen, Hbs.
  pose proof (cur_in_line v0 c b T Ho) as L. pose proof (length_chunk v0 c b T Ho) as HL.
  assert (Hr : forall x, in_range (cur c) (chunk_size c) x -> owner c (slot_here c) x).
  { intros x Hx. split; [|split]; try assumption. rewrite (range_line v0 c b x T Ho Hx). exact Ha. }
  assert (K' : bk_ok b') by (destruct d; [destruct (Hdt eq_refl) as [_ ->] |
    destruct (Hdf eq_refl) as [_ ->]; apply bk_write_ok]; assumption).
  assert (Hbk : forall x, bk_byte b' x =
    if decide (d = false /\ in_range (cur c) (chunk_size c) x)
    then bytes c !!! Z.to_nat (x - address c) else bk_byte b x).
  { intros x. destruct d.
    - destruct (Hdt eq_refl) as [_ ->]. rewrite decide_False; [reflexivity | intros [? _]; discriminate].
    - destruct (Hdf eq_refl) as [_ ->]. rewrite bk_write_byte, HL by assumption.
      repeat case_decide; try tauto. apply (chunk_byte v0 c b); assumption. }
  assert (Hfit : fits c (slot_here c) l') by (apply fits_same; auto).
  split; [split; [apply wf_set_line; assumption | | | assumption] |].
  - apply coherent_set_line; try assumption.
    + intros s x Hne Hsx Hc. rewrite Hbk, decide_False; [apply C; assumption |].
      intros [_ Hx]. apply Hne. exact (wf_unique c W _ _ x Hsx (Hr x Hx)).
    + cbn. intros _ -> x Hx. rewrite Hbs, Hbk by exact Hx. unfold l' in Hx; cbn in Hx.
      destruct (decide (in_range (cur c) (chunk_size c) x)).
      * rewrite decide_True by auto. reflexivity.
      * rewrite decide_False by tauto.
        apply C; [split; [|split]; assumption | apply Hdf; reflexivity].
  - apply disciplined_set_line; try assumption. intros _. cbn.
    destruct (D _ Hs Hv) as [D1 D2]. split; [assumption |]. intros Hm.
    destruct d; [| reflexivity]. destruct (Hdt eq_refl) as [Hne _]. destruct Hne.
    fold l in Hm, Ha. rewrite Ha in Hm. rewrite (mode_line c _ (cur c - cur c mod 16)) by dlia.
    exact Hm.
  - intros x. rewrite (view_modify c b b' _ l' x
      (if decide (in_range (cur c) (chunk_size c) x) then bytes c !!! Z.to_nat (x - address c)
       else view c b x)); try assumption; try reflexivity.
    + destruct (decide (owner c (slot_here c) x)) as [|Hx]; [reflexivity |].
      rewrite decide_False; [reflexivity |]. intros Hx'. apply Hx, Hr, Hx'.
    + intros Hx. cbn. rewrite Hbs by apply Hx. rewrite (view_owner c b _ x W Hx). reflexivity.
    + intros Hx. rewrite Hbk, decide_False; [reflexivity |].
      intros [_ Hx']. apply Hx, Hr, Hx'.
Qed.
(** One pass of the loop that needs no action moves the transaction on. *)
Definition advances (v0 : mem) (c : WindowDataCache) (b : B) (c' : WindowDataCache) : Prop :=
  txn v0 c' b /\ goes_on c c' /\ offset c < offset c' /\ measure c' < measure c.

Lemma write_through_progress v0 c b : txn v0 c b -> offset c < count c -> write c = true ->
  mode c (cur c) = 0 -> owner c (slot_here c) (cur c) ->
  let l := line c (slot_here c) in
  let l' := l <| l_bytes := splice (l_bytes l) (Z.to_nat (cur c mod 16)) (chunk c) |> in
  progress v0 c b (mkAction Write (cur c) (chunk_size c) (chunk c))
    (set_line (slot_here c) l' (here c) <| pending := WriteThrough |>
       <| pending_slot := slot_here c |>).
Proof.
  intros T Ho Hw Hm Hown l l'. pose proof (txn_active v0 c b T) as A.
  pose proof (txn_good v0 c b T) as G. pose proof G as [W C D K].
  pose proof (cur_facts v0 c b T Ho) as F. pose proof (offset_advance v0 c b T Ho) as E.
  pose proof Hown as (Hs & Hv & Ha). destruct (D _ Hs Hv) as [_ Hd].
  rewrite Ha, (mode_line c _ (cur c)) in Hd by dlia.
  destruct (store_step v0 c b (bk_write b (cur c) (chunk c)) false T Ho Hw Hown) as [G' Hvw];
    [discriminate | auto |].
  split; [discriminate |]. cbn. unfold complete; cbn. rewrite A, E. cbn.
  assert (El : forall k, lines k = lines (set_line (slot_here c) l' c) -> line k (slot_here c) = l').
  { intros k Hk. unfold line at 1. rewrite Hk. fold (line (set_line (slot_here c) l' c) (slot_here c)).
    rewrite line_set_line by (apply Hs || (apply wf_len; assumption)). apply decide_True. reflexivity. }
  rewrite El by reflexivity. eexists. split; [reflexivity |].
  split; [|split; [solve_goes_on | apply measure_advance; [solve_same | reflexivity | lia]]].
  set (l2 := mkLine _ _ _ false) in G', Hvw.
  apply (txn_write_step v0 c _ b); try reflexivity; try assumption; [| solve_same |].
  - apply (good_frame (set_line (slot_here c) l2 c)); try reflexivity; try assumption; [| apply W].
    cbn. apply list_insert_insert_eq.
  - intros x. rewrite <- Hvw. apply view_frame. cbn. apply list_insert_insert_eq.
Qed.

Lemma copyback_advances v0 c b : txn v0 c b -> offset c < count c -> pending c = None_ ->
  write c = true -> mode c (cur c) <> 0 -> owner c (slot_here c) (cur c) ->
  let l := line c (slot_here c) in
  let l' := l <| l_bytes := splice (l_bytes l) (Z.to_nat (cur c mod 16)) (chunk c) |>
              <| l_dirty := true |> in
  advances v0 c b (set_line (slot_here c) l' (here c)
                     <| offset ::= fun o => u32 (o + chunk_size c) |>).
Proof.
  intros T Ho P Hw Hm Hown l l'. pose proof (txn_good v0 c b T) as G. pose proof G as [W _ _ _].
  pose proof (cur_facts v0 c b T Ho) as F. pose proof (offset_advance v0 c b T Ho) as E.
  destruct (store_step v0 c b b true T Ho Hw Hown) as [G' Hvw]; [auto | discriminate |].
  unfold advances; cbn. rewrite E.
  split; [| split; [solve_goes_on | split; [lia |]]].
  - apply (txn_write_step v0 c _ b); try reflexivity; try assumption; [| solve_same].
    apply (good_frame (set_line (slot_here c) l' c)); try reflexivity; [assumption | apply W].
  - apply measure_advance; [solve_same | reflexivity | lia].
Qed.

Lemma hit_advances v0 c b : txn v0 c b -> offset c < count c -> pending c = None_ ->
  write c = false -> owner c (slot_here c) (cur c) ->
  let l := line c (slot_here c) in
  advances v0 c b (here c <| bytes ::= fun bs => splice bs (Z.to_nat (offset c))
                     (slice (l_bytes l) (Z.to_nat (cur c mod 16)) (Z.to_nat (chunk_size c))) |>
                   <| offset ::= fun o => u32 (o + chunk_size c) |>).
Proof.
  intros T Ho P Hw Hown l. pose proof (txn_good v0 c b T) as G. pose proof G as [W _ _ _].
  pose proof (cur_facts v0 c b T Ho) as F. pose proof (offset_advance v0 c b T Ho) as E.
  pose proof (wf_bytes c W _ (proj1 Hown)) as H16.
  unfold advances; cbn. rewrite E.
  split; [| split; [solve_goes_on | split; [lia |]]].
  - eapply (txn_read_step v0 c); try reflexivity; try assumption.
    + apply (good_frame c); try reflexivity; [assumption | apply W].
    + solve_same.
    + unfold l. rewrite length_slice; lia.
    + intros i Hi. rewrite lookup_total_slice by dlia.
      assert (Hx : (cur c + i) - (cur c + i) mod 16 = cur c - cur c mod 16) by dlia.
      rewrite (view_owner c b (slot_here c)); [| assumption |].
      * unfold line_byte, l. do 2 f_equal. dlia.
      * destruct Hown as (? & ? & ?). split; [|split]; congruence.
  - apply measure_advance; [solve_same | reflexivity | lia].
Qed.

Lemma body_step v0 c b : txn v0 c b -> offset c < count c -> pending c = None_ ->
  match next_body c with
  | (Some a, c') => progress v0 c b a c'
  | (None, c') => advances v0 c b c'
  end.
Proof.
  intros T Ho P. rewrite (next_body_eq v0 c b T Ho).
  pose proof (txn_good v0 c b T) as G. pose proof (good_wf c b G) as W.
  destruct (Z.leb_spec 2 (mode c (cur c))) as [Hm|Hm]; cbn [orb].
  { apply bypass_progress; try assumption. apply (inhibited_no_slot c b); assumption. }
  destruct (Z.eqb_spec (slot_here c) NoSlot) as [Hn|Hn].
  - destruct (write c && (mode c (cur c) =? 0) && true) eqn:Hwm.
    { apply bypass_progress; assumption. }
    fold (victim_here c).
    change (line (here c <| pending_slot := victim_here c |>) (victim_here c)) with (line c (victim_here c)).
    destruct (l_valid _ && l_dirty _) eqn:Hold.
    + apply evict_progress; assumption.
    + apply fill_progress; try assumption. intros Hw. rewrite Hw in Hwm. cbn [andb] in Hwm.
      rewrite andb_true_r in Hwm. apply Z.eqb_neq. exact Hwm.
  - rewrite andb_false_r.
    pose proof (slot_here_owner c (cur c) W Hn eq_refl) as Hown.
    destruct (write c) eqn:Hw; [destruct (Z.eqb_spec (mode c (cur c)) 0) |].
    + apply write_through_progress; assumption.
    + apply copyback_advances; assumption.
    + apply hit_advances; assumption.
Qed.

Lemma goes_on_trans c1 c2 c3 : goes_on c1 c2 -> goes_on c2 c3 -> goes_on c1 c3.
Proof.
  intros (_ & (?&?&?&?&W12&?&?&?) & B12) (P & (?&?&?&?&?&?&?&?) & B23).
  split; [assumption | split; [repeat split; congruence |]].
  intros Hw. rewrite B23, B12 by congruence. reflexivity.
Qed.

(** [next]'s loop, with fuel for every byte left, ends with an action to
    perform or with the end of the transaction. *)
Lemma next_loop_step v0 b n : forall c, txn v0 c b -> pending c = None_ ->
  (Z.to_nat (count c - offset c) < n)%nat ->
  exists a c', next_loop n c = Ok (a, c') /\
    (progress v0 c b a c' \/
     exists c1, txn v0 c1 b /\ goes_on c c1 /\ offset c1 = count c1 /\ finish c1 = (a, c')).
Proof.
  induction n as [|n IH]; intros c T P Hn; [lia |]. cbn [next_loop].
  pose proof (txn_offset v0 c b T) as Hoff.
  destruct (Z.ltb_spec (offset c) (count c)) as [Ho|Ho].
  - pose proof (body_step v0 c b T Ho P) as Hb.
    destruct (next_body c) as [[a|] c1]; [eauto |].
    destruct Hb as (T1 & G1 & Hlt & Hm). pose proof G1 as (P1 & (_ & _ & Hc & _) & _).
    pose proof (txn_offset v0 c1 b T1) as Hoff1.
    destruct (IH c1 T1 P1 ltac:(lia)) as (a & c' & E & Hend). exists a, c'. split; [exact E |].
    destruct Hend as [(Hk & c2 & E2 & T2 & G2 & Hm2)|(c2 & T2 & G2 & Ho2 & F2)]; [left | right].
    + split; [assumption |]. exists c2.
      split; [assumption | split; [assumption | split; [eapply goes_on_trans; eassumption | lia]]].
    + exists c2. repeat (split; [first [assumption | eapply goes_on_trans; eassumption] |]). assumption.
  - do 2 eexists. split; [reflexivity | right]. exists c.
    split; [assumption | split; [split; [assumption | repeat split] |]].
    split; [lia | reflexivity].
Qed.

(** What a finished transaction leaves behind. *)
Definition served (v0 : mem) (c : WindowDataCache) (bs : list Z) (c' : WindowDataCache) (b' : B) : Prop :=
  good c' b' /\ active c' = false /\ regions c' = regions c /\ cacr c' = cacr c /\ acr c' = acr c /\
  if write c then bs = [] /\ view c' b' ≐ mwrite v0 (address c) (bytes c)
  else bs = mread v0 (address c) (count c) /\ view c' b' ≐ v0.

Lemma finish_served v0 c c1 b : txn v0 c1 b -> goes_on c c1 -> offset c1 = count c1 ->
  served v0 c (act_bytes (finish c1).1) (finish c1).2 b.
Proof.
  intros T (_ & (_ & _ & Hc & Ha & Hw & Hr & Hcc & Hacr) & Hb) Ho.
  pose proof (txn_good v0 c1 b T) as G. unfold served, finish; cbn.
  split; [apply (good_frame c1); try reflexivity; [assumption | apply G] |].
  do 4 (split; [assumption || reflexivity |]). rewrite <- Hw, <- Ha, <- Hc.
  destruct T. destruct (write c1) eqn:Hw1; (split; [reflexivity || idtac |]).
  - intros x. rewrite (view_frame c1), txn_view0, Ho by reflexivity.
    rewrite firstn_all2 by lia. rewrite Hb by congruence. reflexivity.
  - apply list_eq_total; [rewrite length_mread; lia |]. intros i Hi.
    rewrite mread_byte, txn_read0 by (reflexivity || lia). reflexivity.
  - intros x. rewrite (view_frame c1), txn_view0 by reflexivity. reflexivity.
Qed.

Lemma served_goes_on v0 c c1 bs c' b' : goes_on c c1 -> served v0 c1 bs c' b' -> served v0 c bs c' b'.
Proof.
  intros (_ & (_ & _ & Hc & Ha & Hw & Hr & Hcc & Hacr) & Hb) (G & HA & S1 & S2 & S3 & S4).
  split; [assumption |]. do 4 (split; [congruence |]).
  rewrite Hw, Ha, Hc in S4. destruct (write c); [rewrite Hb in S4 by reflexivity|]; assumption.
Qed.

(** Driving a transaction ends, and does what the transaction asked. *)
Lemma drive_served v0 n : forall c b, txn v0 c b -> pending c = None_ -> measure c < Z.of_nat n ->
  exists bs c' b', drive n c b = Ok (bs, c', b') /\ served v0 c bs c' b'.
Proof.
  induction n as [|n IH]; intros c b T P Hn.
  { pose proof (stage_range c). destruct T. unfold measure in Hn. lia. }
  cbn [drive]. unfold next.
  rewrite throw_if_false by (rewrite (txn_active v0 c b T), P; reflexivity).
  rewrite (txn_pushing v0 c b T).
  destruct (next_loop_step v0 b (next_fuel c) c T P) as (a & c1 & -> & Hend).
  { unfold next_fuel. destruct T. lia. }
  cbn [mbind result_bind].
  destruct Hend as [(Hk & c2 & E2 & T2 & G2 & Hm2)|(c2 & T2 & G2 & Ho2 & F2)].
  - destruct (IH c2 (answer b a).2 T2 (proj1 G2) ltac:(lia)) as (bs & c' & b' & Hd & Hs).
    exists bs, c', b'. split; [| apply (served_goes_on v0 c c2); assumption].
    unfold answer in *. destruct (act_kind a); [congruence | |]; cbn in E2, Hd; rewrite E2; exact Hd.
  - pose proof (finish_served v0 c c2 b T2 G2 Ho2) as Hs. rewrite F2 in Hs.
    assert (act_kind a = Done) as -> by (injection F2 as <- _; reflexivity).
    do 3 eexists. split; [reflexivity | exact Hs].
Qed.
End Coherence.
