(* ===== verification/WindowCacheThm.v ===== *)
(** * What the window cache guarantees

    Data accesses are transparent: together with its backing memory the cache
    behaves as one flat memory ([access_transparent], [run_refines]).  Line
    pushes write back without changing what the guest sees ([cpushl_spec]);
    the invalidation bit of CACR drops the dirty data and counts it
    ([movec_invalidate]). *)
From S2P Require Import Prelude.
From S2P Require Import WindowCache.
From S2P Require Import Backing.
From S2P Require Import WindowCacheSpec.

(** ** Regions *)

Definition region_ok (r : Region) : Prop := 0 <= base r /\ 0 < size r /\ base r + size r <= 2 ^ 32.
Definition regions_ok (rs : list Region) : Prop := Forall region_ok rs.

Lemma find_region_some x rs r : find_region x rs = Some r -> r ∈ rs /\ in_region x r = true.
Proof.
  induction rs as [|r' rs IH]; cbn; [discriminate |].
  destruct (in_region x r') eqn:E; intros H.
  - injection H as ->. split; [left | assumption].
  - destruct (IH H). split; [right |]; assumption.
Qed.

(** A valid access stays below 2^32. *)
Lemma valid_access_range c x n w bs : regions_ok (regions c) -> is_u64 x -> 0 <= n ->
  bad_access c x n w bs = false -> 0 < n <= 8 /\ x + n <= 2 ^ 32 /\
  (w = true -> Z.of_nat (length bs) = n).
Proof.
  intros Hr Hx Hn. unfold bad_access, regionFor. rewrite !orb_false_iff.
  intros [[[H1 H2] H3] H4]. destruct (find_region x (regions c)) as [r|] eqn:E; [| discriminate].
  apply find_region_some in E as [Hin E].
  assert (region_ok r) as (? & ? & ?) by (unfold regions_ok in Hr; rewrite Forall_forall in Hr; apply Hr; assumption).
  apply andb_true_iff in E as [E1 E2]. apply Z.eqb_neq in H1. apply Z.ltb_ge in H2.
  apply Z.leb_le in E1. apply Z.ltb_lt in E2. apply Z.ltb_ge in H3.
  rewrite wrap_small in E2 by word. rewrite wrap_small in H3 by word.
  split; [lia | split; [lia |]]. intros ->. apply negb_false_iff, Z.eqb_eq in H4. exact H4.
Qed.

Definition disjoint (x n : Z) (r : Region) : Prop := x + n <= base r \/ base r + size r <= x.

Lemma bad_region_spec x n : is_u64 x -> is_u64 n ->
  bad_region x n = false <->
  0 < n <= 2 ^ 20 /\ x + n <= 2 ^ 32 /\ x mod 16 = 0 /\ n mod 16 = 0.
Proof.
  intros Hx Hn. unfold bad_region. change LineBytes with 16.
  rewrite !orb_false_iff, !negb_false_iff, !Z.eqb_eq, Z.eqb_neq, !Z.ltb_ge.
  split.
  - intros (((((? & ?) & ?) & H4) & ?) & ?). rewrite !wrap_small in H4 by word. word.
  - intros (? & ? & ? & ?). rewrite !wrap_small by word. repeat split; try assumption; word.
Qed.

Lemma overlap_spec x n r : is_u64 x -> 0 < n -> x + n <= 2 ^ 32 -> region_ok r ->
  regions_overlap x n r = false <-> disjoint x n r.
Proof.
  intros Hx Hn Hxn (? & ? & ?). unfold regions_overlap, disjoint.
  rewrite !wrap_small by word. rewrite andb_false_iff, !Z.ltb_ge. lia.
Qed.

Lemma addRegion_iff c x n : regions_ok (regions c) -> is_u64 x -> is_u64 n ->
  (exists c', addRegion x n c = Ok c') <->
  active c = false /\ 0 < n <= 2 ^ 20 /\ x + n <= 2 ^ 32 /\ x mod 16 = 0 /\ n mod 16 = 0 /\
  Forall (disjoint x n) (regions c).
Proof.
  intros Hr Hx Hn.
  assert (Hov : 0 < n -> x + n <= 2 ^ 32 ->
    existsb (regions_overlap x n) (regions c) = false <-> Forall (disjoint x n) (regions c)).
  { intros. revert Hr. unfold regions_ok. induction (regions c) as [|r rs IH]; cbn; [easy |].
    intros Hr. apply Forall_cons in Hr as [Hr Hrs].
    rewrite orb_false_iff, Forall_cons, IH, overlap_spec by assumption. tauto. }
  pose proof (bad_region_spec x n Hx Hn) as Hb. unfold addRegion. split.
  - intros [c' H']. inv_ok. tauto.
  - intros (Ha & H1 & H2 & H3 & H4 & H5). rewrite Ha. cbn.
    rewrite (proj2 Hb) by tauto. cbn. rewrite (proj2 (Hov ltac:(lia) H2) H5). cbn. eauto.
Qed.

(** [addRegion] accepts exactly the aligned windows of at most 1 MiB that end
    within 32 bits and overlap no other window. *)
Lemma addRegion_spec c x n : regions_ok (regions c) -> is_u64 x -> is_u64 n ->
  (exists c', addRegion x n c = Ok c') <->
  active c = false /\ 0 < n <= 2 ^ 20 /\ x + n <= 2 ^ 32 /\ x mod 16 = 0 /\ n mod 16 = 0 /\
  Forall (disjoint x n) (regions c).
Proof. apply addRegion_iff. Qed.

Section Transparency.
Context {B : Type} `{BackingLaws B}.

(** Between transactions. *)
Definition idle (c : WindowDataCache) (b : B) : Prop :=
  good c b /\ regions_ok (regions c) /\ active c = false.

(** A whole access, with the backing memory answering. *)
Definition access (x n : Z) (w : bool) (bs : list Z) (c : WindowDataCache) (b : B) :
    result (list Z * WindowDataCache * B) :=
  access_ x n w bs c ≫= fun c => drive drive_fuel c b.

Definition same_controls (c c' : WindowDataCache) : Prop :=
  regions c' = regions c /\ cacr c' = cacr c /\ acr c' = acr c.

Lemma access_txn c (b : B) x n w bs : idle c b -> is_u64 x -> 0 <= n ->
  bad_access c x n w bs = false ->
  exists c1, access_ x n w bs c = Ok c1 /\ txn (view c b) c1 b /\ pending c1 = None_ /\
    measure c1 < Z.of_nat drive_fuel /\ same_controls c c1 /\
    write c1 = w /\ address c1 = x /\ count c1 = n /\ (w = true -> bytes c1 = bs).
Proof.
  intros (G & Hr & Ha) Hx Hn Hb. pose proof (valid_access_range c x n w bs Hr Hx Hn Hb) as (R1 & R2 & R3).
  unfold access_, start. rewrite Hb, Ha. cbn. eexists. split; [reflexivity |].
  match goal with |- txn _ ?k _ /\ _ => set (c1 := k) end.
  split; [split; cbn; try reflexivity; try lia |].
  - apply (good_frame c); try reflexivity; [assumption | apply G].
  - word.
  - destruct w; [auto | rewrite length_replicate; lia].
  - intros y. rewrite (view_frame c) by reflexivity. destruct w; [| reflexivity].
    unfold mwrite. rewrite decide_False; [reflexivity |]. unfold in_range. rewrite take_0. cbn. lia.
  - split; [reflexivity |]. split.
    { pose proof (stage_range c1). unfold measure, drive_fuel. cbn [count offset c1]. cbn. lia. }
    repeat split; cbn; [intros ->; reflexivity].
Qed.

Lemma access_transparent_ok c (b : B) x n w bs : idle c b -> is_u64 x -> 0 <= n ->
  bad_access c x n w bs = false ->
  exists out c' b', access x n w bs c b = Ok (out, c', b') /\ idle c' b' /\ same_controls c c' /\
    if w then out = [] /\ view c' b' ≐ mwrite (view c b) x bs
    else out = mread (view c b) x n /\ view c' b' ≐ view c b.
Proof.
  intros I Hx Hn Hb.
  destruct (access_txn c b x n w bs I Hx Hn Hb) as (c1 & E & T & P & Hm & (C1 & C2 & C3) & <- & <- & <- & Hbs).
  destruct (drive_served _ _ c1 b T P Hm) as (out & c' & b' & Hd & G & A & R1 & R2 & R3 & S).
  exists out, c', b'. unfold access. rewrite E. split; [exact Hd |].
  split; [split; [assumption | split; [|assumption]]; rewrite R1, C1; apply I |].
  split; [repeat split; congruence |].
  destruct (write c1); [rewrite <- Hbs by reflexivity |]; exact S.
Qed.

(** C20. A valid access of an idle cache terminates within the fuel: a read
    returns the bytes of the memory the guest sees and leaves that memory as
    it is, a write updates it, whatever the mode, the replacement state and
    the dirty lines. *)
Theorem access_transparent c (b : B) x n w bs : idle c b -> is_u64 x -> 0 <= n ->
  bad_access c x n w bs = false ->
  exists out c' b', access x n w bs c b = Ok (out, c', b') /\ idle c' b' /\ same_controls c c' /\
    if w then out = [] /\ view c' b' ≐ mwrite (view c b) x bs
    else out = mread (view c b) x n /\ view c' b' ≐ view c b.
Proof. apply access_transparent_ok. Qed.

(** ** Sequences of accesses refine a flat memory *)

Record op := mkOp { o_write : bool; o_address : Z; o_size : Z; o_bytes : list Z }.
Definition op_valid (c : WindowDataCache) (o : op) : Prop :=
  is_u64 (o_address o) /\ 0 <= o_size o /\
  bad_access c (o_address o) (o_size o) (o_write o) (o_bytes o) = false.

Fixpoint run (ops : list op) (c : WindowDataCache) (b : B) :
    result (list (list Z) * WindowDataCache * B) :=
  match ops with
  | [] => Ok ([], c, b)
  | o :: ops =>
      access (o_address o) (o_size o) (o_write o) (o_bytes o) c b ≫= fun '(out, c, b) =>
      run ops c b ≫= fun '(outs, c, b) => Ok (out :: outs, c, b)
  end.

(** The specification: the same operations on a flat memory. *)
Fixpoint run_flat (ops : list op) (m : mem) : list (list Z) * mem :=
  match ops with
  | [] => ([], m)
  | o :: ops =>
      if o_write o then let (outs, m) := run_flat ops (mwrite m (o_address o) (o_bytes o)) in ([] :: outs, m)
      else let (outs, m') := run_flat ops m in (mread m (o_address o) (o_size o) :: outs, m')
  end.

Lemma run_flat_proper ops m m' : m ≐ m' ->
  (run_flat ops m).1 = (run_flat ops m').1 /\ (run_flat ops m).2 ≐ (run_flat ops m').2.
Proof.
  revert m m'. induction ops as [|o ops IH]; intros m m' Hm; cbn; [auto |].
  destruct (o_write o).
  - assert (Hm' : mwrite m (o_address o) (o_bytes o) ≐ mwrite m' (o_address o) (o_bytes o))
      by (apply mwrite_proper; auto).
    destruct (IH _ _ Hm'). repeat destruct (run_flat ops _); cbn in *. split; congruence || assumption.
  - destruct (IH _ _ Hm). rewrite (mread_proper m m' Hm _ _ eq_refl _ _ eq_refl). repeat destruct (run_flat ops _); cbn in *.
    split; congruence || assumption.
Qed.

Lemma op_valid_same c c' o : same_controls c c' -> op_valid c o -> op_valid c' o.
Proof.
  intros (Hr & _) (? & ? & Hb). split; [assumption | split; [assumption |]].
  unfold bad_access, regionFor. rewrite Hr. exact Hb.
Qed.

(** C3. Any sequence of valid accesses returns what the flat memory returns, and
    ends with the guest seeing what the flat memory holds. *)
Theorem run_refines ops c (b : B) : idle c b -> Forall (op_valid c) ops ->
  exists c' b', run ops c b = Ok ((run_flat ops (view c b)).1, c', b') /\ idle c' b' /\
    view c' b' ≐ (run_flat ops (view c b)).2.
Proof.
  revert c b. induction ops as [|o ops IH]; intros c b I Hv; cbn.
  { exists c, b. split; [reflexivity | split; [assumption | reflexivity]]. }
  apply Forall_cons in Hv as [(Hx & Hn & Hb) Hv].
  destruct (access_transparent_ok c b _ _ _ _ I Hx Hn Hb) as (out & c1 & b1 & -> & I1 & SC & S).
  assert (Hv1 : Forall (op_valid c1) ops)
    by (eapply Forall_impl; [exact Hv | intros; eapply op_valid_same; eassumption]).
  destruct (IH c1 b1 I1 Hv1) as (c' & b' & E & I' & V'). cbn. rewrite E. cbn.
  destruct (o_write o); destruct S as [-> Sv].
  all: match type of Sv with _ ≐ ?m =>
         destruct (run_flat_proper ops _ m Sv) as [P1 P2]; exists c', b'; rewrite P1;
         destruct (run_flat ops m) end; cbn in *;
       (split; [reflexivity | split; [assumption |]]); etransitivity; eassumption.
Qed.
(** ** The initial cache *)

Lemma idle_cache0 (b : B) : bk_ok b -> idle cache0 b.
Proof.
  intros K. pose proof wf_cache0 as W.
  assert (Hno : forall s, is_slot s -> l_valid (line cache0 s) = false).
  { intros s Hs. destruct (l_valid (line cache0 s)) eqn:E; [exfalso | reflexivity].
    unfold line, cache0 in E. cbn [lines] in E.
    rewrite lookup_total_replicate_2 in E; [discriminate |]. unfold is_slot, NoSlot in *. lia. }
  split; [split; try assumption | split; [constructor | reflexivity]].
  - intros s x (Hs & Hv & _). rewrite Hno in Hv by assumption. discriminate.
  - intros s Hs Hv. rewrite Hno in Hv by assumption. discriminate.
Qed.

Lemma idle_frame c c' (b : B) : idle c b -> lines c' = lines c -> cacr c' = cacr c -> acr c' = acr c ->
  replacement c' = replacement c -> regions_ok (regions c') -> active c' = false -> idle c' b.
Proof.
  intros (G & _ & _) Hl Hc Ha Hr Hreg Hact. split; [| split; assumption].
  apply (good_frame c); try assumption. rewrite Hr. apply G.
Qed.

Lemma addRegion_idle c c' (b : B) x n : idle c b -> is_u64 x -> is_u64 n ->
  addRegion x n c = Ok c' -> idle c' b.
Proof.
  intros I Hx Hn E. pose proof (proj1 (addRegion_iff c x n (proj1 (proj2 I)) Hx Hn)) as Hs.
  destruct Hs as (Ha & ? & ? & _); [eauto |]. unfold addRegion in E. inv_ok. subst c'.
  apply (idle_frame c); try reflexivity; try assumption. cbn. apply Forall_app; split; [apply I |].
  constructor; [|constructor]. unfold region_ok; cbn. word.
Qed.

(** ** Control registers *)

Definition write_control (reg value : Z) (c : WindowDataCache) (b : B) :
    result (list Z * WindowDataCache * B) :=
  movec reg value c ≫= fun c => drive drive_fuel c b.

Lemma drive_S n c (b : B) : drive (S n) c b =
  next c ≫= fun '(a, c) =>
  match act_kind a with
  | Done => Ok (act_bytes a, c, b)
  | Read => complete (bk_read b (act_address a) (act_size a)) c ≫= fun c => drive n c b
  | Write => complete [] c ≫= fun c => drive n c (bk_write b (act_address a) (act_bytes a))
  end.
Proof. reflexivity. Qed.

(** A transaction with no bytes to move ends at once. *)
Lemma drive_empty n c (b : B) : active c = true -> pending c = None_ -> pushing c = false ->
  count c = 0 -> offset c = 0 -> write c = false -> bytes c = [] ->
  drive (S n) c b = Ok ([], c <| active := false |>, b).
Proof.
  intros Ha Hp Hpu Hc Ho Hw Hb. cbn [drive]. unfold next. rewrite Ha, Hp, Hpu, bool_decide_true by reflexivity.
  unfold next_fuel. rewrite Hc. cbn [Z.to_nat next_loop]. rewrite Ho, Hc.
  cbn [Z.ltb Z.compare negb orb throw_if mbind result_bind finish act_kind act_bytes].
  unfold finish. rewrite Hw, Hb. reflexivity.
Qed.

Lemma invalidated_slot c s : wf c -> is_slot s ->
  (map invalidate_line (lines c)) !!! Z.to_nat s = invalidate_line (line c s).
Proof.
  intros W Hs. unfold line. apply list_lookup_total_fmap. rewrite (wf_len c W).
  unfold is_slot in Hs. lia.
Qed.

(** The control value CACR keeps: the invalidation bits read as zero. *)
Definition cacr_kept (value : Z) : Z := Z.land value (not32 (Z.lor DCINVA 0x00040100)).

Lemma wf_invalidated c c' : wf c -> lines c' = map invalidate_line (lines c) ->
  length (acr c') = 4%nat -> replacement c' = replacement c ->
  wf c' /\ forall s x, ~ owner c' s x.
Proof.
  intros W Hl Ha Hr.
  assert (Hs : forall s, is_slot s -> line c' s = invalidate_line (line c s)).
  { intros s Hs. unfold line at 1. rewrite Hl. apply invalidated_slot; assumption. }
  assert (Hno : forall s x, ~ owner c' s x).
  { intros s x (Hsl & Hv & _). rewrite Hs in Hv by assumption. discriminate. }
  split; [| exact Hno]. constructor; try assumption.
  - rewrite Hl. rewrite length_map. apply W.
  - intros s Hsl. rewrite Hs by assumption. apply wf_bytes; assumption.
  - intros s Hsl. rewrite Hs by assumption. discriminate.
  - intros s Hsl. rewrite Hs by assumption. discriminate.
  - intros s s' x Ho. destruct (Hno _ _ Ho).
  - rewrite Hr. apply W.
Qed.

(** Writing CACR with the data-invalidate bit: nothing is written back, the
    guest sees the backing memory again under any new mode, and the number of
    dirty lines whose data was dropped is added to [dirty_discards]. *)
Lemma movec_invalidate c (b : B) value : idle c b ->
  Z.land value 0x60000000 = 0 -> Z.land value DCINVA <> 0 ->
  exists c', write_control 2 value c b = Ok ([], c', b) /\ idle c' b /\
    cacr c' = cacr_kept value /\ acr c' = acr c /\ regions c' = regions c /\
    view c' b ≐ bk_byte b /\
    dirty_discards c' = u64 (dirty_discards c + count_dirty (lines c)).
Proof.
  intros ([W C D K] & Hr & Ha) H1 H2. unfold write_control, movec, start.
  rewrite Ha, H1, (proj2 (Z.eqb_neq _ _) H2). remember drive_fuel as n eqn:En. cbn.
  subst n. change drive_fuel with (S 31). rewrite drive_empty by reflexivity. eexists. split; [reflexivity |].
  match goal with |- idle ?k _ /\ _ => set (c' := k) end.
  destruct (wf_invalidated c c' W eq_refl (wf_acr c W) eq_refl) as [W' Hno].
  split; [split; [split; try assumption | split; [exact Hr | reflexivity]] |].
  - intros s x Ho. destruct (Hno s x Ho).
  - intros s Hs Hv. destruct (Hno s (l_address (line c' s))). unfold owner.
    destruct (wf_aligned c' W' s Hs Hv) as [_ E]. rewrite E, Z.sub_0_r. auto.
  - do 3 (split; [reflexivity |]). split; [| reflexivity].
    intros x. apply view_none; [assumption |]. intros s. apply Hno.
Qed.

(** ** Line pushes *)

Definition cpushl (instruction operand : Z) (c : WindowDataCache) (b : B) :
    result (list Z * WindowDataCache * B) :=
  push instruction operand c ≫= fun c => drive drive_fuel c b.

(** The slot a CPUSHL operand selects: set from the address, way from its low bits. *)
Definition push_slot (operand : Z) : Z := setIndex operand * 4 + operand mod 4.
Definition keeps_line (c : WindowDataCache) : bool := negb (Z.land (cacr c) DDPI =? 0).

Lemma push_slot_ok operand : is_slot (push_slot operand).
Proof.
  pose proof (setIndex_range operand). unfold push_slot, is_slot, NoSlot, Sets, Ways. dlia.
Qed.

(** The line a push leaves: clean, and valid only with DDPI. *)
Definition pushed_line (c : WindowDataCache) (l : Line) : Line :=
  let l := if l_valid l && l_dirty l then l <| l_dirty := false |> else l in
  if keeps_line c then l else l <| l_valid := false |>.

Definition pushed_backing (b : B) (l : Line) : B :=
  if l_valid l && l_dirty l then bk_write b (l_address l) (l_bytes l) else b.

Lemma set_line_same c s : wf c -> is_slot s -> <[Z.to_nat s := line c s]> (lines c) = lines c.
Proof.
  intros W [? ?]. apply list_insert_id. unfold line. apply list_lookup_lookup_total_lt.
  rewrite (wf_len c W). lia.
Qed.

Lemma cpushl_run c (b : B) i o : wf c -> active c = false ->
  Z.land i 0xff38 = 0xf428 -> Z.land i 0x40 <> 0 ->
  let s := push_slot o in let l := line c s in
  exists c', cpushl i o c b = Ok ([], c', pushed_backing b l) /\
    lines c' = <[Z.to_nat s := pushed_line c l]> (lines c) /\ active c' = false /\
    same_controls c c' /\ replacement c' = replacement c.
Proof.
  intros W Ha H1 H2 s l. unfold cpushl, push, start. rewrite H1.
  assert (H3 : (Z.land i 0xc0 =? 0) = false).
  { apply Z.eqb_neq. intros E. apply H2.
    change 0x40 with (Z.land 0xc0 0x40). rewrite Z.land_assoc, E. reflexivity. }
  rewrite H3, Ha, land_ways. remember drive_fuel as n eqn:En. cbn.
  rewrite (proj2 (Z.eqb_neq _ _) H2). change (setIndex o * Ways + o mod 4) with s.
  subst n. change drive_fuel with (S (S 30)). cbn [mbind result_bind].
  match goal with |- context [drive _ ?k b] => set (c1 := k) end.
  assert (E : next c1 = if l_valid l && l_dirty l then
      Ok (mkAction Write (l_address l) LineBytes (l_bytes l), c1 <| pending := Push |>)
    else let c2 := if negb (keeps_line c) then set_line s (l <| l_valid := false |>) c1 else c1 in
      Ok (finish (c2 <| pushing := false |>))).
  { unfold next, keeps_line. rewrite negb_involutive. reflexivity. }
  rewrite drive_S, E. unfold pushed_backing, pushed_line.
  destruct (l_valid l && l_dirty l); cbn [mbind result_bind act_kind act_address act_bytes].
  - unfold complete, line; cbn -[drive]. fold (line c s) l.
    rewrite bool_decide_false by discriminate. cbn -[drive]. rewrite drive_empty by reflexivity.
    eexists. split; [reflexivity |]. unfold keeps_line. cbn.
    destruct (Z.land (cacr c) DDPI =? 0); repeat split.
  - unfold finish. cbn -[drive].
    destruct (keeps_line c); cbn; (eexists; split; [reflexivity |]); cbn; [| repeat split].
    unfold l. rewrite set_line_same by (assumption || apply push_slot_ok). repeat split.
Qed.

(** The line CPUSHL leaves in its slot. *)
Lemma pushed_line_ok c l : let l' := pushed_line c l in
  l_bytes l' = l_bytes l /\ l_address l' = l_address l /\ l_valid l' = (l_valid l && keeps_line c) /\ (l_valid l = true -> l_dirty l' = false).
Proof.
  unfold pushed_line. destruct (l_valid l) eqn:?, (l_dirty l) eqn:?, (keeps_line c); cbn; repeat split; congruence.
Qed.

(** The memory it leaves behind the slot: what the line held. *)
Lemma pushed_backing_ok c b s : good c b -> is_slot s -> let b' := pushed_backing b (line c s) in
  good c b' /\ (forall x, view c b' x = view c b x) /\
  (forall x, owner c s x -> line_byte c s x = bk_byte b' x) /\
  (forall x, ~ owner c s x -> bk_byte b' x = bk_byte b x).
Proof.
  intros G Hs. pose proof G as [W C D K]. unfold pushed_backing. cbn zeta. set (l := line c s).
  destruct (l_valid l && l_dirty l) eqn:Evd.
  - apply andb_true_iff in Evd as [Ev Ed].
    destruct (evict_step c b s l G Hs eq_refl Ev Ed) as (? & _ & _ & ? & ?).
    split; [assumption | split; [assumption | split; [assumption |]]].
    intros x Hx. pose proof (wf_bytes c W s Hs) as Hlen. pose proof (wf_aligned c W s Hs Ev) as [Hu Hal].
    fold l in Hlen, Hu, Hal.
    rewrite bk_write_byte; [| assumption | unfold in_line, is_word in *; lia].
    apply decide_False. intros Hx'. apply range_line_bytes in Hx'; [| assumption..].
    apply Hx. split; [|split]; assumption.
  - split; [assumption | split; [reflexivity | split; [| reflexivity]]]. intros x Hx. apply C; [assumption |].
    destruct Hx as (_ & Hv & _). fold l in Hv |- *. rewrite Hv in Evd. exact Evd.
Qed.

(** CPUSHL of the data cache writes the selected line back if it is dirty: the
    guest sees the same memory, the backing memory agrees with it on that line
    and is unchanged elsewhere, and the line stays resident, clean, exactly
    when DDPI is set. *)
Lemma cpushl_spec c (b : B) i o : idle c b ->
  Z.land i 0xff38 = 0xf428 -> Z.land i 0x40 <> 0 ->
  let s := push_slot o in
  exists c' b', cpushl i o c b = Ok ([], c', b') /\ idle c' b' /\ same_controls c c' /\
    view c' b' ≐ view c b /\
    (forall x, bk_byte b' x = if decide (owner c s x) then view c b x else bk_byte b x) /\
    (forall x, owner c' s x <-> owner c s x /\ keeps_line c = true) /\
    (forall x, owner c' s x -> l_dirty (line c' s) = false) /\
    (forall s', s' <> s -> is_slot s' -> line c' s' = line c s').
Proof.
  intros (G & Hr & Ha) H1 H2 s. pose proof G as [W C D K].
  pose proof (push_slot_ok o) as Hs. fold s in Hs. set (l := line c s).
  destruct (cpushl_run c b i o W Ha H1 H2) as (c' & E & Hl & Ha' & HC & HR). fold s l in E, Hl.
  exists c', (pushed_backing b l). set (b' := pushed_backing b l) in *.
  destruct (pushed_line_ok c l) as (Lb & La & Lv & Ld).
  destruct (pushed_backing_ok c b s G Hs) as (G' & Hv & Hin & Hout). fold l b' in G', Hv, Hin, Hout.
  set (l' := pushed_line c l) in *.
  assert (Hfit : fits c s l').
  { apply fits_same; try assumption.
    - rewrite Lb. apply wf_bytes; assumption.
    - rewrite Lv. intros Hval. apply andb_true_iff in Hval. tauto. }
  assert (Hbl : l_valid l' = true -> forall x, l_address l' = x - x mod 16 -> owner c s x).
  { rewrite Lv, La. intros Hval x Hx. apply andb_true_iff in Hval as [? _].
    split; [|split]; assumption. }
  assert (Hown : forall x, owner (set_line s l' c) s x <-> owner c s x /\ keeps_line c = true).
  { intros x. rewrite owner_set_line by assumption. rewrite Lv, La, andb_true_iff. unfold owner.
    fold l. tauto. }
  assert (Hlines : forall s', line c' s' = line (set_line s l' c) s')
    by (intros; unfold line at 1; rewrite Hl; reflexivity).
  assert (Hown' : forall x, owner c' s x <-> owner (set_line s l' c) s x)
    by (intros; unfold owner; rewrite Hlines; tauto).
  destruct HC as (C1 & C2 & C3).
  split; [exact E | split; [split; [| split] | split; [repeat split; assumption |]]].
  - apply (good_frame (set_line s l' c)); try assumption; [| rewrite HR; apply W].
    apply good_set_line; try assumption.
    + intros Hval. rewrite La. pose proof Hval as Hval'. rewrite Lv in Hval.
      apply andb_true_iff in Hval as [Hval _]. destruct (D s Hs Hval). auto.
    + intros Hval _ x Hx. rewrite Lb. apply (Hin x). auto.
  - rewrite C1; assumption.
  - assumption.
  - split; [| split; [| split; [| split]]].
    + intros x. rewrite (view_frame (set_line s l' c)), <- Hv by assumption.
      apply view_replace; try assumption; [apply Hin |]. intros Hval Hx. rewrite Lb.
      symmetry. apply (view_owner c b' s x W). auto.
    + intros x. case_decide as Hx; [| auto]. rewrite <- (Hin x Hx). symmetry. apply view_owner; assumption.
    + intros x. rewrite Hown'. apply Hown.
    + intros x Hx. rewrite Hlines, line_set_line by (apply Hs || (apply wf_len; assumption)).
      rewrite decide_True by reflexivity. apply Ld. apply Hown', Hown in Hx. apply Hx.
    + intros s' Hne Hs'. rewrite Hlines, line_set_line by (apply Hs || apply Hs' || (apply wf_len; assumption)).
      apply decide_False. congruence.
Qed.
(** ** Locking half of the cache *)

(** Slot [s] holds the same line, dirty or not, in [c'] as in [c]. *)
Definition resident (c c' : WindowDataCache) (s : Z) : Prop :=
  l_valid (line c' s) = l_valid (line c s) /\ l_address (line c' s) = l_address (line c s).

(** The lower two ways of every set are as in [c0], and no fill or eviction
    under way is about to touch them. *)
Definition locked (c0 c : WindowDataCache) : Prop :=
  Z.land (cacr c) DHLCK <> 0 /\ length (lines c) = Z.to_nat NoSlot /\ 0 <= replacement c < 4 /\
  pushing c = false /\ pending c <> Push /\
  (forall s, is_slot s -> s mod 4 < 2 -> resident c0 c s) /\
  (pending c = Fill \/ pending c = Evict ->
    is_slot (pending_slot c) /\ 2 <= pending_slot c mod 4) /\
  (pending c = WriteThrough -> is_slot (pending_slot c)).

Lemma resident_set_line c0 c s l : length (lines c) = Z.to_nat NoSlot -> is_slot s ->
  2 <= s mod 4 \/ (l_valid l = l_valid (line c s) /\ l_address l = l_address (line c s)) ->
  (forall t, is_slot t -> t mod 4 < 2 -> resident c0 c t) ->
  forall t, is_slot t -> t mod 4 < 2 -> resident c0 (set_line s l c) t.
Proof.
  intros Hl Hs Hv HR t Ht Ht4. unfold resident. rewrite line_set_line by (assumption || apply Ht).
  case_decide as E; [| apply HR; assumption]. subst t.
  destruct Hv as [|[-> ->]]; [lia | apply HR; assumption].
Qed.

Lemma resident_lines c0 c c' s : lines c' = lines c -> resident c0 c s -> resident c0 c' s.
Proof. intros Hl. unfold resident, line. rewrite Hl. auto. Qed.

Lemma locked_victim c set : Z.land (cacr c) DHLCK <> 0 -> 0 <= replacement c < 4 ->
  0 <= set < 512 -> is_slot (victim c set) /\ 2 <= victim c set mod 4.
Proof.
  intros Hd Hr Hs. pose proof (victim_range c set Hr Hs) as Hv.
  rewrite (proj2 (Z.eqb_neq _ _) Hd) in Hv. unfold is_slot, NoSlot, Sets, Ways. dlia.
Qed.

Lemma locked_body c0 c : locked c0 c -> pending c = None_ -> locked c0 (next_body c).2.
Proof.
  intros (Hd & Hl & Hr & Hp & _ & HR & _) P. unfold next_body. cbv zeta.
  set (addr := u64 _). set (la := Z.land addr _).
  assert (Hk : forall k, cacr k = cacr c -> lines k = lines c -> replacement k = replacement c ->
    pushing k = pushing c -> pending k <> Push -> pending k <> Fill -> pending k <> Evict ->
    pending k <> WriteThrough -> locked c0 k).
  { intros k Kc Kl Kr Kp ? ? ? ?. unfold locked. rewrite Kc, Kl, Kr, Kp.
    split; [|split; [|split; [|split; [|split; [|split; [|split]]]]]]; try assumption; try tauto.
    intros s Hs1 Hs2. apply (resident_lines c0 c); auto. }
  pose proof (locked_victim c (setIndex la) Hd Hr (setIndex_range la)) as Hv.
  destruct (_ || _).
  { apply Hk; try reflexivity; cbn; destruct (write c); congruence. }
  match goal with |- context [?f =? NoSlot] => set (sl := f) end.
  destruct (Z.eqb_spec sl NoSlot) as [Hn|Hn].
  - destruct (_ && _); (split; [|split; [|split; [|split; [|split; [|split; [|split]]]]]]);
      try assumption; try discriminate; intros _; exact Hv.
  - assert (Hsl : is_slot sl) by (destruct (find_range (c <| pending_size := 0 |>) la) as [Hf|Hf];
      [exact Hf | destruct (Hn Hf)]).
    match goal with |- context [if ?w then _ else _] => change w with (write c) end.
    destruct (write c); cbn [snd]; [| apply Hk; try reflexivity; cbn; congruence].
    destruct (_ =? 0); (split; [|split; [|split; [|split; [|split; [|split; [|split]]]]]]); cbn;
      try assumption; try discriminate; try congruence.
    all: try (rewrite length_insert; assumption).
    all: try (intros [?|?]; congruence).
    all: try (intros; congruence).
    all: try (intros _; exact Hsl).
    all: intros s Hs1 Hs2; eapply resident_lines;
      [| eapply (resident_set_line c0 c sl); try eassumption]; [reflexivity | right; split; reflexivity].
Qed.
Lemma locked_loop c0 n : forall c a c', locked c0 c -> pending c = None_ ->
  next_loop n c = Ok (a, c') -> locked c0 c'.
Proof.
  induction n as [|n IH]; intros c a c' L P; cbn [next_loop]; [discriminate |].
  destruct (offset c <? count c).
  - pose proof (locked_body c0 c L P) as Lb.
    assert (Pb : forall k, next_body c = (None, k) -> pending k = None_).
    { intros k. unfold next_body. cbv zeta.
      repeat (match goal with |- context [if ?w then _ else _] => destruct w end; try discriminate);
        intros E; injection E as <-; exact P. }
    destruct (next_body c) as [[a1|] k]; intros E; [injection E as _ <-; exact Lb |].
    apply (IH k a c'); auto.
  - intros E. injection E as _ <-. exact L.
Qed.

Lemma locked_next c0 c a c' : locked c0 c -> next c = Ok (a, c') -> locked c0 c'.
Proof.
  intros L. unfold next. intros E. inv_ok. apply orb_false_iff in E0 as [_ P].
  apply negb_false_iff, bool_decide_eq_true in P.
  rewrite (proj1 (proj2 (proj2 (proj2 L)))) in E.
  exact (locked_loop c0 _ c a c' L P E).
Qed.

Lemma locked_complete c0 c data c' : locked c0 c -> complete data c = Ok c' -> locked c0 c'.
Proof.
  intros (Hd & Hl & Hr & Hp & HP & HR & HF & HW) E. unfold complete in E. inv_ok. subst c'.
  assert (HRl : forall l, 2 <= pending_slot c mod 4 \/ (l_valid l = l_valid (line c (pending_slot c)) /\
      l_address l = l_address (line c (pending_slot c))) -> is_slot (pending_slot c) ->
      forall s, is_slot s -> s mod 4 < 2 -> resident c0 (set_line (pending_slot c) l c) s)
    by (intros; apply resident_set_line; assumption).
  destruct (pending c); try congruence; inv_ok; subst;
    (split; [|split; [|split; [|split; [|split; [|split; [|split]]]]]]); cbn;
    rewrite ?length_insert; try assumption; try discriminate; try (intros [?|?]; discriminate).
  all: try (rewrite land_ways; apply Z.mod_pos_bound; lia).
  all: intros s Hs1 Hs2; eapply resident_lines; [| apply HRl; try eassumption]; try reflexivity.
  all: first [right; split; reflexivity | apply HW; reflexivity | left; apply HF; auto | apply HF; auto].
Qed.

Lemma locked_drive c0 n : forall c (b : B) out c' b', locked c0 c ->
  drive n c b = Ok (out, c', b') -> locked c0 c'.
Proof.
  induction n as [|n IH]; intros c b out c' b' L E; [discriminate |].
  rewrite drive_S in E. apply bind_ok in E as ([a k] & En & E).
  apply (locked_next c0) in En; [| assumption].
  destruct (act_kind a); [injection E as _ <- _; exact En | |];
    apply bind_ok in E as (k' & Ec & E); apply (locked_complete c0) in Ec; eauto.
Qed.

(** With DHLCK set no access displaces a line of the lower two ways: reads
    and writes may fill and evict only the upper half of each set. *)
Lemma dhlck_keeps_lower_ways c (b : B) x n w bs : idle c b -> is_u64 x -> 0 <= n ->
  bad_access c x n w bs = false -> Z.land (cacr c) DHLCK <> 0 ->
  exists out c' b', access x n w bs c b = Ok (out, c', b') /\
    forall s, is_slot s -> s mod 4 < 2 -> resident c c' s.
Proof.
  intros I Hx Hn Hb Hd.
  destruct (access_transparent_ok c b x n w bs I Hx Hn Hb) as (out & c' & b' & E & _).
  exists out, c', b'. split; [exact E |].
  unfold access in E. apply bind_ok in E as (c1 & E1 & E).
  apply (locked_drive c) in E; [apply E |]. unfold access_, start in E1. inv_ok. subst.
  destruct I as ([W _ _ _] & _ & _). unfold locked. cbn.
  split; [assumption | split; [apply W | split; [apply W | split; [reflexivity | split; [discriminate |]]]]].
  split; [intros; split; reflexivity | split; [intros [?|?]; discriminate | discriminate]].
Qed.
End Transparency.

(** ** The theorems at concrete inputs *)

(** An empty cache of one region, with given controls. *)
Definition demo_cache (cacr0 : Z) : WindowDataCache :=
  cache0 <| cacr := cacr0 |> <| regions := [mkRegion 0x1000 0x1000] |>.
Definition demo_mem : mem := fun x => x mod 256.

Lemma idle_demo_over {B} `{BackingLaws B} v (b : B) : bk_ok b -> idle (demo_cache v) b.
Proof.
  intros K.
  destruct wf_cache0 as [W1 W2 W3 W4 W5 W6 W7].
  assert (Hno : forall s, is_slot s -> l_valid (line cache0 s) = false).
  { intros s Hs. unfold line, cache0. cbn [lines].
    rewrite lookup_total_replicate_2; [reflexivity |]. unfold is_slot, NoSlot, Sets, Ways in *. lia. }
  split; [split | split; [repeat constructor; cbn; lia | reflexivity]].
  - split; assumption.
  - intros s x (Hs & Hv & _). change (line (demo_cache v) s) with (line cache0 s) in Hv. rewrite Hno in Hv by assumption. discriminate.
  - intros s Hs Hv. change (line (demo_cache v) s) with (line cache0 s) in Hv. rewrite Hno in Hv by assumption. discriminate.
  - exact K.
Qed.

Lemma idle_demo v : idle (demo_cache v) demo_mem.
Proof. apply idle_demo_over. exact I. Qed.

Lemma addRegion_spec_witness : exists c', addRegion 0x4000 0x100 (demo_cache 0) = Ok c'.
Proof.
  apply (addRegion_spec (demo_cache 0) 0x4000 0x100).
  - repeat constructor; cbn; lia.
  - word.
  - word.
  - repeat split; try reflexivity; try lia. apply Forall_singleton. right. cbn. lia.
Defined.

Lemma access_transparent_witness : exists c' b',
  access 0x1004 4 true [1; 2; 3; 4] (demo_cache (Z.lor DEC 0x02000000)) demo_mem = Ok ([], c', b') /\
  view c' b' 0x1005 = 2.
Proof.
  destruct (access_transparent (demo_cache (Z.lor DEC 0x02000000)) demo_mem 0x1004 4 true [1; 2; 3; 4])
    as (out & c' & b' & E & _ & _ & -> & Hv).
  - apply idle_demo.
  - word.
  - lia.
  - reflexivity.
  - exists c', b'. split; [exact E |]. rewrite (Hv 0x1005). reflexivity.
Defined.

Lemma run_refines_witness : exists c' b',
  run [mkOp true 0x1000 2 [7; 8]; mkOp false 0x1001 1 []] (demo_cache DEC) demo_mem = Ok ([[]; [8]], c', b').
Proof.
  destruct (run_refines [mkOp true 0x1000 2 [7; 8]; mkOp false 0x1001 1 []] (demo_cache DEC) demo_mem)
    as (c' & b' & E & _).
  - apply idle_demo.
  - repeat constructor; cbn; lia.
  - exists c', b'. exact E.
Defined.

Lemma movec_invalidate_witness : exists c',
  write_control 2 (Z.lor DEC DCINVA) (demo_cache DEC) demo_mem = Ok ([], c', demo_mem) /\ cacr c' = DEC.
Proof.
  destruct (movec_invalidate (demo_cache DEC) demo_mem (Z.lor DEC DCINVA)) as (c' & E & _ & Ec & _).
  - apply idle_demo.
  - reflexivity.
  - discriminate.
  - exists c'. split; [exact E | rewrite Ec; reflexivity].
Defined.

Lemma cpushl_spec_witness : exists c' b',
  cpushl 0xf468 0x1000 (demo_cache DEC) demo_mem = Ok ([], c', b') /\ view c' b' ≐ view (demo_cache DEC) demo_mem.
Proof.
  destruct (cpushl_spec (demo_cache DEC) demo_mem 0xf468 0x1000) as (c' & b' & E & _ & _ & Hv & _).
  - apply idle_demo.
  - reflexivity.
  - discriminate.
  - exists c', b'. split; [exact E | exact Hv].
Defined.

Lemma dhlck_keeps_lower_ways_witness : exists out c' b',
  access 0x1010 4 false [] (demo_cache (Z.lor DEC DHLCK)) demo_mem = Ok (out, c', b') /\
  resident (demo_cache (Z.lor DEC DHLCK)) c' 4.
Proof.
  destruct (dhlck_keeps_lower_ways (demo_cache (Z.lor DEC DHLCK)) demo_mem 0x1010 4 false []) as (out & c' & b' & E & Hr).
  - apply idle_demo.
  - word.
  - lia.
  - reflexivity.
  - discriminate.
  - exists out, c', b'. split; [exact E |]. apply Hr; [unfold is_slot, NoSlot, Sets, Ways; lia | reflexivity].
Defined.
