(* ===== verification/WindowCacheActions.v ===== *)
(** * The actions of a cache transaction

    Every action a transaction asks of the backing memory stays inside one
    line, and every transaction ends: what the code that serves the actions
    ([serviceWindowCache]) relies on. *)
From S2P Require Import Prelude.
From S2P Require Import WindowCache.
From S2P Require Import Backing.
From S2P Require Import WindowCacheSpec.
From S2P Require Import WindowCacheThm.

Definition line_action (a : Action) : Prop :=
  in_line (act_address a) (act_size a) /\
  (act_kind a = Write -> Z.of_nat (length (act_bytes a)) = act_size a).

Section Actions.
Context {B : Type} `{BackingLaws B}.

(** The transaction [c] is in ends within [n] actions, each inside a line, when
    the backing memory [b] answers. *)
Fixpoint tame (n : nat) (c : WindowDataCache) (b : B) : Prop :=
  match n with
  | O => False
  | S n =>
      exists a c1, next c = Ok (a, c1) /\
      (act_kind a = Done \/
       act_kind a <> Done /\ line_action a /\
       exists c2, complete (answer b a).1 c1 = Ok c2 /\ tame n c2 (answer b a).2)
  end.

Lemma line_action_line c s : wf c -> is_slot s -> l_valid (line c s) = true ->
  line_action (mkAction Write (l_address (line c s)) LineBytes (l_bytes (line c s))).
Proof.
  intros W Hs Hv. destruct (wf_aligned c W s Hs Hv) as [Hu Ha].
  split; cbn; [unfold in_line; change LineBytes with 16; word | intros _; rewrite (wf_bytes c W s Hs); reflexivity].
Qed.

Lemma body_action v0 c (b : B) a c' : txn v0 c b -> offset c < count c -> next_body c = (Some a, c') -> line_action a.
Proof.
  intros T Ho. rewrite (next_body_eq v0 c b T Ho).
  pose proof (cur_facts v0 c b T Ho) as (H1 & H2 & H3 & _ & H5). pose proof (length_chunk v0 c b T Ho) as Hc.
  pose proof (good_wf c b (txn_good v0 c b T)) as W. pose proof (victim_here_slot c W) as [Hv _].
  assert (Hcur : in_line (cur c) (chunk_size c)) by (unfold in_line; lia).
  assert (Hline : in_line (cur c - cur c mod 16) LineBytes) by (unfold in_line; change LineBytes with 16; dlia).
  cbv zeta. destruct (_ || _); [intros [= <- <-] |].
  { split; cbn; [exact Hcur | destruct (write c); [auto | discriminate]]. }
  destruct (_ =? _); [destruct (l_valid _ && l_dirty _) eqn:E; intros [= <- <-] |].
  - apply andb_true_iff in E as [E _]. apply (line_action_line c (victim_here c) W Hv E).
  - split; [exact Hline | discriminate].
  - destruct (write c); [| discriminate]. destruct (_ =? 0); [intros [= <- <-] | discriminate].
    split; cbn; auto.
Qed.

Lemma loop_action v0 (b : B) n : forall c a c', txn v0 c b -> pending c = None_ ->
  next_loop n c = Ok (a, c') -> act_kind a <> Done -> line_action a.
Proof.
  induction n as [|n IH]; intros c a c' T P; cbn [next_loop]; [discriminate |].
  destruct (Z.ltb_spec (offset c) (count c)) as [Ho|Ho].
  - pose proof (body_step v0 c b T Ho P) as Hb. destruct (next_body c) as [[a1|] c1] eqn:E.
    + intros [= <- <-] _. apply (body_action v0 c b a1 c1 T Ho E).
    + destruct Hb as (T1 & G1 & _). apply (IH c1 a c' T1 (proj1 G1)).
  - intros [= <- <-] Hk. destruct Hk. reflexivity.
Qed.

(** Accesses. *)
Lemma txn_tame v0 n : forall c (b : B), txn v0 c b -> pending c = None_ -> measure c < Z.of_nat n -> tame n c b.
Proof.
  induction n as [|n IH]; intros c b T P Hn.
  { pose proof (stage_range c). destruct T. unfold measure in Hn. lia. }
  cbn [tame].
  destruct (next_loop_step v0 b (next_fuel c) c T P) as (a & c1 & E & Hend).
  { unfold next_fuel. destruct T. lia. }
  exists a, c1. split.
  { unfold next. rewrite throw_if_false by (rewrite (txn_active v0 c b T), P; reflexivity).
    rewrite (txn_pushing v0 c b T). exact E. }
  destruct Hend as [(Hk & c2 & E2 & T2 & G2 & Hm2)|(c2 & T2 & G2 & Ho2 & F2)].
  - right. split; [exact Hk |]. split; [apply (loop_action v0 b (next_fuel c) c a c1 T P E Hk) |].
    exists c2. split; [exact E2 |]. apply IH; [exact T2 | apply G2 | lia].
  - left. injection F2 as <- _. reflexivity.
Qed.

(** Transactions with no bytes to move. *)
Lemma empty_tame n c (b : B) : active c = true -> pending c = None_ -> pushing c = false ->
  offset c = count c -> tame (S n) c b.
Proof.
  intros Ha Hp Hpu Ho. exists (finish c).1, (finish c).2. split; [| left; reflexivity].
  unfold next. rewrite Ha, Hp, Hpu, bool_decide_true by reflexivity. cbn [negb orb throw_if mbind result_bind].
  unfold next_fuel. cbn [next_loop]. rewrite Ho, Z.ltb_irrefl. reflexivity.
Qed.

Lemma movec_tame n reg value c c1 (b : B) : movec reg value c = Ok c1 -> tame (S n) c1 b.
Proof.
  unfold movec, start. intros E. inv_ok. destruct (reg =? 2); [destruct (Z.land value DCINVA =? 0) |]; inv_ok; subst;
    apply empty_tame; reflexivity.
Qed.

Lemma push_tame n i o c c1 (b : B) : wf c -> push i o c = Ok c1 -> tame (S (S n)) c1 b.
Proof.
  intros W. unfold push, start. intros E. inv_ok. destruct (Z.land i 0x40 =? 0); inv_ok; subst.
  { apply empty_tame; reflexivity. }
  set (s := push_slot o). pose proof (push_slot_ok o : is_slot s) as Hs.
  match goal with |- tame _ ?k b => set (c1 := k) end.
  assert (Ep : pending_slot c1 = s) by (cbn; rewrite land_ways; reflexivity).
  assert (El : line c1 (pending_slot c1) = line c s) by (rewrite Ep; reflexivity).
  change (tame (S (S n)) c1 b) with (exists a c2, next c1 = Ok (a, c2) /\
      (act_kind a = Done \/ act_kind a <> Done /\ line_action a /\
       exists c3, complete (answer b a).1 c2 = Ok c3 /\ tame (S n) c3 (answer b a).2)).
  unfold next. rewrite throw_if_false by reflexivity. change (pushing c1) with true. cbv iota.
  rewrite El. destruct (l_valid (line c s) && l_dirty (line c s)) eqn:E'.
  - apply andb_true_iff in E' as [Hv _]. do 2 eexists. split; [reflexivity |]. right. split; [discriminate |].
    split; [apply (line_action_line c s W Hs Hv) |]. eexists. split.
    + unfold complete. cbn [answer act_kind fst]. rewrite throw_if_false by reflexivity. reflexivity.
    + destruct (invalidate_push _); apply empty_tame; reflexivity.
  - do 2 eexists. split; [reflexivity | left; reflexivity].
Qed.

(** A tame transaction can be driven. *)
Lemma tame_drive n : forall c (b : B), tame n c b -> exists bs c' b', drive n c b = Ok (bs, c', b').
Proof.
  induction n as [|n IH]; intros c b; [intros [] |]. intros (a & c1 & E & Hk). rewrite drive_S, E. cbn [mbind result_bind].
  destruct Hk as [->|(Hk & _ & c2 & E2 & T2)]; [eauto |].
  destruct (IH c2 _ T2) as (bs & c' & b' & Hd). exists bs, c', b'. unfold answer in *.
  destruct (act_kind a); [congruence | |]; cbn [fst snd] in *; rewrite E2; exact Hd.
Qed.
End Actions.
