(* ===== verification/WindowCacheBank.v ===== *)
(** * The bank of per-CPU window caches

    [src/src/quetz_window_cache_bank.h], class [WindowCacheBank]: one cache
    per vCPU, and the requests their transactions have sent to memory, by id. *)
From S2P Require Import Prelude.
From S2P Require Import Backing.
From S2P Require Import WindowCache.
From S2P Require Import WindowCacheSpec.
From S2P Require Import WindowCacheThm.

Record Pending := mkPending { p_vcpu : Z; p_read : bool }.
Record State := mkState { s_cache : WindowDataCache; s_outstanding : bool }.
#[export] Instance State_inhabited : Inhabited State := populate (mkState cache0 false).
#[export] Instance State_settable : Settable State := fun s => mkState (s_cache s) (s_outstanding s).

Record WindowCacheBank := mkBank { states : list State; pending : gmap Z Pending }.
#[export] Instance Bank_settable : Settable WindowCacheBank := fun b => mkBank (states b) (pending b).
Definition bank0 : WindowCacheBank := mkBank [] ∅.

(** [states_.at(vcpu)] *)
Definition at_ (v : Z) (b : WindowCacheBank) : result State :=
  match states b !! Z.to_nat v with
  | Some s => Ok s
  | None => Throw OutOfRange "states_.at"
  end.
Definition set_state (v : Z) (s : State) (b : WindowCacheBank) : WindowCacheBank :=
  b <| states ::= <[Z.to_nat v := s]> |>.

(** [cache(vcpu)] as a value, and an operation on it through the reference. *)
Definition cache (v : Z) (b : WindowCacheBank) : result WindowDataCache :=
  s ← at_ v b; Ok (s_cache s).
Definition on_cache (v : Z) (f : WindowDataCache -> result WindowDataCache) (b : WindowCacheBank) :
    result WindowCacheBank :=
  s ← at_ v b;
  c ← f (s_cache s);
  Ok (set_state v (s <| s_cache := c |>) b).

Definition active (b : WindowCacheBank) : bool :=
  negb (bool_decide (pending b = ∅)) || existsb (fun s => WindowCache.active (s_cache s)) (states b).

Fixpoint for_each (f : WindowDataCache -> result WindowDataCache) (l : list State) : result (list State) :=
  match l with
  | [] => Ok []
  | s :: l =>
      c ← f (s_cache s);
      l ← for_each f l;
      Ok (s <| s_cache := c |> :: l)
  end.

(** [configure]: fresh caches; the idle old ones are dropped, the (empty) map
    of requests stays. *)
Definition configure (cores base size : Z) (b : WindowCacheBank) : result WindowCacheBank :=
  throw_if ((cores <? 1) || (2 <? cores) || active b) InvalidArgument
    "window cache bank requires one or two idle CPUs" ≫= fun _ =>
  next ← for_each (WindowCache.configure base size) (replicate (Z.to_nat cores) (mkState cache0 false));
  Ok (b <| states := next |>).

(** [addRegion].  A throw from a cache is fatal to the simulation, so the
    caches before it that have the region already are not kept. *)
Definition addRegion (base size : Z) (b : WindowCacheBank) : result WindowCacheBank :=
  throw_if (active b) LogicError "adding a cache region during an active transaction" ≫= fun _ =>
  next ← for_each (WindowCache.addRegion base size) (states b);
  Ok (b <| states := next |>).

Definition issued (v id : Z) (read : bool) (b : WindowCacheBank) : result WindowCacheBank :=
  s ← at_ v b;
  throw_if (negb (WindowCache.active (s_cache s)) || s_outstanding s || bool_decide (is_Some (pending b !! id)))
    LogicError "overlapping window cache backing request" ≫= fun _ =>
  Ok (set_state v (s <| s_outstanding := true |>) (b <| pending ::= <[id := mkPending v read]> |>)).

Definition complete (id v : Z) (read : bool) (bytes : list Z) (b : WindowCacheBank) : result WindowCacheBank :=
  match pending b !! id with
  | None => Throw LogicError "window cache response ownership/type mismatch"
  | Some p =>
      throw_if (negb (p_vcpu p =? v) || negb (Bool.eqb (p_read p) read)) LogicError
        "window cache response ownership/type mismatch" ≫= fun _ =>
      s ← at_ v b;
      c ← WindowCache.complete bytes (s_cache s);
      Ok (set_state v (mkState c false) b <| pending ::= delete id |>)
  end.

Definition resetCore (v : Z) (b : WindowCacheBank) : result WindowCacheBank :=
  s ← at_ v b;
  throw_if (s_outstanding s || WindowCache.active (s_cache s)) LogicError
    "window cache reset during an outstanding transaction" ≫= fun _ =>
  c ← WindowCache.reset (s_cache s);
  Ok (set_state v (s <| s_cache := c |>) b).

Lemma set_state_twice v x y b : set_state v x (set_state v y b) = set_state v x b.
Proof. unfold set_state. cbn. rewrite list_insert_insert_eq. reflexivity. Qed.
