(* ===== verification/EventWriter.v ===== *)
(** * The accelerator lifecycle log

    [src/src/quetz_accelerator_event_writer.h], class [AcceleratorEventWriter]:
    one JSON record per line with consecutive sequence numbers, each flushed
    before the guest sees the state it reports.  Opening the file and flushing
    a record are the file system's: parameters of the model. *)
From Stdlib Require Import Ascii.
From stdpp Require Import pretty.
From S2P Require Import Prelude.

(** ** Identifiers *)

Definition isLowerOrDigit (c : Ascii.ascii) : bool :=
  let n := Ascii.nat_of_ascii c in
  ((97 <=? n)%nat && (n <=? 122)%nat) || ((48 <=? n)%nat && (n <=? 57)%nat).

Definition identifier_char (c : Ascii.ascii) : bool :=
  isLowerOrDigit c || Ascii.eqb c "."%char || Ascii.eqb c "_"%char || Ascii.eqb c "-"%char.

Definition isIdentifier (value : string) : bool :=
  match value with
  | EmptyString => false
  | String c _ => isLowerOrDigit c && forallb identifier_char (list_ascii_of_string value)
  end.

(** ** Records *)

Record WriterEvent := mkEvent
  { ev_kind : string; ev_time : Z; ev_operation_id : Z; ev_code : string;
    ev_checkpoint : bool; ev_value : Z; ev_busy : bool; ev_observer : string;
    ev_line : Z; ev_vcpu : Z }.

Definition dq : string := String (Ascii.ascii_of_nat 34) EmptyString.
Definition newline : string := String (Ascii.ascii_of_nat 10) EmptyString.
Definition quoted (s : string) : string := dq +:+ s +:+ dq.
Definition key (name value : string) : string := quoted name +:+ ":" +:+ value.
Definition json_bool (b : bool) : string := if b then "true" else "false".
Definition json_num (n : Z) : string := pretty.pretty (Z.to_N n).

(** One line of the file. *)
Definition render (source operation : string) (sequence : Z) (e : WriterEvent) : string :=
  "{" +:+ key "schema_version" "1" +:+ "," +:+ key "sequence" (json_num sequence) +:+ "," +:+
  key "sim_time_ns" (json_num (ev_time e)) +:+ "," +:+
  key "source" (quoted source) +:+ "," +:+ key "kind" (quoted (ev_kind e)) +:+ "," +:+
  quoted "payload" +:+ ":{" +:+ key "operation_id" (json_num (ev_operation_id e)) +:+ "," +:+
  key "operation" (quoted operation) +:+
  (if String.eqb (ev_code e) "" then "" else "," +:+ key "code" (quoted (ev_code e))) +:+
  (if ev_checkpoint e
   then "," +:+ key "value" (json_num (ev_value e)) +:+ "," +:+ key "busy" (json_bool (ev_busy e))
   else "") +:+
  (if String.eqb (ev_observer e) "" then "" else
     "," +:+ key "line" (json_num (ev_line e)) +:+ "," +:+ key "vcpu" (json_num (ev_vcpu e)) +:+ "," +:+
     key "value" (json_num (ev_value e)) +:+ "," +:+ key "pending" (json_bool (ev_busy e)) +:+ "," +:+
     key "observer" (quoted (ev_observer e))) +:+ "}}" +:+ newline.

(** ** The writer *)

Record Writer := mkWriter
  { w_file : list string; w_source : string; w_operation : string; sequence : Z; enabled : bool }.
#[export] Instance Writer_settable : Settable Writer := fun w =>
  mkWriter (w_file w) (w_source w) (w_operation w) (sequence w) (enabled w).

Definition writer0 : Writer := mkWriter [] "" "" 0 false.

(** What the file system answers: can the path be opened, does the record
    with a given number reach the file. *)
Class FileSystem := { can_open : string -> bool; can_flush : Z -> bool }.

(** [inr]: the function returns false and sets [error]. *)
Definition configure `{FileSystem} (path source operation : string) (w : Writer) : Writer + string :=
  if String.eqb path "" then inl w
  else if negb (isIdentifier source) then inr "event_source must match ^[a-z0-9][a-z0-9._-]*$"
  else if negb (isIdentifier operation) then inr "event_operation must match ^[a-z0-9][a-z0-9._-]*$"
  else if negb (can_open path) then inr ("cannot open accelerator event file '" +:+ path +:+ "'")
  else inl (mkWriter [] source operation 0 true).

Definition emit `{FileSystem} (e : WriterEvent) (w : Writer) : Writer + string :=
  if negb (enabled w) then inl w
  else if can_flush (sequence w) then
    inl (w <| w_file ::= fun f => f ++ [render (w_source w) (w_operation w) (sequence w) e] |>
           <| sequence ::= fun n => u64 (n + 1) |>)
  else inr "failed to write and flush accelerator event record".

Definition emitRequested `{FileSystem} (time id : Z) : Writer -> Writer + string :=
  emit (mkEvent "accelerator-requested" time id "" false 0 false "" 0 0).
Definition emitCompleted `{FileSystem} (time id : Z) : Writer -> Writer + string :=
  emit (mkEvent "accelerator-completed" time id "" false 0 false "" 0 0).

Definition emitError `{FileSystem} (time id : Z) (code : string) (w : Writer) : Writer + string :=
  if negb (isIdentifier code) then inr "accelerator error code must be a schema identifier"
  else emit (mkEvent "accelerator-error" time id code false 0 false "" 0 0) w.

Definition emitCpuCheckpoint `{FileSystem} (time id value : Z) (busy : bool) : Writer -> Writer + string :=
  emit (mkEvent "cpu-checkpoint" time id "" true value busy "" 0 0).

Definition irq_kinds : list string :=
  ["irq-asserted"; "irq-delivered"; "irq-acknowledged"; "irq-deasserted"; "irq-settled"]%string.

Definition emitIrq `{FileSystem} (kind : string) (time id line vcpu value : Z) (pending : bool)
    (observer : string) (w : Writer) : Writer + string :=
  if negb (existsb (String.eqb kind) irq_kinds) || negb (isIdentifier observer)
  then inr "invalid IRQ event kind or observer"
  else emit (mkEvent kind time id "" false value pending observer line vcpu) w.

(** ** Consecutive records *)

(** The file holds records numbered 0, 1, 2, ... of the configured source. *)
Definition numbered (w : Writer) : Prop :=
  sequence w = Z.of_nat (length (w_file w)) /\
  forall i r, w_file w !! i = Some r -> exists e, r = render (w_source w) (w_operation w) (Z.of_nat i) e.

Lemma emit_numbered `{FileSystem} e w w' : emit e w = inl w' -> sequence w < max_u64 ->
  numbered w -> numbered w'.
Proof.
  unfold emit. intros E Hm [Hs Hr]. destruct (enabled w); cbn in E; [| injection E as <-; split; assumption].
  destruct (can_flush _); [| discriminate]. injection E as <-. unfold numbered; cbn.
  rewrite length_app; cbn. rewrite wrap_small by word. split; [lia |].
  intros i r Hi. apply lookup_app_Some in Hi as [Hi|[Hl Hi]]; [apply Hr; assumption |].
  apply list_lookup_singleton_Some in Hi as [Hi <-]. exists e. rewrite Hs. do 2 f_equal. lia.
Qed.

(** A configured log accepts any sequence of events, numbers the records
    consecutively from 0 and never rewrites one. *)
Lemma log_sequence `{FileSystem} events w w' :
  foldl (fun r e => match r with inl w => emit e w | inr s => inr s end) (inl w) events = inl w' ->
  enabled w = true -> numbered w -> sequence w + Z.of_nat (length events) < max_u64 ->
  numbered w' /\ sequence w' = sequence w + Z.of_nat (length events) /\
  exists tail, w_file w' = w_file w ++ tail.
Proof.
  revert w. induction events as [|e events IH]; intros w; cbn [foldl length].
  { intros E _ Hn _. injection E as <-. split; [assumption | split; [lia |]].
    exists []. rewrite app_nil_r. reflexivity. }
  intros E He Hn Hb. destruct (emit e w) as [w1|s] eqn:E1.
  2:{ exfalso. clear -E. induction events; cbn in E; [discriminate | auto]. }
  pose proof (emit_numbered e w w1 E1 ltac:(lia) Hn) as Hn1.
  unfold emit in E1. rewrite He in E1. cbn in E1. destruct (can_flush _); [| discriminate].
  injection E1 as <-. apply IH in E; cbn; try assumption.
  - cbn in E. rewrite wrap_small in E by (destruct Hn; word).
    destruct E as (? & ? & tail & Ht). split; [assumption | split; [lia |]].
    eexists. rewrite Ht, <- app_assoc. reflexivity.
  - rewrite wrap_small by (destruct Hn; word). lia.
Qed.

(** ** No injection *)

(** Identifiers hold only lower-case letters, digits, dots, dashes and
    underscores: none of the characters that JSON would need escaped. *)
Lemma isIdentifier_chars s : isIdentifier s = true ->
  s <> EmptyString /\
  Forall (fun c => let n := Ascii.nat_of_ascii c in
    (97 <= n <= 122 \/ 48 <= n <= 57 \/ n = 45 \/ n = 46 \/ n = 95)%nat) (list_ascii_of_string s).
Proof.
  destruct s as [|c s]; [discriminate |]. unfold isIdentifier. rewrite andb_true_iff.
  intros [_ H]. split; [discriminate |]. apply Forall_forall. intros d Hd.
  rewrite forallb_forall in H. apply list_elem_of_In, H in Hd.
  unfold identifier_char, isLowerOrDigit in Hd.
  rewrite !orb_true_iff, !andb_true_iff, !Nat.leb_le, !Ascii.eqb_eq in Hd.
  destruct Hd as [[[[?|?] | -> ] | -> ] | -> ]; cbn; [lia | lia | vm_compute; lia..].
Qed.

(** ** The theorems at concrete inputs *)

(** A file system on which everything works. *)
Definition good_fs : FileSystem := {| can_open := fun _ => true; can_flush := fun _ => true |}.
Definition demo_writer : Writer := mkWriter [] "accelerator.quetz" "fft" 0 true.
Definition demo_event : WriterEvent := mkEvent "accelerator-requested" 5 1 "" false 0 false "" 0 0.

Lemma log_sequence_witness : exists w',
  foldl (fun r e => match r with inl w => @emit good_fs e w | inr s => inr s end) (inl demo_writer) [demo_event; demo_event] = inl w' /\
  sequence w' = 2.
Proof.
  eexists. split; [reflexivity |].
  refine (proj1 (proj2 (@log_sequence good_fs [demo_event; demo_event] demo_writer _ _ _ _ _))).
  - reflexivity.
  - reflexivity.
  - split; [reflexivity |]. intros i r H. discriminate H.
  - reflexivity.
Defined.
