(* ===== verification/Kernel.v ===== *)
(** * Compute kernels

    The kernel interface of the accelerator ([src/src/quetz_kernel_api.h]) and
    the saturating scale/offset kernel ([quetz_scale_offset.h],
    [quetz_scale_offset_kernel.cc]). *)
From S2P Require Import Prelude.
From S2P Require Import Backing.

(** ** The interface *)

Definition kMaxKernelInputBytes : Z := Z.shiftl 256 20.

Record KernelArgs := mkArgs { src_addr : Z; dst_addr : Z; arg2 : Z; arg3 : Z }.

(** [inputBytes] returns 0 to reject the operation, with a reason; [compute]
    takes the device's byte order and returns the output and a latency. *)
Record QuetzKernel := mkKernel
  { inputBytes : KernelArgs -> Z * string;
    compute : bool -> KernelArgs -> list Z -> list Z * Z }.

(** ** Saturating arithmetic *)

Definition INT16_MAX : Z := 32767.
Definition INT16_MIN : Z := -32768.

(** [(int32_t)in * (int32_t)scale + (int32_t)offset], then the clamp. *)
Definition quetz_scale_offset_sat16 (in_ scale offset : Z) : Z :=
  let v := in_ * scale + offset in
  if INT16_MAX <? v then INT16_MAX else if v <? INT16_MIN then INT16_MIN else v.

Definition is_int (w x : Z) : Prop := - 2 ^ (w - 1) <= x < 2 ^ (w - 1).

Lemma sat16_range x scale offset : is_int 16 x -> is_int 16 scale -> is_int 16 offset ->
  is_int 16 (quetz_scale_offset_sat16 x scale offset) /\
  quetz_scale_offset_sat16 x scale offset = Z.max INT16_MIN (Z.min INT16_MAX (x * scale + offset)).
Proof.
  unfold is_int. change (2 ^ (16 - 1)) with 32768. intros Hx Hs Ho.
  unfold quetz_scale_offset_sat16, INT16_MAX, INT16_MIN.
  destruct (Z.ltb_spec 32767 (x * scale + offset)), (Z.ltb_spec (x * scale + offset) (-32768)); lia.
Qed.

(** The intermediate product and sum fit in 32 bits and the result is the
    nearest 16-bit value. *)
Lemma sat16_spec x scale offset : is_int 16 x -> is_int 16 scale -> is_int 16 offset ->
  is_int 32 (x * scale) /\ is_int 32 (x * scale + offset) /\
  is_int 16 (quetz_scale_offset_sat16 x scale offset) /\
  quetz_scale_offset_sat16 x scale offset = Z.max INT16_MIN (Z.min INT16_MAX (x * scale + offset)).
Proof.
  unfold is_int. change (2 ^ (16 - 1)) with 32768. change (2 ^ (32 - 1)) with 2147483648.
  intros Hx Hs Ho. assert (-1073741824 <= x * scale <= 1073741824) by nia.
  pose proof (sat16_range x scale offset Hx Hs Ho). unfold is_int in *.
  change (2 ^ (16 - 1)) with 32768 in *. lia.
Qed.

(** ** The kernel *)

(** [(int16_t)] of a 16-bit pattern. *)
Definition int16 (x : Z) : Z := sign 16 (u16 x).

Definition so_lo (be : bool) : Z := if be then 1 else 0.
Definition so_hi (be : bool) : Z := 1 - so_lo be.
Definition byte_at (l : list Z) (i : Z) : Z := l !!! Z.to_nat i.

Definition so_sample (be : bool) (l : list Z) (i : Z) : Z :=
  int16 (Z.lor (byte_at l (2 * i + so_lo be)) (Z.shiftl (byte_at l (2 * i + so_hi be)) 8)).

Definition so_store (be : bool) (i r : Z) (l : list Z) : list Z :=
  <[Z.to_nat (2 * i + so_hi be) := u8 (Z.land (Z.shiftr (u16 r) 8) 255)]>
    (<[Z.to_nat (2 * i + so_lo be) := u8 (Z.land (u16 r) 255)]> l).

(** The loop over the samples [i, i + n). *)
Fixpoint so_loop (be : bool) (scale offset : Z) (in_ : list Z) (n : nat) (i : Z) (out : list Z) : list Z :=
  match n with
  | O => out
  | S n =>
      so_loop be scale offset in_ n (i + 1)
        (so_store be i (quetz_scale_offset_sat16 (so_sample be in_ i) scale offset) out)
  end.

Definition so_inputBytes (args : KernelArgs) : Z * string :=
  if arg2 args =? 0 then (0, "sample count (REG_ARG2) must be nonzero"%string)
  else if kMaxKernelInputBytes / 2 <? arg2 args then
    (0, "sample count (REG_ARG2) exceeds the kernel input ceiling"%string)
  else (u64 (arg2 args * 2), ""%string).

Definition so_scale (args : KernelArgs) : Z := int16 (Z.land (arg3 args) 0xffff).
Definition so_offset (args : KernelArgs) : Z := int16 (Z.land (Z.shiftr (arg3 args) 16) 0xffff).

Definition so_compute (latency_coeff : Z) (be : bool) (args : KernelArgs) (in_ : list Z) : list Z * Z :=
  (so_loop be (so_scale args) (so_offset args) in_ (Z.to_nat (arg2 args)) 0
     (replicate (length in_) 0),
   u64 (latency_coeff * arg2 args)).

Definition ScaleOffsetKernel (latency_coeff : Z) : QuetzKernel :=
  mkKernel so_inputBytes (so_compute latency_coeff).

(** ** Correctness of the loop *)

Lemma int16_range x : is_int 16 (int16 x).
Proof.
  unfold int16, sign, is_int. change (2 ^ (16 - 1)) with 32768. change (2 ^ 16) with 65536. dlia.
Qed.

Lemma int16_id x : is_int 16 x -> int16 x = x.
Proof.
  unfold int16, sign, wrap, is_int. change (2 ^ (16 - 1)) with 32768. change (2 ^ 16) with 65536. dlia.
Qed.

Lemma length_so_store be i r l : length (so_store be i r l) = length l.
Proof. unfold so_store. rewrite !length_insert. reflexivity. Qed.

Lemma length_so_loop be s o in_ n i out : length (so_loop be s o in_ n i out) = length out.
Proof.
  revert i out. induction n as [|n IH]; intros i out; cbn; [reflexivity |].
  rewrite IH. apply length_so_store.
Qed.

Lemma so_bytes r : let u := u16 r in
  Z.lor (u8 (Z.land u 255)) (Z.shiftl (u8 (Z.land (Z.shiftr u 8) 255)) 8) = u.
Proof.
  intros u. rewrite !land_255, shiftr_8, shiftl_8, Z.lor_comm.
  pose proof (wrap_range 16 r). fold u in H. pow2.
  rewrite (wrap_small 8 (u mod 256)), (wrap_small 8 ((u / 256) mod 256)) by (unfold is_word; pow2; dlia).
  pose proof (lor_add_low ((u / 256) mod 256) (u mod 256) 8 ltac:(lia) ltac:(pow2; dlia)) as E.
  change (2 ^ 8) with 256 in E. rewrite E. dlia.
Qed.

Lemma so_sample_store_same be i r l : 0 <= i -> 2 * i + 1 < Z.of_nat (length l) ->
  so_sample be (so_store be i r l) i = int16 r.
Proof.
  intros Hi Hl. unfold so_sample, so_store, byte_at, so_hi.
  assert (Hne : Z.to_nat (2 * i + (1 - so_lo be)) <> Z.to_nat (2 * i + so_lo be))
    by (unfold so_lo; destruct be; lia).
  rewrite list_lookup_total_insert_ne by congruence.
  rewrite !list_lookup_total_insert_eq by (rewrite ?length_insert; unfold so_lo; destruct be; lia).
  rewrite so_bytes. unfold int16. rewrite wrap_wrap. reflexivity.
Qed.

Lemma so_sample_store_other be i j r l : 0 <= i -> 0 <= j -> i <> j ->
  so_sample be (so_store be j r l) i = so_sample be l i.
Proof.
  intros. unfold so_sample, so_store, byte_at, so_hi.
  rewrite !list_lookup_total_insert_ne by (unfold so_lo; destruct be; lia). reflexivity.
Qed.

Lemma so_loop_sample be s o in_ n : forall i out k, 0 <= i -> 0 <= k ->
  2 * (i + Z.of_nat n) <= Z.of_nat (length out) ->
  so_sample be (so_loop be s o in_ n i out) k =
  if decide (i <= k < i + Z.of_nat n)
  then int16 (quetz_scale_offset_sat16 (so_sample be in_ k) s o) else so_sample be out k.
Proof.
  induction n as [|n IH]; intros i out k Hi Hk Hl; cbn [so_loop].
  { rewrite decide_False by lia. reflexivity. }
  rewrite IH by (rewrite ?length_so_store; lia).
  destruct (Z.eq_dec k i) as [->|].
  - rewrite decide_False, decide_True by lia. apply so_sample_store_same; lia.
  - rewrite so_sample_store_other by lia. repeat case_decide; reflexivity || lia.
Qed.

(** Accepted operations: the input size is twice the sample count without
    wrap-around, the output has the input's size, and every sample is scaled,
    shifted and saturated, in the byte order of the device. *)
Lemma scale_offset_kernel_correct coeff be args in_ :
  is_u64 (arg2 args) -> (so_inputBytes args).1 <> 0 ->
  Z.of_nat (length in_) = (so_inputBytes args).1 ->
  (so_inputBytes args).1 = 2 * arg2 args /\ 0 < arg2 args <= 2 ^ 27 /\
  length (so_compute coeff be args in_).1 = length in_ /\
  forall i, 0 <= i < arg2 args ->
    so_sample be (so_compute coeff be args in_).1 i =
    Z.max INT16_MIN (Z.min INT16_MAX (so_sample be in_ i * so_scale args + so_offset args)).
Proof.
  intros Hw. unfold so_inputBytes. change (kMaxKernelInputBytes / 2) with (2 ^ 27).
  destruct (Z.eqb_spec (arg2 args) 0); [intros H; destruct (H eq_refl) |].
  destruct (Z.ltb_spec (2 ^ 27) (arg2 args)); [intros H'; destruct (H' eq_refl) |]. cbn [fst].
  rewrite wrap_small by word. intros _ Hl.
  split; [lia | split; [word | split]].
  - cbn. rewrite length_so_loop. apply length_replicate.
  - intros i Hi. unfold so_compute; cbn [fst].
    rewrite so_loop_sample by (rewrite ?length_replicate; lia). rewrite decide_True by lia.
    destruct (sat16_range (so_sample be in_ i) (so_scale args) (so_offset args)) as [H1 <-];
      try apply int16_range.
    apply int16_id. exact H1.
Qed.

(** The theorem at a concrete input: one sample, 3 * 100 + 7. *)
Lemma scale_offset_kernel_correct_witness :
  so_sample false (so_compute 4 false (mkArgs 0 64 1 (7 * 65536 + 3)) [100; 0]).1 0 = 307.
Proof.
  destruct (scale_offset_kernel_correct 4 false (mkArgs 0 64 1 (7 * 65536 + 3)) [100; 0]) as (_ & _ & _ & H).
  - cbn. word.
  - discriminate.
  - reflexivity.
  - exact (H 0 ltac:(cbn; lia)).
Defined.
