(* ===== verification/StdMem.v ===== *)
(** * Requests and responses

    What the devices see of the memory interface: the requests of
    [StandardMem] (plain data, with the bytes low byte first), the interrupt
    events of [src/src/quetz_irq_event.h], and what a device sends.  The byte
    conversions are the loops every handler has ([u64ToData], [dataToU64]). *)
From S2P Require Import Prelude.

(** ** Requests *)

Record WriteReq := mkWrite { wr_id : Z; wr_addr : Z; wr_size : Z; wr_data : list Z; wr_posted : bool }.
Record ReadReq := mkRead { rd_id : Z; rd_addr : Z; rd_size : Z }.

(** [QuetzIrqEvent] ([quetz_irq_event.h]). *)
Record QuetzIrqEvent := mkIrq { vcpu : Z; irq_line : Z; level : Z }.

Inductive Msg : Type :=
  | WriteResp (id : Z)                        (* to the guest *)
  | ReadResp (id : Z) (data : list Z)
  | MemRead (id addr size : Z)                (* DMA *)
  | MemWrite (id addr : Z) (data : list Z)
  | Irq (e : QuetzIrqEvent).

Definition u64ToData (v size : Z) : list Z := le_bytes (Z.to_nat size) v.
Definition dataToU64 (data : list Z) : Z := le_value data.

(** A well-formed write carries bytes. *)
Definition write_ok (w : WriteReq) : Prop := bytes_ok (wr_data w).

(** [value |= bytes[i] << (8 * i)] from byte [n] of the value on. *)
Fixpoint pack (n : nat) (bs : list Z) : Z :=
  match bs with
  | [] => 0
  | b :: bs => Z.lor (Z.shiftl b (8 * Z.of_nat n)) (pack (S n) bs)
  end.

Lemma pack_S n bs : pack (S n) bs = Z.shiftl (pack n bs) 8.
Proof.
  revert n; induction bs as [|b bs IH]; intros n; [reflexivity |]. cbn [pack].
  rewrite IH, Z.shiftl_lor, Z.shiftl_shiftl by lia. do 2 f_equal. lia.
Qed.

Lemma pack_cons b bs : is_u8 b -> pack 0 (b :: bs) = pack 0 bs * 256 + b.
Proof.
  intros Hb. cbn [pack]. rewrite pack_S, Z.shiftl_0_r, Z.lor_comm, shiftl_8.
  apply (lor_add_low _ _ 8); [lia | exact Hb].
Qed.

(** The bytes of a packed value are the stream's, then zeros. *)
Lemma le_bytes_pack k : forall bs, bytes_ok bs ->
  le_bytes k (pack 0 bs) = take k bs ++ replicate (k - length bs) 0.
Proof.
  induction k as [|k IH]; intros bs H; [reflexivity |]. cbn [le_bytes].
  destruct bs as [|b bs].
  - change (Z.shiftr (pack 0 []) 8) with (pack 0 []). rewrite IH by constructor.
    cbn. rewrite take_nil, Nat.sub_0_r. reflexivity.
  - apply Forall_cons in H as [Hb H]. rewrite pack_cons, land_255, shiftr_8 by assumption.
    replace ((pack 0 bs * 256 + b) mod 256) with b by (unfold is_word in Hb; change (2 ^ 8) with 256 in Hb; dlia).
    replace ((pack 0 bs * 256 + b) / 256) with (pack 0 bs) by (unfold is_word in Hb; change (2 ^ 8) with 256 in Hb; dlia).
    rewrite IH by assumption. reflexivity.
Qed.

Lemma pack_le_value bs : bytes_ok bs -> (length bs <= 8)%nat -> pack 0 bs = le_value bs.
Proof.
  induction bs as [|b bs IH]; intros H Hl; [reflexivity |]. apply Forall_cons in H as [Hb H]. cbn in Hl.
  rewrite pack_cons, le_value_cons, IH by (assumption || lia).
  pose proof (le_value_bound bs H ltac:(lia)) as Hv.
  assert (256 ^ Z.of_nat (length bs) <= 256 ^ 7) by (apply Z.pow_le_mono_r; lia).
  rewrite wrap_small; [reflexivity |]. unfold is_word. change (2 ^ 64) with (256 ^ 7 * 256). lia.
Qed.
