(* ===== verification/Sink.v ===== *)
(** * The sink device

    [src/src/quetz_sink_device.h] and [quetz_sink_device.cc], class
    [QuetzSinkDevice]: bytes the guest pushes through a data register are
    captured, and appended to a file on flush and at the end of the run.

    The device and its file are one state; the operating system's answers
    (opening the file, writing to it) are parameters. *)
From S2P Require Import Prelude.
From S2P Require Import StdMem.

Definition REG_STATUS : Z := 0x00.
Definition REG_DATA : Z := 0x08.
Definition REG_SEQ : Z := 0x10.
Definition REG_CTRL : Z := 0x18.

Record Params := mkParams
  { base_addr : Z; mmio_size : Z; max_bytes : Z; sink_file : string; has_iface : bool }.

Record Stats := mkStats
  { bytes_accepted : Z; flushes : Z; truncates : Z; dropped_bytes : Z;
    wrong_direction_accesses : Z; bad_offset_accesses : Z }.
#[export] Instance Stats_settable : Settable Stats := fun s =>
  mkStats (bytes_accepted s) (flushes s) (truncates s) (dropped_bytes s)
    (wrong_direction_accesses s) (bad_offset_accesses s).

Record Sink := mkSink
  { captured : list Z; flushed_bytes : nat; accepted : Z; dropped : Z;
    stats : Stats; file : list Z;              (* the contents of sink_file *)
    sent : list Msg }.
#[export] Instance Sink_settable : Settable Sink := fun s =>
  mkSink (captured s) (flushed_bytes s) (accepted s) (dropped s) (stats s) (file s) (sent s).

Definition count (f : Stats -> Z) `{!Update f} (s : Sink) : Sink :=
  s <| stats ::= update_field f (fun n => n + 1) |>.
Definition send (m : Msg) (s : Sink) : Sink := s <| sent ::= fun l => l ++ [m] |>.

Section Device.
(** Whether the operating system opens the file, and accepts the bytes. *)
Variables (can_open : bool) (can_write : list Z -> bool).
Variable P : Params.

Definition sink0 : Sink := mkSink [] 0 0 0 (mkStats 0 0 0 0 0 0) [] [].

(** The constructor creates or truncates the file. *)
Definition construct : result Sink :=
  throw_if (String.eqb (sink_file P) "") Fatal "'sink_file' is required" ≫= fun _ =>
  throw_if (negb can_open) Fatal "cannot write sink_file" ≫= fun _ =>
  throw_if (negb (has_iface P)) Fatal "no 'iface' subcomponent" ≫= fun _ =>
  Ok sink0.

(** [writeFile] *)
Definition writeFile (truncate_only : bool) (s : Sink) : result Sink :=
  throw_if (negb can_open) Fatal "cannot write sink_file" ≫= fun _ =>
  let s := if truncate_only then s <| file := [] |> else s in
  if truncate_only then Ok (s <| flushed_bytes := 0%nat |>)
  else
    throw_if (Nat.ltb (length (captured s)) (flushed_bytes s)) Fatal
      "sink flush cursor exceeds capture" ≫= fun _ =>
    let pending := (length (captured s) - flushed_bytes s)%nat in
    if Nat.eqb pending 0 then Ok s
    else
      let bytes := drop (flushed_bytes s) (captured s) in
      throw_if (negb (can_write bytes)) Fatal "failed writing sink_file" ≫= fun _ =>
      Ok (s <| file ::= fun f => f ++ bytes |> <| flushed_bytes := length (captured s) |>).

Definition offset_of (addr : Z) : Z := u64 (addr - base_addr P).

(** [mmioHandlers::handle(Read)] *)
Definition read_register (offset : Z) (s : Sink) : Z * Sink :=
  if (offset =? REG_STATUS) || (offset =? REG_SEQ) then (accepted s, s)
  else if (offset =? REG_DATA) || (offset =? REG_CTRL) then (0, count wrong_direction_accesses s)
  else (0, count bad_offset_accesses s).
Definition handle_read (r : ReadReq) (s : Sink) : Sink :=
  let (value, s) := read_register (offset_of (rd_addr r)) s in
  send (ReadResp (rd_id r) (u64ToData value (rd_size r))) s.

(** One byte of a data write. *)
Definition push (b : Z) (s : Sink) : Sink :=
  if negb (max_bytes P =? 0) && (max_bytes P <=? Z.of_nat (length (captured s))) then
    count dropped_bytes (s <| dropped ::= fun n => u64 (n + 1) |>)
  else
    count bytes_accepted (s <| captured ::= fun l => l ++ [b] |> <| accepted ::= fun n => u64 (n + 1) |>).
Fixpoint push_all (bs : list Z) (s : Sink) : Sink :=
  match bs with [] => s | b :: bs => push_all bs (push b s) end.

(** [mmioHandlers::handle(Write)] *)
Definition write_register (offset : Z) (data : list Z) (s : Sink) : result Sink :=
  if offset =? REG_DATA then Ok (push_all data s)
  else if offset =? REG_CTRL then
    let value := dataToU64 data in
    if value =? 1 then writeFile false s ≫= fun s => Ok (count flushes s)
    else if value =? 2 then
      writeFile true (s <| captured := [] |> <| accepted := 0 |>) ≫= fun s => Ok (count truncates s)
    else Ok s
  else if (offset =? REG_STATUS) || (offset =? REG_SEQ) then Ok (count wrong_direction_accesses s)
  else Ok (count bad_offset_accesses s).
Definition handle_write (w : WriteReq) (s : Sink) : result Sink :=
  write_register (offset_of (wr_addr w)) (wr_data w) s ≫= fun s =>
  Ok (if wr_posted w then s else send (WriteResp (wr_id w)) s).

Definition finish (s : Sink) : result Sink := writeFile false s.

Inductive Event : Type := Write (w : WriteReq) | Read (r : ReadReq).
Definition step (e : Event) (s : Sink) : result Sink :=
  match e with Write w => handle_write w s | Read r => Ok (handle_read r s) end.
Fixpoint run (es : list Event) (s : Sink) : result Sink :=
  match es with [] => Ok s | e :: es => step e s ≫= fun s => run es s end.

(** ** What the device captures

    The reference: the bytes pushed since the last truncate, cut at the cap,
    and how many were dropped. *)
Definition cap (bs : list Z) : list Z :=
  if max_bytes P =? 0 then bs else take (Z.to_nat (max_bytes P)) bs.

Definition expect (e : Event) (acc : list Z * Z) : list Z * Z :=
  match e with
  | Write w =>
      let offset := offset_of (wr_addr w) in
      if offset =? REG_DATA then
        let all := fst acc ++ wr_data w in
        (cap all, snd acc + (Z.of_nat (length all) - Z.of_nat (length (cap all))))
      else if (offset =? REG_CTRL) && (dataToU64 (wr_data w) =? 2) then ([], snd acc)
      else acc
  | Read _ => acc
  end.
Definition expected (es : list Event) : list Z * Z := fold_left (fun acc e => expect e acc) es ([], 0).

(** The counters, the cap, and the part of the capture that is in the file. *)
Record inv (s : Sink) : Prop :=
  { iv_flushed : (flushed_bytes s <= length (captured s))%nat;
    iv_file : file s = take (flushed_bytes s) (captured s);
    iv_accepted : accepted s = u64 (Z.of_nat (length (captured s)));
    iv_cap : captured s = cap (captured s) }.

Lemma cap_app a b : cap (cap a ++ b) = cap (a ++ b).
Proof.
  unfold cap. destruct (max_bytes P =? 0); [reflexivity |].
  rewrite !take_app, take_take, length_take. f_equal; [f_equal; lia |].
  destruct (Nat.le_gt_cases (length a) (Z.to_nat (max_bytes P))); [f_equal; lia |].
  replace (Z.to_nat (max_bytes P) - length a)%nat with 0%nat by lia.
  replace (Z.to_nat (max_bytes P) - Nat.min _ (length a))%nat with 0%nat by lia. reflexivity.
Qed.

Lemma cap_nil : cap [] = [].
Proof. unfold cap. rewrite take_nil. destruct (_ =? _); reflexivity. Qed.

Lemma length_cap l : (length (cap l) <= length l)%nat.
Proof. unfold cap. destruct (_ =? _); [lia |]. rewrite length_take. lia. Qed.

Lemma push_spec b s : 0 <= max_bytes P -> inv s ->
  inv (push b s) /\ captured (push b s) = cap (captured s ++ [b]) /\
  dropped (push b s) = (if Nat.eqb (length (cap (captured s ++ [b]))) (length (captured s))
                        then u64 (dropped s + 1) else dropped s).
Proof.
  intros Hm [I1 I2 I3 I4]. unfold push. destruct (negb (max_bytes P =? 0) && _) eqn:E.
  - apply andb_true_iff in E as [E1 E2]. apply negb_true_iff in E1. apply Z.leb_le in E2.
    assert (Hc : cap (captured s ++ [b]) = captured s).
    { rewrite <- cap_app, <- I4. unfold cap in *. rewrite E1 in *. rewrite take_app, I4, length_take.
      rewrite I4, length_take in E2.
      replace (Z.to_nat (max_bytes P) - Nat.min _ _)%nat with 0%nat by lia.
      rewrite take_take, app_nil_r. f_equal. lia. }
    cbn. rewrite Hc, Nat.eqb_refl. split; [split; assumption | auto].
  - assert (Hc : cap (captured s ++ [b]) = captured s ++ [b]).
    { unfold cap. destruct (max_bytes P =? 0) eqn:E1; [reflexivity |]. cbn in E. apply Z.leb_gt in E.
      apply take_ge. rewrite length_app. cbn. lia. }
    cbn. rewrite Hc, length_app. cbn [length].
    replace (Nat.eqb _ _) with false by (symmetry; apply Nat.eqb_neq; lia).
    split; [| auto]. split; cbn.
    + rewrite length_app. lia.
    + rewrite take_app_le by assumption. assumption.
    + rewrite I3, length_app. unfold wrap. rewrite Zplus_mod_idemp_l. f_equal. cbn. lia.
    + auto.
Qed.

Lemma push_file b s : file (push b s) = file s /\ flushed_bytes (push b s) = flushed_bytes s.
Proof. unfold push. destruct (_ && _); auto. Qed.

Lemma push_all_spec bs : forall s, 0 <= max_bytes P -> inv s -> is_u64 (dropped s) ->
  let s' := push_all bs s in
  inv s' /\ captured s' = cap (captured s ++ bs) /\ is_u64 (dropped s') /\
  dropped s' = u64 (dropped s + (Z.of_nat (length (captured s ++ bs)) - Z.of_nat (length (captured s')))).
Proof.
  induction bs as [|b bs IH]; intros s Hm I Hd; cbn [push_all].
  - cbv zeta. rewrite app_nil_r, Z.sub_diag, Z.add_0_r, wrap_small by assumption.
    split; [exact I |]. split; [apply (iv_cap s I) | auto].
  - destruct (push_spec b s Hm I) as (I' & Ec & Ed).
    assert (Hd' : is_u64 (dropped (push b s))) by (rewrite Ed; destruct (Nat.eqb _ _); auto with quetz zarith).
    destruct (IH (push b s) Hm I' Hd') as (I2 & Ec2 & Hd2 & Ed2). cbv zeta in *.
    split; [exact I2 |]. split; [| split; [exact Hd2 |]].
    + rewrite Ec2, Ec, cap_app, <- app_assoc. reflexivity.
    + rewrite Ed2, Ed, Ec. rewrite !length_app. cbn [length].
      assert (Hle : length (cap (captured s ++ [b])) = length (captured s) \/
                    length (cap (captured s ++ [b])) = S (length (captured s))).
      { rewrite <- Ec. unfold push. destruct (_ && _); cbn; [auto |]. rewrite length_app. cbn. lia. }
      destruct Hle as [El|El]; rewrite El.
      * rewrite Nat.eqb_refl. unfold wrap. rewrite Zplus_mod_idemp_l. f_equal. lia.
      * replace (Nat.eqb _ _) with false by (symmetry; apply Nat.eqb_neq; lia). f_equal. lia.
Qed.

(** [writeFile] makes the file the whole capture, or empties it. *)
Lemma writeFile_flush s s' : inv s -> writeFile false s = Ok s' ->
  inv s' /\ captured s' = captured s /\ dropped s' = dropped s /\ file s' = captured s /\
  flushed_bytes s' = length (captured s).
Proof.
  intros [I1 I2 I3 I4] E. unfold writeFile in E. inv_ok. cbv zeta in E.
  destruct (Nat.eqb_spec (length (captured s) - flushed_bytes s) 0) as [En|En]; inv_ok; subst s'.
  - assert (Hf : flushed_bytes s = length (captured s)) by lia.
    split; [split; assumption |]. split; [reflexivity | split; [reflexivity | split; [| assumption]]].
    rewrite I2, Hf. apply firstn_all.
  - assert (Hf : file s ++ drop (flushed_bytes s) (captured s) = captured s) by (rewrite I2; apply take_drop).
    split; [split; cbn; auto; rewrite Hf; symmetry; apply firstn_all |]. cbn. auto.
Qed.

Lemma writeFile_truncate s s' : writeFile true s = Ok s' ->
  s' = s <| file := [] |> <| flushed_bytes := 0%nat |>.
Proof. unfold writeFile. destruct can_open; cbn; [| discriminate]. intros E. injection E as <-. reflexivity. Qed.

Definition tracks (s : Sink) (acc : list Z * Z) : Prop :=
  inv s /\ is_u64 (dropped s) /\ captured s = fst acc /\ dropped s = u64 (snd acc).

Lemma tracks0 : tracks sink0 ([], 0).
Proof. split; [split; cbn; rewrite ?cap_nil; auto | split; [cbn; word | auto]]. Qed.

Lemma tracks_eq s s' acc : tracks s acc -> captured s' = captured s -> file s' = file s ->
  flushed_bytes s' = flushed_bytes s -> accepted s' = accepted s -> dropped s' = dropped s -> tracks s' acc.
Proof.
  intros ([I1 I2 I3 I4] & Hd & Hc & He) E1 E2 E3 E4 E5. unfold tracks. rewrite E5, E1.
  split; [split; congruence | auto].
Qed.

Lemma write_tracks offset data s s1 acc : 0 <= max_bytes P -> tracks s acc ->
  write_register offset data s = Ok s1 ->
  tracks s1 (if offset =? REG_DATA then
               (cap (fst acc ++ data),
                snd acc + (Z.of_nat (length (fst acc ++ data)) - Z.of_nat (length (cap (fst acc ++ data)))))
             else if (offset =? REG_CTRL) && (dataToU64 data =? 2) then ([], snd acc) else acc).
Proof.
  intros Hm Ht E. unfold write_register in E. destruct (offset =? REG_DATA).
  - inv_ok. subst s1. destruct Ht as (I & Hd & Hc & He).
    destruct (push_all_spec data s Hm I Hd) as (I' & Ec & Hd' & Ed). cbv zeta in *.
    split; [exact I' | split; [exact Hd' |]]. cbn. rewrite <- Hc. split; [exact Ec |].
    rewrite Ed, He, Ec. unfold wrap. rewrite Zplus_mod_idemp_l. reflexivity.
  - destruct (offset =? REG_CTRL); cbn [andb].
    + cbv zeta in E. destruct (dataToU64 data =? 1) eqn:E1.
      * apply Z.eqb_eq in E1. rewrite E1. cbn [Z.eqb]. inv_ok. subst s1.
        destruct Ht as (I & Hd & Hc & He). destruct (writeFile_flush s a I E0) as (I' & Ec & Ed & _ & _).
        apply (tracks_eq a); try reflexivity. split; [exact I' |]. rewrite Ed, Ec. auto.
      * destruct (dataToU64 data =? 2) eqn:E2; inv_ok; subst s1; [| exact Ht].
        apply writeFile_truncate in E0. subst a. destruct Ht as (_ & Hd & _ & He).
        split; [split; cbn; rewrite ?cap_nil; auto | auto].
    + destruct (_ || _); inv_ok; subst s1; (eapply tracks_eq; [exact Ht | reflexivity ..]).
Qed.

Lemma step_tracks e s s' acc : 0 <= max_bytes P -> tracks s acc -> step e s = Ok s' -> tracks s' (expect e acc).
Proof.
  intros Hm Ht E. destruct e as [w|r]; cbn [step] in E.
  - unfold handle_write in E. inv_ok. subst s'.
    apply (write_tracks _ _ s _ acc) in E0; [| assumption | assumption]. unfold expect. cbv zeta.
    destruct (wr_posted w); [exact E0 |]. eapply tracks_eq; [exact E0 | reflexivity ..].
  - inv_ok. subst s'. unfold handle_read, read_register.
    destruct (_ || _); [| destruct (_ || _)]; (eapply tracks_eq; [exact Ht | reflexivity ..]).
Qed.

Lemma run_tracks es : forall s s' acc, 0 <= max_bytes P -> tracks s acc -> run es s = Ok s' ->
  tracks s' (fold_left (fun acc e => expect e acc) es acc).
Proof.
  induction es as [|e es IH]; intros s s' acc Hm Ht E; cbn in *.
  - injection E as <-. exact Ht.
  - apply bind_ok in E as (s1 & E1 & E). eapply IH; [assumption | | exact E]. eapply step_tracks; eassumption.
Qed.

(** C36. The file is what the guest sent: after any run from power-on that ends
    without a fatal error, and [finish], the file holds exactly the bytes
    pushed since the last truncate, up to the cap, in order and once each
    however flushes were interleaved; the registers count them, and every
    byte beyond the cap is counted as dropped. *)
Theorem sink_captures es s s' : 0 <= max_bytes P -> run es sink0 = Ok s -> finish s = Ok s' ->
  file s' = fst (expected es) /\ accepted s' = u64 (Z.of_nat (length (fst (expected es)))) /\
  dropped s' = u64 (snd (expected es)).
Proof.
  intros Hm E Ef.
  pose proof tracks0 as H0.
  destruct (run_tracks es sink0 s _ Hm H0 E) as (I & Hd & Hc & He).
  destruct (writeFile_flush s s' I Ef) as (I' & Ec & Ed & Efile & _).
  rewrite Efile, (iv_accepted s' I'), Ec, Ed, He, Hc. auto.
Qed.

Lemma writeFile_total t s : can_open = true -> (forall bs, can_write bs = true) -> inv s ->
  exists s', writeFile t s = Ok s'.
Proof.
  intros Ho Hw I. unfold writeFile. rewrite Ho. cbn -[Nat.ltb]. destruct t; [eauto |].
  rewrite (proj2 (Nat.ltb_ge _ _) (iv_flushed s I)). cbn.
  destruct (Nat.eqb _ _); [eauto |]. rewrite Hw. cbn. eauto.
Qed.

(** With a file system that accepts everything no request is fatal, however
    the guest drives the device. *)
Lemma sink_never_fails es : 0 <= max_bytes P -> can_open = true -> (forall bs, can_write bs = true) ->
  exists s s', run es sink0 = Ok s /\ finish s = Ok s'.
Proof.
  intros Hm Ho Hw.
  assert (Hrun : forall s acc, tracks s acc -> exists s', run es s = Ok s' /\ inv s').
  { induction es as [|e es' IH]; intros s acc Ht; cbn; [exists s; split; [reflexivity | apply Ht] |].
    assert (Hstep : exists s1, step e s = Ok s1).
    { destruct e as [w|r]; cbn; [| eauto]. unfold handle_write, write_register.
      destruct (_ =? _); [cbn; eauto |]. destruct (_ =? _); [| destruct (_ || _); cbn; eauto].
      cbv zeta. destruct (_ =? _).
      - destruct (writeFile_total false s Ho Hw (proj1 Ht)) as [s1 ->]. cbn. eauto.
      - destruct (_ =? _); [| cbn; eauto]. unfold writeFile. rewrite Ho. cbn. eauto. }
    destruct Hstep as [s1 E1]. rewrite E1. cbn. eapply IH. eapply step_tracks; eassumption. }
  destruct (Hrun sink0 ([], 0) tracks0) as (s & E & I).
  destruct (writeFile_total false s Ho Hw I) as [s' Ef]. exists s, s'. auto.
Qed.
End Device.

(** ** The theorems at concrete inputs *)

Definition demo_params : Params := mkParams 0x6000 0x100 3 "out.bin" true.
Definition demo_events : list Event :=
  [Write (mkWrite 0 0x6008 2 [1; 2] true); Write (mkWrite 1 0x6018 1 [1] true);
   Write (mkWrite 2 0x6008 2 [3; 4] true)].

Definition state_of {A} (d : A) (r : result A) : A := match r with Ok s => s | _ => d end.
Definition demo_ran : Sink :=
  Eval vm_compute in state_of sink0 (run true (fun _ => true) demo_params demo_events sink0).
Definition demo_finished : Sink :=
  Eval vm_compute in state_of sink0 (finish true (fun _ => true) demo_ran).

(** Two bytes, a flush, two more: the file ends with the first three. *)
Lemma sink_captures_witness : file demo_finished = [1; 2; 3].
Proof.
  refine (proj1 (sink_captures true (fun _ => true) demo_params demo_events demo_ran demo_finished _ _ _)).
  - cbn. lia.
  - vm_compute. reflexivity.
  - vm_compute. reflexivity.
Defined.

Lemma sink_never_fails_witness : exists s, run true (fun _ => true) demo_params demo_events sink0 = Ok s.
Proof.
  destruct (sink_never_fails true (fun _ => true) demo_params demo_events) as (s & _ & E & _).
  - cbn. lia.
  - reflexivity.
  - reflexivity.
  - exists s. exact E.
Defined.
