(* ===== verification/Stream.v ===== *)
(** * The stream device

    [src/src/quetz_stream_device.h] and [quetz_stream_device.cc], class
    [QuetzStreamDevice]: a recorded file is replayed through a data register,
    paced by a refill clock, with a data-ready interrupt line.

    Offsets in the stream are [nat] (they index [stream_]); registers and the
    pacing amounts are [uint64_t]. *)
From S2P Require Import Prelude.
From S2P Require Import StdMem.

Definition REG_STATUS : Z := 0x00.
Definition REG_DATA : Z := 0x08.
Definition REG_SEQ : Z := 0x10.
Definition REG_CTRL : Z := 0x18.
Definition REG_EOS : Z := 0x20.
Definition REG_IRQ_ACK : Z := 0x28.

Record Params := mkParams
  { base_addr : Z; mmio_size : Z; stream_file : option (list Z);   (* None: cannot be opened *)
    file_named : bool; pace_bytes : Z; p_irq_line : Z; irq_vcpu : Z; irq_linked : bool; has_iface : bool }.

Record Stats := mkStats
  { data_reads : Z; bytes_delivered : Z; status_polls : Z; underruns : Z; not_ready_reads : Z;
    paced_refills : Z; rewinds : Z; irqs_raised : Z; wrong_direction_accesses : Z; bad_offset_accesses : Z }.
#[export] Instance Stats_settable : Settable Stats := fun s =>
  mkStats (data_reads s) (bytes_delivered s) (status_polls s) (underruns s) (not_ready_reads s)
    (paced_refills s) (rewinds s) (irqs_raised s) (wrong_direction_accesses s) (bad_offset_accesses s).

Record Stream := mkStream
  { stream : list Z; pos : nat; budget_given : Z; avail : Z; irq_pending : bool;
    stats : Stats; sent : list Msg }.
#[export] Instance Stream_settable : Settable Stream := fun s =>
  mkStream (stream s) (pos s) (budget_given s) (avail s) (irq_pending s) (stats s) (sent s).

Definition add (f : Stats -> Z) `{!Update f} (n : Z) (s : Stream) : Stream :=
  s <| stats ::= update_field f (fun m => m + n) |>.
Definition send (m : Msg) (s : Stream) : Stream := s <| sent ::= fun l => l ++ [m] |>.
Definition size (s : Stream) : Z := Z.of_nat (length (stream s)).

Section Device.
Variable P : Params.

Definition paced : bool := negb (pace_bytes P =? 0).

Definition stream0 (bytes : list Z) : Stream :=
  let given := if paced then 0 else Z.of_nat (length bytes) in
  mkStream bytes 0 given given false (mkStats 0 0 0 0 0 0 0 0 0 0) [].

Definition construct : result Stream :=
  throw_if (negb (file_named P)) Fatal "'stream_file' is required" ≫= fun _ =>
  match stream_file P with
  | None => Throw Fatal "cannot open stream_file"
  | Some bytes =>
      throw_if (bool_decide (bytes = [])) Fatal "stream_file is empty" ≫= fun _ =>
      throw_if ((0 <=? p_irq_line P) && negb paced) Fatal "irq_line requires pacing" ≫= fun _ =>
      throw_if ((0 <=? p_irq_line P) && negb (irq_linked P)) Fatal
        "irq_line requires the 'irq' port to be linked" ≫= fun _ =>
      throw_if (negb (has_iface P)) Fatal "no 'iface' subcomponent" ≫= fun _ =>
      Ok (stream0 bytes)
  end.

Definition irq (lev : Z) : Msg := Irq (mkIrq (irq_vcpu P) (u32 (p_irq_line P)) lev).

Definition raiseDataReadyIrq (s : Stream) : Stream :=
  if (p_irq_line P <? 0) || irq_pending s then s
  else send (irq 1) (add irqs_raised 1 (s <| irq_pending := true |>)).

Definition ackIrq (s : Stream) : Stream :=
  if (p_irq_line P <? 0) || negb (irq_pending s) then s
  else if 0 <? avail s then s
  else send (irq 0) (s <| irq_pending := false |>).

Definition tickPace (s : Stream) : Stream :=
  if budget_given s <? size s then
    let take := size s - budget_given s in
    let take := if pace_bytes P <? take then pace_bytes P else take in
    let s := add paced_refills 1
               (s <| budget_given ::= fun b => u64 (b + take) |> <| avail ::= fun a => u64 (a + take) |>) in
    if 0 <? take then raiseDataReadyIrq s else s
  else s.

Definition read_data (s : Stream) : Z * Stream :=
  let s := add data_reads 1 s in
  if Nat.leb (length (stream s)) (pos s) then (0, add underruns 1 s)
  else
    let want := size s - Z.of_nat (pos s) in
    let want := if 4 <? want then 4 else want in
    if avail s <? want then (0, add not_ready_reads 1 s)
    else
      let bs := slice (stream s) (pos s) (Z.to_nat want) in
      let s := add bytes_delivered want
                 (s <| pos ::= fun p => (p + Z.to_nat want)%nat |> <| avail ::= fun a => a - want |>) in
      (pack 0 bs, if avail s =? 0 then ackIrq s else s).

Definition offset_of (addr : Z) : Z := u64 (addr - base_addr P).

(** [mmioHandlers::handle(Read)] *)
Definition read_register (offset : Z) (s : Stream) : Z * Stream :=
  if offset =? REG_STATUS then (avail s, add status_polls 1 s)
  else if offset =? REG_DATA then read_data s
  else if offset =? REG_SEQ then (Z.of_nat (pos s), s)
  else if offset =? REG_EOS then (if Nat.leb (length (stream s)) (pos s) then 1 else 0, s)
  else if offset =? REG_IRQ_ACK then (if irq_pending s then 1 else 0, s)
  else if offset =? REG_CTRL then (0, add wrong_direction_accesses 1 s)
  else (0, add bad_offset_accesses 1 s).
Definition handle_read (r : ReadReq) (s : Stream) : Stream :=
  let (value, s) := read_register (offset_of (rd_addr r)) s in
  send (ReadResp (rd_id r) (u64ToData value (rd_size r))) s.

Definition rewind (s : Stream) : Stream :=
  let given := if paced then 0 else size s in
  let s := s <| pos := 0%nat |> <| budget_given := given |> <| avail := given |> in
  add rewinds 1 (if avail s =? 0 then ackIrq s else raiseDataReadyIrq s).

(** [mmioHandlers::handle(Write)] *)
Definition write_register (offset : Z) (data : list Z) (s : Stream) : Stream :=
  if offset =? REG_CTRL then (if dataToU64 data =? 1 then rewind s else s)
  else if offset =? REG_IRQ_ACK then (if negb (dataToU64 data =? 0) then ackIrq s else s)
  else if (offset =? REG_STATUS) || (offset =? REG_DATA) || (offset =? REG_SEQ) || (offset =? REG_EOS)
       then add wrong_direction_accesses 1 s
  else add bad_offset_accesses 1 s.
Definition handle_write (w : WriteReq) (s : Stream) : Stream :=
  let s := write_register (offset_of (wr_addr w)) (wr_data w) s in
  if wr_posted w then s else send (WriteResp (wr_id w)) s.

Inductive Event : Type := Tick | Write (w : WriteReq) | Read (r : ReadReq).
Definition step (e : Event) (s : Stream) : Stream :=
  match e with Tick => tickPace s | Write w => handle_write w s | Read r => handle_read r s end.
Definition run (es : list Event) (s : Stream) : Stream := fold_left (fun s e => step e s) es s.

(** The interrupt level the device last sent. *)
Definition line_level (s : Stream) : Z :=
  fold_left (fun lev m => match m with Irq e => level e | _ => lev end) (sent s) 0.

(** ** The invariant *)

(** What the constructor checks, and the widths of the parameters. *)
Definition config_ok (bytes : list Z) : Prop :=
  is_u64 (pace_bytes P) /\ is_u64 (base_addr P) /\ is_u64 (Z.of_nat (length bytes)) /\
  (0 <= p_irq_line P -> paced = true).

Definition asserted (s : Stream) : bool := (0 <=? p_irq_line P) && (0 <? avail s).

Record inv (bytes : list Z) (s : Stream) : Prop :=
  { iv_stream : stream s = bytes;
    iv_avail : 0 <= avail s;
    iv_budget : Z.of_nat (pos s) + avail s = budget_given s;
    iv_given : budget_given s <= size s;
    iv_unpaced : paced = false -> budget_given s = size s;
    iv_pending : irq_pending s = asserted s;
    iv_line : line_level s = if asserted s then 1 else 0 }.

Lemma line_send m s : line_level (send m s) = match m with Irq e => level e | _ => line_level s end.
Proof. unfold line_level. cbn. rewrite fold_left_app. destruct m; reflexivity. Qed.

(** The invariant but for the interrupt line, which is about to follow. *)
Definition flow (bytes : list Z) (s : Stream) : Prop :=
  stream s = bytes /\ 0 <= avail s /\ Z.of_nat (pos s) + avail s = budget_given s /\
  budget_given s <= size s /\ (paced = false -> budget_given s = size s) /\
  (irq_pending s = true -> 0 <= p_irq_line P) /\ line_level s = if irq_pending s then 1 else 0.

Lemma inv_flow bytes s : inv bytes s -> flow bytes s.
Proof.
  intros [I1 I2 I3 I4 I5 I6 I7]. unfold flow. rewrite I6. repeat split; auto.
  unfold asserted. intros E. apply andb_true_iff in E as [E _]. lia.
Qed.

(** Raising with data there, or acknowledging with none, restores it; so does
    leaving the line as it is when it is right. *)
Lemma flow_inv bytes s : flow bytes s -> irq_pending s = asserted s -> inv bytes s.
Proof. intros (H1 & H2 & H3 & H4 & H5 & H6 & H7) E. split; auto. rewrite <- E. exact H7. Qed.

Lemma raise_inv bytes s : flow bytes s -> 0 < avail s -> inv bytes (raiseDataReadyIrq s).
Proof.
  intros F Ha. pose proof F as (H1 & H2 & H3 & H4 & H5 & H6 & H7). unfold raiseDataReadyIrq.
  destruct (Z.ltb_spec (p_irq_line P) 0) as [Hl|Hl]; cbn [orb].
  - apply flow_inv; [exact F |]. unfold asserted. destruct (irq_pending s); [specialize (H6 eq_refl); lia |].
    rewrite (proj2 (Z.leb_gt _ _)) by lia. reflexivity.
  - assert (Has : asserted s = true) by (unfold asserted; apply andb_true_iff; lia).
    destruct (irq_pending s) eqn:Ep; [apply flow_inv; [exact F | congruence] |].
    split; auto. rewrite line_send. cbn.
    change (asserted _) with (asserted s). rewrite Has. reflexivity.
Qed.

Lemma ack_inv bytes s : flow bytes s -> (0 < avail s -> irq_pending s = asserted s) -> inv bytes (ackIrq s).
Proof.
  intros F Hp. pose proof F as (H1 & H2 & H3 & H4 & H5 & H6 & H7). unfold ackIrq.
  destruct (irq_pending s) eqn:Ep; cbn [negb orb].
  - rewrite (proj2 (Z.ltb_ge _ _)) by auto. cbn [orb].
    destruct (Z.ltb_spec 0 (avail s)) as [Ha|Ha]; [apply flow_inv; [exact F |]; rewrite Ep; auto |].
    assert (Has : asserted s = false) by (unfold asserted; apply andb_false_iff; right; lia).
    split; auto. rewrite line_send. cbn.
    change (asserted _) with (asserted s). rewrite Has. reflexivity.
  - rewrite orb_true_r. apply flow_inv; [exact F |]. rewrite Ep.
    destruct (Z.ltb_spec 0 (avail s)) as [Ha|Ha]; [auto |].
    unfold asserted. symmetry. apply andb_false_iff. lia.
Qed.

Lemma inv_eq bytes s s' : inv bytes s -> stream s' = stream s -> pos s' = pos s -> avail s' = avail s ->
  budget_given s' = budget_given s -> irq_pending s' = irq_pending s -> line_level s' = line_level s -> inv bytes s'.
Proof.
  intros [I1 I2 I3 I4 I5 I6 I7] E1 E2 E3 E4 E5 E6. unfold size, asserted in *.
  split; unfold size, asserted; rewrite ?E1, ?E2, ?E3, ?E4, ?E5, ?E6; auto.
Qed.

Lemma flow_eq bytes s s' : flow bytes s -> stream s' = stream s -> pos s' = pos s -> avail s' = avail s ->
  budget_given s' = budget_given s -> irq_pending s' = irq_pending s -> line_level s' = line_level s -> flow bytes s'.
Proof.
  unfold flow, size. intros F E1 E2 E3 E4 E5 E6. rewrite E1, E2, E3, E4, E5, E6. exact F.
Qed.

(** A refill makes [pace_bytes] more bytes ready, or what is left. *)
Lemma tick_spec bytes s : config_ok bytes -> inv bytes s ->
  inv bytes (tickPace s) /\ pos (tickPace s) = pos s /\
  avail (tickPace s) = Z.min (avail s + pace_bytes P) (size s - Z.of_nat (pos s)).
Proof.
  intros (Hp & Hb & Hlen & Hline) I. pose proof I as [I1 I2 I3 I4 I5 I6 I7]. unfold tickPace.
  assert (Hsz : is_u64 (size s)) by (unfold size; rewrite I1; exact Hlen).
  destruct (Z.ltb_spec (budget_given s) (size s)) as [Hlt|Hge]; [| split; [exact I | word]].
  set (take0 := if pace_bytes P <? size s - budget_given s then _ else _).
  assert (Ht : take0 = Z.min (pace_bytes P) (size s - budget_given s)) by (unfold take0; destruct (Z.ltb_spec (pace_bytes P) (size s - budget_given s)); lia).
  assert (Hpace : 0 < pace_bytes P).
  { destruct (Z.eq_dec (pace_bytes P) 0) as [E|]; [| word]. exfalso. assert (paced = false) by (unfold paced; rewrite E; reflexivity).
    specialize (I5 H). lia. }
  cbv zeta. rewrite (proj2 (Z.ltb_lt 0 take0)) by lia.
  set (s1 := add paced_refills 1 _).
  assert (E1 : avail s1 = avail s + take0) by (cbn; apply wrap_small; word).
  assert (E2 : budget_given s1 = budget_given s + take0) by (cbn; apply wrap_small; word).
  assert (F : flow bytes s1).
  { pose proof (inv_flow _ _ I) as (F1 & F2 & F3 & F4 & F5 & F6 & F7). unfold flow. rewrite E1, E2.
    change (stream s1) with (stream s). change (pos s1) with (pos s). change (size s1) with (size s).
    change (irq_pending s1) with (irq_pending s). change (line_level s1) with (line_level s).
    repeat split; auto; try lia. intros Eu. specialize (F5 Eu). lia. }
  split; [apply raise_inv; [exact F | lia] |].
  unfold raiseDataReadyIrq. destruct (_ || _); cbn; (split; [reflexivity |]); rewrite wrap_small by word; lia.
Qed.

(** ** The data register *)

Definition want (s : Stream) : Z := Z.min 4 (size s - Z.of_nat (pos s)).

Lemma ack_fields s : stream (ackIrq s) = stream s /\ pos (ackIrq s) = pos s /\ avail (ackIrq s) = avail s.
Proof. unfold ackIrq. destruct (_ || _); [auto |]. destruct (_ <? _); auto. Qed.

(** A read of the data register pops whole or not at all. *)
Lemma read_data_spec bytes s : inv bytes s ->
  let (v, s') := read_data s in
  inv bytes s' /\
  if (0 <? want s) && (want s <=? avail s) then
    v = pack 0 (slice bytes (pos s) 4) /\ pos s' = (pos s + Z.to_nat (want s))%nat /\ avail s' = avail s - want s
  else v = 0 /\ pos s' = pos s /\ avail s' = avail s.
Proof.
  intros I. pose proof I as [I1 I2 I3 I4 I5 I6 I7]. unfold read_data. cbv zeta.
  change (stream (add data_reads 1 s)) with (stream s). change (pos (add data_reads 1 s)) with (pos s).
  change (size (add data_reads 1 s)) with (size s). change (avail (add data_reads 1 s)) with (avail s).
  unfold want. destruct (Nat.leb_spec (length (stream s)) (pos s)) as [Hl|Hl].
  - split; [eapply inv_eq; [exact I | reflexivity ..] |].
    rewrite (proj2 (Z.ltb_ge 0 _)) by (unfold size; lia). cbn [andb]. auto.
  - replace (if 4 <? size s - Z.of_nat (pos s) then 4 else size s - Z.of_nat (pos s)) with (want s)
      by (unfold want; destruct (Z.ltb_spec 4 (size s - Z.of_nat (pos s))); lia).
    fold (want s). assert (Hw : 0 < want s <= 4) by (unfold want, size in *; lia).
    rewrite (proj2 (Z.ltb_lt 0 _)) by lia. cbn [andb].
    destruct (Z.ltb_spec (avail s) (want s)) as [Ha|Ha].
    + split; [eapply inv_eq; [exact I | reflexivity ..] |].
      rewrite (proj2 (Z.leb_gt _ _)) by lia. auto.
    + rewrite (proj2 (Z.leb_le _ _)) by lia. set (s1 := add bytes_delivered _ _).
      assert (F : flow bytes s1).
      { pose proof (inv_flow _ _ I) as (F1 & F2 & F3 & F4 & F5 & F6 & F7). unfold flow, s1, size in *. cbn.
        repeat split; auto; lia. }
      assert (Hpend : 0 < avail s1 -> irq_pending s1 = asserted s1).
      { intros H1. change (irq_pending s1) with (irq_pending s). rewrite I6. unfold asserted. f_equal.
        change (avail s1) with (avail s - want s) in *. rewrite !(proj2 (Z.ltb_lt _ _)) by lia. reflexivity. }
      split; [| split].
      * destruct (Z.eqb_spec (avail s1) 0) as [E0|N0]; [apply ack_inv; assumption |].
        apply flow_inv; [exact F |]. apply Hpend. destruct F as (_ & ? & _). lia.
      * rewrite I1. unfold slice, want, size in *. rewrite I1 in *.
        destruct (Z.le_gt_cases 4 (Z.of_nat (length bytes) - Z.of_nat (pos s))).
        -- rewrite Z.min_l by lia. reflexivity.
        -- f_equal. rewrite !take_ge; [reflexivity | rewrite length_drop; lia ..].
      * destruct (avail s1 =? 0); [destruct (ack_fields s1) as (_ & -> & ->) |]; auto.
Qed.

Lemma read_inv bytes o s : inv bytes s -> inv bytes (snd (read_register o s)).
Proof.
  intros I. unfold read_register.
  destruct (o =? REG_STATUS); [eapply inv_eq; [exact I | reflexivity ..] |].
  destruct (o =? REG_DATA); [pose proof (read_data_spec bytes s I) as H; destruct (read_data s); apply H |].
  destruct (o =? REG_SEQ); [exact I |]. destruct (o =? REG_EOS); [exact I |].
  destruct (o =? REG_IRQ_ACK); [exact I |].
  destruct (o =? REG_CTRL); (eapply inv_eq; [exact I | reflexivity ..]).
Qed.

Lemma rewind_inv bytes s : config_ok bytes -> inv bytes s -> inv bytes (rewind s).
Proof.
  intros (Hp & Hb & Hlen & Hline) I. pose proof (inv_flow _ _ I) as (F1 & F2 & F3 & F4 & F5 & F6 & F7).
  unfold rewind. cbv zeta. set (s1 := s <| pos := _ |> <| budget_given := _ |> <| avail := _ |>).
  assert (F : flow bytes s1).
  { unfold flow, s1, size. cbn. destruct paced eqn:Ep; repeat split; auto; try lia; discriminate. }
  assert (H : inv bytes (if avail s1 =? 0 then ackIrq s1 else raiseDataReadyIrq s1)).
  { destruct (Z.eqb_spec (avail s1) 0); [apply ack_inv; [exact F | lia] |].
    apply raise_inv; [exact F |]. destruct F as (_ & ? & _). lia. }
  eapply inv_eq; [exact H | reflexivity ..].
Qed.

Lemma write_inv bytes o data s : config_ok bytes -> inv bytes s -> inv bytes (write_register o data s).
Proof.
  intros Hc I. unfold write_register.
  destruct (o =? REG_CTRL); [destruct (_ =? _); [apply rewind_inv; assumption | exact I] |].
  destruct (o =? REG_IRQ_ACK).
  - destruct (negb _); [| exact I]. apply ack_inv; [apply inv_flow; exact I | intros _; apply (iv_pending _ _ I)].
  - destruct (_ || _); (eapply inv_eq; [exact I | reflexivity ..]).
Qed.

Lemma step_inv bytes e s : config_ok bytes -> inv bytes s -> inv bytes (step e s).
Proof.
  intros Hc I. destruct e as [|w|r]; cbn [step].
  - apply tick_spec; assumption.
  - unfold handle_write. cbv zeta. pose proof (write_inv bytes (offset_of (wr_addr w)) (wr_data w) s Hc I) as I'.
    destruct (wr_posted w); [exact I' |]. eapply inv_eq; [exact I' | try reflexivity ..]. apply line_send.
  - unfold handle_read. pose proof (read_inv bytes (offset_of (rd_addr r)) s I) as I'.
    destruct (read_register _ s) as [v s']. cbn in I'. eapply inv_eq; [exact I' | try reflexivity ..]. apply line_send.
Qed.

Lemma run_inv bytes es : forall s, config_ok bytes -> inv bytes s -> inv bytes (run es s).
Proof. induction es as [|e es IH]; intros s Hc I; [exact I |]. apply IH; [exact Hc | apply step_inv; assumption]. Qed.

Lemma inv0 bytes : config_ok bytes -> inv bytes (stream0 bytes).
Proof.
  intros (Hp & Hb & Hlen & Hline). unfold stream0.
  assert (Hnone : (0 <=? p_irq_line P) && (0 <? (if paced then 0 else Z.of_nat (length bytes))) = false).
  { destruct paced; [apply andb_false_r |]. destruct (Z.leb_spec 0 (p_irq_line P)) as [Hl|]; [| reflexivity].
    specialize (Hline Hl). discriminate. }
  split; unfold asserted, size; cbn; rewrite ?Hnone; auto; destruct paced; try lia; discriminate.
Qed.


(** ** Replay *)

(** The data read so far. *)
Definition payloads (s : Stream) : list Z :=
  m ← sent s; match m with ReadResp _ data => data | _ => [] end.

Lemma payloads_send m s : payloads (send m s) = payloads s ++ match m with ReadResp _ d => d | _ => [] end.
Proof. unfold payloads. cbn. rewrite bind_app. cbn. rewrite app_nil_r. reflexivity. Qed.

Lemma tick_payloads s : payloads (tickPace s) = payloads s.
Proof.
  unfold tickPace, raiseDataReadyIrq. destruct (_ <? _); [| reflexivity]. cbv zeta.
  destruct (0 <? _); [| reflexivity]. destruct (_ || _); [reflexivity |].
  rewrite payloads_send, app_nil_r. reflexivity.
Qed.

Lemma read_data_payloads s : payloads (snd (read_data s)) = payloads s.
Proof.
  unfold read_data, ackIrq. cbv zeta. destruct (Nat.leb _ _); [reflexivity |]. cbn [size add].
  destruct (_ <? _); [reflexivity |]. cbn [snd]. destruct (_ =? 0); [| reflexivity].
  destruct (_ || _); [reflexivity |]. destruct (0 <? _); [reflexivity |].
  rewrite payloads_send, app_nil_r. reflexivity.
Qed.

(** A polling guest: wait four refill periods, read a word. *)
Definition poll (id : Z) : list Event :=
  [Tick; Tick; Tick; Tick; Read (mkRead id (u64 (base_addr P + REG_DATA)) 4)].
Fixpoint polls (n : nat) : list Event :=
  match n with O => [] | S n => poll (Z.of_nat n) ++ polls n end.

Lemma wait_ready bytes s : config_ok bytes -> inv bytes s ->
  let s' := tickPace (tickPace (tickPace (tickPace s))) in
  inv bytes s' /\ pos s' = pos s /\ want s <= avail s' /\ payloads s' = payloads s.
Proof.
  intros Hc I. cbv zeta. rewrite !tick_payloads.
  destruct (tick_spec _ _ Hc I) as (I1 & P1 & A1). destruct (tick_spec _ _ Hc I1) as (I2 & P2 & A2).
  destruct (tick_spec _ _ Hc I2) as (I3 & P3 & A3). destruct (tick_spec _ _ Hc I3) as (I4 & P4 & A4).
  split; [exact I4 |]. split; [congruence | split; [| reflexivity]].
  assert (E : forall s', inv bytes s' -> size s' = Z.of_nat (length bytes))
    by (intros s' [E _ _ _ _ _ _]; unfold size; rewrite E; reflexivity).
  unfold want. rewrite !E in * by assumption. destruct Hc as (Hp & _).
  destruct (Z.eq_dec (pace_bytes P) 0) as [E0|N0].
  - assert (Hu : paced = false) by (unfold paced; rewrite E0; reflexivity).
    pose proof (iv_unpaced _ _ I Hu) as H5. pose proof (iv_budget _ _ I) as H3. rewrite E in H5 by assumption. lia.
  - pose proof (iv_avail _ _ I). assert (0 < pace_bytes P) by word. lia.
Qed.

Lemma poll_spec bytes id s : config_ok bytes -> inv bytes s -> bytes_ok bytes ->
  let s' := run (poll id) s in let chunk := slice bytes (pos s) 4 in
  inv bytes s' /\ pos s' = (pos s + length chunk)%nat /\
  payloads s' = payloads s ++ chunk ++ replicate (4 - length chunk) 0.
Proof.
  intros Hc I Hbytes. cbv zeta. unfold poll, run. cbn [fold_left step].
  destruct (wait_ready bytes s Hc I) as (I4 & P4 & A4 & Y4). cbv zeta in *. set (s4 := tickPace _) in *.
  unfold handle_read. cbn [rd_addr rd_id rd_size].
  assert (Ho : offset_of (u64 (base_addr P + REG_DATA)) = REG_DATA).
  { unfold offset_of, wrap. rewrite Zminus_mod_idemp_l. replace (base_addr P + REG_DATA - base_addr P) with REG_DATA by lia.
    reflexivity. }
  rewrite Ho. change (read_register REG_DATA s4) with (read_data s4).
  pose proof (read_data_spec bytes s4 I4) as Hr. pose proof (read_data_payloads s4) as Hy.
  destruct (read_data s4) as [v s5]. cbn [snd] in Hy. destruct Hr as [I5 Hr].
  assert (Hw : want s4 = want s) by (unfold want, size; rewrite (iv_stream _ _ I4), (iv_stream _ _ I), P4; reflexivity).
  rewrite Hw, P4 in Hr. rewrite (proj2 (Z.leb_le (want s) (avail s4))) in Hr by assumption. rewrite andb_true_r in Hr.
  assert (Hbudget : Z.of_nat (pos s) <= size s)
    by (pose proof (iv_budget _ _ I); pose proof (iv_given _ _ I); pose proof (iv_avail _ _ I); lia).
  assert (Hchunk : length (slice bytes (pos s) 4) = Z.to_nat (want s)).
  { unfold slice, want, size in *. rewrite (iv_stream _ _ I) in *. rewrite length_take, length_drop. lia. }
  split; [eapply inv_eq; [exact I5 | try reflexivity ..]; apply line_send |].
  rewrite payloads_send, Hy, Y4, Hchunk. cbn [pos send].
  change (pos (send _ s5)) with (pos s5). unfold u64ToData. change (Z.to_nat 4) with 4%nat.
  destruct (Z.ltb_spec 0 (want s)) as [Hpos|Hneg].
  - destruct Hr as (-> & -> & _). split; [reflexivity |].
    rewrite le_bytes_pack, Hchunk by (apply bytes_ok_slice; assumption). do 2 f_equal.
    apply take_ge. unfold slice. rewrite length_take. lia.
  - destruct Hr as (-> & -> & _). assert (E0 : Z.to_nat (want s) = 0%nat) by lia. rewrite E0 in *.
    split; [lia |]. destruct (slice bytes (pos s) 4); [reflexivity | discriminate].
Qed.

Lemma polls_spec bytes n : forall s, config_ok bytes -> inv bytes s -> bytes_ok bytes ->
  (length (drop (pos s) bytes) <= 4 * n)%nat ->
  exists z, payloads (run (polls n) s) = payloads s ++ drop (pos s) bytes ++ replicate z 0 /\
    (pos (run (polls n) s) = pos s + length (drop (pos s) bytes))%nat.
Proof.
  induction n as [|n IH]; intros s Hc I Hbytes Hn.
  - exists 0%nat. cbn. destruct (drop (pos s) bytes); cbn in Hn |- *; [rewrite app_nil_r; auto with arith | lia].
  - cbn [polls]. unfold run. rewrite fold_left_app. fold (run (poll (Z.of_nat n)) s).
    destruct (poll_spec bytes (Z.of_nat n) s Hc I Hbytes) as (I1 & P1 & Y1). cbv zeta in *.
    set (s1 := run (poll (Z.of_nat n)) s) in *. fold (run (polls n) s1).
    assert (Hd : drop (pos s1) bytes = drop 4 (drop (pos s) bytes)).
    { rewrite P1. unfold slice. rewrite length_take. rewrite <- drop_drop.
      destruct (Nat.le_gt_cases 4 (length (drop (pos s) bytes))).
      - f_equal. lia.
      - rewrite !drop_ge; [reflexivity | lia ..]. }
    destruct (IH s1 Hc I1 Hbytes) as (z & Y & Pn); [rewrite Hd, length_drop; lia |].
    rewrite Y, Pn, Y1, Hd, P1. unfold slice. rewrite length_take. clear Hd P1 Y1 Y Pn IH.
    generalize dependent (drop (pos s) bytes). intros rest Hn. rewrite !length_drop.
    destruct (Nat.le_gt_cases 4 (length rest)) as [H4|H4].
    + exists z. split; [| lia]. rewrite Nat.min_l, Nat.sub_diag by lia. cbn [replicate].
      rewrite app_nil_r, <- (app_assoc (payloads s)). f_equal. rewrite app_assoc, take_drop. reflexivity.
    + exists (4 - length rest + z)%nat. split; [| lia].
      rewrite Nat.min_r by lia. rewrite (drop_ge rest), take_ge by lia.
      rewrite replicate_add, <- !app_assoc. reflexivity.
Qed.

(** The recording is replayed: whatever the pacing, a guest that polls long
    enough reads the whole stream, every byte once and in order (then zeros),
    and the stream is consumed. *)
Lemma stream_replayed bytes n : config_ok bytes -> bytes_ok bytes -> (length bytes <= 4 * n)%nat ->
  let s := run (polls n) (stream0 bytes) in
  take (length bytes) (payloads s) = bytes /\ pos s = length bytes /\ Forall (fun b => b = 0) (drop (length bytes) (payloads s)).
Proof.
  intros Hc Hbytes Hn. cbv zeta.
  destruct (polls_spec bytes n (stream0 bytes) Hc (inv0 bytes Hc) Hbytes Hn) as (z & Y & Pn).
  rewrite Y, Pn. change (pos (stream0 bytes)) with 0%nat. change (payloads (stream0 bytes)) with (@nil Z).
  rewrite drop_0, app_nil_l, take_app_length, drop_app_length.
  split; [reflexivity | split; [lia |]]. apply Forall_replicate. reflexivity.
Qed.
End Device.

(** ** The theorems at concrete inputs *)

Definition demo_params : Params := mkParams 0x7000 0x100 (Some [1; 2; 3; 4; 5]) true 2 4 0 true true.

Lemma demo_config : config_ok demo_params [1; 2; 3; 4; 5].
Proof. repeat split; cbn; try lia. Qed.


Lemma stream_replayed_witness :
  take 5 (payloads (run demo_params (polls demo_params 2) (stream0 demo_params [1; 2; 3; 4; 5]))) = [1; 2; 3; 4; 5].
Proof.
  refine (proj1 (stream_replayed demo_params [1; 2; 3; 4; 5] 2 demo_config _ _)).
  - repeat constructor; lia.
  - cbn. lia.
Defined.
