(* ===== verification/Command.v ===== *)
(** * Commands of the instrumented guest, and the core's statistics

    [include/quetz/quetz_ipc_types.h]: what the QEMU plugin sends through the
    command buffer; [src/src/quetz_stats.h]: the counters of a core. *)
From S2P Require Import Prelude.

Inductive QuetzShmemCmd : Set :=
  | CMD_NOP | CMD_READ | CMD_WRITE | CMD_EXIT | CMD_MMIO_READ_REQ | CMD_MMIO_WRITE_REQ
  | CMD_COMPUTE_RUN | CMD_CACHE_OP.
#[export] Instance QuetzShmemCmd_eq_dec : EqDecision QuetzShmemCmd.
Proof. solve_decision. Defined.

(** [QuetzInsnClass], by number. *)
Definition QUETZ_INSN_INT_MEM : Z := 0.
Definition QUETZ_INSN_FP_MEM : Z := 1.
Definition QUETZ_INSN_VEC_MEM : Z := 2.
Definition QUETZ_INSN_INT_COMPUTE : Z := 3.
Definition QUETZ_INSN_FP_COMPUTE : Z := 4.
Definition QUETZ_INSN_VEC_COMPUTE : Z := 5.
Definition QUETZ_INSN_BRANCH : Z := 6.
Definition QUETZ_INSN_OTHER : Z := 7.
Definition QUETZ_INSN_CLASS_COUNT : Z := 8.

Definition QUETZ_COMPUTE_RUN_MAX : Z := 4096.
Definition QUETZ_CMD_DATA_BYTES : Z := 64.

Record QuetzCommand := mkCommand
  { cmd : QuetzShmemCmd; size : Z; pc : Z; addr : Z; insn_class : Z; data : list Z }.
#[export] Instance QuetzCommand_settable : Settable QuetzCommand := fun c =>
  mkCommand (cmd c) (size c) (pc c) (addr c) (insn_class c) (data c).

(** A command as the shared layout has it: fields at their width, and a full
    payload array. *)
Record command_ok (c : QuetzCommand) : Prop :=
  { co_size : is_u32 (size c); co_pc : is_u64 (pc c); co_addr : is_u64 (addr c);
    co_class : is_u32 (insn_class c); co_data : bytes_ok (data c);
    co_payload : length (data c) = 64%nat }.

(** The counters of [QuetzCoreStats]; [addData] adds to one of them (for the
    latencies and sizes, the sum of the samples). *)
Inductive Stat : Set :=
  | read_reqs | write_reqs | mmio_read_reqs | mmio_write_reqs
  | read_lat | write_lat | mmio_read_lat | mmio_write_lat
  | mmio_truncated_writes | cached_truncated_writes
  | mmio_doorbell_flushes | mmio_doorbell_flush_cycles
  | async_submits | async_completions | async_overlap_cycles
  | read_req_sizes | write_req_sizes | split_reads | split_writes
  | noop_count | insn_count | cycles | active_cycles
  | filtered_reads | filtered_writes
  | gpu_doorbell_writes | gpu_status_polls | gpu_other_reads | gpu_other_writes
  | stall_cycles | compute_stall_cycles
  | int_compute | fp_compute | vec_compute | branch.
#[export] Instance Stat_eq_dec : EqDecision Stat.
Proof. solve_decision. Defined.

Definition QuetzCoreStats : Type := Stat -> Z.
Definition stats0 : QuetzCoreStats := fun _ => 0.
Definition addData (st : Stat) (n : Z) (f : QuetzCoreStats) : QuetzCoreStats :=
  fun x => if decide (x = st) then f x + n else f x.
