(* ===== verification/Regions.v ===== *)
(** * Memory regions

    [src/src/quetz_region_handlers.h/.cc], [quetz_region_table.h/.cc] and
    [quetz_mem_access.h/.cc]: which guest accesses reach the memory hierarchy,
    the MMIO link, or a local handler.  The handlers keep state (captured UART
    output, recent doorbells); the table is passed from access to access. *)
From S2P Require Import Prelude.
From S2P Require Import StdMem.
From S2P Require Import Command.

Inductive Action : Set := FORWARD | FORWARD_MMIO | CONSUME | END_SIM.
#[export] Instance Action_eq_dec : EqDecision Action.
Proof. solve_decision. Defined.

(** ** Handlers *)

Record GpuTrace := mkTrace
  { doorbell_offset : Z; status_offset : Z; max_payload_log : Z;
    doorbell_count : Z; poll_count : Z; recent_doorbell_lo : list Z }.
#[export] Instance GpuTrace_settable : Settable GpuTrace := fun g =>
  mkTrace (doorbell_offset g) (status_offset g) (max_payload_log g)
    (doorbell_count g) (poll_count g) (recent_doorbell_lo g).

Inductive Kind : Type :=
  | Forward
  | Filtered
  | Uart (tx_offset : Z) (uart_tx_buf : list Z)
  | Trace (g : GpuTrace)
  | MmioForward
  | TestFinisher (pass_value : Z) (wrote : bool) (last_value : Z).

(** [BoundedRegionHandler]: both ends included. *)
Record MemRegionHandler := mkHandler { start_ : Z; end_ : Z; kind : Kind }.

Definition decodeDoorbellLo (c : QuetzCommand) : Z :=
  pack 0 (take (Z.to_nat (if size c <? 8 then size c else 8)) (data c)).

Definition recordDoorbellPayload (payload : Z) (g : GpuTrace) : GpuTrace :=
  let l := recent_doorbell_lo g ++ [payload] in
  g <| recent_doorbell_lo := if max_payload_log g <? Z.of_nat (length l) then tail l else l |>.

(** [onRead], [onWrite]: the action, the counters and the handler afterwards. *)
Definition onRead (h : MemRegionHandler) (c : QuetzCommand) (st : QuetzCoreStats)
  : Action * QuetzCoreStats * MemRegionHandler :=
  match kind h with
  | Forward => (FORWARD, st, h)
  | MmioForward => (FORWARD_MMIO, st, h)
  | Filtered | Uart _ _ | TestFinisher _ _ _ => (CONSUME, addData filtered_reads 1 st, h)
  | Trace g =>
      if u64 (addr c - start_ h) =? status_offset g then
        (CONSUME, addData gpu_status_polls 1 st,
         mkHandler (start_ h) (end_ h) (Trace (g <| poll_count ::= fun n => u64 (n + 1) |>)))
      else (CONSUME, addData gpu_other_reads 1 st, h)
  end.

Definition onWrite (h : MemRegionHandler) (c : QuetzCommand) (st : QuetzCoreStats)
  : Action * QuetzCoreStats * MemRegionHandler :=
  let offset := u64 (addr c - start_ h) in
  match kind h with
  | Forward => (FORWARD, st, h)
  | MmioForward => (FORWARD_MMIO, st, h)
  | Filtered => (CONSUME, addData filtered_writes 1 st, h)
  | Uart tx_offset buf =>
      let buf := if (1 <=? size c) && (offset =? tx_offset) then buf ++ [data c !!! 0%nat] else buf in
      (CONSUME, addData filtered_writes 1 st, mkHandler (start_ h) (end_ h) (Uart tx_offset buf))
  | Trace g =>
      if offset =? doorbell_offset g then
        (CONSUME, addData gpu_doorbell_writes 1 st,
         mkHandler (start_ h) (end_ h)
           (Trace (recordDoorbellPayload (decodeDoorbellLo c) (g <| doorbell_count ::= fun n => u64 (n + 1) |>))))
      else (CONSUME, addData gpu_other_writes 1 st, h)
  | TestFinisher pass _ _ =>
      let val := pack 0 (take (Z.to_nat (if size c <? 4 then size c else 4)) (data c)) in
      (END_SIM, addData filtered_writes 1 st, mkHandler (start_ h) (end_ h) (TestFinisher pass true val))
  end.

(** ** The table and the access policy *)

(** [addr >= h->startAddr() && addr <= h->endAddr()] *)
Definition contains (a : Z) (h : MemRegionHandler) : bool := (start_ h <=? a) && (a <=? end_ h).

(** [findHandler]: the index of the first handler that contains the address. *)
Fixpoint findHandler (a : Z) (t : list MemRegionHandler) : option (nat * MemRegionHandler) :=
  match t with
  | [] => None
  | h :: t => if contains a h then Some (0%nat, h)
              else '(i, h') ← findHandler a t; Some (S i, h')
  end.

Definition handleMemoryAccess (filter_unmatched : bool) (c : QuetzCommand)
    (st : QuetzCoreStats) (t : list MemRegionHandler) : Action * QuetzCoreStats * list MemRegionHandler :=
  if negb (bool_decide (cmd c = CMD_READ)) && negb (bool_decide (cmd c = CMD_WRITE)) then (FORWARD, st, t)
  else
    match findHandler (addr c) t with
    | None =>
        if filter_unmatched then
          (CONSUME, addData (if bool_decide (cmd c = CMD_READ) then filtered_reads else filtered_writes) 1 st, t)
        else (FORWARD, st, t)
    | Some (i, h) =>
        let '(a, st, h) := if bool_decide (cmd c = CMD_READ) then onRead h c st else onWrite h c st in
        (a, st, <[i := h]> t)
    end.

(** [finish]: what a handler prints at the end of the run. *)
Inductive Report : Type :=
  | UartReport (text : list Z)
  | TraceReport (doorbells polls : Z) (last_doorbells : list Z)
  | FinishReport (value : Z) (pass : bool).

Definition bswap32 (v : Z) : Z := be_value (le_bytes 4 v).

Definition finish (h : MemRegionHandler) : option Report :=
  match kind h with
  | Uart _ buf => if bool_decide (buf = []) then None else Some (UartReport buf)
  | Trace g =>
      if (doorbell_count g =? 0) && (poll_count g =? 0) then None
      else Some (TraceReport (doorbell_count g) (poll_count g) (recent_doorbell_lo g))
  | TestFinisher pass wrote v =>
      if negb wrote then None
      else Some (FinishReport v ((v =? pass) || (bswap32 v =? pass)))
  | Forward | Filtered | MmioForward => None
  end.

(** A sequence of accesses, with the action taken for each. *)
Fixpoint accesses (filter_unmatched : bool) (cs : list QuetzCommand)
    (st : QuetzCoreStats) (t : list MemRegionHandler) : list Action * QuetzCoreStats * list MemRegionHandler :=
  match cs with
  | [] => ([], st, t)
  | c :: cs =>
      let '(a, st, t) := handleMemoryAccess filter_unmatched c st t in
      let '(l, st, t) := accesses filter_unmatched cs st t in (a :: l, st, t)
  end.

(** ** Which handler sees an access *)

Definition is_mem (c : QuetzCommand) : bool :=
  bool_decide (cmd c = CMD_READ) || bool_decide (cmd c = CMD_WRITE).

Definition owner (t : list MemRegionHandler) (c : QuetzCommand) : option nat :=
  if is_mem c then fst <$> findHandler (addr c) t else None.

(** The part of a handler no access changes. *)
Definition same_policy (h h' : MemRegionHandler) : Prop :=
  start_ h' = start_ h /\ end_ h' = end_ h /\
  match kind h, kind h' with
  | Forward, Forward | Filtered, Filtered | MmioForward, MmioForward => True
  | Uart o _, Uart o' _ => o = o'
  | Trace g, Trace g' => doorbell_offset g = doorbell_offset g' /\ status_offset g = status_offset g' /\
                         max_payload_log g = max_payload_log g'
  | TestFinisher p _ _, TestFinisher p' _ _ => p = p'
  | _, _ => False
  end.

(** What an access decides, from the table's policy alone. *)
Definition verdict (k : Kind) (write : bool) : Action :=
  match k with
  | Forward => FORWARD
  | MmioForward => FORWARD_MMIO
  | TestFinisher _ _ _ => if write then END_SIM else CONSUME
  | Filtered | Uart _ _ | Trace _ => CONSUME
  end.
Definition action_of (filter_unmatched : bool) (t : list MemRegionHandler) (c : QuetzCommand) : Action :=
  if is_mem c then
    match findHandler (addr c) t with
    | Some (_, h) => verdict (kind h) (bool_decide (cmd c = CMD_WRITE))
    | None => if filter_unmatched then CONSUME else FORWARD
    end
  else FORWARD.

Definition respond (c : QuetzCommand) (h : MemRegionHandler) : MemRegionHandler :=
  if bool_decide (cmd c = CMD_READ) then snd (onRead h c stats0) else snd (onWrite h c stats0).

Lemma same_policy_refl h : same_policy h h.
Proof. split; [reflexivity | split; [reflexivity |]]. destruct (kind h); auto. Qed.

Lemma respond_policy c h : same_policy h (respond c h).
Proof.
  unfold respond, onRead, onWrite. destruct (bool_decide _); destruct (kind h) as [| |o b|g| |p w v] eqn:Ek;
    cbn; try (destruct (_ =? _); cbn); try apply same_policy_refl;
    split; cbn; try reflexivity; (split; [reflexivity | rewrite Ek; auto]).
Qed.

(** The first handler in table order that contains the address. *)
Lemma findHandler_spec a t i h : findHandler a t = Some (i, h) <->
  t !! i = Some h /\ contains a h = true /\ forall j h', (j < i)%nat -> t !! j = Some h' -> contains a h' = false.
Proof.
  revert i; induction t as [|h0 t IH]; intros i; cbn [findHandler]; [split; [discriminate | intros ([=] & _)] |].
  destruct (contains a h0) eqn:E.
  - split; [intros [= <- <-]; split; [reflexivity | split; [exact E | lia]] |].
    intros (Hi & Hc & Hj). destruct i as [|i]; [cbn in Hi; congruence |].
    specialize (Hj 0%nat h0 ltac:(lia) eq_refl). congruence.
  - destruct i as [|i].
    + split; [destruct (findHandler a t) as [[j h']|]; discriminate |]. intros (Hi & Hc & _). cbn in Hi. congruence.
    + transitivity (findHandler a t = Some (i, h)).
      { destruct (findHandler a t) as [[j h']|]; cbn; split; congruence. }
      rewrite IH. split; intros (Hi & Hc & Hj); (split; [exact Hi | split; [exact Hc |]]).
      * intros [|j] h' Hlt Hl; [cbn in Hl; congruence | eapply (Hj j); [lia | exact Hl]].
      * intros j h' Hlt Hl. apply (Hj (S j) h'); [lia | exact Hl].
Qed.

(** Changing a handler but not its policy changes no decision. *)
Lemma findHandler_policy a t i h h' : t !! i = Some h -> same_policy h h' ->
  fst <$> findHandler a (<[i := h']> t) = fst <$> findHandler a t /\
  (forall w, (fun p => verdict (kind (snd p)) w) <$> findHandler a (<[i := h']> t) =
             (fun p => verdict (kind (snd p)) w) <$> findHandler a t).
Proof.
  intros Hi (E1 & E2 & E3). revert i Hi. induction t as [|h0 t IH]; intros i Hi; [discriminate |].
  destruct i as [|i]; cbn [insert list_insert findHandler].
  - injection Hi as ->. unfold contains. rewrite E1, E2. destruct (_ && _).
    + split; [reflexivity |]. intros w. cbn. destruct (kind h), (kind h'); try contradiction; reflexivity.
    + auto.
  - cbn in Hi. destruct (contains a h0); [auto |]. destruct (IH i Hi) as [F1 F2].
    destruct (findHandler a (<[i:=h']> t)) as [[j x]|], (findHandler a t) as [[j' x']|]; cbn in *; try discriminate; auto.
    split; [congruence |]. intros w. specialize (F2 w). congruence.
Qed.

Lemma on_spec c h st : is_mem c = true ->
  exists st', (if bool_decide (cmd c = CMD_READ) then onRead h c st else onWrite h c st) =
    (verdict (kind h) (bool_decide (cmd c = CMD_WRITE)), st', respond c h).
Proof.
  unfold is_mem, respond. intros Hm. destruct (bool_decide_reflect (cmd c = CMD_READ)) as [E|].
  - rewrite E. unfold onRead. destruct (kind h); cbn; try (destruct (_ =? _)); eauto.
  - cbn in Hm. rewrite Hm. unfold onWrite. destruct (kind h); cbn; try (destruct (_ =? _)); eauto.
Qed.

(** One handler answers, and the table decides later accesses as before. *)
Lemma answered_spec fu c t i h : t !! i = Some h -> findHandler (addr c) t = Some (i, h) -> is_mem c = true ->
  let t' := <[i := respond c h]> t in
  (forall j, t' !! j = (fun h => if decide (owner t c = Some j) then respond c h else h) <$> t !! j) /\
  (forall c', owner t' c' = owner t c' /\ action_of fu t' c' = action_of fu t c').
Proof.
  intros Hi Ef Hm. cbv zeta. split.
  - intros j. unfold owner. rewrite Hm, Ef. cbn. destruct (decide (i = j)) as [->|Hne].
    + rewrite list_lookup_insert_eq, Hi by (eapply lookup_lt_Some; exact Hi). cbn.
      rewrite decide_True by reflexivity. reflexivity.
    + rewrite list_lookup_insert_ne by assumption.
      destruct (t !! j); cbn; [rewrite decide_False by congruence |]; reflexivity.
  - intros c'. destruct (findHandler_policy (addr c') t i h _ Hi (respond_policy c h)) as [F1 F2].
    unfold owner, action_of. rewrite F1. split; [reflexivity |].
    destruct (is_mem c'); [| reflexivity]. specialize (F2 (bool_decide (cmd c' = CMD_WRITE))).
    destruct (findHandler (addr c') (<[i:=_]> t)) as [[j x]|], (findHandler (addr c') t) as [[j' x']|];
      cbn in F1, F2; try discriminate; [congruence | reflexivity].
Qed.

Lemma handle_spec fu c st t : let '(a, st', t') := handleMemoryAccess fu c st t in
  a = action_of fu t c /\
  (forall i, t' !! i = (fun h => if decide (owner t c = Some i) then respond c h else h) <$> t !! i) /\
  (forall c', owner t' c' = owner t c' /\ action_of fu t' c' = action_of fu t c').
Proof.
  assert (Hsame : owner t c = None ->
    forall i, t !! i = (fun h => if decide (owner t c = Some i) then respond c h else h) <$> t !! i).
  { intros -> i. destruct (t !! i); cbn; [rewrite decide_False by discriminate |]; reflexivity. }
  unfold handleMemoryAccess. rewrite <- negb_orb. fold (is_mem c). unfold action_of, owner in *.
  destruct (is_mem c) eqn:Em; cbn [negb]; [| auto].
  destruct (findHandler (addr c) t) as [[i h]|] eqn:Ef; [| destruct fu; auto].
  pose proof (proj1 (findHandler_spec _ _ _ _) Ef) as (Hi & _).
  destruct (on_spec c h st Em) as [st' E]. rewrite E.
  destruct (answered_spec fu c t i h Hi Ef Em) as [H1 H2]. cbv zeta in *. unfold owner in H1. rewrite Em, Ef in H1. auto.
Qed.

(** The policy of the table: in any run of accesses the action for each is
    what the first matching handler's kind says of it alone, whatever came
    before; and each handler's state at the end is what the accesses it owns,
    in order, make of it - no access touches another handler. *)
Lemma region_policy fu cs : forall st t, let '(acts, _, t') := accesses fu cs st t in
  acts = map (action_of fu t) cs /\
  forall i, t' !! i =
    (fold_left (fun h c => respond c h) (List.filter (fun c => bool_decide (owner t c = Some i)) cs)) <$> t !! i.
Proof.
  induction cs as [|c cs IH]; intros st t; cbn [accesses].
  - split; [reflexivity |]. intros i. destruct (t !! i); reflexivity.
  - pose proof (handle_spec fu c st t) as H. destruct (handleMemoryAccess fu c st t) as [[a st1] t1].
    destruct H as (Ha & Hi & Hc). specialize (IH st1 t1).
    destruct (accesses fu cs st1 t1) as [[l st2] t2]. destruct IH as [Hl Ht]. split.
    + cbn. f_equal; [exact Ha |]. rewrite Hl. apply map_ext. intros c'. apply Hc.
    + intros i. rewrite Ht, Hi. cbn [List.filter].
      rewrite (List.filter_ext _ (fun c' => bool_decide (owner t c' = Some i)))
        by (intros c'; rewrite (proj1 (Hc c')); reflexivity).
      destruct (t !! i); cbn; [| reflexivity].
      destruct (decide (owner t c = Some i)) as [E|E];
        [rewrite bool_decide_true by exact E | rewrite bool_decide_false by exact E]; reflexivity.
Qed.

(** ** What the handlers capture *)

Definition is_write (c : QuetzCommand) : bool := negb (bool_decide (cmd c = CMD_READ)).
Definition hits (h : MemRegionHandler) (offset : Z) (c : QuetzCommand) : bool :=
  is_write c && (u64 (addr c - start_ h) =? offset).
Definition last_n (n : Z) (l : list Z) : list Z := drop (length l - Z.to_nat n) l.

Lemma last_n_push n l x : 0 <= n ->
  (let l' := last_n n l ++ [x] in if n <? Z.of_nat (length l') then tail l' else l') = last_n n (l ++ [x]).
Proof.
  intros Hn. unfold last_n. cbv zeta. rewrite !length_app, length_drop. cbn [length].
  destruct (Nat.le_gt_cases (Z.to_nat n) (length l)) as [H|H].
  - rewrite (proj2 (Z.ltb_lt _ _)) by lia.
    replace (length l + 1 - Z.to_nat n)%nat with (S (length l - Z.to_nat n)) by lia.
    transitivity (drop 1 (drop (length l - Z.to_nat n) l ++ [x])); [destruct (_ ++ _); reflexivity |].
    rewrite <- drop_app_le by lia. rewrite drop_drop. f_equal. lia.
  - rewrite (proj2 (Z.ltb_ge _ _)) by lia.
    replace (length l - Z.to_nat n)%nat with 0%nat by lia.
    replace (length l + 1 - Z.to_nat n)%nat with 0%nat by lia. rewrite !drop_0. reflexivity.
Qed.

Definition captures (h : MemRegionHandler) (cs : list QuetzCommand) (h' : MemRegionHandler) : Prop :=
  match kind h, kind h' with
  | Uart o buf, Uart o' buf' =>
      buf' = buf ++ map (fun c => data c !!! 0%nat) (List.filter (fun c => hits h o c && (1 <=? size c)) cs)
  | Trace g, Trace g' =>
      let rung := List.filter (hits h (doorbell_offset g)) cs in
      recent_doorbell_lo g' = last_n (max_payload_log g) (recent_doorbell_lo g ++ map decodeDoorbellLo rung) /\
      doorbell_count g' = u64 (doorbell_count g + Z.of_nat (length rung))
  | TestFinisher _ w v, TestFinisher _ w' v' =>
      w' = w || existsb is_write cs
  | _, _ => h' = h
  end.

(** A handler as configured, or as any accesses leave it. *)
Definition handler_ok (h : MemRegionHandler) : Prop :=
  match kind h with
  | Trace g => 0 <= max_payload_log g /\ is_u64 (doorbell_count g) /\
               Z.of_nat (length (recent_doorbell_lo g)) <= max_payload_log g
  | _ => True
  end.

Lemma filter_snoc {A} (f : A -> bool) l x :
  List.filter f (l ++ [x]) = List.filter f l ++ (if f x then [x] else []).
Proof. rewrite List.filter_app. cbn. destruct (f x); reflexivity. Qed.

Lemma captures_nil h : handler_ok h -> captures h [] h.
Proof.
  unfold captures, handler_ok. destruct (kind h); auto; cbn; rewrite ?app_nil_r; auto.
  - intros (H1 & H2 & H3). rewrite Z.add_0_r, wrap_small by assumption. split; [| reflexivity].
    unfold last_n. replace (_ - _)%nat with 0%nat by lia. reflexivity.
  - intros _. symmetry. apply orb_false_r.
Qed.

Lemma respond_kind c h : kind (respond c h) =
  match kind h with
  | Uart o buf => Uart o (if hits h o c && (1 <=? size c) then buf ++ [data c !!! 0%nat] else buf)
  | Trace g =>
      if hits h (doorbell_offset g) c then
        Trace (recordDoorbellPayload (decodeDoorbellLo c) (g <| doorbell_count ::= fun n => u64 (n + 1) |>))
      else if negb (is_write c) && (u64 (addr c - start_ h) =? status_offset g) then
        Trace (g <| poll_count ::= fun n => u64 (n + 1) |>)
      else Trace g
  | TestFinisher p w v =>
      if is_write c then TestFinisher p true (pack 0 (take (Z.to_nat (if size c <? 4 then size c else 4)) (data c)))
      else TestFinisher p w v
  | k => k
  end.
Proof.
  unfold respond, hits, is_write, onRead, onWrite. destruct (bool_decide _); cbn [negb andb];
    destruct (kind h) eqn:Ek; cbn; rewrite ?Ek; auto; try (destruct (_ =? _); cbn; auto).
  - rewrite andb_true_r. reflexivity.
  - rewrite andb_false_r. reflexivity.
Qed.

Lemma captures_snoc h cs h' c : handler_ok h -> same_policy h h' -> captures h cs h' ->
  captures h (cs ++ [c]) (respond c h').
Proof.
  intros Hok (E1 & E2 & E3) Hc. unfold captures in *. rewrite respond_kind.
  assert (Hh : forall o, hits h' o c = hits h o c) by (intros; unfold hits; rewrite E1; reflexivity).
  unfold handler_ok in Hok.
  destruct (kind h) as [| |o buf|g| |p w v] eqn:Ek, (kind h') as [| |o' buf'|g'| |p' w' v'] eqn:Ek'; try contradiction.
  1, 2, 5: unfold respond, onRead, onWrite; rewrite Ek'; destruct (bool_decide _); exact Hc.
  - subst o'. rewrite Hh, filter_snoc. destruct (_ && _); cbn; rewrite Hc; [| rewrite app_nil_r; reflexivity].
    rewrite map_app, app_assoc. reflexivity.
  - destruct E3 as (D1 & D2 & D3). destruct Hc as [Hr Hn]. destruct Hok as (Hm & Hd & Hl).
    rewrite Hh, <- D1, filter_snoc. destruct (hits h (doorbell_offset g) c); cbn.
    + rewrite Hr, Hn, <- D3, map_app, app_assoc. split; [apply last_n_push; exact Hm |].
      rewrite length_app. unfold wrap. rewrite Zplus_mod_idemp_l. f_equal. cbn. lia.
    + rewrite app_nil_r. destruct (_ && _); auto.
  - rewrite existsb_app. cbn. rewrite orb_false_r. destruct (is_write c); cbn; subst w'.
    + rewrite !orb_true_r. reflexivity.
    + rewrite orb_false_r. reflexivity.
Qed.

(** What the local handlers keep of the writes they own: the UART handler
    every byte stored to its transmit register, in order; the GPU trace the
    last [max_payload_log] doorbell payloads and the exact number of
    doorbells; the finisher that it was written.  The others keep nothing. *)
Lemma handler_captures h cs : handler_ok h ->
  captures h cs (fold_left (fun h c => respond c h) cs h).
Proof.
  intros Hok. assert (H : same_policy h (fold_left (fun h c => respond c h) cs h) /\
    captures h cs (fold_left (fun h c => respond c h) cs h)); [| apply H].
  induction cs as [|c cs [IH1 IH2]] using rev_ind; cbn.
  - split; [apply same_policy_refl | apply captures_nil; exact Hok].
  - rewrite fold_left_app. cbn. split; [| apply captures_snoc; assumption].
    destruct IH1 as (A1 & A2 & A3), (respond_policy c (fold_left (fun h c => respond c h) cs h)) as (B1 & B2 & B3).
    split; [congruence | split; [congruence |]].
    set (h1 := fold_left _ cs h) in *. destruct (kind h), (kind h1), (kind (respond c h1)); try contradiction; auto;
      intuition congruence.
Qed.

(** The finisher's verdict does not depend on the guest's byte order: a
    four-byte store of the pass value passes, most or least significant byte
    first. *)
Lemma finisher_verdict h c pass w v : kind h = TestFinisher pass w v -> is_u32 pass ->
  cmd c = CMD_WRITE -> size c = 4 ->
  (take 4 (data c) = le_bytes 4 pass \/ take 4 (data c) = be_bytes 4 pass) ->
  exists value, finish (respond c h) = Some (FinishReport value true).
Proof.
  intros Ek Hp Ec Es Hb. unfold finish. rewrite respond_kind, Ek. unfold is_write. rewrite Ec, Es.
  rewrite bool_decide_false by discriminate. cbn [negb].
  change (Z.to_nat (if 4 <? 4 then 4 else 4)) with 4%nat. set (bs := take 4 (data c)) in *.
  assert (H4 : bytes_ok bs /\ length bs = 4%nat)
    by (destruct Hb as [-> | ->]; auto using le_bytes_ok, be_bytes_ok, length_le_bytes, length_be_bytes).
  destruct H4 as [Hbs Hlen]. exists (pack 0 bs). do 2 f_equal. apply orb_true_iff.
  destruct Hb as [-> | Eb]; [left | right]; apply Z.eqb_eq.
  - rewrite pack_le_value by (rewrite ?length_le_bytes; auto using le_bytes_ok with arith).
    rewrite le_value_bytes by lia. apply Z.mod_small. exact Hp.
  - unfold bswap32. rewrite le_bytes_pack by exact Hbs. rewrite Hlen, take_ge by lia. cbn [Nat.sub replicate].
    rewrite app_nil_r, Eb, be_value_bytes by lia. apply Z.mod_small. exact Hp.
Qed.

(** ** The theorems at concrete inputs *)

Definition demo_store (value : list Z) : QuetzCommand :=
  mkCommand CMD_WRITE 4 0 0x100000 0 (value ++ replicate 60 0).
Definition demo_uart : MemRegionHandler := mkHandler 0x100000 0x1000FF (Uart 0 []).
Definition demo_finisher : MemRegionHandler := mkHandler 0x100000 0x100FFF (TestFinisher 0x5555 false 0).

Lemma handler_captures_witness :
  captures demo_uart [demo_store [72; 0; 0; 0]; demo_store [105; 0; 0; 0]] (mkHandler 0x100000 0x1000FF (Uart 0 [72; 105])).
Proof. exact (handler_captures demo_uart [demo_store [72; 0; 0; 0]; demo_store [105; 0; 0; 0]] I). Defined.

Lemma finisher_verdict_witness : exists value,
  finish (respond (demo_store [0; 0; 0x55; 0x55]) demo_finisher) = Some (FinishReport value true).
Proof.
  apply (finisher_verdict demo_finisher (demo_store [0; 0; 0x55; 0x55]) 0x5555 false 0); try reflexivity.
  - split; lia.
  - right. reflexivity.
Defined.
