(* ===== verification/MemIssue.v ===== *)
(** * Issuing memory requests

    [src/src/quetz_mem_issue.h/.cc], class [MemRequestEmitter]: a guest access
    becomes requests of at most one cache line each on the cached path, or a
    single request on the MMIO path, in windows that respect a budget; the
    responses are matched by request id. *)
From S2P Require Import Prelude.
From S2P Require Import MemSpan.
From S2P Require Import Command.

Inductive IssuePath : Set := CACHED | MMIO.
#[export] Instance IssuePath_eq_dec : EqDecision IssuePath.
Proof. solve_decision. Defined.

(** A request as sent on a link. *)
Record Req := mkReq { rq_path : IssuePath; rq_read : bool; rq_addr : Z; rq_size : Z; rq_data : list Z }.

Record QuetzPendingReq := mkPending { req : Req; issue_cycle : Z; is_mmio : bool }.

Record Emitter := mkEmitter
  { pending_txns : gmap Z QuetzPendingReq; pending_count : Z; stats : QuetzCoreStats;
    next_id : Z;               (* request ids, unique per request *)
    now : Z;                   (* the simulator's clock *)
    sent : list (Z * Req) }.
#[export] Instance Emitter_settable : Settable Emitter := fun e =>
  mkEmitter (pending_txns e) (pending_count e) (stats e) (next_id e) (now e) (sent e).

Definition emitter0 : Emitter := mkEmitter ∅ 0 stats0 0 0 [].
Definition bump (st : Stat) (n : Z) (e : Emitter) : Emitter := e <| stats ::= addData st n |>.

Section Emitter.
(** The line size, and which links are connected. *)
Variables (cache_line_size : Z) (has_mem has_mmio : bool).

Definition linkFor (p : IssuePath) : bool := match p with MMIO => has_mmio | CACHED => has_mem end.

Definition slotsNeeded (vaddr size : Z) (p : IssuePath) : Z :=
  match p with MMIO => 1 | CACHED => memorySlots vaddr size cache_line_size end.

(** A new request: recorded as pending, counted and sent. *)
Definition emit (st : Stat) (r : Req) (e : Emitter) : Emitter :=
  bump st 1
    (e <| pending_txns ::= <[next_id e := mkPending r (now e) (bool_decide (rq_path r = MMIO))]> |>
       <| pending_count ::= fun n => u32 (n + 1) |>
       <| sent ::= fun l => l ++ [(next_id e, r)] |>
       <| next_id ::= Z.succ |>).

(** The loop over the lines, the same for reads and writes: [build] makes the
    request for an address, an offset in the access and a size; the result is
    how many were issued and the offset reached.  At most one pass per byte. *)
Fixpoint issue_parts (split reqs : Stat) (build : Z -> Z -> Z -> Req) (fuel : nat)
    (addr offset remaining parts budget : Z) (e : Emitter) : result (Z * Z * Emitter) :=
  match fuel with
  | O => Throw OutOfFuel "issue window"
  | S fuel =>
      if (0 <? remaining) && (parts <? budget) then
        let chunk := u32 (memoryChunkSize addr remaining cache_line_size remaining) in
        let e := if offset =? 0 then e else bump split 1 e in
        let e := emit reqs (build addr offset chunk) e in
        issue_parts split reqs build fuel (u64 (addr + chunk)) (u32 (offset + chunk))
          (u32 (remaining - chunk)) (u32 (parts + 1)) budget e
      else Ok (parts, offset, e)
  end.

Definition build_read (addr offset chunk : Z) : Req := mkReq CACHED true addr chunk [].

Definition issueReadWindow (vaddr size : Z) (p : IssuePath) (offset budget : Z) (e : Emitter)
  : result (Z * Z * Emitter) :=
  if (size =? 0) || (budget =? 0) then Ok (0, offset, e)
  else
    throw_if (negb (memorySpanValid vaddr size)) Fatal "Memory read wraps the address space." ≫= fun _ =>
    let e := if bool_decide (p = CACHED) && (offset =? 0) then bump read_req_sizes size e else e in
    throw_if (negb (linkFor p)) Fatal "read link is not connected" ≫= fun _ =>
    match p with
    | MMIO => Ok (1, size, emit mmio_read_reqs (mkReq MMIO true vaddr size []) e)
    | CACHED =>
        issue_parts split_reads read_reqs build_read (S (Z.to_nat size))
          (u64 (vaddr + offset)) offset (u32 (size - offset)) 0 budget e
    end.

Definition kDataCap : Z := QUETZ_CMD_DATA_BYTES.

(** A chunk's payload: zeros with the captured bytes copied over. *)
Definition payload (raw : list Z) (data_offset chunk : Z) : list Z :=
  let zeros := replicate (Z.to_nat chunk) 0 in
  if data_offset <? kDataCap then
    let avail := kDataCap - data_offset in
    let copy_n := if chunk <? avail then chunk else avail in
    splice zeros 0 (slice raw (Z.to_nat data_offset) (Z.to_nat copy_n))
  else zeros.

Definition build_write (raw : list Z) (addr offset chunk : Z) : Req :=
  mkReq CACHED false addr chunk (payload raw offset chunk).

Definition issueWriteWindow (vaddr size : Z) (raw : list Z) (p : IssuePath) (offset budget : Z) (e : Emitter)
  : result (Z * Z * Emitter) :=
  if (size =? 0) || (budget =? 0) then Ok (0, offset, e)
  else
    throw_if (negb (memorySpanValid vaddr (Z.min size kDataCap))) Fatal
      "Memory write wraps the address space." ≫= fun _ =>
    let e := if bool_decide (p = CACHED) && (offset =? 0) then bump write_req_sizes size e else e in
    throw_if (negb (linkFor p)) Fatal "write link is not connected" ≫= fun _ =>
    let issue_size := if kDataCap <? size then kDataCap else size in
    match p with
    | MMIO =>
        let e := if kDataCap <? size then bump mmio_truncated_writes 1 e else e in
        let bytes := splice (replicate (Z.to_nat issue_size) 0) 0 (slice raw 0 (Z.to_nat issue_size)) in
        Ok (1, size, emit mmio_write_reqs (mkReq MMIO false vaddr issue_size bytes) e)
    | CACHED =>
        let e := if (kDataCap <? size) && (offset =? 0) then bump cached_truncated_writes 1 e else e in
        '(parts, offset, e) ← issue_parts split_writes write_reqs (build_write raw) (S (Z.to_nat issue_size))
                                (u64 (vaddr + offset)) offset (u32 (issue_size - offset)) 0 budget e;
        Ok (parts, if offset =? issue_size then size else offset, e)
    end.

(** Whole accesses. *)
Definition issueRead (vaddr size : Z) (p : IssuePath) (e : Emitter) : result Emitter :=
  '(_, _, e) ← issueReadWindow vaddr size p 0 max_u32 e; Ok e.
Definition issueWrite (vaddr size : Z) (raw : list Z) (p : IssuePath) (e : Emitter) : result Emitter :=
  '(_, _, e) ← issueWriteWindow vaddr size raw p 0 max_u32 e; Ok e.

(** [handleResponse]: [None] for a response nobody waits for; else the latency
    and the path of the request. *)
Definition handleResponse (id : Z) (e : Emitter) : option (Z * bool) * Emitter :=
  match pending_txns e !! id with
  | None => (None, e)
  | Some q =>
      (Some (if issue_cycle q <=? now e then now e - issue_cycle q else 0, is_mmio q),
       e <| pending_txns ::= delete id |> <| pending_count ::= fun n => u32 (n - 1) |>)
  end.

(** ** Emitting *)

(** The books of the pending requests. *)
Record em_ok (e : Emitter) : Prop :=
  { em_count : pending_count e = Z.of_nat (base.size (pending_txns e));
    em_small : is_u32 (pending_count e);
    em_ids : forall id q, pending_txns e !! id = Some q -> id < next_id e }.

(** [e'] is [e] after the requests [rs], in order. *)
Record emitted (e e' : Emitter) (rs : list Req) : Prop :=
  { et_sent : snd <$> sent e' = (snd <$> sent e) ++ rs;
    et_ok : em_ok e -> pending_count e + Z.of_nat (length rs) < 2 ^ 32 ->
            em_ok e' /\ pending_count e' = pending_count e + Z.of_nat (length rs);
    et_now : now e' = now e }.

Lemma emitted_nil e e' : sent e' = sent e -> pending_txns e' = pending_txns e -> pending_count e' = pending_count e ->
  next_id e' = next_id e -> now e' = now e -> emitted e e' [].
Proof.
  intros E1 E2 E3 E4 E5. split; [rewrite E1, app_nil_r; reflexivity | | exact E5].
  intros [H1 H2 H3] _. cbn. split; [split; rewrite ?E2, ?E3, ?E4; auto | lia].
Qed.

Lemma emitted_trans e e1 e2 rs1 rs2 : emitted e e1 rs1 -> emitted e1 e2 rs2 -> emitted e e2 (rs1 ++ rs2).
Proof.
  intros [A1 A2 A3] [B1 B2 B3]. split; [rewrite B1, A1, app_assoc; reflexivity | | congruence].
  intros Hok Hn. rewrite length_app in *. destruct A2 as [Hok1 C1]; [assumption | lia |].
  destruct B2 as [Hok2 C2]; [assumption | lia |]. split; [assumption | lia].
Qed.

Lemma emit_emitted st r e : emitted e (emit st r e) [r].
Proof.
  split; [cbn; rewrite fmap_app; reflexivity | | reflexivity].
  intros [H1 H2 H3] Hn. cbn in Hn |- *. rewrite wrap_small by word. split; [| reflexivity].
  assert (Hfresh : pending_txns e !! next_id e = None).
  { destruct (pending_txns e !! next_id e) as [q|] eqn:E; [| reflexivity]. apply H3 in E. lia. }
  split; cbn.
  - rewrite wrap_small, map_size_insert_None by (assumption || word). lia.
  - rewrite wrap_small by word. word.
  - intros id q. rewrite lookup_insert. case_decide; [lia |]. intros E. apply H3 in E. lia.
Qed.

(** ** The lines of an access *)

Hypothesis line_pos : 0 < cache_line_size.

Definition chunks (a n : Z) : list (Z * Z) := span_chunks (Z.to_nat n) a n cache_line_size n.

Lemma span_chunks_fuel f f' a n limit : (Z.to_nat n <= f)%nat -> (Z.to_nat n <= f')%nat -> 0 <= a -> n <= limit ->
  span_chunks f a n cache_line_size limit = span_chunks f' a n cache_line_size n.
Proof.
  intros Hf Hf' Ha Hl.
  assert (H : forall f f' a n limit limit', (Z.to_nat n <= f)%nat -> (Z.to_nat n <= f')%nat -> 0 <= a ->
    n <= limit -> n <= limit' ->
    span_chunks f a n cache_line_size limit = span_chunks f' a n cache_line_size limit').
  { clear f f' a n limit Hf Hf' Ha Hl. induction f as [|f IH]; intros f' a n limit limit' Hf Hf' Ha Hl Hl'.
    - destruct f'; [reflexivity |]. cbn. rewrite (proj2 (Z.leb_le n 0)) by lia. reflexivity.
    - destruct f' as [|f']; cbn; destruct (Z.leb_spec n 0); try reflexivity; [lia |].
      assert (Hk : memoryChunkSize a n cache_line_size limit = memoryChunkSize a n cache_line_size limit').
      { unfold memoryChunkSize. rewrite (Z.min_l n limit), (Z.min_l n limit') by lia. reflexivity. }
      rewrite Hk. pose proof (memoryChunkSize_bounds a n cache_line_size limit' Ha ltac:(lia) ltac:(lia) ltac:(lia)).
      f_equal. apply IH; lia. }
  apply H; lia.
Qed.

Lemma chunks_nil a : chunks a 0 = [].
Proof. reflexivity. Qed.

Lemma chunks_cons a n : 0 <= a -> 0 < n ->
  let k := memoryChunkSize a n cache_line_size n in
  0 < k <= n /\ chunks a n = (a, k) :: chunks (a + k) (n - k).
Proof.
  intros Ha Hn. cbv zeta.
  pose proof (memoryChunkSize_bounds a n cache_line_size n Ha Hn ltac:(lia) ltac:(lia)) as (Hk & _).
  split; [lia |]. unfold chunks at 1. destruct (Z.to_nat n) as [|f] eqn:Ef; [lia |]. cbn.
  rewrite (proj2 (Z.leb_gt n 0)) by lia. f_equal. apply span_chunks_fuel; lia.
Qed.

(** ** Windows *)

(** The sizes of the first chunks, taken together. *)
Lemma issue_parts_spec split reqs build fuel : forall a off n parts budget e,
  0 <= a -> a + n <= 2 ^ 64 -> 0 <= off -> 0 <= n -> off + n < 2 ^ 32 -> 0 <= parts <= budget -> budget < 2 ^ 32 ->
  (Z.to_nat n < fuel)%nat ->
  let taken := take (Z.to_nat (budget - parts)) (chunks a n) in
  exists e', issue_parts split reqs build fuel (u64 a) off n parts budget e =
      Ok (parts + Z.of_nat (length taken), off + chunk_bytes taken, e') /\
    emitted e e' (map (fun c => build (fst c) (off + (fst c - a)) (snd c)) taken) /\
    chunks (a + chunk_bytes taken) (n - chunk_bytes taken) = drop (Z.to_nat (budget - parts)) (chunks a n).
Proof.
  induction fuel as [|fuel IH]; intros a off n parts budget e Ha Han Hoff Hn Hon Hp Hb Hf; [lia |].
  cbv zeta. cbn [issue_parts]. destruct (Z.ltb_spec 0 n) as [Hpos|Hz]; cbn [andb].
  2: { assert (n = 0) as -> by lia. rewrite chunks_nil, take_nil, drop_nil. cbn. exists e.
       rewrite !Z.add_0_r. split; [reflexivity | split; [| reflexivity]]. apply emitted_nil; reflexivity. }
  destruct (chunks_cons a n Ha Hpos) as [Hk Hc]. cbv zeta in *.
  destruct (Z.ltb_spec parts budget) as [Hlt|Hge].
  2: { replace (Z.to_nat (budget - parts)) with 0%nat by lia. rewrite take_0, drop_0. cbn. exists e.
       rewrite !Z.add_0_r, Z.sub_0_r. split; [reflexivity | split; [| reflexivity]]. apply emitted_nil; reflexivity. }
  rewrite (wrap_small 64 a) by word. set (k := memoryChunkSize a n cache_line_size n) in *.
  rewrite (wrap_small 32 k), (wrap_small 32 (off + k)), (wrap_small 32 (n - k)), (wrap_small 32 (parts + 1)) by word.
  set (e1 := emit reqs (build a off k) _).
  assert (He1 : emitted e e1 [build a off k]).
  { unfold e1. destruct (off =? 0); [apply emit_emitted |].
    apply (emitted_trans e (bump split 1 e) _ []); [apply emitted_nil; reflexivity | apply emit_emitted]. }
  destruct (IH (a + k) (off + k) (n - k) (parts + 1) budget e1) as (e' & E & Hem & Hrest); try lia.
  exists e'. cbv zeta in *. replace (Z.to_nat (budget - parts)) with (S (Z.to_nat (budget - (parts + 1)))) by lia.
  rewrite Hc. cbn [take drop chunk_bytes foldr map length]. fold (chunk_bytes (take (Z.to_nat (budget - (parts + 1))) (chunks (a + k) (n - k)))).
  cbn [fst snd]. set (taken := take _ (chunks (a + k) (n - k))) in *.
  split; [rewrite E; do 3 f_equal; lia | split].
  - replace (off + (a - a)) with off by lia.
    apply (emitted_trans e e1 e' [build a off k]); [exact He1 |].
    erewrite map_ext; [exact Hem |]. intros c. cbn. f_equal. lia.
  - rewrite <- Hrest. f_equal; lia.
Qed.

(** The requests an access expands to, from byte [o] of it on. *)
Definition issue_size (read : bool) (size : Z) : Z := if read then size else Z.min size kDataCap.
Definition chunk_req (read : bool) (raw : list Z) (addr : Z) (c : Z * Z) : Req :=
  mkReq CACHED read (fst c) (snd c)
    (if read then [] else slice raw (Z.to_nat (fst c - addr)) (Z.to_nat (snd c))).
Definition requests_from (p : IssuePath) (read : bool) (addr size : Z) (raw : list Z) (o : Z) : list Req :=
  let n := issue_size read size in
  match p with
  | CACHED => map (chunk_req read raw addr) (chunks (addr + o) (n - o))
  | MMIO => if size =? 0 then [] else [mkReq MMIO read addr n (if read then [] else take (Z.to_nat n) raw)]
  end.

(** An access the emitter accepts. *)
Definition span_ok (read : bool) (addr size : Z) : Prop :=
  is_u64 addr /\ is_u32 size /\ addr + issue_size read size <= 2 ^ 64.

(** A window: the next [budget] requests of the access, and where it stands. *)
Record window (all : list Req) (budget size : Z) (e : Emitter) (parts o' : Z) (e' : Emitter)
    (rest : Z -> list Req) : Prop :=
  { wd_parts : parts = Z.of_nat (length (take (Z.to_nat budget) all));
    wd_sent : emitted e e' (take (Z.to_nat budget) all);
    wd_offset : 0 <= o' <= size;
    wd_done : (o' = size <-> (length all <= Z.to_nat budget)%nat);
    wd_rest : o' <> size -> rest o' = drop (Z.to_nat budget) all }.

Lemma chunk_bytes_take b : forall a n, 0 <= a -> 0 <= n ->
  0 <= chunk_bytes (take b (chunks a n)) <= n.
Proof.
  induction b as [|b IH]; intros a n Ha Hn; [rewrite take_0; cbn; lia |].
  destruct (Z.eq_dec n 0) as [->|Hn0]; [rewrite chunks_nil; cbn; lia |].
  destruct (chunks_cons a n Ha ltac:(lia)) as [Hk ->]. cbn [take chunk_bytes foldr].
  specialize (IH (a + memoryChunkSize a n cache_line_size n) (n - memoryChunkSize a n cache_line_size n) ltac:(lia) ltac:(lia)).
  unfold chunk_bytes in IH. cbn [snd]. lia.
Qed.

Lemma chunks_empty a n : 0 <= a -> 0 <= n -> chunks a n = [] -> n = 0.
Proof.
  intros Ha Hn E. destruct (Z.eq_dec n 0) as [->|]; [reflexivity |].
  destruct (chunks_cons a n Ha ltac:(lia)) as [_ Hc]. congruence.
Qed.

(** The chunks lie in the access. *)
Lemma chunks_inside n : forall a, 0 <= a -> 0 <= n ->
  Forall (fun c => a <= fst c /\ 0 < snd c /\ fst c + snd c <= a + n) (chunks a n).
Proof.
  intros a Ha Hn. revert a Ha. pattern n. apply (Z_lt_induction _); [| exact Hn]. clear n Hn.
  intros n IH a Ha. destruct (Z.le_gt_cases n 0) as [Hz|Hz].
  { unfold chunks. replace (Z.to_nat n) with 0%nat by lia. constructor. }
  destruct (chunks_cons a n Ha Hz) as [Hk ->]. constructor; [cbn; lia |].
  assert (H := IH (n - memoryChunkSize a n cache_line_size n) ltac:(lia) (a + memoryChunkSize a n cache_line_size n) ltac:(lia)).
  eapply Forall_impl; [exact H |]. cbn. intros c Hc. lia.
Qed.

Lemma payload_slice raw o k : length raw = 64%nat -> 0 <= o -> 0 < k -> o + k <= kDataCap ->
  payload raw o k = slice raw (Z.to_nat o) (Z.to_nat k).
Proof.
  intros Hlen Ho Hk Hok. unfold payload. unfold kDataCap, QUETZ_CMD_DATA_BYTES in *.
  rewrite (proj2 (Z.ltb_lt o 64)) by lia. cbv zeta.
  replace (if k <? 64 - o then k else 64 - o) with k by (destruct (Z.ltb_spec k (64 - o)); lia).
  unfold splice. rewrite length_slice by lia. cbn [take Nat.add].
  rewrite drop_ge by (rewrite length_replicate; lia). apply app_nil_r.
Qed.

(** The window of the loops, from byte [o] on. *)
Lemma cached_window split reqs build read raw addr size o budget e :
  (forall c, o <= fst c - addr -> 0 < snd c -> fst c + snd c <= addr + issue_size read size ->
     build (fst c) (fst c - addr) (snd c) = chunk_req read raw addr c) ->
  span_ok read addr size -> 0 <= o <= issue_size read size -> 0 < budget < 2 ^ 32 ->
  let n := issue_size read size in
  exists parts o' e', issue_parts split reqs build (S (Z.to_nat n)) (u64 (addr + o)) o (u32 (n - o)) 0 budget e = Ok (parts, o', e') /\
    window (requests_from CACHED read addr size raw o) budget n e parts o' e' (requests_from CACHED read addr size raw).
Proof.
  intros Hbuild (Ha & Hs & Hspan) Ho Hb. cbv zeta. set (n := issue_size read size) in *.
  assert (Hn : n < 2 ^ 32) by (unfold n, issue_size, kDataCap, QUETZ_CMD_DATA_BYTES in *; destruct read; word).
  rewrite (wrap_small 32 (n - o)) by word.
  destruct (issue_parts_spec split reqs build (S (Z.to_nat n)) (addr + o) o (n - o) 0 budget e) as (e' & E & Hem & Hrest);
    try word.
  cbv zeta in *. rewrite Z.sub_0_r in *. set (cs := chunks (addr + o) (n - o)) in *.
  assert (Hin := chunks_inside (n - o) (addr + o) ltac:(word) ltac:(lia)). fold cs in Hin.
  assert (Hbytes := chunk_bytes_take (Z.to_nat budget) (addr + o) (n - o) ltac:(word) ltac:(lia)). fold cs in Hbytes.
  rewrite E. do 3 eexists. split; [reflexivity |].
  assert (Hreq : requests_from CACHED read addr size raw o = map (chunk_req read raw addr) cs) by reflexivity.
  split; rewrite ?Hreq.
  - rewrite firstn_map, length_map. reflexivity.
  - rewrite firstn_map. erewrite map_ext_in; [exact Hem |]. intros c Hc.
    apply list_elem_of_In in Hc. apply elem_of_take in Hc as (i & Hc & _).
    rewrite Forall_lookup in Hin. specialize (Hin i c Hc). rewrite <- Hbuild by lia. f_equal. lia.
  - lia.
  - rewrite length_map.
    assert (Hdrop : (length cs <= Z.to_nat budget)%nat <-> drop (Z.to_nat budget) cs = []).
    { split; [apply drop_ge |]. intros Hd. apply (f_equal length) in Hd. rewrite length_drop in Hd. cbn in Hd. lia. }
    rewrite Hdrop, <- Hrest. split; intros H.
    + replace (n - o - _) with 0 by lia. apply chunks_nil.
    + apply chunks_empty in H; [lia | word | lia].
  - intros _. unfold requests_from. fold n. rewrite skipn_map, <- Hrest. do 2 f_equal; lia.
Qed.

(** An access of the pipeline: which window function it calls. *)
Definition issueWindow (read : bool) (addr size : Z) (raw : list Z) (p : IssuePath) : Z -> Z -> Emitter -> result (Z * Z * Emitter) :=
  if read then issueReadWindow addr size p else issueWriteWindow addr size raw p.

Lemma window_skip e e1 all budget sz parts o' e' rest : emitted e e1 [] ->
  window all budget sz e1 parts o' e' rest -> window all budget sz e parts o' e' rest.
Proof. intros He [W1 W2 W3 W4 W5]. split; auto. apply (emitted_trans e e1 e' []); assumption. Qed.

Lemma bump_emitted (b : bool) st n e : emitted e (if b then bump st n e else e) [].
Proof. destruct b; apply emitted_nil; reflexivity. Qed.

Lemma requests_done p read addr sz raw : 0 < sz -> 0 <= addr -> requests_from p read addr sz raw 0 <> [].
Proof.
  intros Hs Ha E. destruct p; cbn in E.
  - apply map_eq_nil in E. apply chunks_empty in E; unfold issue_size, kDataCap, QUETZ_CMD_DATA_BYTES in *; destruct read; lia.
  - rewrite (proj2 (Z.eqb_neq sz 0)) in E by lia. discriminate.
Qed.

Lemma mmio_window read addr sz raw budget e st :
  0 < sz -> 0 < budget ->
  let n := issue_size read sz in
  let r := mkReq MMIO read addr n (if read then [] else take (Z.to_nat n) raw) in
  window (requests_from MMIO read addr sz raw 0) budget sz e 1 sz (emit st r e) (requests_from MMIO read addr sz raw).
Proof.
  intros Hs Hb. cbv zeta. unfold requests_from. cbv zeta. rewrite (proj2 (Z.eqb_neq sz 0)) by lia.
  destruct (Z.to_nat budget) as [|b] eqn:Eb; [lia |].
  split; rewrite ?Eb; cbn [take length]; rewrite ?take_nil; try lia.
  all: try (split; intros; [cbn; lia | reflexivity]).
  all: try apply emit_emitted.
  cbn. lia.
Qed.

(** What a window does.  From any byte of an access that an earlier window
    stopped at, with any budget, exactly the next [budget] of the access's
    requests go out - or all that are left - and the offset says where the
    rest begins; the access is complete exactly when nothing is left. *)
Lemma window_ok read addr sz raw p o budget e :
  span_ok read addr sz -> length raw = 64%nat -> linkFor p = true -> 0 < sz -> 0 <= o < sz ->
  (p = CACHED -> o < issue_size read sz) -> (p = MMIO -> o = 0) -> 0 < budget < 2 ^ 32 ->
  exists parts o' e', issueWindow read addr sz raw p o budget e = Ok (parts, o', e') /\
    window (requests_from p read addr sz raw o) budget sz e parts o' e' (requests_from p read addr sz raw) /\
    (o' <> sz -> o' < issue_size read sz /\ p = CACHED).
Proof.
  intros Hok Hraw Hl Hs Ho Hoc Hom Hb. pose proof Hok as (Ha & Hu & Hspan).
  assert (Hvalid : memorySpanValid addr (issue_size read sz) = true).
  { apply memorySpanValid_iff; [assumption | | right; assumption].
    unfold issue_size, kDataCap, QUETZ_CMD_DATA_BYTES; destruct read; word. }
  unfold issueWindow. destruct read; cbn [issue_size] in *.
  - unfold issueReadWindow. rewrite (proj2 (Z.eqb_neq sz 0)), (proj2 (Z.eqb_neq budget 0)) by lia.
    cbn [orb]. rewrite Hvalid, Hl. cbn [negb throw_if mbind result_bind]. destruct p.
    + set (e1 := if bool_decide _ && _ then _ else e).
      destruct (cached_window split_reads read_reqs build_read true raw addr sz o budget e1) as (parts & o' & e' & E & W);
        [reflexivity | assumption | cbn; lia | assumption |]. cbv zeta in *. cbn [issue_size] in *.
      exists parts, o', e'. split; [exact E | split; [apply (window_skip e e1); [apply bump_emitted | exact W] |]].
      destruct W as [_ _ W3 _ _]. intros. split; [lia | reflexivity].
    + specialize (Hom eq_refl). subst o. do 3 eexists. split; [reflexivity | split; [apply mmio_window; lia | congruence]].
  - unfold issueWriteWindow. rewrite (proj2 (Z.eqb_neq sz 0)), (proj2 (Z.eqb_neq budget 0)) by lia.
    cbn [orb]. rewrite Hvalid, Hl. cbn [negb throw_if mbind result_bind].
    replace (if kDataCap <? sz then kDataCap else sz) with (Z.min sz kDataCap) by (destruct (Z.ltb_spec kDataCap sz); lia).
    set (n := Z.min sz kDataCap) in *. destruct p.
    + set (e1 := if bool_decide _ && _ then _ else e). set (e2 := if (kDataCap <? sz) && _ then _ else e1).
      assert (He : emitted e e2 []) by (apply (emitted_trans e e1 e2 [] []); apply bump_emitted).
      destruct (cached_window split_writes write_reqs (build_write raw) false raw addr sz o budget e2)
        as (parts & o' & e' & E & W); [clear e1 e2 He | assumption | cbn; fold n; specialize (Hoc eq_refl); lia | assumption |].
      { intros c H1 H2 H3. unfold build_write, chunk_req. cbn in H3. rewrite payload_slice by (assumption || lia). reflexivity. }
      cbv zeta in *. cbn [issue_size] in *. fold n in E, W. rewrite E. cbn [mbind result_bind].
      do 3 eexists. split; [reflexivity |]. apply (window_skip e e2) in W; [| exact He].
      destruct W as [W1 W2 W3 W4 W5]. destruct (Z.eqb_spec o' n) as [En|Nn].
      * split; [split; auto; [lia | split; [intros _; apply W4; assumption | reflexivity] | congruence] | congruence].
      * split; [split; auto; [unfold n in *; lia |] | intros _; split; [unfold n in *; lia | reflexivity]].
        split; [intros ->; unfold n in *; lia | intros H; exfalso; apply W4 in H; contradiction].
    + specialize (Hom eq_refl). subst o. set (e1 := if bool_decide _ && _ then _ else e).
      do 3 eexists. split; [reflexivity | split; [| congruence]].
      apply (window_skip e (if kDataCap <? sz then bump mmio_truncated_writes 1 e1 else e1)).
      { apply (emitted_trans e e1 _ [] []); apply bump_emitted. }
      replace (splice _ 0 _) with (take (Z.to_nat n) raw); [apply (mmio_window false); lia |].
      unfold splice, slice. cbn [take Nat.add]. rewrite drop_0, drop_ge; [symmetry; apply app_nil_r |].
      rewrite length_replicate, length_take, Hraw. unfold n, kDataCap, QUETZ_CMD_DATA_BYTES. lia.
Qed.

(** ** Responses *)

Lemma response_ok id e : em_ok e ->
  let (r, e') := handleResponse id e in
  em_ok e' /\ (r = None <-> pending_txns e !! id = None) /\
  pending_count e' = pending_count e - (match r with Some _ => 1 | None => 0 end) /\
  pending_txns e' !! id = None /\ sent e' = sent e.
Proof.
  intros [H1 H2 H3]. unfold handleResponse. destruct (pending_txns e !! id) as [q|] eqn:E.
  - assert (Hsz : base.size (pending_txns e) = S (base.size (delete id (pending_txns e))))
      by (rewrite map_size_delete_Some by eauto; pose proof (map_size_ne_0_lookup_2 (pending_txns e) id ltac:(eauto)); lia).
    split; [split; cbn |].
    + rewrite wrap_small by word. lia.
    + rewrite wrap_small by word. word.
    + intros j q' Hj. rewrite lookup_delete in Hj. case_decide; [discriminate | eauto].
    + cbn. rewrite wrap_small by word. split; [split; discriminate |]. split; [reflexivity |].
      split; [apply lookup_delete_eq | reflexivity].
  - split; [split; assumption |]. split; [tauto | split; [lia | auto]].
Qed.

(** ** Whole accesses *)

(** The payloads of a write are its bytes. *)
Lemma chunks_payload (raw : list Z) addr n : forall a, 0 <= addr <= a -> 0 <= n ->
  concat (map (fun c => slice raw (Z.to_nat (fst c - addr)) (Z.to_nat (snd c))) (chunks a n)) =
  slice raw (Z.to_nat (a - addr)) (Z.to_nat n).
Proof.
  intros a Ha Hn. revert a Ha. pattern n. apply (Z_lt_induction _); [| exact Hn]. clear n Hn.
  intros n IH a Ha. destruct (Z.le_gt_cases n 0) as [Hz|Hz].
  { unfold chunks, slice. replace (Z.to_nat n) with 0%nat by lia. reflexivity. }
  destruct (chunks_cons a n ltac:(lia) Hz) as [Hk ->]. set (k := memoryChunkSize a n cache_line_size n) in *.
  cbn [map concat fst snd]. rewrite IH by lia. unfold slice.
  replace (Z.to_nat n) with (Z.to_nat k + Z.to_nat (n - k))%nat by lia.
  rewrite <- (take_take_drop _ (Z.to_nat k)), drop_drop. do 3 f_equal. lia.
Qed.

(** Successive windows of an access, each with its own budget. *)
Fixpoint run_windows (read : bool) (addr sz : Z) (raw : list Z) (p : IssuePath)
    (budgets : list Z) (o : Z) (e : Emitter) : result (Z * Emitter) :=
  match budgets with
  | [] => Ok (o, e)
  | b :: budgets =>
      if o =? sz then Ok (o, e)
      else '(_, o, e) ← issueWindow read addr sz raw p o b e;
           run_windows read addr sz raw p budgets o e
  end.

Lemma run_windows_ok read addr sz raw p budgets : forall o e,
  span_ok read addr sz -> length raw = 64%nat -> linkFor p = true -> 0 < sz ->
  Forall (fun b => 0 < b < 2 ^ 32) budgets ->
  0 <= o < sz -> (p = CACHED -> o < issue_size read sz) -> (p = MMIO -> o = 0) ->
  Z.of_nat (length (requests_from p read addr sz raw o)) <= foldr Z.add 0 budgets ->
  exists e', run_windows read addr sz raw p budgets o e = Ok (sz, e') /\
    snd <$> sent e' = (snd <$> sent e) ++ requests_from p read addr sz raw o.
Proof.
  intros o e Hok Hraw Hl Hs Hbs. revert o e. pose proof Hok as (Ha & Hu & Hspan).
  induction Hbs as [|b bs Hb Hbs IH]; intros o e Ho Hoc Hom Hsum.
  - exfalso. cbn in Hsum. destruct p; cbn in Hsum.
    + rewrite length_map in Hsum.
      destruct (chunks_cons (addr + o) (issue_size read sz - o)) as [_ Hc]; [word | specialize (Hoc eq_refl); lia |].
      cbv zeta in Hc. rewrite Hc in Hsum. cbn in Hsum. lia.
    + rewrite (proj2 (Z.eqb_neq sz 0)) in Hsum by lia. cbn in Hsum. lia.
  - cbn [run_windows]. rewrite (proj2 (Z.eqb_neq o sz)) by lia.
    destruct (window_ok read addr sz raw p o b e) as (parts & o' & e' & E & [W1 W2 W3 W4 W5] & Hp); auto.
    rewrite E. cbn [mbind result_bind]. destruct W2 as [Es _ _].
    destruct (Z.eq_dec o' sz) as [->|Hne].
    + exists e'. split; [destruct bs; cbn; rewrite ?Z.eqb_refl; reflexivity |].
      rewrite Es, take_ge by (apply W4; reflexivity). reflexivity.
    + destruct (Hp Hne) as [Hlt ->]. specialize (W5 Hne).
      destruct (IH o' e') as (e2 & E2 & Es2); [lia | auto | discriminate | |].
      { rewrite W5, length_drop. cbn [foldr] in Hsum. lia. }
      exists e2. split; [exact E2 |]. rewrite Es2, Es, W5, <- app_assoc, take_drop. reflexivity.
Qed.

Lemma requests_payload read addr sz raw p : 0 <= addr -> 0 < sz -> 
  concat (rq_data <$> requests_from p read addr sz raw 0) = (if read then [] else take (Z.to_nat (issue_size read sz)) raw).
Proof.
  intros Ha Hs. assert (Hn : 0 < issue_size read sz) by (unfold issue_size, kDataCap, QUETZ_CMD_DATA_BYTES; destruct read; lia).
  destruct p; unfold requests_from.
  - rewrite Z.add_0_r, Z.sub_0_r. destruct read.
    + induction (chunks addr _) as [|c cs IH]; [reflexivity | exact IH].
    + pose proof (chunks_payload raw addr (issue_size false sz) addr ltac:(lia) ltac:(lia)) as Hc.
      rewrite Z.sub_diag in Hc. unfold slice in Hc at 2. rewrite drop_0 in Hc. rewrite <- Hc.
      f_equal. apply (map_map (chunk_req false raw addr) rq_data).
  - rewrite (proj2 (Z.eqb_neq sz 0)) by lia. cbn. rewrite app_nil_r. reflexivity.
Qed.

Lemma requests_tile read addr sz raw : 0 <= addr -> 0 < sz ->
  tiles addr (issue_size read sz) cache_line_size (issue_size read sz)
    ((fun r => (rq_addr r, rq_size r)) <$> requests_from CACHED read addr sz raw 0).
Proof.
  intros Ha Hs. assert (Hn : 0 < issue_size read sz) by (unfold issue_size, kDataCap, QUETZ_CMD_DATA_BYTES; destruct read; lia).
  unfold requests_from. rewrite Z.add_0_r, Z.sub_0_r.
  pose proof (span_chunks_tile addr (issue_size read sz) cache_line_size (issue_size read sz) Ha ltac:(lia) ltac:(lia) ltac:(lia)) as Ht.
  fold (chunks addr (issue_size read sz)) in Ht.
  replace ((fun r => (rq_addr r, rq_size r)) <$> _) with (chunks addr (issue_size read sz)); [exact Ht |].
  clear Ht. induction (chunks addr _) as [|[x k] cs IH]; [reflexivity | cbn; f_equal; exact IH].
Qed.

(** C37. How an access is cut up does not matter: however the budgets of
    successive windows fall, once they add up to the number of requests the
    access is complete, and the requests are those of the whole access, in
    order, each sent once.  Each cached request stays in one line, they are
    adjacent and cover the access; the bytes of a write are those captured. *)
Theorem access_issued read addr sz raw p budgets e :
  span_ok read addr sz -> length raw = 64%nat -> linkFor p = true -> 0 < sz ->
  Forall (fun b => 0 < b < 2 ^ 32) budgets ->
  let all := requests_from p read addr sz raw 0 in
  Z.of_nat (length all) <= foldr Z.add 0 budgets ->
  (exists e', run_windows read addr sz raw p budgets 0 e = Ok (sz, e') /\
     snd <$> sent e' = (snd <$> sent e) ++ all) /\
  concat (rq_data <$> all) = (if read then [] else take (Z.to_nat (issue_size read sz)) raw) /\
  (p = CACHED -> tiles addr (issue_size read sz) cache_line_size (issue_size read sz) ((fun r => (rq_addr r, rq_size r)) <$> all)).
Proof.
  intros Hok Hraw Hl Hs Hbs all Hsum. pose proof Hok as ([Ha _] & _).
  split; [| split].
  - apply run_windows_ok; auto; try lia.
    intros _. unfold issue_size, kDataCap, QUETZ_CMD_DATA_BYTES. destruct read; lia.
  - apply requests_payload; assumption.
  - intros ->. apply requests_tile; assumption.
Qed.
End Emitter.

(** ** The theorem at a concrete input

    Sixteen bytes stored across a 64-byte line, in two windows of one request. *)
Definition demo_data : list Z := map Z.of_nat (seq 1 64).

Lemma access_issued_witness : exists e,
  run_windows 64 true false false 120 16 demo_data CACHED [1; 1] 0 emitter0 = Ok (16, e) /\
  (rq_addr <$> (snd <$> sent e)) = [120; 128].
Proof.
  destruct (access_issued 64 true false ltac:(lia) false 120 16 demo_data CACHED [1; 1] emitter0)
    as [(e & E & Hs) _].
  - repeat split; cbn; lia.
  - reflexivity.
  - reflexivity.
  - lia.
  - repeat constructor; lia.
  - vm_compute. discriminate.
  - exists e. split; [exact E | rewrite Hs; reflexivity].
Defined.
