(* ===== verification/InsnClass.v ===== *)
(** * Instruction classes and cache operations of the guest

    [src/src/qemu_plugin]: [decoder_riscv.h], [decoder_aarch64.h],
    [decoder_generic.h], [insn_classifier.cpp], [coldfire_cache_ops.h] and
    [registry.h] - how the plugin tells what an instruction is, from its
    encoding and the name of the target. *)
From S2P Require Import Prelude.
From S2P Require Import Command.

(** The field of [w] bits at [lo]. *)
Definition field (enc lo w : Z) : Z := Z.land (Z.shiftr enc lo) (Z.ones w).
Definition one_of (x : Z) (l : list Z) : bool := existsb (Z.eqb x) l.

(** ** RISC-V *)

Definition classify_rvc_rv64 (enc : Z) : Z :=
  let quad := Z.land enc 3 in
  let fn3 := field enc 13 3 in
  if quad =? 0 then
    if one_of fn3 [1; 5] then QUETZ_INSN_FP_MEM
    else if one_of fn3 [2; 3; 6; 7] then QUETZ_INSN_INT_MEM
    else QUETZ_INSN_INT_COMPUTE
  else if quad =? 1 then
    if one_of fn3 [5; 6; 7] then QUETZ_INSN_BRANCH else QUETZ_INSN_INT_COMPUTE
  else if one_of fn3 [1; 5] then QUETZ_INSN_FP_MEM
  else if one_of fn3 [2; 3; 6; 7] then QUETZ_INSN_INT_MEM
  else if fn3 =? 4 then
    let rs2 := field enc 2 5 in
    if negb (rs2 =? 0) then QUETZ_INSN_INT_COMPUTE
    else
      let bit12 := field enc 12 1 in
      let rd := field enc 7 5 in
      if bit12 =? 0 then QUETZ_INSN_BRANCH
      else if rd =? 0 then QUETZ_INSN_OTHER
      else QUETZ_INSN_BRANCH
  else QUETZ_INSN_INT_COMPUTE.

Definition classify_riscv_insn (enc : Z) : Z :=
  if negb (Z.land enc 3 =? 3) then classify_rvc_rv64 enc
  else
    let opcode := Z.land enc 0x7F in
    let funct3 := field enc 12 3 in
    if one_of opcode [0x03; 0x23] then QUETZ_INSN_INT_MEM
    else if one_of opcode [0x07; 0x27] then
      if one_of funct3 [2; 3; 4] then QUETZ_INSN_FP_MEM else QUETZ_INSN_VEC_MEM
    else if opcode =? 0x2F then QUETZ_INSN_INT_MEM
    else if one_of opcode [0x43; 0x47; 0x4B; 0x4F] then QUETZ_INSN_FP_COMPUTE
    else if opcode =? 0x53 then QUETZ_INSN_FP_COMPUTE
    else if opcode =? 0x57 then QUETZ_INSN_VEC_COMPUTE
    else if one_of opcode [0x63; 0x67; 0x6F] then QUETZ_INSN_BRANCH
    else if one_of opcode [0x13; 0x33; 0x1B; 0x3B; 0x17; 0x37; 0x0F] then QUETZ_INSN_INT_COMPUTE
    else QUETZ_INSN_OTHER.

(** ** AArch64 and the generic target *)

Definition classify_aarch64_insn (enc : Z) : Z :=
  if Z.testbit enc 27 && negb (Z.testbit enc 25) then
    if Z.testbit enc 26 then QUETZ_INSN_VEC_MEM else QUETZ_INSN_INT_MEM
  else
    let grp := field enc 25 4 in
    if one_of grp [8; 9] then QUETZ_INSN_INT_COMPUTE
    else if one_of grp [5; 13] then QUETZ_INSN_INT_COMPUTE
    else if grp =? 7 then QUETZ_INSN_VEC_COMPUTE
    else if one_of grp [14; 15] then QUETZ_INSN_FP_COMPUTE
    else if one_of grp [2; 3; 10; 11] then QUETZ_INSN_BRANCH
    else if grp =? 1 then QUETZ_INSN_VEC_COMPUTE
    else QUETZ_INSN_OTHER.

Definition classify_by_size (size : Z) : Z := if 16 <=? size then QUETZ_INSN_VEC_MEM else QUETZ_INSN_INT_MEM.

(** ** [InsnClassifier] and its implementations *)

Inductive InsnClassifier : Set := RiscvInsnClassifier | Aarch64InsnClassifier | GenericInsnClassifier.

Definition classify (k : InsnClassifier) (enc : Z) : Z :=
  match k with
  | RiscvInsnClassifier => classify_riscv_insn enc
  | Aarch64InsnClassifier => classify_aarch64_insn enc
  | GenericInsnClassifier => QUETZ_INSN_OTHER
  end.
Definition usesPreciseMemCallbacks (k : InsnClassifier) : bool :=
  match k with GenericInsnClassifier => false | _ => true end.
Definition refineMemClass (k : InsnClassifier) (cls size : Z) : Z :=
  match k with GenericInsnClassifier => classify_by_size size | _ => cls end.

Definition is_mem_class (cls : Z) : bool :=
  one_of cls [QUETZ_INSN_INT_MEM; QUETZ_INSN_FP_MEM; QUETZ_INSN_VEC_MEM].

(** Every class is one of the eight; the callback table has an entry for each
    class that is not a memory class. *)
Lemma classify_range k enc : 0 <= classify k enc < QUETZ_INSN_CLASS_COUNT.
Proof.
  destruct k; cbn [classify]; unfold classify_riscv_insn, classify_rvc_rv64, classify_aarch64_insn;
    repeat case_match; unfold QUETZ_INSN_CLASS_COUNT, QUETZ_INSN_INT_MEM, QUETZ_INSN_FP_MEM, QUETZ_INSN_VEC_MEM,
      QUETZ_INSN_INT_COMPUTE, QUETZ_INSN_FP_COMPUTE, QUETZ_INSN_VEC_COMPUTE, QUETZ_INSN_BRANCH, QUETZ_INSN_OTHER; lia.
Qed.

(** ** The registry

    The factory of the longest registered prefix of the target's name, the
    first of equals; failing that, the first one registered for all. *)
Section Registry.
Context {T : Type}.

Fixpoint best_prefix (target : string) (best : option T) (best_len : nat) (entries : list (string * T)) : option T :=
  match entries with
  | [] => best
  | (p, f) :: entries =>
      if (0 <? String.length p)%nat && String.prefix p target && (best_len <? String.length p)%nat
      then best_prefix target (Some f) (String.length p) entries
      else best_prefix target best best_len entries
  end.
Definition findByPrefix (target : string) (entries : list (string * T)) : option T :=
  match best_prefix target None 0 entries with
  | Some f => Some f
  | None => snd <$> List.find (fun e => String.length e.1 =? 0)%nat entries
  end.
End Registry.

(** ** ColdFire cache instructions *)

Record ColdFireCacheOp := mkOp { op_valid : bool; op_kind : Z; op_control : Z; op_instruction : Z; op_source : Z }.
Definition cacheop0 : ColdFireCacheOp := mkOp false 0 0 0 0.

Definition half (bytes : list Z) (i : nat) : Z := Z.lor (Z.shiftl (bytes !!! i) 8) (bytes !!! S i).

(** [size]: how many of the bytes there are. *)
Definition decodeColdFireCacheOp (bytes : list Z) (size : Z) : ColdFireCacheOp :=
  if size <? 2 then cacheop0
  else
    let instruction := half bytes 0 in
    if (instruction =? 0x4e7b) && (4 <=? size) then
      let ext := half bytes 2 in
      let control := Z.land ext 0x0fff in
      mkOp ((control =? 2) || ((4 <=? control) && (control <=? 7))) 0 control instruction (Z.shiftr ext 12)
    else if Z.land instruction 0xff38 =? 0xf428 then
      mkOp true 1 0 instruction (8 + Z.land instruction 7)
    else mkOp false 0 0 instruction 0.
