(* ===== verification/Pipeline.v ===== *)
(** * The event pipeline of a core

    [src/src/quetz_pipeline.h/.cc] and its default stages
    [quetz_pipeline_input.cc], [quetz_pipeline_filter.cc],
    [quetz_pipeline_transform.cc], [quetz_pipeline_output.cc]: each cycle a
    core drains commands of its guest into a queue, applies the memory-region
    policy at the head, charges stalls, and issues memory requests within its
    bandwidth and outstanding-request limits. *)
From S2P Require Import Prelude.
From S2P Require Import MemSpan.
From S2P Require Import Command.
From S2P Require Import Regions.
From S2P Require Import MemIssue.

Record PipelineEvent := mkEvent { ev_cmd : QuetzCommand; remaining_stall : Z }.

Record MemOp := mkMemOp { op_is_read : bool; op_is_mmio : bool; op_addr : Z; op_size : Z; op_data : list Z }.

(** [QuetzCoreContext]: the configuration of a core. *)
Record QuetzCoreContext := mkContext
  { max_queue_len : Z; max_issue_per_cycle : Z; max_pending : Z; max_insts : Z; cache_line_size : Z;
    detailed_tracking : bool; filter_unmatched_regions : bool; has_region_table : bool;
    exec_latency : list Z; compute_latency : list Z; mem_linked : bool; mmio_linked : bool }.

Inductive Result : Set := STALL | CONSUMED_NOOP | EMIT_MEMOP | HALT_EXIT.

Record Pipeline := mkPipeline
  { backend : list QuetzCommand;          (* the guest's commands not yet read *)
    run_nop : QuetzCommand; run_remaining : Z; run_stall : Z;     (* input stage *)
    table : list MemRegionHandler;                                (* filter stage *)
    offset : Z; emitter : Emitter;                                (* output stage *)
    inst_count : Z; halted : bool; refill_hit_cap : bool; coreQ : list PipelineEvent;
    pending_op : option MemOp; guest_exit : bool }.
#[export] Instance Pipeline_settable : Settable Pipeline := fun s =>
  mkPipeline (backend s) (run_nop s) (run_remaining s) (run_stall s) (table s) (offset s) (emitter s)
    (inst_count s) (halted s) (refill_hit_cap s) (coreQ s) (pending_op s) (guest_exit s).

Definition record (st : Stat) (s : Pipeline) : Pipeline := s <| emitter ::= bump st 1 |>.
Definition nop0 : QuetzCommand := mkCommand CMD_NOP 0 0 0 0 [].

Section Pipeline.
Variable ctx : QuetzCoreContext.

Definition pipeline0 (t : list MemRegionHandler) : Pipeline :=
  mkPipeline [] nop0 0 0 t 0 emitter0 0 false false [] None false.

(** The constructor. *)
Definition construct (t : list MemRegionHandler) : result Pipeline :=
  throw_if ((max_queue_len ctx =? 0) || (max_issue_per_cycle ctx =? 0) || (max_pending ctx =? 0) ||
            (cache_line_size ctx =? 0)) Fatal
    "Pipeline queue, issue, pending and cache-line limits must be nonzero." ≫= fun _ =>
  Ok (pipeline0 t).

(** ** Input *)

Definition queue_room (s : Pipeline) : bool := Z.of_nat (length (coreQ s)) <? max_queue_len ctx.

(** [drainRun]: one pass per instruction of the run. *)
Fixpoint drain_run (fuel : nat) (s : Pipeline) : Pipeline :=
  match fuel with
  | O => s
  | S fuel =>
      if (0 <? run_remaining s) && queue_room s then
        drain_run fuel (s <| coreQ ::= fun q => q ++ [mkEvent (run_nop s) (run_stall s)] |>
                          <| run_remaining ::= fun n => u32 (n - 1) |>)
      else s
  end.
Definition drainRun (s : Pipeline) : Pipeline := drain_run (Z.to_nat (run_remaining s)) s.

Definition latency_of (lat : list Z) (cls : Z) : Z :=
  if cls <? QUETZ_INSN_CLASS_COUNT then lat !!! Z.to_nat cls else 0.

Definition stall_of (c : QuetzCommand) : Z :=
  match cmd c with
  | CMD_READ | CMD_WRITE => latency_of (exec_latency ctx) (insn_class c)
  | CMD_NOP => latency_of (compute_latency ctx) (insn_class c)
  | _ => 0
  end.

(** A run of non-memory instructions starts. *)
Definition start_run (c : QuetzCommand) (s : Pipeline) : Pipeline :=
  s <| run_nop := c <| cmd := CMD_NOP |> <| size := 0 |> |>
    <| run_stall := latency_of (compute_latency ctx) (insn_class c) |>
    <| run_remaining := if size c =? 0 then 1 else size c |>.

(** [refill]: at most one pass per command available. *)
Fixpoint refill_loop (fuel : nat) (s : Pipeline) : Pipeline :=
  match fuel with
  | O => s
  | S fuel =>
      if queue_room s && (run_remaining s =? 0) then
        match backend s with
        | [] => s
        | c :: rest =>
            let s := s <| backend := rest |> in
            if bool_decide (cmd c = CMD_COMPUTE_RUN) then refill_loop fuel (drainRun (start_run c s))
            else
              let s := s <| coreQ ::= fun q => q ++ [mkEvent c (stall_of c)] |> in
              if bool_decide (cmd c = CMD_EXIT) then s else refill_loop fuel s
        end
      else s
  end.
Definition refill (s : Pipeline) : Pipeline :=
  let s := drainRun s in refill_loop (length (backend s)) s.

(** ** Filter *)

Definition filter_handle (c : QuetzCommand) (s : Pipeline) : bool * Action * Pipeline :=
  if negb (has_region_table ctx) then (false, FORWARD, s)
  else
    let '(a, st, t) := handleMemoryAccess (filter_unmatched_regions ctx) c (stats (emitter s)) (table s) in
    (bool_decide (a = CONSUME), a, s <| table := t |> <| emitter ::= fun e => e <| stats := st |> |>).

(** ** Transform *)

Definition class_stat (cls : Z) : option Stat :=
  if cls =? QUETZ_INSN_INT_COMPUTE then Some int_compute
  else if cls =? QUETZ_INSN_FP_COMPUTE then Some fp_compute
  else if cls =? QUETZ_INSN_VEC_COMPUTE then Some vec_compute
  else if cls =? QUETZ_INSN_BRANCH then Some branch
  else None.

(** The event's new stall, what to do with it and the operation it becomes. *)
Definition process (ev : PipelineEvent) (a : Action) (s : Pipeline) : Result * Z * option MemOp * Pipeline :=
  let c := ev_cmd ev in
  let stall := remaining_stall ev in
  if bool_decide (cmd c = CMD_EXIT) then (HALT_EXIT, stall, None, s)
  else if bool_decide (a = END_SIM) then (HALT_EXIT, stall, None, s)
  else if 0 <? stall then
    (STALL, stall - 1, None, record (if bool_decide (cmd c = CMD_NOP) then compute_stall_cycles else stall_cycles) s)
  else if bool_decide (cmd c = CMD_NOP) then
    let s := record insn_count (record noop_count s) in
    (CONSUMED_NOOP, stall, None,
     if detailed_tracking ctx then
       match class_stat (insn_class c) with Some st => record st s | None => s end
     else s)
  else
    (EMIT_MEMOP, stall,
     Some (mkMemOp (bool_decide (cmd c = CMD_READ)) (bool_decide (a = FORWARD_MMIO)) (addr c) (size c) (data c)), s).

(** ** Output *)

Definition path_of (op : MemOp) : IssuePath := if op_is_mmio op then MMIO else CACHED.

(** [issueAvailable]: how many requests went out, and whether the access is complete. *)
Definition issueAvailable (op : MemOp) (budget : Z) (s : Pipeline) : result (Z * bool * Pipeline) :=
  '(issued, o, e) ←
    issueWindow (cache_line_size ctx) (mem_linked ctx) (mmio_linked ctx)
      (op_is_read op) (op_addr op) (op_size op) (op_data op) (path_of op) (offset s) budget (emitter s);
  let complete := o =? op_size op in
  Ok (issued, complete, s <| offset := if complete then 0 else o |> <| emitter := e |>).

(** ** The cycle *)

Definition pop (s : Pipeline) : Pipeline := s <| coreQ ::= @tail PipelineEvent |>.
Definition count_inst (s : Pipeline) : Pipeline := s <| inst_count ::= fun n => u64 (n + 1) |>.

Definition checkMaxInsts (s : Pipeline) : bool * Pipeline :=
  if (0 <? max_insts ctx) && (max_insts ctx <=? inst_count s) then (true, s <| halted := true |>) else (false, s).

(** [issueMemOp]: whether the head was retired, and the requests issued so far. *)
Definition issueMemOp (op : MemOp) (issued : Z) (s : Pipeline) : result (bool * Z * Pipeline) :=
  let pending := pending_count (emitter s) in
  let budget := Z.min (if issued <? max_issue_per_cycle ctx then max_issue_per_cycle ctx - issued else 0)
                      (if pending <? max_pending ctx then max_pending ctx - pending else 0) in
  if budget =? 0 then Ok (false, issued, s)
  else
    '(count, complete, s) ← issueAvailable op budget s;
    throw_if (budget <? count) Fatal "Pipeline output exceeded its issue budget." ≫= fun _ =>
    throw_if (negb complete && (count =? 0) && (issued =? 0) && (pending =? 0)) Fatal
      "Pipeline output cannot split an access to fit maxissuepercycle/maxtranscore." ≫= fun _ =>
    let issued := u32 (issued + count) in
    if negb complete then Ok (false, issued, s)
    else
      let s := s <| pending_op := None |> in
      Ok (true, issued, snd (checkMaxInsts (count_inst (record insn_count (pop s))))).

(** The loop over the queue.  [inl]: the cycle ended at [done]; [inr]: it
    returned before.  Two passes per event are enough. *)
Fixpoint cycle_loop (fuel : nat) (issued : Z) (s : Pipeline) : result ((Z * Pipeline) + Pipeline) :=
  match fuel with
  | O => Throw OutOfFuel "tick"
  | S fuel =>
      match coreQ s with
      | [] => Ok (inl (issued, s))
      | ev :: _ =>
          match pending_op s with
          | Some op =>
              '(retired, issued, s) ← issueMemOp op issued s;
              if negb retired then Ok (inl (issued, s))
              else if halted s then Ok (inl (issued, s))
              else cycle_loop fuel issued s
          | None =>
              let mem := bool_decide (cmd (ev_cmd ev) = CMD_READ) || bool_decide (cmd (ev_cmd ev) = CMD_WRITE) in
              let '(consumed, a, s) := if mem then filter_handle (ev_cmd ev) s else (false, FORWARD, s) in
              if consumed then
                let (stop, s) := checkMaxInsts (count_inst (pop (record insn_count s))) in
                if stop then Ok (inr s) else cycle_loop fuel issued s
              else
                let '(r, stall, op, s) := process ev a s in
                match r with
                | HALT_EXIT =>
                    Ok (inr (pop (s <| guest_exit := bool_decide (cmd (ev_cmd ev) = CMD_EXIT) |> <| halted := true |>)))
                | STALL => Ok (inl (issued, s <| coreQ ::= fun q => mkEvent (ev_cmd ev) stall :: tail q |>))
                | CONSUMED_NOOP =>
                    let (stop, s) := checkMaxInsts (count_inst (pop s)) in
                    if stop then Ok (inr s) else cycle_loop fuel issued s
                | EMIT_MEMOP => cycle_loop fuel issued (s <| pending_op := op |>)
                end
          end
      end
  end.

Definition tick (s : Pipeline) : result Pipeline :=
  if halted s then Ok s
  else
    let s := refill s in
    let s := s <| refill_hit_cap := (0 <? max_queue_len ctx) && (max_queue_len ctx <=? Z.of_nat (length (coreQ s))) |> in
    r ← cycle_loop (2 * length (coreQ s) + 1) 0 s;
    Ok match r with
       | inl (issued, s) => record cycles (if 0 <? issued then record active_cycles s else s)
       | inr s => s
       end.

Definition isDrained (s : Pipeline) : bool :=
  (pending_count (emitter s) =? 0) &&
  (halted s || (bool_decide (coreQ s = []) && negb (refill_hit_cap s))).

(** ** What drives the pipeline *)

Inductive Input : Type :=
  | Tick
  | Command (c : QuetzCommand)       (* the guest's next command *)
  | Response (id : Z)
  | Time (t : Z).

Definition step (i : Input) (s : Pipeline) : result Pipeline :=
  match i with
  | Tick => tick s
  | Command c => Ok (s <| backend ::= fun l => l ++ [c] |>)
  | Response id => Ok (s <| emitter ::= fun e => snd (handleResponse id e) |>)
  | Time t => Ok (s <| emitter ::= fun e => e <| now := t |> |>)
  end.
Fixpoint run (ins : list Input) (s : Pipeline) : result Pipeline :=
  match ins with [] => Ok s | i :: ins => step i s ≫= fun s => run ins s end.
End Pipeline.
