(* ===== verification/PipelineThm.v ===== *)
(** * The pipeline keeps program order

    What the pipeline of [Pipeline] sends, against a reference that maps each
    command to its requests with no queue, stalls or limits: the requests on
    the links are always a prefix of the reference's, and the limits on the
    queue, the bandwidth and the outstanding requests hold in every state. *)
From S2P Require Import Prelude.
From S2P Require Import MemSpan.
From S2P Require Import Command.
From S2P Require Import Regions.
From S2P Require Import MemIssue.
From S2P Require Import Pipeline.

(** ** The reference *)

(** A run of non-memory instructions is that many [NOP]s. *)
Definition expand (c : QuetzCommand) : list QuetzCommand :=
  if bool_decide (cmd c = CMD_COMPUTE_RUN) then
    replicate (Z.to_nat (if size c =? 0 then 1 else size c)) (c <| cmd := CMD_NOP |> <| size := 0 |>)
  else [c].

Section Order.
Variables (ctx : QuetzCoreContext) (t0 : list MemRegionHandler).

Definition op_of (c : QuetzCommand) (a : Action) : MemOp :=
  mkMemOp (bool_decide (cmd c = CMD_READ)) (bool_decide (a = FORWARD_MMIO)) (addr c) (size c) (data c).

Definition policy (c : QuetzCommand) : Action :=
  if has_region_table ctx then action_of (filter_unmatched_regions ctx) t0 c else FORWARD.

(** The requests of an operation from byte [o] on, and of a command. *)
Definition rest_of (op : MemOp) (o : Z) : list Req :=
  requests_from (cache_line_size ctx) (path_of op) (op_is_read op) (op_addr op) (op_size op) (op_data op) o.
Definition effects (c : QuetzCommand) : list Req :=
  match cmd c with
  | CMD_EXIT | CMD_NOP => []
  | _ => match policy c with
         | CONSUME | END_SIM => []
         | a => rest_of (op_of c a) 0
         end
  end.

(** ** Assumptions *)

Record ctx_ok : Prop :=
  { ok_queue : 0 < max_queue_len ctx; ok_issue : 0 < max_issue_per_cycle ctx < 2 ^ 32;
    ok_pending : 0 < max_pending ctx < 2 ^ 32; ok_line : 0 < cache_line_size ctx;
    ok_mem : mem_linked ctx = true; ok_mmio : mmio_linked ctx = true }.

(** A command of a guest whose accesses do not wrap the address space. *)
Definition valid (c : QuetzCommand) : Prop := command_ok c /\ addr c + size c <= 2 ^ 64.

Context (Hctx : ctx_ok).

(** ** The invariant *)

Definition op_ok (op : MemOp) (o : Z) : Prop :=
  span_ok (op_is_read op) (op_addr op) (op_size op) /\ length (op_data op) = 64%nat /\ 0 <= o /\
  (o = 0 \/ (o < op_size op /\ path_of op = CACHED /\ o < issue_size (op_is_read op) (op_size op))).

(** What has been sent of the access at the head. *)
Definition head_ok (partial : list Req) (s : Pipeline) : Prop :=
  match pending_op s with
  | None => partial = [] /\ offset s = 0
  | Some op =>
      (exists ev q, coreQ s = ev :: q /\ effects (ev_cmd ev) = partial ++ rest_of op (offset s)) /\
      op_ok op (offset s)
  end.

Definition progress (input : list QuetzCommand) (s : Pipeline) : Prop :=
  exists consumed done partial,
    input = consumed ++ backend s /\
    flat_map expand consumed =
      done ++ (ev_cmd <$> coreQ s) ++ replicate (Z.to_nat (run_remaining s)) (run_nop s) /\
    snd <$> sent (emitter s) = flat_map effects done ++ partial /\
    head_ok partial s.

Record inv (input : list QuetzCommand) (s : Pipeline) : Prop :=
  { iv_progress : progress input s;
    iv_table : forall c, action_of (filter_unmatched_regions ctx) (table s) c =
                         action_of (filter_unmatched_regions ctx) t0 c;
    iv_em : em_ok (emitter s);
    iv_pending : pending_count (emitter s) <= max_pending ctx;
    iv_queue : Z.of_nat (length (coreQ s)) <= max_queue_len ctx;
    iv_run : is_u32 (run_remaining s) }.

(** The part of the state the limits and the policy are about. *)
Definition same_side (s s' : Pipeline) : Prop :=
  table s' = table s /\ emitter s' = emitter s /\ offset s' = offset s /\ pending_op s' = pending_op s.

Lemma inv_intro input s s' : inv input s -> same_side s s' -> progress input s' ->
  Z.of_nat (length (coreQ s')) <= max_queue_len ctx -> is_u32 (run_remaining s') -> inv input s'.
Proof. intros [H1 H2 H3 H4 H5 H6] (E1 & E2 & E3 & E4) Hp Hq Hr. split; rewrite ?E1, ?E2; auto. Qed.

Lemma head_ok_app partial s s' l : head_ok partial s -> coreQ s' = coreQ s ++ l -> offset s' = offset s ->
  pending_op s' = pending_op s -> head_ok partial s'.
Proof.
  unfold head_ok. intros H E1 E2 E3. rewrite E3, E2. destruct (pending_op s) as [op|]; [| exact H].
  destruct H as [(ev & q & Eq & Hr) Ho]. split; [| exact Ho]. exists ev, (q ++ l). rewrite E1, Eq. auto.
Qed.

(** ** Input *)

Lemma drain_run_inv input n : forall s, inv input s -> inv input (drain_run ctx n s).
Proof.
  induction n as [|n IH]; intros s I; [exact I |]. cbn [drain_run].
  destruct (Z.ltb_spec 0 (run_remaining s)) as [Hr|]; [| exact I]. cbn [andb].
  destruct (queue_room ctx s) eqn:Eq; [| exact I]. apply Z.ltb_lt in Eq. apply IH.
  pose proof (iv_run _ _ I) as Hu. destruct (iv_progress _ _ I) as (con & dn & par & H1 & H2 & H3 & H4).
  apply (inv_intro input s); cbn; auto.
  - repeat split.
  - exists con, dn, par. cbn. rewrite wrap_small by word. split; [exact H1 | split; [| split; [exact H3 |]]].
    + rewrite H2, fmap_app, <- app_assoc. cbn. do 2 f_equal.
      replace (Z.to_nat (run_remaining s)) with (S (Z.to_nat (run_remaining s - 1))) by lia. reflexivity.
    + eapply head_ok_app; [exact H4 | reflexivity ..].
  - rewrite length_app. cbn. lia.
  - auto with quetz zarith.
Qed.

Lemma refill_loop_inv input n : Forall valid input -> forall s, inv input s -> inv input (refill_loop ctx n s).
Proof.
  intros Hv. induction n as [|n IH]; intros s I; [exact I |]. cbn [refill_loop].
  destruct (queue_room ctx s) eqn:Eq; [| exact I]. apply Z.ltb_lt in Eq. cbn [andb].
  destruct (Z.eqb_spec (run_remaining s) 0) as [Er|]; [| exact I].
  destruct (backend s) as [|c rest] eqn:Eb; [exact I |]. cbv zeta.
  destruct (iv_progress _ _ I) as (con & dn & par & H1 & H2 & H3 & H4). rewrite Er, app_nil_r in H2.
  rewrite Eb in H1. assert (H1' : input = (con ++ [c]) ++ rest) by (rewrite <- app_assoc; exact H1).
  assert (Hc : valid c) by (rewrite Forall_forall in Hv; apply Hv; rewrite H1; apply elem_of_app; right; left).
  destruct (bool_decide (cmd c = CMD_COMPUTE_RUN)) eqn:Ec.
  - apply IH. unfold drainRun. apply drain_run_inv. apply (inv_intro input s); [exact I | repeat split | | exact (iv_queue _ _ I) |].
    + exists (con ++ [c]), dn, par. cbn. split; [exact H1' | split; [| split; [exact H3 |]]].
      * rewrite flat_map_app, H2. cbn. unfold expand at 1. rewrite Ec, app_nil_r, <- app_assoc. reflexivity.
      * eapply (head_ok_app par s _ []); [exact H4 | symmetry; apply app_nil_r | reflexivity ..].
    + cbn. destruct Hc as [[Hs _ _ _ _ _] _]. destruct (size c =? 0); [word | exact Hs].
  - assert (I' : inv input (s <| backend := rest |> <| coreQ ::= fun q => q ++ [mkEvent c (stall_of ctx c)] |>)).
    { apply (inv_intro input s); [exact I | repeat split | | | exact (iv_run _ _ I)].
      - exists (con ++ [c]), dn, par. cbn. split; [exact H1' | split; [| split; [exact H3 |]]].
        + rewrite flat_map_app, H2, Er, fmap_app. cbn. unfold expand. rewrite Ec, !app_nil_r, <- app_assoc. reflexivity.
        + eapply head_ok_app; [exact H4 | reflexivity ..].
      - cbn. rewrite length_app. cbn. lia. }
    destruct (bool_decide (cmd c = CMD_EXIT)); [exact I' | apply IH; exact I'].
Qed.

Lemma refill_inv input s : Forall valid input -> inv input s -> inv input (refill ctx s).
Proof. intros Hv I. unfold refill. apply refill_loop_inv; [exact Hv |]. apply drain_run_inv. exact I. Qed.

(** ** Steps that leave the requests alone *)

Lemma em_ok_eq e e' : em_ok e -> pending_txns e' = pending_txns e -> pending_count e' = pending_count e ->
  next_id e' = next_id e -> em_ok e'.
Proof. intros [H1 H2 H3] E1 E2 E3. split; rewrite ?E1, ?E2, ?E3; auto. Qed.

(** [s'] differs from [s] in statistics, flags and handler state only. *)
Record calm (s s' : Pipeline) : Prop :=
  { cm_backend : backend s' = backend s;
    cm_run : run_nop s' = run_nop s /\ run_remaining s' = run_remaining s;
    cm_queue : ev_cmd <$> coreQ s' = ev_cmd <$> coreQ s;
    cm_op : pending_op s' = pending_op s /\ offset s' = offset s;
    cm_sent : sent (emitter s') = sent (emitter s);
    cm_books : pending_txns (emitter s') = pending_txns (emitter s) /\
               pending_count (emitter s') = pending_count (emitter s) /\
               next_id (emitter s') = next_id (emitter s);
    cm_policy : forall c, action_of (filter_unmatched_regions ctx) (table s') c =
                          action_of (filter_unmatched_regions ctx) (table s) c }.

Lemma calm_refl s : calm s s.
Proof. split; auto. Qed.

Lemma calm_trans s s1 s2 : calm s s1 -> calm s1 s2 -> calm s s2.
Proof.
  intros [A1 [A2 A2'] A3 [A4 A4'] A5 (A6 & A6' & A6'') A7] [B1 [B2 B2'] B3 [B4 B4'] B5 (B6 & B6' & B6'') B7].
  split; try congruence; try (split; congruence).
  split; [congruence | split; congruence].
Qed.

Lemma calm_record st s : calm s (record st s).
Proof. split; auto. Qed.

Lemma inv_calm input s s' : inv input s -> calm s s' -> inv input s'.
Proof.
  intros [H1 H2 H3 H4 H5 H6] [C1 [C2 C2'] C3 [C4 C4'] C5 (C6 & C6' & C6'') C7].
  assert (Hlen : length (coreQ s') = length (coreQ s))
    by (apply (f_equal length) in C3; rewrite !length_fmap in C3; exact C3).
  split; rewrite ?C6', ?C2', ?Hlen; auto.
  - destruct H1 as (con & dn & par & P1 & P2 & P3 & P4). exists con, dn, par. rewrite C1, C2, C2', C3, C5.
    split; [exact P1 | split; [exact P2 | split; [exact P3 |]]]. unfold head_ok in *. rewrite C4, C4'.
    destruct (pending_op s) as [op|]; [| exact P4]. destruct P4 as [(ev & q & Eq & Hr) Ho]. split; [| exact Ho].
    rewrite Eq in C3. destruct (coreQ s') as [|ev' q']; [discriminate |]. cbn in C3. exists ev', q'.
    split; [reflexivity |]. injection C3 as -> _. exact Hr.
  - intros c. rewrite C7. apply H2.
  - eapply em_ok_eq; eassumption.
Qed.

(** ** Retiring the head *)

Definition retire (s : Pipeline) : Pipeline := count_inst (pop s).

(** The state behind the progress of [inv], with the requests of the head all sent. *)
Definition head_done (input : list QuetzCommand) (s : Pipeline) : Prop :=
  exists con dn ev q, input = con ++ backend s /\ coreQ s = ev :: q /\
    flat_map expand con = dn ++ (ev_cmd <$> coreQ s) ++ replicate (Z.to_nat (run_remaining s)) (run_nop s) /\
    snd <$> sent (emitter s) = flat_map effects dn ++ effects (ev_cmd ev).

Lemma retire_inv input s : head_done input s -> pending_op s = None -> offset s = 0 ->
  (forall c, action_of (filter_unmatched_regions ctx) (table s) c = action_of (filter_unmatched_regions ctx) t0 c) ->
  em_ok (emitter s) -> pending_count (emitter s) <= max_pending ctx ->
  Z.of_nat (length (coreQ s)) <= max_queue_len ctx -> is_u32 (run_remaining s) -> inv input (retire s).
Proof.
  intros (con & dn & ev & q & P1 & Eq & P2 & P3) Hop Ho H2 H3 H4 H5 H6.
  split; cbn; auto.
  - exists con, (dn ++ [ev_cmd ev]), []. cbn. rewrite Eq in P2 |- *. cbn in P2 |- *.
    split; [exact P1 | split; [rewrite P2, <- app_assoc; reflexivity | split]].
    + rewrite P3, flat_map_app. cbn. rewrite !app_nil_r. reflexivity.
    + unfold head_ok. cbn. rewrite Hop. auto.
  - rewrite Eq in *. cbn in *. lia.
Qed.

(** A head with no requests. *)
Lemma retire_quiet input s ev q : inv input s -> coreQ s = ev :: q -> pending_op s = None ->
  effects (ev_cmd ev) = [] -> inv input (retire s).
Proof.
  intros [H1 H2 H3 H4 H5 H6] Eq Hop He. destruct H1 as (con & dn & par & P1 & P2 & P3 & P4).
  unfold head_ok in P4. rewrite Hop in P4. destruct P4 as [-> Ho].
  apply retire_inv; auto. exists con, dn, ev, q. rewrite He. auto.
Qed.

Lemma checkMaxInsts_calm s : calm s (snd (checkMaxInsts ctx s)).
Proof. unfold checkMaxInsts. destruct (_ && _); [split; auto | apply calm_refl]. Qed.

(** ** Issuing *)

Definition sent_count (s : Pipeline) : Z := Z.of_nat (length (sent (emitter s))).

Lemma op_rest_done op : op_ok op 0 -> rest_of op 0 = [] -> op_size op = 0.
Proof.
  intros (Hsp & _) E. pose proof Hsp as ([Ha _] & [Hs _] & _). destruct (Z.eq_dec (op_size op) 0); [assumption |].
  exfalso. destruct Hctx. eapply requests_done; [eassumption | | exact Ha | exact E]. lia.
Qed.

(** A window for the access at the head. *)
Lemma issue_ok op o budget e : op_ok op o -> 0 < budget < 2 ^ 32 ->
  exists parts o' e', issueWindow (cache_line_size ctx) (mem_linked ctx) (mmio_linked ctx)
      (op_is_read op) (op_addr op) (op_size op) (op_data op) (path_of op) o budget e = Ok (parts, o', e') /\
    emitted e e' (take (Z.to_nat budget) (rest_of op o)) /\
    parts = Z.of_nat (length (take (Z.to_nat budget) (rest_of op o))) /\
    if o' =? op_size op then take (Z.to_nat budget) (rest_of op o) = rest_of op o
    else rest_of op o' = drop (Z.to_nat budget) (rest_of op o) /\ op_ok op o' /\ (0 < parts).
Proof.
  intros Hop Hb. pose proof Hop as (Hsp & Hd & Ho & Hcase). pose proof Hsp as (Ha & Hs & Hspan). destruct Hctx.
  destruct (Z.eq_dec (op_size op) 0) as [E0|N0].
  - assert (o = 0) as -> by lia. exists 0, 0, e.
    assert (Hr : rest_of op 0 = []).
    { unfold rest_of, requests_from. rewrite E0. destruct (path_of op); [| reflexivity].
      unfold issue_size, kDataCap, QUETZ_CMD_DATA_BYTES. destruct (op_is_read op); reflexivity. }
    rewrite Hr, take_nil, E0. cbn [Z.eqb length]. split; [| split; [apply emitted_nil; reflexivity | auto]].
    unfold issueWindow, issueReadWindow, issueWriteWindow. destruct (op_is_read op); reflexivity.
  - assert (Hmmio : path_of op = MMIO -> o = 0) by (intros Hm; destruct Hcase as [|(_ & Hc & _)]; congruence).
    assert (Hlt : path_of op = CACHED -> o < issue_size (op_is_read op) (op_size op)).
    { intros _. destruct Hcase as [->|(_ & _ & Hc)]; [| exact Hc].
      unfold issue_size, kDataCap, QUETZ_CMD_DATA_BYTES. destruct (op_is_read op); word. }
    assert (Hlink : linkFor (mem_linked ctx) (mmio_linked ctx) (path_of op) = true)
      by (destruct (path_of op); assumption).
    destruct (window_ok (cache_line_size ctx) (mem_linked ctx) (mmio_linked ctx) ok_line0 (op_is_read op) (op_addr op)
      (op_size op) (op_data op) (path_of op) o budget e) as (parts & o' & e' & E & [W1 W2 W3 W4 W5] & Hp); auto; try word.
    exists parts, o', e'. split; [exact E | split; [exact W2 | split; [exact W1 |]]].
    destruct (Z.eqb_spec o' (op_size op)) as [Eo|No].
    + apply take_ge. apply W4. exact Eo.
    + destruct (Hp No) as [H1 H2]. split; [apply W5; exact No | split].
      * split; [exact Hsp | split; [exact Hd | split; [lia | right; split; [lia | auto]]]].
      * rewrite W1. destruct (Z.to_nat budget) as [|b] eqn:Eb; [lia |].
        destruct (requests_from _ _ _ _ _ _ _) as [|r rs] eqn:Er; [| cbn; lia].
        exfalso. apply No, W4. cbn. lia.
Qed.

(** What a step of the loop may do: keep the invariant, and send as many
    requests as it accounts for. *)
Record paid (input : list QuetzCommand) (s : Pipeline) (issued : Z) (s' : Pipeline) (issued' : Z) : Prop :=
  { pd_inv : inv input s';
    pd_issued : 0 <= issued <= issued' /\ issued' <= max_issue_per_cycle ctx;
    pd_sent : sent_count s' = sent_count s + (issued' - issued) }.

Lemma emitted_count e e' rs : emitted e e' rs -> length (sent e') = (length (sent e) + length rs)%nat.
Proof. intros [H _ _]. apply (f_equal length) in H. rewrite length_app, !length_fmap in H. exact H. Qed.

Lemma issueMemOp_ok input s op issued : inv input s -> pending_op s = Some op ->
  0 <= issued <= max_issue_per_cycle ctx ->
  exists retired issued' s', issueMemOp ctx op issued s = Ok (retired, issued', s') /\
    paid input s issued s' issued' /\
    (retired = true -> pending_op s' = None /\ (length (coreQ s) = S (length (coreQ s')))%nat).
Proof.
  intros I Hop Hi. pose proof I as [H1 H2 H3 H4 H5 H6]. pose proof (em_small _ H3) as Hpc. pose proof Hctx as [K1 K2 K3 K4 K5 K6].
  destruct H1 as (con & dn & par & P1 & P2 & P3 & P4). unfold head_ok in P4. rewrite Hop in P4.
  destruct P4 as [(ev & q & Eq & Hr) Hopk]. unfold issueMemOp. cbv zeta.
  set (budget := Z.min _ _). destruct (Z.eqb_spec budget 0) as [Eb|Nb].
  { exists false, issued, s. split; [reflexivity | split; [split; [exact I | lia | lia] | discriminate]]. }
  assert (Hb : 0 < budget /\ budget <= max_issue_per_cycle ctx - issued /\ budget <= max_pending ctx - pending_count (emitter s)).
  { unfold budget in *. destruct (Z.ltb_spec issued (max_issue_per_cycle ctx)), (Z.ltb_spec (pending_count (emitter s)) (max_pending ctx)); lia. }
  destruct (issue_ok op (offset s) budget (emitter s) Hopk) as (parts & o' & e' & E & Hem & Hparts & Hcase); [lia |].
  unfold issueAvailable. rewrite E. cbn [mbind result_bind].
  pose proof (emitted_count _ _ _ Hem) as Hcnt. destruct Hem as [Hsent Hbooks _].
  assert (Hpb : 0 <= parts <= budget) by (rewrite Hparts, length_take; lia).
  destruct (Hbooks H3) as [Hem' Hpc']; [rewrite <- Hparts; lia |]. rewrite <- Hparts in Hpc'.
  rewrite (proj2 (Z.ltb_ge budget parts)) by lia. cbn [throw_if mbind result_bind].
  rewrite (wrap_small 32 (issued + parts)) by word.
  destruct (Z.eqb_spec o' (op_size op)) as [Eo|No]; cbn [negb andb throw_if mbind result_bind].
  - set (s1 := s <| offset := 0 |> <| emitter := e' |> <| pending_op := None |>).
    eexists true, _, _. split; [reflexivity |].
    assert (I' : inv input (retire s1)).
    { apply retire_inv; auto; cbn; try lia.
      exists con, dn, ev, q. cbn. rewrite Hsent, P3, Hcase, Hr, <- app_assoc. auto. }
    pose proof (checkMaxInsts_calm (record insn_count (retire s1))) as Hc.
    assert (Hc' : calm (retire s1) (snd (checkMaxInsts ctx (count_inst (record insn_count (pop s1)))))).
    { eapply calm_trans; [apply (calm_record insn_count) | exact Hc]. }
    split; [split; [eapply inv_calm; [exact I' | exact Hc'] | lia |] |].
    + unfold sent_count. rewrite (cm_sent _ _ Hc'). cbn. rewrite Hcnt. lia.
    + intros _. destruct (cm_op _ _ Hc') as [Hop' _]. rewrite Hop'. split; [reflexivity |].
      apply (f_equal length) in Eq as El. pose proof (f_equal length (cm_queue _ _ Hc')) as Hq. rewrite !length_fmap in Hq.
      rewrite Hq. cbn. rewrite Eq. reflexivity.
  - destruct Hcase as (Hrest & Hopk' & Hpos).
    rewrite (proj2 (Z.eqb_neq parts 0)) by lia. cbn [andb throw_if mbind result_bind].
    eexists false, _, _. split; [reflexivity |]. split; [| discriminate]. split; [| lia |].
    + split; cbn; auto; try lia. exists con, dn, (par ++ take (Z.to_nat budget) (rest_of op (offset s))). cbn.
      split; [exact P1 | split; [exact P2 | split]].
      * rewrite Hsent, P3, <- app_assoc. reflexivity.
      * unfold head_ok. cbn. rewrite Hop. split; [| exact Hopk'].
        exists ev, q. split; [exact Eq |]. rewrite Hr, Hrest, <- app_assoc, take_drop. reflexivity.
    + unfold sent_count. cbn. rewrite Hcnt. lia.
Qed.

(** ** The head of the queue *)

Lemma filter_calm c s : calm s (snd (filter_handle ctx c s)).
Proof.
  unfold filter_handle. destruct (has_region_table ctx); cbn [negb]; [| apply calm_refl].
  pose proof (handle_spec (filter_unmatched_regions ctx) c (stats (emitter s)) (table s)) as H.
  destruct (handleMemoryAccess _ _ _ _) as [[a st] t]. destruct H as (_ & _ & Hc).
  split; auto. cbn. intros c'. apply Hc.
Qed.

Lemma filter_action input c s : inv input s -> is_mem c = true ->
  let '(consumed, a, _) := filter_handle ctx c s in a = policy c /\ consumed = bool_decide (a = CONSUME).
Proof.
  intros I Hm. unfold filter_handle, policy. destruct (has_region_table ctx); cbn [negb]; [| auto].
  pose proof (handle_spec (filter_unmatched_regions ctx) c (stats (emitter s)) (table s)) as H.
  destruct (handleMemoryAccess _ _ _ _) as [[a st] t]. destruct H as (-> & _). rewrite (iv_table _ _ I). auto.
Qed.

Lemma policy_not_mem c : is_mem c = false -> policy c = FORWARD.
Proof. unfold policy, action_of. intros ->. destruct (has_region_table ctx); reflexivity. Qed.

Lemma head_valid input s ev q : Forall valid input -> inv input s -> coreQ s = ev :: q ->
  valid (ev_cmd ev) \/ cmd (ev_cmd ev) = CMD_NOP.
Proof.
  intros Hv I Eq. destruct (iv_progress _ _ I) as (con & dn & par & P1 & P2 & _).
  assert (Hin : ev_cmd ev ∈ flat_map expand con) by (rewrite P2, Eq; apply elem_of_app; right; left).
  apply list_elem_of_In, in_flat_map in Hin as (c & Hc & He). unfold expand in He.
  destruct (bool_decide (cmd c = CMD_COMPUTE_RUN)).
  - right. apply repeat_spec in He || apply list_elem_of_In, elem_of_replicate in He as [He _]. rewrite He. reflexivity.
  - left. destruct He as [<-|[]]. rewrite Forall_forall in Hv. apply Hv. rewrite P1. apply elem_of_app. left.
    apply list_elem_of_In. exact Hc.
Qed.

(** The operation the transform makes of the head has the requests of the reference. *)
Lemma op_of_ok c a : valid c -> op_ok (op_of c a) 0.
Proof.
  intros [[Hs _ Ha _ _ Hd] Hspan]. split; [| split; [exact Hd | split; [lia | left; reflexivity]]].
  split; [exact Ha | split; [exact Hs |]]. cbn. unfold issue_size, kDataCap, QUETZ_CMD_DATA_BYTES.
  destruct (bool_decide _); lia.
Qed.

(** ** The loop *)

Definition head_cost (s : Pipeline) : nat :=
  (2 * length (coreQ s) - match pending_op s with Some _ => 1 | None => 0 end)%nat.

Definition end_state (r : (Z * Pipeline) + Pipeline) : Pipeline := match r with inl (_, s) => s | inr s => s end.

(** The end of a cycle: the invariant holds and no more was sent than the
    bandwidth of the cycle leaves. *)
Definition cycle_ok (input : list QuetzCommand) (s : Pipeline) (issued : Z) (s' : Pipeline) : Prop :=
  inv input s' /\ sent_count s <= sent_count s' <= sent_count s + (max_issue_per_cycle ctx - issued).

Lemma cycle_ok_here input s issued s' : 0 <= issued <= max_issue_per_cycle ctx -> inv input s' ->
  sent_count s' = sent_count s -> cycle_ok input s issued s'.
Proof. intros Hi I E. split; [exact I | lia]. Qed.

Lemma cycle_ok_step input s issued s1 issued1 s' : paid input s issued s1 issued1 ->
  cycle_ok input s1 issued1 s' -> cycle_ok input s issued s'.
Proof. intros [_ ? ?] [I ?]. split; [exact I | lia]. Qed.

(** A head without requests is retired: consumed, or a [NOP]. *)
Lemma retire_head input s s1 ev q : inv input s -> coreQ s = ev :: q -> pending_op s = None ->
  effects (ev_cmd ev) = [] -> calm s s1 ->
  inv input (count_inst (pop s1)) /\ sent_count (count_inst (pop s1)) = sent_count s /\
  pending_op (count_inst (pop s1)) = None /\ length (coreQ s) = S (length (coreQ (count_inst (pop s1)))).
Proof.
  intros I Eq Hop He Hc. pose proof (inv_calm _ _ _ I Hc) as I1. pose proof (cm_queue _ _ Hc) as Hq.
  rewrite Eq in Hq. destruct (coreQ s1) as [|ev1 q1] eqn:Eq1; [discriminate |]. cbn in Hq. injection Hq as Hev Hq.
  destruct (cm_op _ _ Hc) as [Hop1 _]. split; [| split; [| split]].
  - eapply (retire_quiet input s1 ev1 q1); auto; congruence.
  - unfold sent_count. cbn. rewrite (cm_sent _ _ Hc). reflexivity.
  - cbn. congruence.
  - cbn. rewrite Eq, Eq1. cbn. apply (f_equal length) in Hq. rewrite !length_fmap in Hq. lia.
Qed.

Lemma check_calm s : let (stop, s') := checkMaxInsts ctx s in calm s s'.
Proof. pose proof (checkMaxInsts_calm s) as H. destruct (checkMaxInsts ctx s). exact H. Qed.

Lemma calm_same input s s' : inv input s -> calm s s' -> inv input s' /\ sent_count s' = sent_count s /\
  pending_op s' = pending_op s /\ length (coreQ s') = length (coreQ s).
Proof.
  intros I Hc. split; [eapply inv_calm; eassumption |]. unfold sent_count. rewrite (cm_sent _ _ Hc).
  destruct (cm_op _ _ Hc) as [-> _]. pose proof (f_equal length (cm_queue _ _ Hc)) as Hq. rewrite !length_fmap in Hq. auto.
Qed.

Definition loop_goal (input : list QuetzCommand) (s : Pipeline) (issued : Z) (r : result ((Z * Pipeline) + Pipeline)) : Prop :=
  exists x, r = Ok x /\ cycle_ok input s issued (end_state x).

(** The rest of a pass that retires the head. *)
Lemma loop_retire input s s1 ev q issued fuel (stop : bool) s2 :
  (forall s issued, inv input s -> 0 <= issued <= max_issue_per_cycle ctx -> (head_cost s < fuel)%nat ->
     loop_goal input s issued (cycle_loop ctx fuel issued s)) ->
  inv input s -> coreQ s = ev :: q -> pending_op s = None -> effects (ev_cmd ev) = [] -> calm s s1 ->
  checkMaxInsts ctx (count_inst (pop s1)) = (stop, s2) ->
  0 <= issued <= max_issue_per_cycle ctx -> (head_cost s < S fuel)%nat ->
  loop_goal input s issued (if stop then Ok (inr s2) else cycle_loop ctx fuel issued s2).
Proof.
  intros IH I Eq Hop He Hc Es Hi Hf.
  destruct (retire_head input s s1 ev q I Eq Hop He Hc) as (I1 & N1 & O1 & L1).
  pose proof (check_calm (count_inst (pop s1))) as Hcc. rewrite Es in Hcc.
  destruct (calm_same _ _ _ I1 Hcc) as (I2 & N2 & O2 & L2).
  destruct stop; [exists (inr s2); split; [reflexivity |]; apply cycle_ok_here; [assumption | exact I2 | cbn; lia] |].
  assert (Hf2 : (head_cost s2 < fuel)%nat) by (unfold head_cost in *; rewrite Hop in Hf; rewrite O2, O1; lia).
  destruct (IH s2 issued I2 Hi Hf2) as (x & E & I3 & N3).
  exists x. split; [exact E |]. split; [exact I3 | lia].
Qed.

Lemma mem_not_compute c : is_mem c = true -> cmd c <> CMD_EXIT /\ cmd c <> CMD_NOP.
Proof. unfold is_mem. intros H. apply orb_true_iff in H. split; intros E; rewrite E in H; destruct H; discriminate. Qed.

Lemma effects_quiet c : cmd c <> CMD_EXIT /\ cmd c <> CMD_NOP -> policy c = CONSUME \/ policy c = END_SIM -> effects c = [].
Proof. intros _ H. unfold effects. destruct (cmd c); try reflexivity; destruct H as [-> | ->]; reflexivity. Qed.

Lemma effects_emit c : cmd c <> CMD_EXIT -> cmd c <> CMD_NOP -> policy c <> CONSUME -> policy c <> END_SIM ->
  effects c = rest_of (op_of c (policy c)) 0.
Proof. intros H1 H2 H3 H4. unfold effects. destruct (cmd c); try contradiction; destruct (policy c); congruence. Qed.

Lemma pop_inv input s s1 ev q : inv input s -> coreQ s = ev :: q -> pending_op s = None ->
  effects (ev_cmd ev) = [] -> calm s s1 -> inv input (pop s1) /\ sent_count (pop s1) = sent_count s.
Proof.
  intros I Eq Hop He Hc. destruct (retire_head input s s1 ev q I Eq Hop He Hc) as (I1 & N1 & _).
  split; [| exact N1]. apply (inv_calm _ _ _ I1). split; auto.
Qed.

(** The transform's verdict on a head that was not consumed. *)
Lemma loop_transform input s s1 ev q issued fuel a :
  (forall s issued, inv input s -> 0 <= issued <= max_issue_per_cycle ctx -> (head_cost s < fuel)%nat ->
     loop_goal input s issued (cycle_loop ctx fuel issued s)) ->
  Forall valid input -> inv input s -> coreQ s = ev :: q -> pending_op s = None -> calm s s1 ->
  a = policy (ev_cmd ev) -> false = is_mem (ev_cmd ev) && bool_decide (a = CONSUME) ->
  0 <= issued <= max_issue_per_cycle ctx -> (head_cost s < S fuel)%nat ->
  loop_goal input s issued
    (let '(r, stall, op, s) := process ctx ev a s1 in
     match r with
     | HALT_EXIT =>
         Ok (inr (pop (s <| guest_exit := bool_decide (cmd (ev_cmd ev) = CMD_EXIT) |> <| halted := true |>)))
     | STALL => Ok (inl (issued, s <| coreQ ::= fun q => mkEvent (ev_cmd ev) stall :: tail q |>))
     | CONSUMED_NOOP =>
         let (stop, s) := checkMaxInsts ctx (count_inst (pop s)) in
         if stop then Ok (inr s) else cycle_loop ctx fuel issued s
     | EMIT_MEMOP => cycle_loop ctx fuel issued (s <| pending_op := op |>)
     end).
Proof.
  intros IH Hv I Eq Eop Hc Ha Hcons Hi Hf. set (c := ev_cmd ev) in *. unfold process. fold c.
  assert (Hhalt : effects c = [] -> loop_goal input s issued
    (Ok (inr (pop (s1 <| guest_exit := bool_decide (cmd c = CMD_EXIT) |> <| halted := true |>))))).
  { intros He. eexists. split; [reflexivity |].
    destruct (pop_inv input s (s1 <| guest_exit := bool_decide (cmd c = CMD_EXIT) |> <| halted := true |>) ev q I Eq Eop He) as [I1 N1].
    - eapply calm_trans; [exact Hc | split; auto].
    - apply cycle_ok_here; assumption. }
  destruct (bool_decide_reflect (cmd c = CMD_EXIT)) as [Ee|Ne].
  { apply Hhalt. unfold effects. rewrite Ee. reflexivity. }
  destruct (bool_decide_reflect (a = END_SIM)) as [Es|Ns].
  { apply Hhalt. unfold effects. rewrite <- Ha, Es. destruct (cmd c); reflexivity. }
  destruct (Z.ltb_spec 0 (remaining_stall ev)) as [Hst|Hst].
  { eexists. split; [reflexivity |].
    destruct (calm_same input s (record (if bool_decide (cmd c = CMD_NOP) then compute_stall_cycles else stall_cycles) s1
      <| coreQ ::= fun q => mkEvent c (remaining_stall ev - 1) :: tail q |>) I) as (I1 & N1 & _);
      [| apply cycle_ok_here; assumption].
    destruct Hc as [C1 C2 C3 C4 C5 C6 C7]. split; auto. cbn. rewrite Eq in C3 |- *.
    destruct (coreQ s1) as [|ev1 q1]; [discriminate |]. cbn in *. injection C3 as _ ->. reflexivity. }
  destruct (bool_decide_reflect (cmd c = CMD_NOP)) as [En|Nn].
  { set (s2 := if detailed_tracking ctx then _ else _).
    assert (Hc2 : calm s s2).
    { assert (H0 : calm s (record insn_count (record noop_count s1)))
        by (eapply calm_trans; [exact Hc | split; auto]).
      unfold s2. destruct (detailed_tracking ctx); [| exact H0].
      destruct (class_stat _); [eapply calm_trans; [exact H0 | apply calm_record] | exact H0]. }
    assert (He : effects c = []) by (unfold effects; rewrite En; reflexivity).
    destruct (checkMaxInsts ctx (count_inst (pop s2))) as [stop s3] eqn:Ec.
    exact (loop_retire input s s2 ev q issued fuel stop s3 IH I Eq Eop He Hc2 Ec Hi Hf). }
  fold (op_of c a). destruct (calm_same input s s1 I Hc) as (I1 & N1 & O1 & L1).
  assert (Hconsume : policy c <> CONSUME).
  { rewrite <- Ha. intros E. rewrite E in Hcons. destruct (is_mem c) eqn:Em; [discriminate |].
    rewrite policy_not_mem in Ha by exact Em. congruence. }
  assert (Heff : effects c = rest_of (op_of c a) 0) by (rewrite Ha in *; apply effects_emit; auto).
  destruct (head_valid input s ev q Hv I Eq) as [Hval|]; [| contradiction].
  assert (I2 : inv input (s1 <| pending_op := Some (op_of c a) |>)).
  { pose proof I1 as [(con & dn & par & P1 & P2 & P3 & P4) T1 T2 T3 T4 T5]. split; auto.
    exists con, dn, par. split; [exact P1 | split; [exact P2 | split; [exact P3 |]]].
    unfold head_ok in *. rewrite O1, Eop in P4. destruct P4 as [-> Ho]. cbn. rewrite Ho.
    split; [| apply op_of_ok; exact Hval]. destruct Hc as [_ _ C3 _ _ _ _]. rewrite Eq in C3.
    destruct (coreQ s1) as [|ev1 q1]; [discriminate |]. cbn in C3. exists ev1, q1. split; [reflexivity |].
    injection C3 as -> _. exact Heff. }
  destruct (IH _ issued I2 Hi) as (x & E & I3 & N3).
  { unfold head_cost in *. cbn. rewrite Eop in Hf. rewrite L1, Eq in *. cbn in *. lia. }
  exists x. split; [exact E | split; [exact I3 |]]. unfold sent_count in *. cbn in N3. lia.
Qed.

Lemma cycle_loop_ok input fuel : Forall valid input -> forall s issued, inv input s ->
  0 <= issued <= max_issue_per_cycle ctx -> (head_cost s < fuel)%nat ->
  loop_goal input s issued (cycle_loop ctx fuel issued s).
Proof.
  intros Hv. induction fuel as [|fuel IH]; intros s issued I Hi Hf; [lia |]. cbn [cycle_loop].
  destruct (coreQ s) as [|ev q] eqn:Eq.
  { exists (inl (issued, s)). split; [reflexivity | apply cycle_ok_here; auto]. }
  destruct (pending_op s) as [op|] eqn:Eop.
  - destruct (issueMemOp_ok input s op issued I Eop Hi) as (ret & issued' & s' & E & Hp & Hret).
    rewrite E. cbn [mbind result_bind]. pose proof Hp as [I' Hi' Hs'].
    destruct ret; cbn [negb]; [destruct (halted s') |].
    + exists (inl (issued', s')). split; [reflexivity |]. eapply cycle_ok_step; [exact Hp |]. apply cycle_ok_here; auto; lia.
    + destruct (Hret eq_refl) as [Hop' Hl'].
      destruct (IH s' issued' I' ltac:(lia)) as (x & Ex & Hx).
      { unfold head_cost in *. rewrite Eop in Hf. rewrite Hop'. rewrite Eq in Hl', Hf. cbn in *. lia. }
      exists x. split; [exact Ex |]. eapply cycle_ok_step; eassumption.
    + exists (inl (issued', s')). split; [reflexivity |]. eapply cycle_ok_step; [exact Hp |]. apply cycle_ok_here; auto; lia.
  - set (c := ev_cmd ev) in *. fold (is_mem c). 
    assert (Hfilter : exists consumed a s1, (if is_mem c then filter_handle ctx c s else (false, FORWARD, s)) = (consumed, a, s1) /\
      calm s s1 /\ a = policy c /\ consumed = (is_mem c && bool_decide (a = CONSUME))).
    { destruct (is_mem c) eqn:Em.
      - pose proof (filter_calm c s) as Hc. pose proof (filter_action input c s I Em) as Ha.
        destruct (filter_handle ctx c s) as [[x a] s1]. exists x, a, s1. destruct Ha. auto.
      - exists false, FORWARD, s. split; [reflexivity | split; [apply calm_refl | split; [symmetry; apply policy_not_mem; exact Em | reflexivity]]]. }
    destruct Hfilter as (consumed & a & s1 & -> & Hc1 & Ha & Hcons).
    destruct consumed.
    + symmetry in Hcons. apply andb_true_iff in Hcons as [Hm HC]. apply bool_decide_eq_true in HC.
      assert (He : effects c = []) by (apply effects_quiet; [apply mem_not_compute; exact Hm | left; congruence]).
      assert (Hc2 : calm s (record insn_count s1)) by (eapply calm_trans; [exact Hc1 | apply calm_record]).
      destruct (checkMaxInsts ctx (count_inst (pop (record insn_count s1)))) as [stop s2] eqn:Es.
      exact (loop_retire input s _ ev q issued fuel stop s2 IH I Eq Eop He Hc2 Es Hi Hf).
    + apply (loop_transform input s s1 ev q issued fuel a); auto.
Qed.

(** ** A cycle, and a run *)

Lemma drain_run_emitter n : forall s, emitter (drain_run ctx n s) = emitter s.
Proof.
  induction n as [|n IH]; intros s; [reflexivity |]. cbn [drain_run].
  destruct (_ && _); [| reflexivity]. rewrite IH. reflexivity.
Qed.

Lemma refill_loop_emitter n : forall s, emitter (refill_loop ctx n s) = emitter s.
Proof.
  induction n as [|n IH]; intros s; [reflexivity |]. cbn [refill_loop].
  destruct (_ && _); [| reflexivity]. destruct (backend s); [reflexivity |]. cbv zeta.
  destruct (bool_decide (_ = CMD_COMPUTE_RUN)).
  - rewrite IH. unfold drainRun. rewrite drain_run_emitter. reflexivity.
  - destruct (bool_decide _); [reflexivity |]. rewrite IH. reflexivity.
Qed.

Lemma refill_emitter s : emitter (refill ctx s) = emitter s.
Proof. unfold refill, drainRun. rewrite refill_loop_emitter. apply drain_run_emitter. Qed.

Lemma ptick_ok input s : Forall valid input -> inv input s ->
  exists s', tick ctx s = Ok s' /\ inv input s' /\
    sent_count s <= sent_count s' <= sent_count s + max_issue_per_cycle ctx.
Proof.
  intros Hv I. pose proof (ok_issue Hctx). unfold tick. destruct (halted s).
  { exists s. split; [reflexivity | split; [exact I | lia]]. }
  cbv zeta. set (s1 := refill ctx s <| refill_hit_cap := _ |>).
  assert (I1 : inv input s1) by (eapply inv_calm; [apply (refill_inv input s Hv I) | split; auto]).
  assert (N1 : sent_count s1 = sent_count s) by (unfold sent_count, s1; cbn; rewrite refill_emitter; reflexivity).
  destruct (cycle_loop_ok input (2 * length (coreQ s1) + 1) Hv s1 0 I1) as (x & E & I2 & N2);
    [lia | unfold head_cost; destruct (pending_op s1); lia |].
  rewrite E. cbn [mbind result_bind]. eexists. split; [reflexivity |].
  destruct x as [[issued s2]|s2]; cbn [end_state] in *; [| split; [exact I2 | lia]].
  assert (Hc : calm s2 (record cycles (if 0 <? issued then record active_cycles s2 else s2))).
  { destruct (0 <? issued); split; auto. }
  destruct (calm_same input _ _ I2 Hc) as (I3 & N3 & _). split; [exact I3 | lia].
Qed.

Definition commands (ins : list Input) : list QuetzCommand :=
  omap (fun i => match i with Command c => Some c | _ => None end) ins.

Lemma inv_more input s c : inv input s -> inv (input ++ [c]) (s <| backend ::= fun l => l ++ [c] |>).
Proof.
  intros [(con & dn & par & P1 & P2 & P3 & P4) T1 T2 T3 T4 T5]. split; auto.
  exists con, dn, par. cbn. rewrite P1, <- app_assoc. auto.
Qed.

Lemma inv_emitter input s e : inv input s -> em_ok e -> sent e = sent (emitter s) ->
  pending_count e <= max_pending ctx -> inv input (s <| emitter := e |>).
Proof.
  intros [(con & dn & par & P1 & P2 & P3 & P4) T1 T2 T3 T4 T5] He Es Hp. split; auto.
  exists con, dn, par. cbn. rewrite Es. auto.
Qed.

Lemma pstep_ok input s i : Forall valid (input ++ commands [i]) -> inv input s ->
  exists s', step ctx i s = Ok s' /\ inv (input ++ commands [i]) s'.
Proof.
  intros Hv I. destruct i as [|c|id|t]; cbn [step commands omap list_omap] in *; rewrite ?app_nil_r in *.
  - destruct (ptick_ok input s Hv I) as (s' & E & I' & _). eauto.
  - eexists. split; [reflexivity | apply inv_more; exact I].
  - eexists. split; [reflexivity |].
    change (inv input (s <| emitter := snd (handleResponse id (emitter s)) |>)). pose proof (response_ok id (emitter s) (iv_em _ _ I)) as H.
    destruct (handleResponse id (emitter s)) as [r e]. destruct H as (He & _ & Hc & _ & Es).
    apply inv_emitter; auto. pose proof (iv_pending _ _ I). cbn. destruct r; lia.
  - eexists. split; [reflexivity |]. apply inv_emitter; auto; [| exact (iv_pending _ _ I)].
    eapply em_ok_eq; [exact (iv_em _ _ I) | reflexivity ..].
Qed.

Lemma prun_ok ins : forall input s, Forall valid (input ++ commands ins) -> inv input s ->
  exists s', run ctx ins s = Ok s' /\ inv (input ++ commands ins) s'.
Proof.
  induction ins as [|i ins IH]; intros input s Hv I.
  - exists s. cbn. rewrite app_nil_r. auto.
  - assert (E : commands (i :: ins) = commands [i] ++ commands ins) by (unfold commands; cbn; destruct i; reflexivity).
    rewrite E, app_assoc in *. destruct (pstep_ok input s i) as (s1 & E1 & I1); [| exact I |].
    { apply Forall_app in Hv. apply Hv. }
    destruct (IH _ _ Hv I1) as (s' & E' & I'). exists s'. split; [| exact I'].
    cbn [run]. rewrite E1. exact E'.
Qed.

Lemma pinv0 : inv [] (pipeline0 t0).
Proof.
  split; cbn; try (pose proof Hctx as [? ? ? ? ? ?]; lia); auto.
  - exists [], [], []. repeat split; reflexivity.
  - split; cbn; [reflexivity | word |]. intros id q. rewrite lookup_empty. discriminate.
  - word.
Qed.

Lemma inv_prefix input s : inv input s -> (snd <$> sent (emitter s)) `prefix_of` flat_map effects (flat_map expand input).
Proof.
  intros [(con & dn & par & P1 & P2 & P3 & P4) _ _ _ _ _].
  rewrite P1, flat_map_app, P2, P3, !flat_map_app, <- !app_assoc. apply prefix_app.
  unfold head_ok in P4. destruct (pending_op s) as [op|].
  - destruct P4 as [(ev & q & Eq & Hr) _]. rewrite Eq. cbn. rewrite Hr, <- !app_assoc. eexists. reflexivity.
  - destruct P4 as [-> _]. apply prefix_nil.
Qed.

(** C4. The pipeline never stops with an error and keeps program order.  Feed it
    any commands, in any interleaving with clock cycles and responses: the
    requests it has sent are at every moment a prefix of the requests of the
    commands in the order they came - none lost, repeated, reordered or split
    differently - with consumed and non-memory commands contributing none;
    and the queue and the outstanding requests stay within their limits. *)
Theorem pipeline_program_order ins : Forall valid (commands ins) ->
  exists s, run ctx ins (pipeline0 t0) = Ok s /\
    (snd <$> sent (emitter s)) `prefix_of` flat_map effects (flat_map expand (commands ins)) /\
    Z.of_nat (length (coreQ s)) <= max_queue_len ctx /\
    pending_count (emitter s) = Z.of_nat (base.size (pending_txns (emitter s))) /\
    pending_count (emitter s) <= max_pending ctx.
Proof.
  intros Hv. destruct (prun_ok ins [] (pipeline0 t0) Hv pinv0) as (s & E & I). cbn [app] in I.
  exists s. split; [exact E |]. split; [apply inv_prefix; exact I |].
  split; [exact (iv_queue _ _ I) | split; [exact (em_count _ (iv_em _ _ I)) | ]].
  exact (iv_pending _ _ I).
Qed.

(** One cycle issues at most [maxissuepercycle] requests, from any state the
    pipeline can be in. *)
Lemma cycle_bandwidth ins s s' : Forall valid (commands ins) -> run ctx ins (pipeline0 t0) = Ok s -> tick ctx s = Ok s' ->
  Z.of_nat (length (sent (emitter s'))) <= Z.of_nat (length (sent (emitter s))) + max_issue_per_cycle ctx.
Proof.
  intros Hv E Et. destruct (prun_ok ins [] (pipeline0 t0) Hv pinv0) as (s1 & E1 & I).
  assert (s1 = s) as -> by congruence. destruct (ptick_ok _ s Hv I) as (s2 & E2 & _ & N).
  assert (s2 = s') as -> by congruence. unfold sent_count in N. lia.
Qed.
End Order.

(** ** The theorems at concrete inputs

    A run of three instructions, then a store that crosses a cache line, on a
    core that issues one request per cycle. *)
Definition demo_ctx : QuetzCoreContext :=
  mkContext 4 1 8 0 64 false false false (replicate 8 0) (replicate 8 0) true true.
Definition demo_inputs : list Input :=
  [Command (mkCommand CMD_COMPUTE_RUN 3 0 0 3 (replicate 64 0));
   Command (mkCommand CMD_WRITE 16 0 120 0 (replicate 64 7)); Tick; Tick; Tick].

Lemma demo_ctx_ok : ctx_ok demo_ctx.
Proof. split; try reflexivity; cbn; lia. Qed.
Lemma demo_valid : Forall valid (commands demo_inputs).
Proof. repeat constructor; cbn; lia. Qed.

Lemma pipeline_program_order_witness : exists s, run demo_ctx demo_inputs (pipeline0 []) = Ok s /\
  (rq_addr <$> (snd <$> sent (emitter s))) = [120; 128].
Proof.
  destruct (pipeline_program_order demo_ctx [] demo_ctx_ok demo_inputs demo_valid) as (s & E & _).
  exists s. split; [exact E |].
  assert (H : (fun r => match r with Ok s => rq_addr <$> (snd <$> sent (emitter s)) | _ => [] end)
    (run demo_ctx demo_inputs (pipeline0 [])) = [120; 128]) by (vm_compute; reflexivity).
  rewrite E in H. exact H.
Defined.

Lemma cycle_bandwidth_witness : exists s s', run demo_ctx demo_inputs (pipeline0 []) = Ok s /\ tick demo_ctx s = Ok s' /\
  Z.of_nat (length (sent (emitter s'))) <= Z.of_nat (length (sent (emitter s))) + 1.
Proof.
  assert (H : is_ok (run demo_ctx demo_inputs (pipeline0 []) ≫= tick demo_ctx) = true) by (vm_compute; reflexivity).
  destruct (run demo_ctx demo_inputs (pipeline0 [])) as [s|] eqn:E; [| discriminate H].
  cbn [mbind result_bind] in H. destruct (tick demo_ctx s) as [s'|] eqn:Et; [| discriminate H].
  exists s, s'. split; [reflexivity | split; [exact Et |]].
  exact (cycle_bandwidth demo_ctx [] demo_ctx_ok demo_inputs s s' demo_valid E Et).
Defined.
