(* ===== verification/PipelineDrain.v ===== *)
(** * A drained pipeline has nothing left

    What [QuetzEventPipeline::isDrained] promises to those who wait for it -
    the accelerator ports before they flush, the CPU component before it gives
    up on a guest: after a cycle that leaves a running core drained, every
    command its guest has published is behind it. *)
From S2P Require Import Prelude.
From S2P Require Import MemSpan.
From S2P Require Import Command.
From S2P Require Import Regions.
From S2P Require Import MemIssue.
From S2P Require Import Pipeline.
From S2P Require Import PipelineThm.

Section Drain.
Variables (ctx : QuetzCoreContext) (t0 : list MemRegionHandler).
Context (Hctx : ctx_ok ctx).

Definition cmds (s : Pipeline) : list QuetzShmemCmd := (fun ev => cmd (ev_cmd ev)) <$> coreQ s.

(** An access is in progress only for the head, which is not the exit. *)
Definition head_runs (s : Pipeline) : Prop :=
  pending_op s <> None -> exists k q, cmds s = k :: q /\ k <> CMD_EXIT.

(** [s'] has the input of [s], and of its queue what is left; the exit ends it. *)
Record kept (s s' : Pipeline) : Prop :=
  { kp_backend : backend s' = backend s;
    kp_run : run_remaining s' = run_remaining s;
    kp_cap : refill_hit_cap s' = refill_hit_cap s;
    kp_head : head_runs s';
    kp_halted : halted s = true -> halted s' = true;
    kp_queue : halted s' = true \/ exists l, cmds s = l ++ cmds s' /\ CMD_EXIT ∉ l }.

Lemma kept_refl s : head_runs s -> kept s s.
Proof. intros Hh. constructor; auto. right. exists []. split; [reflexivity | apply not_elem_of_nil]. Qed.

(** A step that ends the run, or keeps the queue, or takes its head off. *)
Lemma kept_intro s s' : backend s' = backend s -> run_remaining s' = run_remaining s -> refill_hit_cap s' = refill_hit_cap s ->
  head_runs s' -> (halted s = true -> halted s' = true) -> halted s' = true \/ cmds s' = cmds s \/ (exists k, cmds s = k :: cmds s' /\ k <> CMD_EXIT) -> kept s s'.
Proof.
  intros E1 E2 E3 Hh Hm Hq. constructor; auto. destruct Hq as [?|[Hq|(k & Hq & Hk)]]; [left; assumption | right | right].
  - exists []. split; [symmetry; exact Hq | apply not_elem_of_nil].
  - exists [k]. split; [exact Hq |]. rewrite list_elem_of_singleton. congruence.
Qed.

Lemma kept_trans s1 s2 s3 : kept s1 s2 -> kept s2 s3 -> kept s1 s3.
Proof.
  intros [A1 A2 A3 A4 A5 A6] [B1 B2 B3 B4 B5 B6]. constructor; try congruence; auto.
  destruct A6 as [Ha|(l & El & Hl)]; [left; auto |]. destruct B6 as [Hb|(l' & El' & Hl')]; [left; exact Hb | right].
  exists (l ++ l'). split; [rewrite El, El', app_assoc; reflexivity |]. rewrite elem_of_app. tauto.
Qed.

Lemma filter_keeps c s : let s' := snd (filter_handle ctx c s) in
  backend s' = backend s /\ run_remaining s' = run_remaining s /\ refill_hit_cap s' = refill_hit_cap s /\
  coreQ s' = coreQ s /\ pending_op s' = pending_op s /\ halted s' = halted s.
Proof.
  unfold filter_handle. destruct (negb _); [cbn; auto 6 |]. destruct (handleMemoryAccess _ _ _ _) as [[a st] t]. cbn. auto 6.
Qed.

Lemma check_keeps s : let s' := snd (checkMaxInsts ctx s) in
  backend s' = backend s /\ run_remaining s' = run_remaining s /\ refill_hit_cap s' = refill_hit_cap s /\
  coreQ s' = coreQ s /\ pending_op s' = pending_op s /\ (halted s = true -> halted s' = true).
Proof. unfold checkMaxInsts. destruct (_ && _); cbn; auto 6. Qed.

Lemma check_halted s : fst (checkMaxInsts ctx s) = true -> halted (snd (checkMaxInsts ctx s)) = true.
Proof. unfold checkMaxInsts. destruct (_ && _); [reflexivity | discriminate]. Qed.

(** Taking off a head that is not the exit. *)
Lemma retire_kept s s1 s2 ev q : coreQ s = ev :: q -> cmd (ev_cmd ev) <> CMD_EXIT ->
  backend s1 = backend s -> run_remaining s1 = run_remaining s -> refill_hit_cap s1 = refill_hit_cap s ->
  coreQ s1 = q -> pending_op s1 = None -> (halted s = true -> halted s1 = true) ->
  s2 = snd (checkMaxInsts ctx s1) -> kept s s2.
Proof.
  intros Eq Hk E1 E2 E3 E4 E5 E6 ->. destruct (check_keeps s1) as (C1 & C2 & C3 & C4 & C5 & C6). cbv zeta in *.
  apply kept_intro; [congruence | congruence | congruence | | auto |].
  - intros Hp. destruct Hp. congruence.
  - right. right. exists (cmd (ev_cmd ev)). unfold cmds. rewrite C4, E4, Eq. auto.
Qed.

Lemma issueMemOp_kept s op issued retired issued' s' : head_runs s -> pending_op s = Some op ->
  issueMemOp ctx op issued s = Ok (retired, issued', s') ->
  kept s s' /\ (retired = true -> pending_op s' = None).
Proof.
  intros Hh Hop. destruct (Hh ltac:(congruence)) as (k & q & Hq & Hk). unfold issueMemOp. cbv zeta.
  match goal with |- (if ?b then _ else _) = _ -> _ => destruct b end; [intros E; injection E as <- _ <-; split; [apply kept_refl, Hh | discriminate] |].
  intros E. apply bind_ok in E as ([[n complete] s1] & E1 & E). apply bind_ok in E as (u & _ & E). apply bind_ok in E as (u' & _ & E).
  unfold issueAvailable in E1. apply bind_ok in E1 as ([[n' o] e] & _ & E1). injection E1 as <- <- <-.
  set (s1 := s <| offset := if o =? op_size op then 0 else o |> <| emitter := e |>) in E.
  assert (K1 : kept s s1) by (apply kept_intro; auto).
  destruct (negb (o =? op_size op)); injection E as <- <- <-; [split; [exact K1 | discriminate] |].
  unfold cmds in Hq. destruct (coreQ s) as [|ev q'] eqn:Eq; [discriminate |]. cbn in Hq. injection Hq as <- <-.
  match goal with |- kept s (snd (checkMaxInsts ctx ?x)) /\ _ => set (s2 := x) end. split.
  - apply (retire_kept s s2 _ ev q' Eq Hk); try reflexivity; auto.
  - intros _. destruct (check_keeps s2) as (_ & _ & _ & _ & -> & _). reflexivity.
Qed.

Lemma process_keeps ev a s : let '(r, stall, op, s') := process ctx ev a s in
  backend s' = backend s /\ run_remaining s' = run_remaining s /\ refill_hit_cap s' = refill_hit_cap s /\
  coreQ s' = coreQ s /\ pending_op s' = pending_op s /\ halted s' = halted s /\
  (cmd (ev_cmd ev) = CMD_EXIT -> r = HALT_EXIT) /\ (op <> None -> r = EMIT_MEMOP).
Proof.
  unfold process. cbv zeta. destruct (bool_decide_reflect (cmd (ev_cmd ev) = CMD_EXIT)) as [He|He].
  { cbn. repeat split; try congruence. }
  destruct (bool_decide (a = END_SIM)); [cbn; repeat split; congruence |].
  destruct (0 <? _); [destruct (bool_decide (cmd (ev_cmd ev) = CMD_NOP)); cbn; repeat split; congruence |].
  destruct (bool_decide (cmd (ev_cmd ev) = CMD_NOP)); [| repeat split; congruence].
  repeat split; try congruence; destruct (detailed_tracking ctx); try reflexivity; destruct (class_stat _); reflexivity.
Qed.

Lemma cycle_kept fuel : forall issued s r, head_runs s -> cycle_loop ctx fuel issued s = Ok r -> kept s (end_state r).
Proof.
  induction fuel as [|fuel IH]; intros issued s r Hh; cbn [cycle_loop]; [discriminate |].
  destruct (coreQ s) as [|ev q] eqn:Eq; [intros [= <-]; apply kept_refl, Hh |].
  destruct (pending_op s) as [op|] eqn:Hop.
  - intros E. apply bind_ok in E as ([[retired issued'] s1] & E1 & E).
    destruct (issueMemOp_kept s op issued retired issued' s1 Hh Hop E1) as [K1 Hp1].
    destruct (negb retired); [injection E as <-; exact K1 |]. destruct (halted s1); [injection E as <-; exact K1 |].
    eapply kept_trans; [exact K1 | apply (IH _ _ _ (kp_head _ _ K1) E)].
  - set (mem := _ || _). intros E.
    assert (Hf : exists consumed a s1, (if mem then filter_handle ctx (ev_cmd ev) s else (false, FORWARD, s)) = (consumed, a, s1) /\
      backend s1 = backend s /\ run_remaining s1 = run_remaining s /\ refill_hit_cap s1 = refill_hit_cap s /\
      coreQ s1 = coreQ s /\ pending_op s1 = pending_op s /\ halted s1 = halted s /\ (consumed = true -> mem = true)).
    { destruct mem; [| exists false, FORWARD, s; auto 10].
      pose proof (filter_keeps (ev_cmd ev) s) as Hk. destruct (filter_handle ctx (ev_cmd ev) s) as [[c a] s1]. exists c, a, s1.
      cbn in Hk. tauto. }
    destruct Hf as (consumed & a & s1 & Ef & F1 & F2 & F3 & F4 & F5 & F6 & F7). rewrite Ef in E.
    destruct consumed.
    + assert (Hne : cmd (ev_cmd ev) <> CMD_EXIT).
      { specialize (F7 eq_refl). unfold mem in F7. intros He. rewrite He in F7. discriminate. }
      destruct (checkMaxInsts ctx (count_inst (pop (record insn_count s1)))) as [stop s2] eqn:Ec.
      assert (K : kept s s2).
      { apply (retire_kept s (count_inst (pop (record insn_count s1))) s2 ev q Eq Hne); cbn; try congruence.
        - rewrite F4, Eq. reflexivity.
        - rewrite Ec. reflexivity. }
      destruct stop; [injection E as <-; exact K |]. eapply kept_trans; [exact K | apply (IH _ _ _ (kp_head _ _ K) E)].
    + pose proof (process_keeps ev a s1) as Hp. destruct (process ctx ev a s1) as [[[res stall] op] s2].
      destruct Hp as (P1 & P2 & P3 & P4 & P5 & P6 & P7 & P8).
      assert (Hne : res <> HALT_EXIT -> cmd (ev_cmd ev) <> CMD_EXIT) by (intros H1 H2; apply H1, P7, H2).
      destruct res.
      * injection E as <-. cbn [end_state]. apply kept_intro; cbn; try congruence.
        -- intros Hpo. destruct Hpo. cbn in *. congruence.
        -- right. left. unfold cmds. cbn. rewrite P4, F4, Eq. reflexivity.
      * destruct (checkMaxInsts ctx (count_inst (pop s2))) as [stop s3] eqn:Ec.
        assert (K : kept s s3).
        { apply (retire_kept s (count_inst (pop s2)) s3 ev q Eq (Hne ltac:(discriminate))); cbn; try congruence.
          - rewrite P4, F4, Eq. reflexivity.
          - rewrite Ec. reflexivity. }
        destruct stop; [injection E as <-; exact K |]. eapply kept_trans; [exact K | apply (IH _ _ _ (kp_head _ _ K) E)].
      * assert (K : kept s (s2 <| pending_op := op |>)).
        { apply kept_intro; cbn; try congruence.
          - intros _. exists (cmd (ev_cmd ev)), ((fun e => cmd (ev_cmd e)) <$> q). split; [| apply Hne; discriminate].
            unfold cmds. cbn. rewrite P4, F4, Eq. reflexivity.
          - right. left. unfold cmds. cbn. rewrite P4, F4. reflexivity. }
        eapply kept_trans; [exact K | apply (IH _ _ _ (kp_head _ _ K) E)].
      * injection E as <-. cbn [end_state]. apply kept_intro; cbn; try congruence; auto.
        intros Hpo. destruct Hpo. cbn. congruence.
Qed.

(** ** The refill *)

(** [s'] is [s] with more in the queue. *)
Definition grown (s s' : Pipeline) : Prop :=
  (exists l, cmds s' = cmds s ++ l) /\ pending_op s' = pending_op s /\ halted s' = halted s.

Lemma grown_refl s : grown s s.
Proof. split; [exists []; rewrite app_nil_r; reflexivity | auto]. Qed.
Lemma grown_trans s1 s2 s3 : grown s1 s2 -> grown s2 s3 -> grown s1 s3.
Proof.
  intros ((l & El) & E1 & E2) ((l' & El') & E3 & E4). split; [| split; congruence].
  exists (l ++ l'). rewrite El', El, app_assoc. reflexivity.
Qed.
Lemma grown_head s s' : grown s s' -> head_runs s -> head_runs s'.
Proof.
  intros ((l & El) & Ep & _) Hh Hp. destruct (Hh ltac:(congruence)) as (k & q & Hq & Hk).
  exists k, (q ++ l). rewrite El, Hq. auto.
Qed.

(** A run is only left unfinished for want of room. *)
Definition run_done (s : Pipeline) : Prop := queue_room ctx s = true -> run_remaining s = 0.

Lemma drain_run_done n : forall s, is_u32 (run_remaining s) -> (Z.to_nat (run_remaining s) <= n)%nat ->
  run_done (drain_run ctx n s) /\ grown s (drain_run ctx n s) /\ backend (drain_run ctx n s) = backend s.
Proof.
  induction n as [|n IH]; intros s Hr Hn; cbn [drain_run].
  { split; [intros _; word | split; [apply grown_refl | reflexivity]]. }
  destruct (Z.ltb_spec 0 (run_remaining s)) as [Hp|Hp]; cbn [andb].
  2: { split; [intros _; word | split; [apply grown_refl | reflexivity]]. }
  destruct (queue_room ctx s) eqn:Eq; [| split; [intros H; congruence | split; [apply grown_refl | reflexivity]]].
  set (s1 := s <| coreQ ::= _ |> <| run_remaining ::= _ |>).
  assert (E1 : run_remaining s1 = run_remaining s - 1) by (cbn; apply wrap_small; word).
  destruct (IH s1) as (H1 & H2 & H3); [rewrite E1; word | rewrite E1; lia |].
  split; [exact H1 | split; [| exact H3]]. eapply grown_trans; [| exact H2].
  split; [| auto]. exists [cmd (run_nop s)]. unfold cmds, s1. cbn. rewrite fmap_app. reflexivity.
Qed.

Lemma drain_run_u32 n : forall s, is_u32 (run_remaining s) -> is_u32 (run_remaining (drain_run ctx n s)).
Proof.
  induction n as [|n IH]; intros s Hr; cbn [drain_run]; [exact Hr |].
  destruct (_ && _); [apply IH; cbn; auto with quetz zarith | exact Hr].
Qed.

Lemma drainRun_done s : is_u32 (run_remaining s) ->
  run_done (drainRun ctx s) /\ grown s (drainRun ctx s) /\ backend (drainRun ctx s) = backend s.
Proof. intros Hr. apply drain_run_done; [exact Hr | lia]. Qed.

Lemma push_grown c x s : grown s (s <| backend := x |> <| coreQ ::= fun q => q ++ [mkEvent c (stall_of ctx c)] |>).
Proof. split; [exists [cmd c]; unfold cmds; cbn; rewrite fmap_app; reflexivity | auto]. Qed.

(** When there is room left, all that was published has been taken in - or the
    exit has, which is the end. *)
Lemma refill_loop_done n : forall s, Forall (fun c => is_u32 (size c)) (backend s) -> is_u32 (run_remaining s) ->
  run_done s -> (length (backend s) <= n)%nat -> let s' := refill_loop ctx n s in
  grown s s' /\ (queue_room ctx s' = true -> CMD_EXIT ∈ cmds s' \/ run_remaining s' = 0 /\ backend s' = []).
Proof.
  induction n as [|n IH]; intros s Hv Hr Hd Hn; cbn [refill_loop].
  { split; [apply grown_refl |]. intros Hq. right. split; [apply Hd, Hq |]. destruct (backend s); [reflexivity | cbn in Hn; lia]. }
  destruct (queue_room ctx s) eqn:Eq; cbn [andb]; [| split; [apply grown_refl | congruence]].
  rewrite (Hd Eq), Z.eqb_refl. destruct (backend s) as [|c rest] eqn:Eb.
  { split; [apply grown_refl |]. intros _. right. split; [apply Hd, Eq | exact Eb]. }
  apply Forall_cons in Hv as [Hc Hv]. cbn in Hn. cbv zeta.
  destruct (bool_decide_reflect (cmd c = CMD_COMPUTE_RUN)) as [Ec|Ec].
  - set (s1 := start_run ctx c (s <| backend := rest |>)).
    assert (R1 : is_u32 (run_remaining s1)) by (cbn; destruct (size c =? 0); [word | exact Hc]).
    destruct (drainRun_done s1 R1) as (D1 & D2 & D3).
    assert (R2 : is_u32 (run_remaining (drainRun ctx s1))) by (apply drain_run_u32; exact R1).
    destruct (IH (drainRun ctx s1)) as [I1 I2]; [rewrite D3; exact Hv | exact R2 | exact D1 | rewrite D3; cbn; lia |].
    split; [| exact I2]. eapply grown_trans; [| exact I1]. eapply grown_trans; [| exact D2].
    split; [exists []; rewrite app_nil_r; reflexivity | auto].
  - set (s1 := s <| backend := rest |> <| coreQ ::= _ |>). pose proof (push_grown c rest s) as G1. fold s1 in G1.
    destruct (bool_decide_reflect (cmd c = CMD_EXIT)) as [Ex|Ex].
    + split; [exact G1 |]. intros _. left.
      assert (El : cmds s1 = cmds s ++ [cmd c]) by (unfold cmds, s1; cbn; rewrite fmap_app; reflexivity).
      rewrite El, Ex. apply elem_of_app. right. left.
    + destruct (IH s1) as [I1 I2]; [exact Hv | exact Hr | intros _; apply (Hd Eq) | cbn; lia |].
      split; [eapply grown_trans; [exact G1 | exact I1] | exact I2].
Qed.

Lemma refill_done s : Forall (fun c => is_u32 (size c)) (backend s) -> is_u32 (run_remaining s) ->
  let s' := refill ctx s in
  grown s s' /\ (queue_room ctx s' = true -> CMD_EXIT ∈ cmds s' \/ run_remaining s' = 0 /\ backend s' = []).
Proof.
  intros Hv Hr. unfold refill. cbv zeta. destruct (drainRun_done s Hr) as (D1 & D2 & D3).
  destruct (refill_loop_done (length (backend (drainRun ctx s))) (drainRun ctx s)) as [I1 I2];
    [rewrite D3; exact Hv | apply drain_run_u32; exact Hr | exact D1 | lia |].
  split; [eapply grown_trans; [exact D2 | exact I1] | exact I2].
Qed.

(** ** A cycle that drains a running core *)

Lemma tick_drained s s' : Forall (fun c => is_u32 (size c)) (backend s) -> is_u32 (run_remaining s) -> head_runs s ->
  halted s = false -> tick ctx s = Ok s' -> head_runs s' /\
  (isDrained s' = true -> halted s' = false -> run_remaining s' = 0 /\ backend s' = [] /\ coreQ s' = []).
Proof.
  intros Hv Hr Hh Hhalt. unfold tick. rewrite Hhalt. cbv zeta. intros E. apply bind_ok in E as (r & E & [= <-]).
  destruct (refill_done s Hv Hr) as [G Hq]. set (s1 := refill ctx s) in *. cbv zeta in *.
  set (s2 := s1 <| refill_hit_cap := _ |>) in E.
  assert (H2 : head_runs s2) by apply (grown_head s s1 G Hh).
  pose proof (cycle_kept _ _ _ _ H2 E) as [K1 K2 K3 K4 K5 K6].
  assert (W : exists s3, s3 = (match r with inl (issued, s) => record cycles (if 0 <? issued then record active_cycles s else s) | inr s => s end) /\
    backend s3 = backend (end_state r) /\ run_remaining s3 = run_remaining (end_state r) /\
    refill_hit_cap s3 = refill_hit_cap (end_state r) /\ coreQ s3 = coreQ (end_state r) /\
    pending_op s3 = pending_op (end_state r) /\ halted s3 = halted (end_state r)).
  { eexists. split; [reflexivity |]. destruct r as [[issued x]|x]; cbn [end_state]; [destruct (0 <? issued); cbn; auto 7 | auto 7]. }
  destruct W as (s3 & <- & W1 & W2 & W3 & W4 & W5 & W6). split.
  { unfold head_runs, cmds. rewrite W5, W4. exact K4. }
  unfold isDrained. rewrite W3, W4, W6. intros Hdr Hnh. rewrite Hnh in Hdr. cbn [orb] in Hdr.
  apply andb_true_iff in Hdr as [_ Hdr]. apply andb_true_iff in Hdr as [Hempty Hcap].
  apply bool_decide_eq_true in Hempty. apply negb_true_iff in Hcap. rewrite K3 in Hcap. cbn in Hcap.
  assert (Hroom : queue_room ctx s1 = true).
  { unfold queue_room. apply Z.ltb_lt. pose proof (ok_queue _ Hctx). rewrite (proj2 (Z.ltb_lt 0 _)) in Hcap by lia. cbn in Hcap.
    apply Z.leb_gt in Hcap. exact Hcap. }
  rewrite W1, W2, K1, K2. cbn. destruct (Hq Hroom) as [Hex|[E1 E2]]; [exfalso | auto].
  destruct K6 as [K6|(l & El & Hl)]; [congruence |].
  unfold cmds in El at 2. rewrite Hempty in El. cbn in El. rewrite app_nil_r in El. apply Hl. rewrite <- El. exact Hex.
Qed.

(** ** Runs *)

Lemma inv_backend input s : Forall valid input -> inv ctx t0 input s -> Forall (fun c => is_u32 (size c)) (backend s).
Proof.
  intros Hv I. destruct (iv_progress _ _ _ _ I) as (con & dn & par & E & _). rewrite E in Hv. apply Forall_app in Hv as [_ Hv].
  eapply Forall_impl; [exact Hv |]. intros c [Hc _]. apply Hc.
Qed.

Lemma tick_head input s s' : Forall valid input -> inv ctx t0 input s -> head_runs s -> tick ctx s = Ok s' -> head_runs s'.
Proof.
  intros Hv I Hh E. destruct (halted s) eqn:Eh.
  - unfold tick in E. rewrite Eh in E. injection E as <-. exact Hh.
  - apply (tick_drained s s' (inv_backend input s Hv I) (iv_run _ _ _ _ I) Hh Eh E).
Qed.

Lemma run_head ins : forall input s s', Forall valid (input ++ commands ins) -> inv ctx t0 input s -> head_runs s ->
  run ctx ins s = Ok s' -> head_runs s' /\ inv ctx t0 (input ++ commands ins) s'.
Proof.
  induction ins as [|i ins IH]; intros input s s' Hv I Hh; cbn [run].
  { intros [= <-]. cbn. rewrite app_nil_r. auto. }
  intros E. apply bind_ok in E as (s1 & E1 & E).
  assert (Ec : commands (i :: ins) = commands [i] ++ commands ins) by (unfold commands; cbn; destruct i; reflexivity).
  rewrite Ec, app_assoc in *. pose proof (proj1 (proj1 (Forall_app _ _ _) Hv)) as Hv1.
  destruct (pstep_ok ctx t0 Hctx input s i Hv1 I) as (s1' & E1' & I1). assert (s1' = s1) as -> by congruence.
  apply (IH _ s1 s' Hv I1); [| exact E].
  destruct i as [|c|id|t]; cbn [step] in E1; [| injection E1 as <-; exact Hh ..].
  apply (tick_head input s s1); try assumption. apply Forall_app in Hv1. apply Hv1.
Qed.

Lemma run_app ins1 ins2 : forall s, run ctx (ins1 ++ ins2) s = (s ← run ctx ins1 s; run ctx ins2 s).
Proof.
  induction ins1 as [|i ins IH]; intros s; cbn [app run]; [reflexivity |].
  destruct (step ctx i s); cbn [mbind result_bind]; [apply IH | reflexivity].
Qed.

(** With nothing queued, all there is to send has been sent. *)
Lemma drained_sent input s : inv ctx t0 input s -> Pipeline.isDrained s = true ->
  run_remaining s = 0 -> backend s = [] -> coreQ s = [] ->
  snd <$> sent (emitter s) = flat_map (effects ctx t0) (flat_map expand input) /\ pending_txns (emitter s) = ∅.
Proof.
  intros I Hd R B Q. split.
  - destruct (iv_progress _ _ _ _ I) as (con & dn & par & P1 & P2 & P3 & P4). rewrite B, app_nil_r in P1. rewrite Q, R in P2.
    cbn in P2. rewrite app_nil_r in P2. rewrite P1, P2, P3. unfold head_ok in P4. destruct (pending_op s).
    + destruct P4 as [(ev & q & Eq & _) _]. congruence.
    + destruct P4 as [-> _]. apply app_nil_r.
  - unfold isDrained in Hd. apply andb_true_iff in Hd as [Hp _]. apply Z.eqb_eq in Hp.
    rewrite (em_count _ (iv_em _ _ _ _ I)) in Hp. apply map_size_empty_iff. lia.
Qed.

(** After a cycle that leaves a running core drained, the requests of every
    command published so far have all been sent and answered: none waits in
    the guest's buffer, in a run, in the queue or half issued. *)
Lemma pipeline_drained ins s : Forall valid (commands ins) -> run ctx (ins ++ [Tick]) (pipeline0 t0) = Ok s ->
  Pipeline.isDrained s = true -> halted s = false ->
  snd <$> sent (emitter s) = flat_map (effects ctx t0) (flat_map expand (commands ins)) /\
  pending_txns (emitter s) = ∅ /\ backend s = [] /\ coreQ s = [].
Proof.
  intros Hv E Hd Hn. rewrite run_app in E. apply bind_ok in E as (s0 & E0 & E). cbn [run step] in E.
  apply bind_ok in E as (s1 & Et & [= <-]).
  destruct (run_head ins [] (pipeline0 t0) s0 Hv (pinv0 ctx t0 Hctx) (fun Hp => match Hp eq_refl with end) E0) as [Hh I0].
  cbn [app] in I0. destruct (ptick_ok ctx t0 Hctx (commands ins) s0 Hv I0) as (s1' & Et' & I1 & _).
  assert (s1' = s1) as -> by congruence.
  assert (Hn0 : halted s0 = false).
  { destruct (halted s0) eqn:Eh; [| reflexivity]. unfold tick in Et. rewrite Eh in Et. injection Et as <-. congruence. }
  destruct (tick_drained s0 s1 (inv_backend _ _ Hv I0) (iv_run _ _ _ _ I0) Hh Hn0 Et) as [_ H]. destruct (H Hd Hn) as (R & B & Q).
  destruct (drained_sent _ s1 I1 Hd R B Q). auto.
Qed.
End Drain.

Definition drain_inputs : list Input := demo_inputs ++ [Response 0; Response 1].
Lemma pipeline_drained_witness : exists s, run demo_ctx (drain_inputs ++ [Tick]) (pipeline0 []) = Ok s /\
  snd <$> sent (emitter s) = flat_map (effects demo_ctx []) (flat_map expand (commands drain_inputs)) /\
  pending_txns (emitter s) = ∅ /\ backend s = [] /\ coreQ s = [].
Proof.
  assert (H : match run demo_ctx (drain_inputs ++ [Tick]) (pipeline0 []) with Ok s => isDrained s && negb (halted s) | _ => false end = true)
    by (vm_compute; reflexivity).
  destruct (run demo_ctx (drain_inputs ++ [Tick]) (pipeline0 [])) as [s|] eqn:E; [| discriminate H].
  exists s. split; [reflexivity |]. apply andb_true_iff in H as [H1 H2]. apply negb_true_iff in H2.
  apply (pipeline_drained demo_ctx [] demo_ctx_ok drain_inputs s); try assumption. repeat constructor; cbn; lia.
Defined.
