(* ===== verification/PipelineCore.v ===== *)
(** * A core among others

    What the component relies on when several cores share one region table
    and one request counter: a cycle takes fresh ids only, and does not lose
    the guest's exit. *)
From S2P Require Import Prelude.
From S2P Require Import Command.
From S2P Require Import Regions.
From S2P Require Import MemIssue.
From S2P Require Import Pipeline.
From S2P Require Import PipelineThm.
From S2P Require Import PipelineDrain.

(** ** Request ids *)

(** [e'] waits for requests of [e] and for new ones only. *)
Record fresh (e e' : Emitter) : Prop :=
  { fr_next : next_id e <= next_id e';
    fr_pending : forall id, is_Some (pending_txns e' !! id) ->
      is_Some (pending_txns e !! id) \/ next_id e <= id < next_id e' }.

#[export] Instance fresh_preorder : PreOrder fresh.
Proof.
  split.
  - intros e. split; auto. lia.
  - intros e1 e2 e3 [A1 A2] [B1 B2]. split; [lia |].
    intros id Hid. destruct (B2 id Hid) as [Hid'|?]; [destruct (A2 id Hid') as [?|?]; [auto |] |]; right; lia.
Qed.

Lemma fresh_same e e' : pending_txns e' = pending_txns e -> next_id e' = next_id e -> fresh e e'.
Proof. intros E1 E2. split; rewrite ?E1, ?E2; [lia | auto]. Qed.

Lemma fresh_emit st r e : fresh e (emit st r e).
Proof.
  split; cbn; [lia |]. intros id. rewrite lookup_insert. case_decide; [intros _; right; lia | auto].
Qed.

Lemma fresh_parts line split_ reqs build fuel : forall addr o rest parts budget e n o' e',
  issue_parts line split_ reqs build fuel addr o rest parts budget e = Ok (n, o', e') -> fresh e e'.
Proof.
  induction fuel as [|fuel IH]; intros *; cbn [issue_parts]; [discriminate |].
  destruct (_ && _); [| intros [= _ _ <-]; reflexivity]. intros E. apply IH in E.
  etransitivity; [| exact E]. etransitivity; [| apply fresh_emit]. destruct (o =? 0); [reflexivity | apply fresh_same; reflexivity].
Qed.

Lemma fresh_bump (b : bool) st n e : fresh e (if b then bump st n e else e).
Proof. destruct b; [apply fresh_same |]; reflexivity. Qed.

Lemma fresh_window line hm hi read addr sz raw p o budget e n o' e' :
  issueWindow line hm hi read addr sz raw p o budget e = Ok (n, o', e') -> fresh e e'.
Proof.
  unfold issueWindow, issueReadWindow, issueWriteWindow. destruct read; destruct (_ || _); try (intros [= _ _ <-]; reflexivity).
  - intros E. apply bind_ok in E as (? & _ & E). apply bind_ok in E as (? & _ & E). destruct p.
    + apply fresh_parts in E. etransitivity; [| exact E]. apply fresh_bump.
    + injection E as _ _ <-. etransitivity; [| apply fresh_emit]. first [apply fresh_bump | reflexivity].
  - intros E. apply bind_ok in E as (? & _ & E). apply bind_ok in E as (? & _ & E). destruct p.
    + apply bind_ok in E as ([[? ?] ?] & E & E'). apply fresh_parts in E. injection E' as _ _ <-.
      etransitivity; [| exact E]. etransitivity; [| apply fresh_bump]. apply fresh_bump.
    + injection E as _ _ <-. etransitivity; [| apply fresh_emit]. etransitivity; [| apply (fresh_bump (kDataCap <? sz))]. first [apply fresh_bump | reflexivity].
Qed.

Section Core.
Variables (ctx : QuetzCoreContext) (t0 : list MemRegionHandler).

Definition fresh_step (s s' : Pipeline) : Prop := fresh (emitter s) (emitter s').

Lemma calm_fresh s s' : calm ctx s s' -> fresh_step s s'.
Proof. intros C. destruct (cm_books _ _ _ C) as (E1 & _ & E2). apply fresh_same; assumption. Qed.

Lemma check_emitter s : emitter (snd (checkMaxInsts ctx s)) = emitter s.
Proof. unfold checkMaxInsts. destruct (_ && _); reflexivity. Qed.

Lemma issue_fresh op issued s retired issued' s' : issueMemOp ctx op issued s = Ok (retired, issued', s') -> fresh_step s s'.
Proof.
  unfold issueMemOp. cbv zeta. match goal with |- (if ?b then _ else _) = _ -> _ => destruct b end; [intros [= _ _ <-]; unfold fresh_step; reflexivity |].
  intros E. apply bind_ok in E as ([[n complete] s1] & E1 & E). apply bind_ok in E as (u & _ & E). apply bind_ok in E as (u' & _ & E).
  unfold issueAvailable in E1. apply bind_ok in E1 as ([[n' o] e] & Ew & E1). injection E1 as <- <- <-. apply fresh_window in Ew.
  unfold fresh_step. destruct (negb _); injection E as <- <- <-; [exact Ew |]. rewrite check_emitter.
  etransitivity; [exact Ew |]. apply fresh_same; reflexivity.
Qed.

Lemma process_emitter ev a s : let '(_, _, _, s') := process ctx ev a s in fresh_step s s'.
Proof.
  unfold process. cbv zeta. repeat case_match; simplify_eq; apply fresh_same; reflexivity.
Qed.

Lemma cycle_fresh fuel : forall issued s r, cycle_loop ctx fuel issued s = Ok r -> fresh_step s (end_state r).
Proof.
  induction fuel as [|fuel IH]; intros issued s r; cbn [cycle_loop]; [discriminate |].
  destruct (coreQ s) as [|ev q] eqn:Eq; [intros [= <-]; unfold fresh_step; reflexivity |].
  destruct (pending_op s) as [op|].
  - intros E. apply bind_ok in E as ([[retired issued'] s1] & E1 & E). apply issue_fresh in E1.
    unfold fresh_step in *. etransitivity; [exact E1 |].
    destruct (negb retired); [injection E as <-; reflexivity |]. destruct (halted s1); [injection E as <-; reflexivity | exact (IH _ _ _ E)].
  - set (f := if _ : bool then _ else _). assert (F1 : fresh_step s (snd f)).
    { unfold f. destruct (_ || _); [| unfold fresh_step; reflexivity]. apply calm_fresh, filter_calm. }
    destruct f as [[consumed a] s1]. cbn [snd] in F1. unfold fresh_step in *. intros E. etransitivity; [exact F1 |].
    destruct consumed.
    + pose proof (check_emitter (count_inst (pop (record insn_count s1)))) as Ec. destruct (checkMaxInsts ctx _) as [stop s2].
      cbn [snd] in Ec. assert (F2 : fresh (emitter s1) (emitter s2)) by (rewrite Ec; apply fresh_same; reflexivity).
      etransitivity; [exact F2 |]. destruct stop; [injection E as <-; reflexivity | exact (IH _ _ _ E)].
    + pose proof (process_emitter ev a s1) as Fp. destruct (process ctx ev a s1) as [[[res stall] op] s2]. unfold fresh_step in Fp.
      etransitivity; [exact Fp |]. destruct res; [injection E as <-; reflexivity | | exact (IH _ _ _ E) | injection E as <-; reflexivity].
      pose proof (check_emitter (count_inst (pop s2))) as Ec. destruct (checkMaxInsts ctx _) as [stop s3]. cbn [snd] in Ec.
      assert (F2 : fresh (emitter s2) (emitter s3)) by (rewrite Ec; reflexivity).
      etransitivity; [exact F2 |]. destruct stop; [injection E as <-; reflexivity | exact (IH _ _ _ E)].
Qed.

Lemma tick_fresh s s' : tick ctx s = Ok s' -> fresh_step s s'.
Proof.
  unfold tick. destruct (halted s); [intros [= <-]; unfold fresh_step; reflexivity |]. cbv zeta. intros E.
  apply bind_ok in E as (r & E & [= <-]). apply cycle_fresh in E. unfold fresh_step in *. cbn in E. rewrite refill_emitter in E.
  etransitivity; [exact E |]. destruct r as [[issued x]|x]; [| reflexivity]. cbn. destruct (0 <? issued); apply fresh_same; reflexivity.
Qed.

(** ** The exit record *)

Definition exit_ahead (s : Pipeline) : Prop := CMD_EXIT ∈ cmd <$> backend s \/ CMD_EXIT ∈ cmds s.

Lemma grown_exit s s' : grown s s' -> backend s' = backend s -> exit_ahead s -> exit_ahead s'.
Proof. intros ((l & El) & _) Eb [H|H]; [left; congruence | right; rewrite El; apply elem_of_app; auto]. Qed.

Lemma drain_run_grown n : forall s, grown s (drain_run ctx n s) /\ backend (drain_run ctx n s) = backend s.
Proof.
  induction n as [|n IH]; intros s; cbn [drain_run]; [split; [apply grown_refl | reflexivity] |].
  destruct (_ && _); [| split; [apply grown_refl | reflexivity]]. match goal with |- grown s (drain_run ctx n ?x) /\ _ => destruct (IH x) as [G E] end.
  split; [| exact E]. eapply grown_trans; [| exact G]. split; [| auto].
  exists [cmd (run_nop s)]. unfold cmds. cbn. rewrite fmap_app. reflexivity.
Qed.

Lemma refill_loop_exit n : forall s, exit_ahead s -> exit_ahead (refill_loop ctx n s).
Proof.
  induction n as [|n IH]; intros s He; cbn [refill_loop]; [exact He |]. destruct (_ && _); [| exact He].
  destruct (backend s) as [|c rest] eqn:Eb; [exact He |]. cbv zeta.
  assert (Hc : cmd c = CMD_EXIT \/ exit_ahead (s <| backend := rest |>)).
  { destruct He as [He|He]; [| right; right; exact He]. rewrite Eb, fmap_cons, elem_of_cons in He.
    destruct He as [He|He]; [left; congruence | right; left; exact He]. }
  destruct (bool_decide_reflect (cmd c = CMD_COMPUTE_RUN)) as [Ec|Ec].
  - apply IH. unfold drainRun. match goal with |- context[drain_run ctx ?n ?x] => destruct (drain_run_grown n x) as [G E] end.
    eapply grown_exit; [exact G | exact E |]. destruct Hc as [Hc|Hc]; [congruence | exact Hc].
  - set (s1 := s <| backend := rest |> <| coreQ ::= _ |>).
    assert (H1 : exit_ahead s1).
    { destruct Hc as [Hc|Hc].
      - right. unfold cmds, s1. cbn. rewrite fmap_app, elem_of_app. right. rewrite <- Hc. left.
      - apply (grown_exit (s <| backend := rest |>)); [exact (push_grown ctx c rest s) | reflexivity | exact Hc]. }
    destruct (bool_decide _); [exact H1 | apply IH; exact H1].
Qed.

Lemma refill_exit s : exit_ahead s -> exit_ahead (refill ctx s).
Proof.
  intros He. unfold refill. apply refill_loop_exit. unfold drainRun.
  match goal with |- context[drain_run ctx ?n ?x] => destruct (drain_run_grown n x) as [G E] end. exact (grown_exit _ _ G E He).
Qed.

(** ** A cycle of a core *)

Context (Hctx : ctx_ok ctx).

(** Serving the commands [input], with the exit still ahead of a core that is
    not halted. *)
Record core_ok (input : list QuetzCommand) (p : Pipeline) : Prop :=
  { ck_inv : inv ctx t0 input p;
    ck_head : head_runs p;
    ck_exit : halted p = false -> CMD_EXIT ∈ cmd <$> input -> exit_ahead p }.

Lemma tick_exit s s' : Forall (fun c => is_u32 (size c)) (backend s) -> is_u32 (run_remaining s) -> head_runs s ->
  tick ctx s = Ok s' -> halted s' = false -> exit_ahead s -> exit_ahead s'.
Proof.
  intros Hv Hr Hh. unfold tick. destruct (halted s); [intros [= <-]; auto |]. cbv zeta. intros E Hn He. apply refill_exit in He.
  apply bind_ok in E as (r & E & [= <-]). destruct (refill_done ctx s Hv Hr) as [G _]. cbv zeta in G. set (s1 := refill ctx s) in *.
  set (s2 := s1 <| refill_hit_cap := _ |>) in E.
  pose proof (cycle_kept ctx _ _ _ _ (grown_head _ _ G Hh : head_runs s2) E) as [K1 K2 K3 K4 K5 K6].
  assert (W : exit_ahead (end_state r)).
  { assert (Hn' : halted (end_state r) = false) by (destruct r as [[issued x]|x]; [destruct (0 <? issued) |]; exact Hn).
    destruct K6 as [K6|(l & El & Hl)]; [congruence |]. destruct He as [He|He]; [left; rewrite K1; exact He | right].
    change (cmds s2) with (cmds s1) in El. rewrite El in He. apply elem_of_app in He as [He|He]; [contradiction | exact He]. }
  destruct r as [[issued x]|x]; [destruct (0 <? issued) |]; exact W.
Qed.

Lemma core_tick input p : Forall valid input -> core_ok input p -> exists p', tick ctx p = Ok p' /\
  core_ok input p' /\ fresh_step p p' /\ (halted p = true -> p' = p) /\
  (isDrained p' = true -> halted p' = false ->
    snd <$> sent (emitter p') = flat_map (effects ctx t0) (flat_map expand input) /\
    pending_txns (emitter p') = ∅ /\ (CMD_EXIT ∉ cmd <$> input)).
Proof.
  intros Hv [I Hh Hx]. destruct (ptick_ok ctx t0 Hctx input p Hv I) as (p' & E & I' & _). exists p'. split; [exact E |].
  pose proof (inv_backend ctx t0 input p Hv I) as Hb. pose proof (iv_run _ _ _ _ I) as Hr.
  assert (Hm : halted p = true -> p' = p) by (intros Ht; unfold tick in E; rewrite Ht in E; congruence).
  assert (Hx' : halted p' = false -> CMD_EXIT ∈ cmd <$> input -> exit_ahead p').
  { intros Hn. destruct (halted p) eqn:Ht; [specialize (Hm eq_refl); congruence |].
    intros Hi. exact (tick_exit p p' Hb Hr Hh E Hn (Hx eq_refl Hi)). }
  split; [split; [exact I' | exact (tick_head ctx t0 Hctx input p p' Hv I Hh E) | exact Hx'] |].
  split; [eapply tick_fresh; exact E | split; [exact Hm |]]. intros Hd Hn.
  assert (Ht : halted p = false) by (destruct (halted p) eqn:Ht; [specialize (Hm eq_refl); congruence | reflexivity]).
  destruct (tick_drained ctx Hctx p p' Hb Hr Hh Ht E) as [_ H]. destruct (H Hd Hn) as (R & B & Q).
  destruct (drained_sent ctx t0 input p' I' Hd R B Q) as [D1 D2]. split; [exact D1 | split; [exact D2 |]].
  intros Hi. destruct (Hx' Hn Hi) as [He|He]; [rewrite B in He | unfold cmds in He; rewrite Q in He]; apply elem_of_nil in He; exact He.
Qed.

(** What others do between the cycles of a core. *)
Lemma core_publish input p c : core_ok input p -> core_ok (input ++ [c]) (p <| backend ::= fun l => l ++ [c] |>).
Proof.
  intros [I Hh Hx]. split; [apply inv_more; exact I | exact Hh |].
  intros Hn Hi. cbn in Hn. rewrite fmap_app, elem_of_app in Hi. unfold exit_ahead. cbn. rewrite fmap_app, elem_of_app.
  destruct Hi as [Hi|Hi]; [destruct (Hx Hn Hi); auto | auto].
Qed.

Lemma core_emitter input p e : core_ok input p -> em_ok e -> sent e = sent (emitter p) -> pending_count e <= max_pending ctx ->
  core_ok input (p <| emitter := e |>).
Proof. intros [I Hh Hx] H1 H2 H3. split; [apply inv_emitter; assumption | exact Hh | exact Hx]. Qed.

Lemma core_table input p t : core_ok input p ->
  (forall c, action_of (filter_unmatched_regions ctx) t c = action_of (filter_unmatched_regions ctx) t0 c) ->
  core_ok input (p <| table := t |>).
Proof. intros [[I1 I2 I3 I4 I5 I6] Hh Hx] Ht. split; [split; auto | exact Hh | exact Hx]. Qed.

Lemma core_start : core_ok [] (pipeline0 t0).
Proof. split; [apply pinv0; exact Hctx | intros Hp; destruct Hp; reflexivity | intros _ Hi; apply elem_of_nil in Hi as []]. Qed.
End Core.
