(* ===== verification/Gpu.v ===== *)
(** * The accelerator device

    [src/src/quetz_gpu_device.h] and [quetz_gpu_device.cc], class
    [QuetzGpuDevice]: an MMIO device whose doorbell starts either a modelled
    latency (no kernel loaded) or a compute operation that reads its input by
    DMA, runs the kernel, stays busy and writes the result back by DMA.

    The device is its registers, its queue and its DMA state; what it sends
    (responses, memory requests, interrupts) is appended to [sent]. *)
From S2P Require Import Prelude.
From S2P Require Import StdMem.
From S2P Require Import MemSpan.
From S2P Require Import Kernel.
From S2P Require Import EventWriter.

(** ** Registers *)

Definition kOpDmaChunk : Z := 64.
Definition kMaxOpDmaOutstanding : Z := 64.
Definition kMaxPendingLaunches : Z := 8.
Definition REG_DOORBELL : Z := 0x00.
Definition REG_STATUS : Z := 0x08.
Definition REG_KERNEL_ID : Z := 0x10.
Definition REG_LATENCY_OVERRIDE : Z := 0x18.
Definition REG_TICKET : Z := 0x20.
Definition REG_RESULT : Z := 0x28.
Definition REG_ARG0 : Z := 0x30.
Definition REG_ARG1 : Z := 0x38.
Definition REG_ARG2 : Z := 0x40.
Definition REG_ARG3 : Z := 0x48.
Definition REG_IRQ_ACK : Z := 0x50.
Definition REG_CPU_CHECKPOINT : Z := 0x60.
Definition REG_ISR_ENTRY : Z := 0x68.
Definition REG_IRQ_SETTLED : Z := 0x70.

(** ** Configuration and state *)

Record Params := mkParams
  { base_addr : Z; mmio_size : Z; kernel_latency : Z; doorbell_blocking : bool;
    cpu_checkpoints : bool; irq_witnesses : bool; p_irq_line : Z; irq_vcpu : Z;
    kernel : option QuetzKernel; data_big_endian : bool;
    dma_range_start : Z; dma_range_end : Z; mem_line_size : Z;
    dma_bytes_per_kernel : Z; event_file : string; event_source : string;
    event_operation : string; has_iface : bool; has_mem_iface : bool; irq_linked : bool;
    clock_ok : bool }.

Inductive OpPhase : Set := IDLE | READING | WRITING.
#[export] Instance OpPhase_eq_dec : EqDecision OpPhase.
Proof. solve_decision. Defined.

Record Stats := mkStats
  { kernels_launched : Z; busy_cycles : Z; doorbell_writes : Z; status_polls : Z;
    latency_overrides : Z; doorbell_while_busy : Z; irqs_raised : Z;
    wrong_direction_accesses : Z; bad_offset_accesses : Z; ops_rejected : Z }.
#[export] Instance Stats_settable : Settable Stats := fun s =>
  mkStats (kernels_launched s) (busy_cycles s) (doorbell_writes s) (status_polls s)
    (latency_overrides s) (doorbell_while_busy s) (irqs_raised s)
    (wrong_direction_accesses s) (bad_offset_accesses s) (ops_rejected s).
Definition stats0 : Stats := mkStats 0 0 0 0 0 0 0 0 0 0.

Record Gpu := mkGpu
  { gpu_clk : Z; busy_until_clk : Z; kernel_id : Z; submit_id : Z; latency_override : Z;
    holding_sim : bool; deferred_doorbell_resp : option WriteReq;
    pending_latencies : list Z; irq_pending : bool; irq_events : Z;
    arg_regs : list Z; op_args : KernelArgs; op_phase : OpPhase;
    op_in : list Z; op_out : list Z; op_in_bytes : Z; op_dma_outstanding : Z;
    op_next_dma_off : Z; event_writer : Writer; op_doorbell_resp : option WriteReq;
    op_req_off : gmap Z Z; stats : Stats;
    next_id : Z;            (* request numbers, unique per [new StandardMem::Read/Write] *)
    now_ns : Z;             (* the simulator's clock *)
    sent : list Msg }.
#[export] Instance Gpu_settable : Settable Gpu := fun g =>
  mkGpu (gpu_clk g) (busy_until_clk g) (kernel_id g) (submit_id g) (latency_override g)
    (holding_sim g) (deferred_doorbell_resp g) (pending_latencies g) (irq_pending g)
    (irq_events g) (arg_regs g) (op_args g) (op_phase g) (op_in g) (op_out g) (op_in_bytes g)
    (op_dma_outstanding g) (op_next_dma_off g) (event_writer g) (op_doorbell_resp g)
    (op_req_off g) (stats g) (next_id g) (now_ns g) (sent g).

Definition gpu0 (w : Writer) : Gpu :=
  mkGpu 0 0 0 0 0 true None [] false 0 [0; 0; 0; 0] (mkArgs 0 0 0 0) IDLE [] [] 0 0 0 w None
    ∅ stats0 0 0 [].

Definition count (f : Stats -> Z) `{!Update f} (g : Gpu) : Gpu :=
  g <| stats ::= update_field f (fun n => n + 1) |>.
Definition send (m : Msg) (g : Gpu) : Gpu := g <| sent ::= fun l => l ++ [m] |>.

Section Device.
Context `{FileSystem} (P : Params).

(** The constructor: configuration errors are fatal. *)
Definition construct : result Gpu :=
  throw_if (negb (dma_bytes_per_kernel P =? 0)) Fatal
    "dma_bytes_per_kernel is not supported in P2.a" ≫= fun _ =>
  throw_if (negb (dma_range_start P =? 0) && (dma_range_end P =? 0)) Fatal
    "dma_range_start without dma_range_end" ≫= fun _ =>
  throw_if (negb (dma_range_end P =? 0) && (dma_range_end P <? dma_range_start P)) Fatal
    "dma_range_end is below dma_range_start" ≫= fun _ =>
  throw_if (negb (clock_ok P)) Fatal "invalid clock" ≫= fun _ =>
  throw_if (negb (has_iface P)) Fatal "no 'iface' subcomponent" ≫= fun _ =>
  let has_kernel := bool_decide (is_Some (kernel P)) in
  throw_if (has_kernel && negb (has_mem_iface P)) Fatal
    "a 'kernel' subcomponent requires a 'mem_iface' subcomponent" ≫= fun _ =>
  throw_if (negb (String.eqb (event_file P) "") && negb has_kernel) Fatal
    "event_file requires a real 'kernel' subcomponent" ≫= fun _ =>
  match configure (event_file P) (event_source P) (event_operation P) writer0 with
  | inr error => Throw Fatal error
  | inl w =>
      throw_if (irq_witnesses P && ((p_irq_line P <? 0) || negb has_kernel || negb (enabled w))) Fatal
        "IRQ witnesses require a kernel, IRQ line and event file" ≫= fun _ =>
      throw_if ((0 <=? p_irq_line P) && negb (irq_linked P)) Fatal
        "irq_line requires the 'irq' port to be linked" ≫= fun _ =>
      Ok (gpu0 w)
  end.

Definition isBusyAt (g : Gpu) : bool := negb (busy_until_clk g =? 0).

Definition hasOutstandingWork (g : Gpu) : bool :=
  negb (busy_until_clk g =? 0) || negb (bool_decide (pending_latencies g = [])) ||
  negb (bool_decide (op_phase g = IDLE)).

Definition updatePrimaryHold (allow_ok_to_end : bool) (g : Gpu) : Gpu :=
  if hasOutstandingWork g then g <| holding_sim := true |>
  else if holding_sim g && allow_ok_to_end then g <| holding_sim := false |> else g.

(** ** The lifecycle log *)

(** A record that is not durable stops the simulation. *)
Definition log_event (r : Writer -> Writer + string) (why : string) (g : Gpu) : result Gpu :=
  match r (event_writer g) with
  | inl w => Ok (g <| event_writer := w |>)
  | inr error => Throw Fatal (why +:+ error)
  end.

Definition emitOpRequested (g : Gpu) : result Gpu :=
  log_event (emitRequested (now_ns g) (submit_id g)) "accelerator-requested event was not durable: " g.
Definition emitOpCompleted (g : Gpu) : result Gpu :=
  log_event (emitCompleted (now_ns g) (submit_id g)) "accelerator-completed event was not durable: " g.
Definition emitOpError (g : Gpu) : result Gpu :=
  log_event (emitError (now_ns g) (submit_id g) "operation-rejected")
    "accelerator-error event was not durable: " g.

Definition emitIrqEvent (kind : string) (value : Z) (observer : string) (g : Gpu) : result Gpu :=
  if negb (irq_witnesses P) then Ok g
  else log_event (emitIrq kind (now_ns g) (submit_id g) (u32 (p_irq_line P)) (irq_vcpu P) value
                    (irq_pending g) observer) "IRQ event was not durable: " g.

(** ** Completion interrupts *)

Definition raiseIrqOnRetire (g : Gpu) : result Gpu :=
  if p_irq_line P <? 0 then Ok g
  else
    let g := g <| irq_events ::= fun n => u64 (n + 1) |> in
    if irq_pending g then Ok g
    else
      emitIrqEvent "irq-asserted" 1 "device" (g <| irq_pending := true |>) ≫= fun g =>
      Ok (send (Irq (mkIrq (irq_vcpu P) (u32 (p_irq_line P)) 1)) (count irqs_raised g)).

Definition ackIrq (consume : Z) (g : Gpu) : result Gpu :=
  if (p_irq_line P <? 0) || negb (irq_pending g) then Ok g
  else
    emitIrqEvent "irq-acknowledged" (u32 consume) "device" g ≫= fun g =>
    let g := g <| irq_events ::= fun n => n - (if consume <? n then consume else n) |> in
    if 0 <? irq_events g then Ok g
    else
      emitIrqEvent "irq-deasserted" 0 "device" (g <| irq_pending := false |>) ≫= fun g =>
      Ok (send (Irq (mkIrq (irq_vcpu P) (u32 (p_irq_line P)) 0)) g).

(** ** Kernel operations: DMA around the plugged compute *)

Definition release_doorbell (g : Gpu) : Gpu :=
  match op_doorbell_resp g with
  | Some w => send (WriteResp (wr_id w)) (g <| op_doorbell_resp := None |>)
  | None => g
  end.

Definition opReject (why : string) (g : Gpu) : result Gpu :=
  emitOpError g ≫= fun g =>
  let g := count ops_rejected g <| op_phase := IDLE |> <| busy_until_clk := 0 |> in
  Ok (updatePrimaryHold true (release_doorbell g)).

Definition dmaRangeOk (addr len : Z) : bool :=
  if negb (memorySpanValid addr len) then false
  else if dma_range_end P =? 0 then true
  else if len =? 0 then true
  else (dma_range_start P <=? addr) && (addr <=? dma_range_end P) &&
       (u64 (len - 1) <=? u64 (dma_range_end P - addr)).

(** [while (off < total && outstanding < kMaxOpDmaOutstanding)]: at most
    [kMaxOpDmaOutstanding] passes, so 65 are enough fuel. *)
Definition window_fuel : nat := 65.

Fixpoint issue_reads (fuel : nat) (g : Gpu) : result Gpu :=
  match fuel with
  | O => Throw OutOfFuel "opIssueReadWindow"
  | S fuel =>
      if (op_next_dma_off g <? op_in_bytes g) && (op_dma_outstanding g <? kMaxOpDmaOutstanding) then
        let off := op_next_dma_off g in
        let addr := u64 (src_addr (op_args g) + off) in
        let n := memoryChunkSize addr (op_in_bytes g - off) (mem_line_size P) kOpDmaChunk in
        let id := next_id g in
        issue_reads fuel
          (send (MemRead id addr n)
             (g <| next_id ::= Z.succ |> <| op_req_off ::= <[id := off]> |>
                <| op_next_dma_off ::= fun o => u64 (o + n) |>
                <| op_dma_outstanding ::= fun o => u64 (o + 1) |>))
      else Ok g
  end.
Definition opIssueReadWindow : Gpu -> result Gpu := issue_reads window_fuel.

Fixpoint issue_writes (fuel : nat) (g : Gpu) : result Gpu :=
  match fuel with
  | O => Throw OutOfFuel "opIssueWriteWindow"
  | S fuel =>
      let total := Z.of_nat (length (op_out g)) in
      if (op_next_dma_off g <? total) && (op_dma_outstanding g <? kMaxOpDmaOutstanding) then
        let off := op_next_dma_off g in
        let addr := u64 (dst_addr (op_args g) + off) in
        let n := memoryChunkSize addr (total - off) (mem_line_size P) kOpDmaChunk in
        let chunk := slice (op_out g) (Z.to_nat off) (Z.to_nat n) in
        issue_writes fuel
          (send (MemWrite (next_id g) addr chunk)
             (g <| next_id ::= Z.succ |> <| op_next_dma_off ::= fun o => u64 (o + n) |>
                <| op_dma_outstanding ::= fun o => u64 (o + 1) |>))
      else Ok g
  end.
Definition opIssueWriteWindow : Gpu -> result Gpu := issue_writes window_fuel.

Definition opFinish (g : Gpu) : result Gpu :=
  emitOpCompleted g ≫= fun g =>
  let g := g <| op_phase := IDLE |> <| kernel_id ::= fun n => u64 (n + 1) |> in
  raiseIrqOnRetire (release_doorbell g) ≫= fun g =>
  Ok (updatePrimaryHold true g).

Definition opOnWriteResp (g : Gpu) : result Gpu :=
  if op_dma_outstanding g =? 0 then Ok g
  else
    opIssueWriteWindow (g <| op_dma_outstanding ::= Z.pred |>) ≫= fun g =>
    if (op_dma_outstanding g =? 0) && (op_next_dma_off g =? Z.of_nat (length (op_out g)))
    then opFinish g else Ok g.

Definition opBeginWriteback (g : Gpu) : result Gpu :=
  if negb (dmaRangeOk (dst_addr (op_args g)) (Z.of_nat (length (op_out g)))) then
    opReject "output buffer escapes the DMA range (dma_range_start/end)" g
  else
    opIssueWriteWindow (g <| op_phase := WRITING |> <| op_dma_outstanding := 0 |>
                          <| op_next_dma_off := 0 |>) ≫= fun g =>
    Ok (updatePrimaryHold false g).

Definition opComputeAndStartBusy (K : QuetzKernel) (g : Gpu) : result Gpu :=
  let (out, kernel_lat) := compute K (data_big_endian P) (op_args g) (op_in g) in
  let g := g <| op_out := out |> in
  throw_if (bool_decide (out = [])) Fatal "kernel produced no output bytes" ≫= fun _ =>
  let latency := latency_override g in
  let g := g <| latency_override := 0 |> in
  let latency := if latency =? 0 then (if kernel_lat =? 0 then kernel_latency P else kernel_lat)
                 else latency in
  let g := count kernels_launched g in
  if latency =? 0 then opBeginWriteback g
  else Ok (updatePrimaryHold false (g <| busy_until_clk := u64 (gpu_clk g + latency) |>)).

(** [for (i = 0; i < data.size() && off + i < op_in_bytes_; i++) op_in_[off + i] = data[i]] *)
Definition store_in (off bytes : Z) (data : list Z) (buf : list Z) : list Z :=
  splice buf (Z.to_nat off) (take (Z.to_nat (bytes - off)) data).

Definition opOnReadResp (K : QuetzKernel) (id : Z) (data : list Z) (g : Gpu) : result Gpu :=
  match op_req_off g !! id with
  | None => Throw Fatal "kernel-DMA ReadResp with unknown id"
  | Some off =>
      opIssueReadWindow
        (g <| op_req_off ::= delete id |>
           <| op_in ::= store_in off (op_in_bytes g) data |>
           <| op_dma_outstanding ::= Z.pred |>) ≫= fun g =>
      if (op_dma_outstanding g =? 0) && (op_next_dma_off g =? op_in_bytes g)
      then opComputeAndStartBusy K g else Ok g
  end.

Definition opStartDma (K : QuetzKernel) (g : Gpu) : result Gpu :=
  let (bytes, err) := inputBytes K (op_args g) in
  let g := g <| op_in_bytes := bytes |> in
  if bytes =? 0 then
    opReject (if String.eqb err "" then "kernel rejected the args (no reason given)" else err) g
  else if negb (dmaRangeOk (src_addr (op_args g)) bytes) then
    opReject "input buffer escapes the DMA range (dma_range_start/end)" g
  else if negb (dmaRangeOk (dst_addr (op_args g)) 1) then
    opReject "output buffer base escapes the DMA range (dma_range_start/end)" g
  else
    opIssueReadWindow
      (g <| op_in := replicate (Z.to_nat bytes) 0 |> <| op_req_off := ∅ |>
         <| op_dma_outstanding := 0 |> <| op_next_dma_off := 0 |>
         <| op_phase := READING |>) ≫= fun g =>
    Ok (updatePrimaryHold false g).

(** ** Modelled latency *)

Definition startKernel (now_clk latency : Z) (g : Gpu) : result Gpu :=
  let g := count kernels_launched g in
  (if latency =? 0 then
     raiseIrqOnRetire (g <| kernel_id ::= fun n => u64 (n + 1) |> <| busy_until_clk := 0 |>)
   else Ok (g <| busy_until_clk := u64 (now_clk + latency) |>)) ≫= fun g =>
  Ok (updatePrimaryHold false g).

(** [while (!pending.empty() && busy_until_clk_ == 0)]: one pass per entry. *)
Fixpoint start_pending (fuel : nat) (now_clk : Z) (g : Gpu) : result Gpu :=
  match fuel with
  | O => Throw OutOfFuel "retireIfReady"
  | S fuel =>
      match pending_latencies g with
      | latency :: rest =>
          if busy_until_clk g =? 0 then
            startKernel now_clk latency (g <| pending_latencies := rest |>) ≫= fun g =>
            start_pending fuel now_clk g
          else Ok g
      | [] => Ok g
      end
  end.

Definition release_deferred (g : Gpu) : Gpu :=
  match deferred_doorbell_resp g with
  | Some w => send (WriteResp (wr_id w)) (g <| deferred_doorbell_resp := None |>)
  | None => g
  end.

Definition retireIfReady (now_clk : Z) (g : Gpu) : result Gpu :=
  if (busy_until_clk g =? 0) || (now_clk <? busy_until_clk g) then Ok g
  else if bool_decide (is_Some (kernel P)) && bool_decide (op_phase g = READING) then
    opBeginWriteback (g <| busy_until_clk := 0 |>)
  else
    let g := g <| kernel_id ::= fun n => u64 (n + 1) |> <| busy_until_clk := 0 |> in
    raiseIrqOnRetire (release_deferred g) ≫= fun g =>
    start_pending (S (length (pending_latencies g))) now_clk g.

Definition tickBusy (g : Gpu) : result Gpu :=
  let g := g <| gpu_clk ::= fun n => u64 (n + 1) |> in
  let g := if busy_until_clk g =? 0 then g else count busy_cycles g in
  retireIfReady (gpu_clk g) g ≫= fun g =>
  Ok (updatePrimaryHold true g).

(** ** MMIO *)

Definition respond (w : WriteReq) (g : Gpu) : Gpu :=
  if wr_posted w then g else send (WriteResp (wr_id w)) g.

Definition offset_of (addr : Z) : Z := u64 (addr - base_addr P).

(** Doorbell with a kernel loaded. *)
Definition ring_kernel (K : QuetzKernel) (w : WriteReq) (g : Gpu) : result Gpu :=
  let g := count doorbell_writes g in
  throw_if (negb (bool_decide (op_phase g = IDLE)) || isBusyAt g) Fatal
    "doorbell while a kernel op is in flight" ≫= fun _ =>
  let g := if negb (wr_posted w) && doorbell_blocking P
           then g <| op_doorbell_resp := Some w |> else g in
  let g := g <| submit_id ::= fun n => u64 (n + 1) |> in
  let a := arg_regs g in
  let g := g <| op_args := mkArgs (a !!! 0%nat) (a !!! 1%nat) (a !!! 2%nat) (a !!! 3%nat) |> in
  emitOpRequested g ≫= fun g =>
  opStartDma K g ≫= fun g =>
  Ok (if negb (wr_posted w) && negb (doorbell_blocking P) then send (WriteResp (wr_id w)) g else g).

(** Doorbell of the latency model. *)
Definition ring_latency (g : Gpu) : result Gpu :=
  let latency := if latency_override g =? 0 then kernel_latency P else latency_override g in
  let g := g <| latency_override := 0 |> in
  retireIfReady (gpu_clk g) g ≫= fun g =>
  (if negb (isBusyAt g) && bool_decide (pending_latencies g = []) then
     startKernel (gpu_clk g) latency (g <| submit_id ::= fun n => u64 (n + 1) |>)
   else if Z.of_nat (length (pending_latencies g)) <? kMaxPendingLaunches then
     Ok (updatePrimaryHold false
           (count doorbell_while_busy
              (g <| submit_id ::= fun n => u64 (n + 1) |>
                 <| pending_latencies ::= fun l => l ++ [latency] |>)))
   else Ok (count doorbell_while_busy g)) ≫= fun g =>
  Ok (count doorbell_writes g).

Definition set_arg (i : nat) (w : WriteReq) (g : Gpu) : Gpu :=
  g <| arg_regs ::= <[i := dataToU64 (wr_data w)]> |>.

Definition bad_word (w : WriteReq) : bool :=
  negb (wr_size w =? 4) || negb (Z.of_nat (length (wr_data w)) =? 4).

(** Every other register. *)
Definition write_register (offset : Z) (w : WriteReq) (g : Gpu) : result Gpu :=
  if ((offset =? REG_ISR_ENTRY) || (offset =? REG_IRQ_SETTLED)) && irq_witnesses P then
    throw_if (bad_word w) Fatal "IRQ witness must be a 32-bit write" ≫= fun _ =>
    emitIrqEvent (if offset =? REG_ISR_ENTRY then "irq-delivered" else "irq-settled")
      (u32 (dataToU64 (wr_data w)))
      (if offset =? REG_ISR_ENTRY then "guest-isr-entry" else "guest-intc-clear") g
  else if (offset =? REG_CPU_CHECKPOINT) && cpu_checkpoints P then
    throw_if (bad_word w || bool_decide (kernel P = None) || negb (enabled (event_writer g))) Fatal
      "invalid CPU checkpoint configuration or width" ≫= fun _ =>
    log_event (emitCpuCheckpoint (now_ns g) (submit_id g) (u32 (dataToU64 (wr_data w)))
                 (negb (bool_decide (op_phase g = IDLE))))
      "CPU checkpoint was not durable: " g
  else if offset =? REG_LATENCY_OVERRIDE then
    Ok (count latency_overrides (g <| latency_override := dataToU64 (wr_data w) |>))
  else if offset =? REG_ARG0 then Ok (set_arg 0 w g)
  else if offset =? REG_ARG1 then Ok (set_arg 1 w g)
  else if offset =? REG_ARG2 then Ok (set_arg 2 w g)
  else if offset =? REG_ARG3 then Ok (set_arg 3 w g)
  else if offset =? REG_IRQ_ACK then
    let consume := dataToU64 (wr_data w) in
    if consume =? 0 then Ok g else ackIrq consume g
  else if (offset =? REG_STATUS) || (offset =? REG_KERNEL_ID) || (offset =? REG_TICKET) ||
          (offset =? REG_RESULT) then Ok (count wrong_direction_accesses g)
  else Ok (count bad_offset_accesses g).

(** [mmioHandlers::handle(Write)] *)
Definition handle_write (w : WriteReq) (g : Gpu) : result Gpu :=
  let offset := offset_of (wr_addr w) in
  match kernel P with
  | Some K => if offset =? REG_DOORBELL then ring_kernel K w g
              else write_register offset w g ≫= fun g => Ok (respond w g)
  | None =>
      if offset =? REG_DOORBELL then
        ring_latency g ≫= fun g =>
        if doorbell_blocking P && isBusyAt g && negb (wr_posted w) then
          match deferred_doorbell_resp g with
          | Some _ => Throw Fatal "doorbell while a blocking doorbell is outstanding"
          | None => Ok (g <| deferred_doorbell_resp := Some w |>)
          end
        else Ok (respond w g)
      else write_register offset w g ≫= fun g => Ok (respond w g)
  end.

(** [mmioHandlers::handle(Read)]: the value and the device after the read. *)
Definition read_register (offset : Z) (g : Gpu) : result (Z * Gpu) :=
  if offset =? REG_STATUS then
    retireIfReady (gpu_clk g) g ≫= fun g =>
    Ok (if isBusyAt g || negb (bool_decide (op_phase g = IDLE)) then 1 else 0, count status_polls g)
  else if (offset =? REG_KERNEL_ID) || (offset =? REG_RESULT) then
    retireIfReady (gpu_clk g) g ≫= fun g => Ok (kernel_id g, g)
  else if offset =? REG_TICKET then Ok (submit_id g, g)
  else if offset =? REG_IRQ_ACK then Ok (if irq_pending g then 1 else 0, g)
  else if (offset =? REG_DOORBELL) || (offset =? REG_LATENCY_OVERRIDE) then
    Ok (0, count wrong_direction_accesses g)
  else Ok (0, count bad_offset_accesses g).

Definition handle_read (r : ReadReq) (g : Gpu) : result Gpu :=
  read_register (offset_of (rd_addr r)) g ≫= fun '(value, g) =>
  Ok (send (ReadResp (rd_id r) (u64ToData value (rd_size r))) g).

(** ** Events that drive the device *)

Inductive Event : Type :=
  | Tick
  | Write (w : WriteReq)
  | Read (r : ReadReq)
  | DmaReadResp (id : Z) (data : list Z)
  | DmaWriteResp
  | Time (ns : Z).

Definition step (e : Event) (g : Gpu) : result Gpu :=
  match e with
  | Tick => tickBusy g
  | Write w => handle_write w g
  | Read r => handle_read r g
  | DmaReadResp id data =>
      match kernel P with
      | Some K => opOnReadResp K id data g
      | None => Throw Fatal "kernel-DMA ReadResp with unknown id"
      end
  | DmaWriteResp => opOnWriteResp g
  | Time ns => Ok (g <| now_ns := ns |>)
  end.

Fixpoint run (es : list Event) (g : Gpu) : result Gpu :=
  match es with
  | [] => Ok g
  | e :: es => step e g ≫= fun g => run es g
  end.
End Device.
