(* ===== verification/GpuLatency.v ===== *)
(** * The accelerator's latency model

    Without a kernel the device only models time: tickets are issued and
    retired in order, at most eight launches wait, none is stranded, and every
    accepted launch retires after exactly the sum of the latencies ahead of
    it. *)
From S2P Require Import Prelude.
From S2P Require Import StdMem.
From S2P Require Import EventWriter.
From S2P Require Import Kernel.
From S2P Require Import Gpu.

Section Latency.
Context `{FileSystem} (P : Params).

(** The configurations considered: no kernel, so (by [construct]) no IRQ
    witnesses; doorbells are acknowledged at once. *)
Record latency_only : Prop :=
  { lo_kernel : kernel P = None;
    lo_witness : irq_witnesses P = false;
    lo_checkpoints : cpu_checkpoints P = false;
    lo_blocking : doorbell_blocking P = false;
    lo_latency : 0 <= kernel_latency P < 2 ^ 62 }.
Hypothesis LO : latency_only.

(** The part of the state the launch accounting is about. *)
Record view := mkView
  { v_clk : Z; v_busy : Z; v_kernel_id : Z; v_submit_id : Z; v_override : Z;
    v_pending : list Z; v_phase : OpPhase }.
Definition view_of (g : Gpu) : view :=
  mkView (gpu_clk g) (busy_until_clk g) (kernel_id g) (submit_id g) (latency_override g)
    (pending_latencies g) (op_phase g).

Definition busy_one (g : Gpu) : Z := if busy_until_clk g =? 0 then 0 else 1.

(** Tickets: every ticket issued is retired, running or queued. *)
Record between (g : Gpu) : Prop :=
  { bt_tickets : submit_id g = kernel_id g + Z.of_nat (length (pending_latencies g)) + busy_one g;
    bt_kernel : 0 <= kernel_id g;
    bt_queue : (length (pending_latencies g) <= 8)%nat;
    bt_idle : op_phase g = IDLE;
    bt_lat : Forall (fun l => 0 <= l < 2 ^ 62) (pending_latencies g);
    bt_override : 0 <= latency_override g < 2 ^ 62;
    bt_busy : busy_until_clk g = 0 \/ gpu_clk g < busy_until_clk g;
    bt_clk : 0 <= gpu_clk g }.

(** ... and no launch waits while nothing runs. *)
Definition accounted (g : Gpu) : Prop :=
  between g /\ (busy_until_clk g = 0 -> pending_latencies g = []).

(** Device cycles until everything accepted so far has retired. *)
Definition work (g : Gpu) : Z :=
  (if busy_until_clk g =? 0 then 0 else busy_until_clk g - gpu_clk g) + foldr Z.add 0 (pending_latencies g).

(** Far from the end of the 64-bit counters. *)
Definition in_time (g : Gpu) : Prop := gpu_clk g < 2 ^ 62 /\ submit_id g < 2 ^ 62.

Lemma between_view g g' : view_of g' = view_of g -> between g -> between g'.
Proof.
  intros E [A1 A2 A3 A5 A6 A7 A8 A9]. unfold view_of in E. injection E as E1 E2 E3 E4 E5 E6 E7.
  unfold busy_one in *. split; unfold busy_one; rewrite ?E1, ?E2, ?E3, ?E4, ?E5, ?E6, ?E7; assumption.
Qed.

Lemma accounted_view g g' : view_of g' = view_of g -> accounted g -> accounted g'.
Proof.
  intros E [B N]. split; [apply (between_view g); assumption |].
  unfold view_of in E. injection E as _ -> _ _ _ -> _. exact N.
Qed.

Lemma raise_view g : exists g', raiseIrqOnRetire P g = Ok g' /\ view_of g' = view_of g.
Proof.
  unfold raiseIrqOnRetire, emitIrqEvent. rewrite (lo_witness LO). cbn [negb mbind result_bind].
  repeat (match goal with |- context [if ?b then _ else _] => destruct b end);
    eexists; (split; [reflexivity |]); reflexivity.
Qed.

Lemma ack_view n g : exists g', ackIrq P n g = Ok g' /\ view_of g' = view_of g.
Proof.
  unfold ackIrq, emitIrqEvent. rewrite (lo_witness LO). cbn [negb].
  destruct (_ || _); [eauto |]. cbn [mbind result_bind].
  destruct (0 <? _); eexists; (split; [reflexivity |]); reflexivity.
Qed.

Lemma hold_view b g : view_of (updatePrimaryHold b g) = view_of g.
Proof. unfold updatePrimaryHold. repeat case_match; reflexivity. Qed.

(** [startKernel] in terms of the view. *)
Lemma startKernel_view now l g : exists g', startKernel P now l g = Ok g' /\
  view_of g' = if l =? 0 then view_of (g <| kernel_id ::= fun n => u64 (n + 1) |> <| busy_until_clk := 0 |>)
               else view_of (g <| busy_until_clk := u64 (now + l) |>).
Proof.
  unfold startKernel. destruct (l =? 0).
  - match goal with |- context [raiseIrqOnRetire P ?k] => destruct (raise_view k) as (g' & -> & E) end.
    eexists. split; [reflexivity |]. rewrite hold_view. exact E.
  - eexists. split; [reflexivity |]. rewrite hold_view. reflexivity.
Qed.

(** Starting a launch of latency [l] whose ticket has just been issued. *)
Lemma start_between l g : busy_until_clk g = 0 -> 0 <= l < 2 ^ 62 -> in_time g ->
  between (g <| submit_id ::= Z.pred |>) ->
  exists g', startKernel P (gpu_clk g) l g = Ok g' /\ between g' /\
    gpu_clk g' = gpu_clk g /\ submit_id g' = submit_id g /\
    pending_latencies g' = pending_latencies g /\ work g' = work g + l /\
    (l <> 0 -> busy_until_clk g' <> 0) /\ latency_override g' = latency_override g.
Proof.
  intros Hb Hl [T1 T2] [H1 H2 H3 H4 H5 H6 _ H7].
  unfold busy_one in *. cbn in H1, H2, H3, H4, H5, H6, H7. rewrite Hb in H1. cbn in H1.
  destruct (startKernel_view (gpu_clk g) l g) as (g' & E & V). exists g'. split; [exact E |].
  unfold view_of in V. unfold work. rewrite Hb. cbn [Z.eqb].
  destruct (Z.eqb_spec l 0) as [->|Hl0].
  all: injection V as E1 E2 E3 E4 E5 E6 E7; cbn in E1, E2, E3, E4, E5, E6, E7.
  - rewrite wrap_small in E3 by word.
    split; [split; unfold busy_one; rewrite ?E1, ?E2, ?E3, ?E4, ?E5, ?E6, ?E7; cbn; auto; lia |].
    rewrite E1, E2, E4, E5, E6. cbn. repeat split; auto; lia.
  - rewrite wrap_small in E2 by word.
    assert (Hne : (gpu_clk g + l =? 0) = false) by lia.
    split; [split; unfold busy_one; rewrite ?E1, ?E2, ?E3, ?E4, ?E5, ?E6, ?E7, ?Hne; auto; try lia |].
    rewrite E1, E2, E4, E5, E6, Hne. repeat split; auto; lia.
Qed.

(** The queue drains until a launch runs or it is empty: nothing is stranded. *)
Lemma start_pending_ok n : forall g, between g -> in_time g -> (length (pending_latencies g) < n)%nat ->
  exists g', start_pending P n (gpu_clk g) g = Ok g' /\ accounted g' /\
    gpu_clk g' = gpu_clk g /\ submit_id g' = submit_id g /\ work g' = work g /\
    latency_override g' = latency_override g.
Proof.
  induction n as [|n IH]; intros g B T Hn; [lia |]. cbn [start_pending].
  pose proof B as [B1 B2 B3 B4 B5 B6 B7 B8].
  destruct (pending_latencies g) as [|l rest] eqn:Ep.
  { exists g. repeat (split; [reflexivity || (split; auto) |]). reflexivity. }
  destruct (Z.eqb_spec (busy_until_clk g) 0) as [Hb|Hb].
  2:{ exists g. split; [reflexivity |]. split; [split; [assumption | contradiction] | auto]. }
  cbn [length] in *. apply Forall_cons in B5 as [Hl B5]. unfold busy_one in B1. rewrite Hb in B1. cbn in B1.
  destruct (start_between l (g <| pending_latencies := rest |>))
    as (g1 & E1 & B' & C1 & C2 & C3 & C4 & _ & C5); try assumption.
  { split; unfold busy_one; cbn; rewrite ?Hb; cbn; auto; lia. }
  change (gpu_clk (g <| pending_latencies := rest |>)) with (gpu_clk g) in E1, C1.
  change (submit_id (g <| pending_latencies := rest |>)) with (submit_id g) in C2.
  change (latency_override (g <| pending_latencies := rest |>)) with (latency_override g) in C5.
  change (pending_latencies (g <| pending_latencies := rest |>)) with rest in C3. rewrite E1. cbn [mbind result_bind].
  assert (T1 : in_time g1) by (unfold in_time; rewrite C1, C2; exact T).
  destruct (IH g1 B' T1) as (g' & E & A & D1 & D2 & D3 & D4); [rewrite C3; lia |].
  rewrite C1 in E. exists g'. split; [exact E |].
  repeat (split; [assumption || congruence |]). split; [| congruence].
  rewrite D3, C4. unfold work. cbn. rewrite Ep, Hb. cbn. lia.
Qed.

(** [retireIfReady] never leaves a launch stranded. *)
Lemma retire_ok g : accounted (g <| gpu_clk ::= Z.pred |>) -> in_time g -> 0 <= gpu_clk g ->
  exists g', retireIfReady P (gpu_clk g) g = Ok g' /\ accounted g' /\
    gpu_clk g' = gpu_clk g /\ submit_id g' = submit_id g /\ work g' = work g /\
    latency_override g' = latency_override g.
Proof.
  intros [B N] T Hc. pose proof B as [B1 B2 B3 B4 B5 B6 B7 B8].
  unfold busy_one in B1. cbn in B1, B2, B3, B4, B5, B6, B7, B8, N. unfold retireIfReady.
  destruct (Z.eqb_spec (busy_until_clk g) 0) as [Hb|Hb]; cbn [orb].
  { exists g. split; [reflexivity |]. split; [| auto].
    split; [split; unfold busy_one; auto; rewrite Hb; auto |]. auto. }
  destruct (Z.ltb_spec (gpu_clk g) (busy_until_clk g)) as [Hlt|Hge].
  { exists g. split; [reflexivity |]. split; [| auto].
    split; [split; unfold busy_one; auto; rewrite (proj2 (Z.eqb_neq _ _) Hb); auto |]. contradiction. }
  rewrite (lo_kernel LO). cbn [is_Some]. rewrite bool_decide_false by (intros [? ?]; discriminate).
  cbn [andb].
  set (g1 := g <| kernel_id ::= _ |> <| busy_until_clk := 0 |>).
  assert (E0 : view_of (release_deferred g1) = view_of g1)
    by (unfold release_deferred; case_match; reflexivity).
  destruct (raise_view (release_deferred g1)) as (g2 & E2 & V2). rewrite E2. cbn [mbind result_bind].
  rewrite E0 in V2. destruct T as [T1 T2].
  assert (Hid : u64 (kernel_id g + 1) = kernel_id g + 1) by (apply wrap_small; word).
  assert (B2' : between g2).
  { apply (between_view g1); [assumption |].
    split; unfold busy_one, g1; cbn; rewrite ?Hid; auto; lia. }
  unfold view_of in V2. injection V2 as F1 F2 F3 F4 F5 F6 F7. cbn in F1, F2, F3, F4, F5, F6, F7.
  destruct (start_pending_ok (S (length (pending_latencies g2))) g2 B2')
    as (g' & E & A & D1 & D2 & D3 & D4); [unfold in_time; rewrite F1, F4; split; assumption | lia |].
  rewrite F1 in E. exists g'. split; [exact E |]. split; [assumption |].
  split; [congruence | split; [congruence | split; [| congruence]]].
  rewrite D3. unfold work. rewrite F1, F2, F6, (proj2 (Z.eqb_neq _ _) Hb). cbn. lia.
Qed.
(** ** One event *)

(** Nothing is due at the current clock, so retiring does nothing. *)
Lemma retire_not_due g : accounted g -> retireIfReady P (gpu_clk g) g = Ok g.
Proof.
  intros [B _]. unfold retireIfReady. destruct (bt_busy g B) as [->|Hlt]; [reflexivity |].
  rewrite (proj2 (Z.ltb_lt _ _) Hlt), orb_true_r. reflexivity.
Qed.

Lemma busy_one_range g : 0 <= busy_one g <= 1.
Proof. unfold busy_one. case_match; lia. Qed.

Lemma sum_nonneg l : Forall (fun l => 0 <= l < 2 ^ 62) l -> 0 <= foldr Z.add 0 l.
Proof. induction 1; cbn; lia. Qed.

Lemma tick_ok g : accounted g -> in_time (g <| gpu_clk ::= Z.succ |>) ->
  exists g', tickBusy P g = Ok g' /\ accounted g' /\ gpu_clk g' = gpu_clk g + 1 /\
    submit_id g' = submit_id g /\ work g' = Z.max 0 (work g - 1).
Proof.
  intros A T. pose proof A as [B N]. pose proof (bt_clk g B) as Hc.
  assert (E1 : u64 (gpu_clk g + 1) = gpu_clk g + 1) by (destruct T; cbn in *; apply wrap_small; word).
  unfold tickBusy. set (g1 := g <| gpu_clk ::= _ |>).
  assert (V1 : exists g2, (if busy_until_clk g1 =? 0 then g1 else count busy_cycles g1) = g2 /\
    view_of g2 = view_of g1) by (eexists; split; [reflexivity | case_match; reflexivity]).
  destruct V1 as (g2 & -> & V2). unfold view_of in V2. injection V2 as F1 F2 F3 F4 F5 F6 F7.
  cbn in F1, F2, F3, F4, F5, F6, F7. rewrite E1 in F1.
  destruct (retire_ok g2) as (g' & E & A' & D1 & D2 & D3 & D4).
  - apply (accounted_view g); [| assumption]. unfold view_of. cbn. f_equal; congruence || lia.
  - unfold in_time in *. rewrite F1, F4. exact T.
  - lia.
  - rewrite E. cbn [mbind result_bind]. eexists. split; [reflexivity |].
    pose proof (hold_view true g') as V. split; [apply (accounted_view g'); assumption |].
    assert (W : work (updatePrimaryHold true g') = work g').
    { unfold view_of in V. unfold work. injection V as -> -> _ _ _ -> _. reflexivity. }
    unfold view_of in V. injection V as -> _ _ -> _ _ _. split; [congruence | split; [congruence |]].
    rewrite W, D3. unfold work. rewrite F1, F2, F6.
    pose proof (sum_nonneg _ (bt_lat g B)).
    destruct (Z.eqb_spec (busy_until_clk g) 0) as [Hb|Hb].
    + rewrite (N Hb). cbn. lia.
    + destruct (bt_busy g B); lia.
Qed.

(** A doorbell: accepted with a new ticket and its latency added to the work,
    unless eight launches already wait, in which case it is dropped. *)
Lemma ring_ok g : accounted g -> in_time (g <| submit_id ::= Z.succ |>) ->
  let l := if latency_override g =? 0 then kernel_latency P else latency_override g in
  let accepted := (length (pending_latencies g) <? 8)%nat in
  exists g', ring_latency P g = Ok g' /\ accounted g' /\ gpu_clk g' = gpu_clk g /\
    latency_override g' = 0 /\
    submit_id g' = submit_id g + (if accepted then 1 else 0) /\
    work g' = work g + (if accepted then l else 0).
Proof.
  intros A [T1 T2] l accepted. cbn in T1, T2. pose proof A as [B N]. pose proof B as [B1 B2 B3 B4 B5 B6 B7 B8].
  assert (Hl : 0 <= l < 2 ^ 62) by (unfold l; case_match; [apply LO | assumption]).
  unfold ring_latency. fold l. set (g1 := g <| latency_override := 0 |>).
  assert (A1 : accounted g1) by (split; [split |]; assumption || (cbn; lia)).
  change (gpu_clk g) with (gpu_clk g1). rewrite retire_not_due by assumption. cbn [mbind result_bind].
  assert (E4 : u64 (submit_id g + 1) = submit_id g + 1)
    by (pose proof (busy_one_range g); apply wrap_small; word).
  unfold isBusyAt. rewrite negb_involutive.
  change (busy_until_clk g1) with (busy_until_clk g).
  change (pending_latencies g1) with (pending_latencies g).
  destruct (Z.eqb_spec (busy_until_clk g) 0) as [Hb|Hb]; cbn [andb].
  - rewrite bool_decide_true by auto.
    set (g2 := g1 <| submit_id ::= _ |>).
    destruct (start_between l g2) as (g3 & E & B' & D1 & D2 & D3 & D4 & D5 & D6); try assumption.
    + unfold in_time, g2; cbn. rewrite E4. unfold busy_one in B1. rewrite Hb in B1. cbn in B1.
      split; [assumption |]. lia.
    + split; unfold busy_one, g2; cbn; rewrite ?E4, ?Hb; auto; try lia.
      rewrite B1. unfold busy_one. rewrite Hb. lia.
    + change (gpu_clk g2) with (gpu_clk g1) in E. rewrite E. cbn [mbind result_bind].
      eexists. split; [reflexivity |].
      assert (accepted = true) as -> by (unfold accepted; rewrite N by assumption; reflexivity).
      split; [|split; [exact D1 | split; [exact D6 | split; [|]]]].
      * apply (accounted_view g3); [reflexivity |]. split; [assumption |]. intros _.
        rewrite D3. apply N. exact Hb.
      * change (submit_id g3 = submit_id g + 1). rewrite D2. exact E4.
      * change (work g3 = work g + l). rewrite D4. reflexivity.
  - destruct (Z.ltb_spec (Z.of_nat (length (pending_latencies g))) kMaxPendingLaunches) as [Hq|Hq];
      unfold kMaxPendingLaunches in Hq; eexists; (split; [reflexivity |]).
    + assert (accepted = true) as -> by (unfold accepted; apply Nat.ltb_lt; lia).
      match goal with |- accounted (count _ (updatePrimaryHold _ ?k)) /\ _ => set (g2 := k) end.
      pose proof (hold_view false g2) as V.
      assert (W : work (updatePrimaryHold false g2) = work g2).
      { unfold view_of in V. unfold work. injection V as -> -> _ _ _ -> _. reflexivity. }
      split; [apply (accounted_view g2); [exact V |] |].
      * split; [split; unfold busy_one, g2; cbn; rewrite ?E4, ?length_app; cbn; auto; try lia |].
        -- rewrite B1. unfold busy_one. lia.
        -- apply Forall_app; split; [assumption |]. constructor; [assumption | constructor].
        -- intros Hb'. contradiction.
      * unfold view_of in V. injection V as V1 _ _ V4 V5 _ _.
        split; [exact V1 | split; [exact V5 | split; [rewrite <- E4; exact V4 |]]].
        change (work (updatePrimaryHold false g2) = work g + l). rewrite W. unfold work, g2. cbn.
        rewrite foldr_app. cbn. clear. generalize (pending_latencies g). intros q.
        assert (foldr Z.add (l + 0) q = foldr Z.add 0 q + l) as ->; [| lia].
        induction q as [|x q IH]; cbn; [lia |]. rewrite IH. lia.
    + assert (accepted = false) as -> by (unfold accepted; apply Nat.ltb_ge; lia).
      split; [apply (accounted_view g1); [reflexivity | assumption] |].
      split; [reflexivity | split; [reflexivity | split; [cbn; lia |]]].
      unfold work. cbn. lia.
Qed.
(** The events a latency-only device can see: the guest's override values stay
    below 2^62 and there are no DMA responses. *)
Definition ev_ok (e : Event) : Prop :=
  match e with
  | Write w => offset_of P (wr_addr w) = REG_LATENCY_OVERRIDE -> 0 <= dataToU64 (wr_data w) < 2 ^ 62
  | DmaReadResp _ _ | DmaWriteResp => False
  | Tick | Read _ | Time _ => True
  end.

Lemma write_register_ok off w g : accounted g ->
  (off = REG_LATENCY_OVERRIDE -> 0 <= dataToU64 (wr_data w) < 2 ^ 62) ->
  exists g', write_register P off w g = Ok g' /\ accounted g' /\ gpu_clk g' = gpu_clk g /\
    submit_id g' = submit_id g.
Proof.
  intros A Hov. unfold write_register. rewrite (lo_witness LO), (lo_checkpoints LO), !andb_false_r.
  destruct (Z.eqb_spec off REG_LATENCY_OVERRIDE) as [Ho|_].
  { eexists. split; [reflexivity |]. split; [| auto]. destruct A as [[B1 B2 B3 B4 B5 B6 B7 B8] N].
    split; [split |]; try assumption. exact (Hov Ho). }
  assert (Hsame : forall k, view_of k = view_of g -> exists g', Ok k = Ok g' /\ accounted g' /\
    gpu_clk g' = gpu_clk g /\ submit_id g' = submit_id g).
  { intros k V. exists k. split; [reflexivity |]. split; [apply (accounted_view g); assumption |].
    unfold view_of in V. injection V as V1 _ _ V4 _ _ _. auto. }
  repeat match goal with |- context [if off =? ?r then _ else _] =>
    destruct (off =? r); [try (apply Hsame; reflexivity) |] end.
  - destruct (_ =? 0); [apply Hsame; reflexivity |].
    destruct (ack_view (dataToU64 (wr_data w)) g) as (g' & E & V). rewrite E. apply Hsame. exact V.
  - repeat case_match; apply Hsame; reflexivity.
Qed.

Lemma accounted_send g m : accounted (send m g) <-> accounted g.
Proof. split; apply accounted_view; reflexivity. Qed.

Lemma step_ok e g : accounted g -> gpu_clk g + 1 < 2 ^ 62 -> submit_id g + 1 < 2 ^ 62 -> ev_ok e ->
  exists g', step P e g = Ok g' /\ accounted g' /\
    gpu_clk g' <= gpu_clk g + 1 /\ submit_id g' <= submit_id g + 1.
Proof.
  intros A Hc Hs He. destruct e as [|w|r| | |ns]; try contradiction.
  - destruct (tick_ok g A) as (g' & E & A' & D1 & D2 & _); [split; cbn; lia |].
    exists g'. split; [exact E | split; [assumption | lia]].
  - cbn [step]. unfold handle_write. rewrite (lo_kernel LO), (lo_blocking LO). cbn [andb].
    destruct (Z.eqb_spec (offset_of P (wr_addr w)) REG_DOORBELL) as [Hd|Hd].
    + destruct (ring_ok g A) as (g' & E & A' & D1 & _ & D3 & _); [split; cbn; lia |].
      rewrite E. cbn [mbind result_bind]. eexists. split; [reflexivity |]. unfold respond.
      destruct (wr_posted w); cbn; (split; [exact A' || (apply accounted_send; exact A') |]);
        rewrite D1, D3; case_match; lia.
    + destruct (write_register_ok (offset_of P (wr_addr w)) w g A) as (g' & E & A' & D1 & D2).
      { intros Ho. apply He. exact Ho. }
      rewrite E. cbn [mbind result_bind]. eexists. split; [reflexivity |]. unfold respond.
      destruct (wr_posted w); cbn; (split; [exact A' || (apply accounted_send; exact A') | lia]).
  - cbn [step]. unfold handle_read.
    assert (HR : exists v g', read_register P (offset_of P (rd_addr r)) g = Ok (v, g') /\ view_of g' = view_of g).
    { unfold read_register. rewrite !retire_not_due by assumption. cbn [mbind result_bind].
      repeat (match goal with |- context [if ?b then _ else _] => destruct b end); do 2 eexists;
        (split; [reflexivity | reflexivity]). }
    destruct HR as (v & g' & -> & V). cbn [mbind result_bind]. eexists. split; [reflexivity |].
    split; [apply accounted_send, (accounted_view g); assumption |].
    unfold view_of in V. injection V as V1 _ _ V4 _ _ _. cbn. lia.
  - eexists. split; [reflexivity |]. split; [apply (accounted_view g); [reflexivity | assumption] |].
    cbn. lia.
Qed.

(** ** Whole runs *)

Lemma run_ok es : forall g, accounted g -> Forall ev_ok es ->
  gpu_clk g + Z.of_nat (length es) < 2 ^ 62 -> submit_id g + Z.of_nat (length es) < 2 ^ 62 ->
  exists g', run P es g = Ok g' /\ accounted g'.
Proof.
  induction es as [|e es IH]; intros g A He Hc Hs; cbn [run length] in *; [eauto |].
  apply Forall_cons in He as [He Hes].
  destruct (step_ok e g A) as (g1 & E & A1 & D1 & D2); [lia | lia | assumption |].
  rewrite E. cbn [mbind result_bind]. apply IH; [assumption | assumption | lia | lia].
Qed.

Lemma accounted_gpu0 w : accounted (gpu0 w).
Proof.
  split; [split |]; cbn; try lia; try reflexivity; try (left; reflexivity); constructor.
Qed.


Lemma work_zero g : accounted g -> work g <= 0 -> busy_until_clk g = 0 /\ pending_latencies g = [].
Proof.
  intros [B N] Hw. pose proof (sum_nonneg _ (bt_lat g B)). unfold work in Hw.
  destruct (Z.eqb_spec (busy_until_clk g) 0) as [Hb|Hb]; [auto |].
  destruct (bt_busy g B); lia.
Qed.

Lemma work_nonneg g : accounted g -> 0 <= work g.
Proof.
  intros [B N]. pose proof (sum_nonneg _ (bt_lat g B)). unfold work.
  destruct (Z.eqb_spec (busy_until_clk g) 0); [lia |]. destruct (bt_busy g B); lia.
Qed.

Lemma ticks_ok n : forall g, accounted g -> gpu_clk g + Z.of_nat n < 2 ^ 62 -> submit_id g < 2 ^ 62 ->
  exists g', run P (replicate n Tick) g = Ok g' /\ accounted g' /\ submit_id g' = submit_id g /\
    work g' = Z.max 0 (work g - Z.of_nat n).
Proof.
  induction n as [|n IH]; intros g A Hc Hs; cbn [replicate run].
  { exists g. split; [reflexivity | split; [assumption | split; [reflexivity |]]].
    pose proof (work_nonneg g A). lia. }
  destruct (tick_ok g A) as (g1 & E & A1 & D1 & D2 & D3); [split; cbn; lia |].
  cbn [step]. rewrite E. cbn [mbind result_bind].
  destruct (IH g1 A1) as (g' & E' & A' & D2' & D3'); [lia | lia |].
  exists g'. split; [exact E' | split; [assumption | split; [congruence |]]]. lia.
Qed.

(** Every accepted launch retires: after as many device clocks as there is
    work (the rest of the running launch and the latencies queued behind it)
    the device is idle and the last ticket issued is complete; one clock
    earlier it is not. *)
Lemma latency_model_retires g n : accounted g -> n = Z.to_nat (work g) ->
  gpu_clk g + work g < 2 ^ 62 -> submit_id g < 2 ^ 62 ->
  (exists g', run P (replicate n Tick) g = Ok g' /\ kernel_id g' = submit_id g /\
    pending_latencies g' = [] /\ busy_until_clk g' = 0) /\
  (forall k, (k < n)%nat -> exists g', run P (replicate k Tick) g = Ok g' /\ 0 < work g').
Proof.
  intros A -> Hc Hs. split.
  - destruct (ticks_ok (Z.to_nat (work g)) g A) as (g' & E & A' & D2 & D3).
    { pose proof (work_nonneg g A). lia. }
    { assumption. }
    exists g'. split; [exact E |]. destruct (work_zero g' A') as [Hb Hp]; [lia |].
    pose proof (bt_tickets g' (proj1 A')) as Ht. unfold busy_one in Ht. rewrite Hb, Hp in Ht. cbn in Ht.
    split; [lia | auto].
  - intros k Hk. destruct (ticks_ok k g A) as (g' & E & A' & D2 & D3); [lia | assumption |].
    exists g'. split; [exact E | lia].
Qed.

(** A doorbell with no override pending takes the configured latency; with
    one, the override, once.  It is accepted unless eight launches wait. *)
Lemma doorbell_spec g : accounted g -> gpu_clk g < 2 ^ 62 -> submit_id g + 1 < 2 ^ 62 ->
  let l := if latency_override g =? 0 then kernel_latency P else latency_override g in
  let accepted := (length (pending_latencies g) <? 8)%nat in
  exists g', ring_latency P g = Ok g' /\ accounted g' /\ latency_override g' = 0 /\
    submit_id g' = submit_id g + (if accepted then 1 else 0) /\
    work g' = work g + (if accepted then l else 0).
Proof.
  intros A Hc Hs l accepted.
  destruct (ring_ok g A) as (g' & E & A' & _ & D2 & D3 & D4); [split; cbn; lia |].
  exists g'. auto.
Qed.
End Latency.

(** ** The theorems at concrete inputs *)

Definition demo_params : Params :=
  mkParams 0x5000 0x400 3 false false false (-1) 0 None false 0 0 64 0
    "" "accelerator.quetz" "kernel" true false false true.

Lemma demo_latency_only : latency_only demo_params.
Proof. split; try reflexivity; cbn; lia. Qed.

Definition demo_doorbell : WriteReq := mkWrite 0 0x5000 4 [1; 0; 0; 0] false.


Definition demo_busy : Gpu := gpu0 writer0 <| submit_id := 1 |> <| busy_until_clk := 3 |>.

Lemma demo_accounted : accounted demo_busy.
Proof. split; [split |]; cbn; try lia; try reflexivity; try constructor; intros; discriminate. Qed.

Lemma latency_model_retires_witness : exists g,
  @run good_fs demo_params [Tick; Tick; Tick] demo_busy = Ok g /\ kernel_id g = 1.
Proof.
  destruct (@latency_model_retires good_fs demo_params demo_latency_only demo_busy 3) as [(g & E & Hk & _) _].
  - apply demo_accounted.
  - reflexivity.
  - vm_compute. reflexivity.
  - vm_compute. reflexivity.
  - exists g. split; [exact E | exact Hk].
Defined.

Lemma doorbell_spec_witness : exists g, @ring_latency good_fs demo_params demo_busy = Ok g /\ submit_id g = 2 /\ work g = 6.
Proof.
  destruct (@doorbell_spec good_fs demo_params demo_latency_only demo_busy) as (g & E & _ & _ & Hs & Hw).
  - apply demo_accounted.
  - vm_compute. reflexivity.
  - vm_compute. reflexivity.
  - exists g. split; [exact E | split; [exact Hs | exact Hw]].
Defined.
