(* ===== verification/GpuDma.v ===== *)
(** * Compute operations of the accelerator

    A doorbell with a kernel loaded reads the input buffer by DMA, computes,
    waits and writes the result back.  Memory answers the requests in any
    order.  Whatever that order, the operation ends with exactly the kernel's
    result in memory, or is rejected with memory untouched. *)
From S2P Require Import Prelude.
From S2P Require Import StdMem.
From S2P Require Import Backing.
From S2P Require Import MemSpan.
From S2P Require Import EventWriter.
From S2P Require Import Kernel.
From S2P Require Import Gpu.

Definition is_dma (m : Msg) : bool :=
  match m with MemRead _ _ _ | MemWrite _ _ _ => true | _ => false end.
Definition dma (l : list Msg) : list Msg := List.filter is_dma l.

Lemma dma_app l l' : dma (l ++ l') = dma l ++ dma l'.
Proof. apply List.filter_app. Qed.

Section Operation.
Context `{FileSystem} (P : Params) (K : QuetzKernel).
Hypothesis durable : forall n, can_flush n = true.
Hypothesis line_size_ok : 0 <= mem_line_size P.

(** ** The DMA window *)

(** What issuing requests leaves alone. *)
Definition ew (g : Gpu) : Gpu :=
  g <| op_req_off := ∅ |> <| next_id := 0 |> <| op_next_dma_off := 0 |>
    <| op_dma_outstanding := 0 |> <| sent := [] |>.

(** The operation's input: [n] bytes from [src]; its output: [out] at [dst]. *)
Variables (src n : Z) (m0 : mem).

Definition is_read (g : Gpu) (m : Msg) : Prop :=
  exists id off k, m = MemRead id (src + off) k /\ op_req_off g !! id = Some off /\
    0 <= off /\ 0 < k /\ off + k <= op_next_dma_off g /\ id < next_id g.

Definition msg_id (m : Msg) : Z :=
  match m with MemRead id _ _ | MemWrite id _ _ | WriteResp id | ReadResp id _ => id | Irq _ => 0 end.

(** The reads in flight and the bytes already here cover the part of the
    input that has been requested. *)
Record read_window (F : list Msg) (g : Gpu) : Prop :=
  { rw_next : 0 <= op_next_dma_off g <= n;
    rw_bytes : op_in_bytes g = n;
    rw_src : src_addr (op_args g) = src;
    rw_len : Z.of_nat (length (op_in g)) = n;
    rw_count : op_dma_outstanding g = Z.of_nat (length F);
    rw_max : Z.of_nat (length F) <= kMaxOpDmaOutstanding;
    rw_flight : Forall (is_read g) F;
    rw_ids : NoDup (map msg_id F);
    rw_cover : forall i, 0 <= i < op_next_dma_off g ->
      op_in g !!! Z.to_nat i = m0 (src + i) \/
      exists id off k, MemRead id (src + off) k ∈ F /\ off <= i < off + k }.

Definition span_ok : Prop := 0 <= src /\ 0 < n < 2 ^ 64 /\ src + n <= 2 ^ 64.

(** A request for the next chunk. *)
Lemma issue_one F g : span_ok -> read_window F g -> op_next_dma_off g < n ->
  Z.of_nat (length F) < kMaxOpDmaOutstanding ->
  let off := op_next_dma_off g in
  let k := memoryChunkSize (src + off) (n - off) (mem_line_size P) kOpDmaChunk in
  read_window (F ++ [MemRead (next_id g) (src + off) k])
    (g <| next_id ::= Z.succ |> <| op_req_off ::= <[next_id g := off]> |>
       <| op_next_dma_off := off + k |> <| op_dma_outstanding ::= Z.succ |>) /\ 0 < k.
Proof.
  intros (S1 & S2 & S3) [R1 R2 R3 R4 R5 R6 R7 R8 R9] Hn Hm off k.
  assert (Hk : 0 < k <= n - off).
  { destruct (memoryChunkSize_bounds (src + off) (n - off) (mem_line_size P) kOpDmaChunk); unfold kOpDmaChunk; lia. }
  split; [| lia]. split; cbn; rewrite ?length_app; cbn; try assumption; try lia.
  - apply Forall_app; split.
    + eapply Forall_impl; [exact R7 |]. intros m (id & o & j & -> & E & ? & ? & ? & ?).
      exists id, o, j. cbn. rewrite lookup_insert_ne by lia. repeat split; try assumption; lia.
    + constructor; [| constructor]. exists (next_id g), off, k. cbn.
      rewrite lookup_insert_eq. repeat split; lia.
  - rewrite map_app. apply NoDup_app. split; [assumption | split; [| apply NoDup_singleton]].
    intros x Hx Hx'. apply list_elem_of_singleton in Hx'. subst x. apply list_elem_of_fmap in Hx as (m & E & Hx).
    rewrite Forall_forall in R7. destruct (R7 m Hx) as (id & o & j & -> & _ & _ & _ & _ & ?). cbn in E. lia.
  - intros i Hi. destruct (Z.lt_ge_cases i off) as [Hlt|Hge].
    + destruct (R9 i) as [?|(id & o & j & Hin & ?)]; [lia | left; assumption | right].
      exists id, o, j. split; [apply elem_of_app; left; assumption | assumption].
    + right. exists (next_id g), off, k. split; [apply elem_of_app; right; left | lia].
Qed.

Lemma issue_reads_ok fuel : forall F g, span_ok -> read_window F g ->
  (Z.to_nat (kMaxOpDmaOutstanding - Z.of_nat (length F)) < fuel)%nat ->
  exists g' new, issue_reads P fuel g = Ok g' /\ sent g' = sent g ++ new /\ dma new = new /\
    read_window (F ++ new) g' /\ ew g' = ew g /\
    (op_next_dma_off g' = n \/ op_dma_outstanding g' = kMaxOpDmaOutstanding) /\
    2 * (n - op_next_dma_off g') + Z.of_nat (length (F ++ new)) <=
      2 * (n - op_next_dma_off g) + Z.of_nat (length F) /\
    (op_next_dma_off g < n -> Z.of_nat (length F) < kMaxOpDmaOutstanding -> new <> []).
Proof.
  induction fuel as [|fuel IH]; intros F g S W Hf; [lia |]. cbn [issue_reads].
  pose proof W as [R1 R2 R3 R4 R5 R6 R7 R8 R9]. rewrite R2, R3, R5.
  destruct (Z.ltb_spec (op_next_dma_off g) n) as [Hn|Hn]; cbn [andb].
  2:{ exists g, []. rewrite !app_nil_r. repeat split; try assumption; try lia; intros; lia. }
  destruct (Z.ltb_spec (Z.of_nat (length F)) kMaxOpDmaOutstanding) as [Hm|Hm].
  2:{ exists g, []. rewrite !app_nil_r. repeat split; try assumption; try lia; intros; lia. }
  destruct S as (S1 & S2 & S3).
  rewrite (wrap_small 64 (src + op_next_dma_off g)) by word.
  destruct (issue_one F g (conj S1 (conj S2 S3)) W Hn Hm) as [W' Hk].
  set (off := op_next_dma_off g) in *.
  set (k := memoryChunkSize (src + off) (n - off) (mem_line_size P) kOpDmaChunk) in *.
  match goal with |- context [issue_reads P fuel ?x] => set (g1 := x) end.
  assert (Hnext : off + k <= n) by (pose proof (rw_next _ _ W') as E; cbn in E; lia).
  assert (W1 : read_window (F ++ [MemRead (next_id g) (src + off) k]) g1).
  { assert (E1 : u64 (off + k) = off + k) by (apply wrap_small; word).
    assert (E2 : u64 (op_dma_outstanding g + 1) = Z.succ (op_dma_outstanding g))
      by (rewrite R5; apply wrap_small; unfold kMaxOpDmaOutstanding in *; word).
    unfold g1, send. cbn. fold off. rewrite E1, E2. destruct W'; split; assumption. }
  destruct (IH _ g1 (conj S1 (conj S2 S3)) W1) as (g' & new & E & HS & HD & HW & HE & HO & HM & _).
  { rewrite length_app; cbn. lia. }
  exists g', (MemRead (next_id g) (src + off) k :: new). rewrite <- app_assoc in HW.
  split; [exact E | split; [| split; [| split; [exact HW | split; [| split; [exact HO | split; [| discriminate]]]]]]].
  - rewrite HS. unfold g1, send; cbn. rewrite <- app_assoc. reflexivity.
  - cbn. f_equal. exact HD.
  - rewrite HE. reflexivity.
  - assert (Eoff : op_next_dma_off g1 = off + k) by (cbn; apply wrap_small; word).
    rewrite Eoff in HM. rewrite !length_app in *. cbn in *. lia.
Qed.
(** A read answered: its bytes are in place, the other reads remain. *)
Lemma serve_read_window pre post id a k g : 0 <= n ->
  read_window (pre ++ MemRead id a k :: post) g ->
  exists off, op_req_off g !! id = Some off /\
    read_window (pre ++ post)
      (g <| op_req_off ::= delete id |> <| op_in ::= store_in off n (mread m0 a k) |>
         <| op_dma_outstanding ::= Z.pred |>).
Proof.
  intros Hn0 [R1 R2 R3 R4 R5 R6 R7 R8 R9].
  apply Forall_app in R7 as [R7 R7']. apply Forall_cons in R7' as [(id' & off & k' & Em & El & O1 & O2 & O3 & O4) R7'].
  injection Em as <- -> <-. exists off. split; [exact El |].
  rewrite length_app in *. cbn [length] in *.
  rewrite map_app in R8. cbn in R8. apply NoDup_app in R8 as (N1 & N2 & N3).
  apply NoDup_cons in N3 as [N3 N4].
  assert (Hst : store_in off n (mread m0 (src + off) k) (op_in g) =
    splice (op_in g) (Z.to_nat off) (mread m0 (src + off) k)).
  { unfold store_in. rewrite firstn_all2; [reflexivity |]. rewrite length_mread. lia. }
  assert (Hbyte : forall i, 0 <= i < n ->
    store_in off n (mread m0 (src + off) k) (op_in g) !!! Z.to_nat i =
    if decide (in_range off k i) then m0 (src + i) else op_in g !!! Z.to_nat i).
  { intros i Hi. rewrite Hst, lookup_total_splice by (rewrite ?length_mread; lia).
    rewrite length_mread, Z2Nat.id by lia. unfold in_range. case_decide; [| reflexivity].
    rewrite mread_byte by lia. f_equal. lia. }
  split; cbn; rewrite ?length_app; try assumption; try lia.
  - rewrite Hst, length_splice; [assumption | rewrite length_mread; lia].
  - assert (Hother : forall m, m ∈ pre ++ post -> is_read g m ->
      is_read (g <| op_req_off ::= delete id |> <| op_in ::= store_in off n (mread m0 (src + off) k) |>
         <| op_dma_outstanding ::= Z.pred |>) m).
    { intros m Hm (j & o & q & -> & E & ? & ? & ? & ?). exists j, o, q. cbn.
      rewrite lookup_delete_ne; [auto 10 |]. intros <-.
      apply elem_of_app in Hm as [Hm|Hm].
      - apply (N2 id); [| left]. apply (list_elem_of_fmap_2 msg_id) in Hm. exact Hm.
      - apply N3. apply (list_elem_of_fmap_2 msg_id) in Hm. exact Hm. }
    rewrite Forall_forall in R7, R7'. apply Forall_forall. intros m Hm. apply Hother; [assumption |].
    apply elem_of_app in Hm as [Hm|Hm]; auto.
  - rewrite map_app. apply NoDup_app. split; [assumption | split; [| assumption]].
    intros x Hx Hx'. apply (N2 x Hx). right. assumption.
  - intros i Hi. rewrite Hbyte by lia. unfold in_range. case_decide as Hd; [left; reflexivity |].
    destruct (R9 i Hi) as [?|(j & o & q & Hin & ?)]; [left; assumption | right].
    apply elem_of_app in Hin as [Hin|Hin].
    + exists j, o, q. split; [apply elem_of_app; left; assumption | assumption].
    + apply elem_of_cons in Hin as [E|Hin]; [injection E as -> E ->; lia |].
      exists j, o, q. split; [apply elem_of_app; right; assumption | assumption].
Qed.

(** When every request is answered the input buffer is the memory's. *)
Lemma read_window_full g : read_window [] g -> op_next_dma_off g = n -> 0 <= n ->
  op_in g = mread m0 src n.
Proof.
  intros [R1 R2 R3 R4 R5 R6 R7 R8 R9] Hn Hn0. apply list_eq_total; [rewrite length_mread; lia |].
  intros i Hi. rewrite mread_byte by lia. destruct (R9 i) as [?|(j & o & q & Hin & _)]; [lia | assumption |].
  inversion Hin.
Qed.

(** ** Writing back *)

Variables (dst : Z) (out : list Z).
Let len : Z := Z.of_nat (length out).

Definition is_write (g : Gpu) (m : Msg) : Prop :=
  exists id off k, m = MemWrite id (dst + off) (slice out (Z.to_nat off) (Z.to_nat k)) /\
    0 <= off /\ 0 < k /\ off + k <= op_next_dma_off g.

(** The writes in flight and the memory cover the part of the output that has
    been issued; the rest of memory is as it was. *)
Record write_window (F : list Msg) (ram : mem) (g : Gpu) : Prop :=
  { ww_next : 0 <= op_next_dma_off g <= len;
    ww_out : op_out g = out;
    ww_dst : dst_addr (op_args g) = dst;
    ww_count : op_dma_outstanding g = Z.of_nat (length F);
    ww_max : Z.of_nat (length F) <= kMaxOpDmaOutstanding;
    ww_flight : Forall (is_write g) F;
    ww_cover : forall i, 0 <= i < op_next_dma_off g ->
      ram (dst + i) = out !!! Z.to_nat i \/
      exists id off k, MemWrite id (dst + off) (slice out (Z.to_nat off) (Z.to_nat k)) ∈ F /\ off <= i < off + k;
    ww_frame : forall x, ~ in_range dst len x -> ram x = m0 x }.

Definition out_span_ok : Prop := 0 <= dst /\ 0 < len < 2 ^ 64 /\ dst + len <= 2 ^ 64.

Lemma is_write_mono g g' m : op_next_dma_off g <= op_next_dma_off g' -> is_write g m -> is_write g' m.
Proof. intros Hle (id & o & k & -> & ? & ? & ?). exists id, o, k. split; [reflexivity | lia]. Qed.

Lemma issue_writes_ok ram fuel : forall F g, out_span_ok -> write_window F ram g ->
  (Z.to_nat (kMaxOpDmaOutstanding - Z.of_nat (length F)) < fuel)%nat ->
  exists g' new, issue_writes P fuel g = Ok g' /\ sent g' = sent g ++ new /\ dma new = new /\
    write_window (F ++ new) ram g' /\ ew g' = ew g /\
    (op_next_dma_off g' = len \/ op_dma_outstanding g' = kMaxOpDmaOutstanding) /\
    2 * (len - op_next_dma_off g') + Z.of_nat (length (F ++ new)) <=
      2 * (len - op_next_dma_off g) + Z.of_nat (length F) /\
    (op_next_dma_off g < len -> Z.of_nat (length F) < kMaxOpDmaOutstanding -> new <> []).
Proof.
  induction fuel as [|fuel IH]; intros F g S W Hf; [lia |]. cbn [issue_writes].
  pose proof W as [R1 R2 R3 R5 R6 R7 R9 R10]. rewrite R2, R3, R5. fold len.
  destruct (Z.ltb_spec (op_next_dma_off g) len) as [Hn|Hn]; cbn [andb].
  2:{ exists g, []. rewrite !app_nil_r. repeat split; try assumption; try lia; intros; lia. }
  destruct (Z.ltb_spec (Z.of_nat (length F)) kMaxOpDmaOutstanding) as [Hm|Hm].
  2:{ exists g, []. rewrite !app_nil_r. repeat split; try assumption; try lia; intros; lia. }
  pose proof S as (S1 & S2 & S3).
  rewrite (wrap_small 64 (dst + op_next_dma_off g)) by word.
  set (off := op_next_dma_off g) in *.
  set (k := memoryChunkSize (dst + off) (len - off) (mem_line_size P) kOpDmaChunk).
  assert (Hk : 0 < k <= len - off).
  { destruct (memoryChunkSize_bounds (dst + off) (len - off) (mem_line_size P) kOpDmaChunk); unfold kOpDmaChunk; lia. }
  match goal with |- context [issue_writes P fuel ?x] => set (g1 := x) end.
  set (msg := MemWrite (next_id g) (dst + off) (slice out (Z.to_nat off) (Z.to_nat k))).
  assert (E1 : op_next_dma_off g1 = off + k) by (apply wrap_small; word).
  assert (E2 : op_dma_outstanding g1 = Z.of_nat (length F) + 1)
    by (rewrite <- R5; apply wrap_small; rewrite R5; unfold kMaxOpDmaOutstanding in *; word).
  assert (W1 : write_window (F ++ [msg]) ram g1).
  { split; rewrite ?E1, ?E2, ?length_app; cbn [length]; try assumption; try lia.
    - apply Forall_app; split.
      + eapply Forall_impl; [exact R7 |]. intros m. apply is_write_mono. rewrite E1. lia.
      + constructor; [| constructor]. exists (next_id g), off, k. rewrite E1. split; [reflexivity | lia].
    - intros i Hi. destruct (Z.lt_ge_cases i off) as [Hlt|Hge].
      + destruct (R9 i) as [?|(id & o & j & Hin & ?)]; [lia | left; assumption | right].
        exists id, o, j. split; [apply elem_of_app; left; assumption | assumption].
      + right. exists (next_id g), off, k. split; [apply elem_of_app; right; left | lia]. }
  destruct (IH _ g1 S W1) as (g' & new & E & HS & HD & HW & HE & HO & HM & _).
  { rewrite length_app; cbn. lia. }
  exists g', (msg :: new). rewrite <- app_assoc in HW.
  split; [exact E | split; [| split; [| split; [exact HW | split; [| split; [exact HO | split; [| discriminate]]]]]]].
  - rewrite HS. unfold g1, send; cbn. rewrite <- app_assoc. reflexivity.
  - cbn. f_equal. exact HD.
  - rewrite HE. reflexivity.
  - rewrite E1 in HM. rewrite !length_app in *. cbn in *. lia.
Qed.

(** A write performed and answered. *)
Lemma serve_write_window pre post id a data ram g : write_window (pre ++ MemWrite id a data :: post) ram g ->
  write_window (pre ++ post) (mwrite ram a data) (g <| op_dma_outstanding ::= Z.pred |>) /\
  op_dma_outstanding g <> 0.
Proof.
  intros [R1 R2 R3 R5 R6 R7 R9 R10]. rewrite length_app in *. cbn [length] in *.
  apply Forall_app in R7 as [R7 R7']. apply Forall_cons in R7' as [(id' & off & k & Em & O1 & O2 & O3) R7'].
  injection Em as <- -> ->.
  assert (Hl : Z.of_nat (length (slice out (Z.to_nat off) (Z.to_nat k))) = k)
    by (rewrite length_slice; unfold len in *; lia).
  assert (Hw : forall x, mwrite ram (dst + off) (slice out (Z.to_nat off) (Z.to_nat k)) x =
    if decide (in_range (dst + off) k x) then out !!! Z.to_nat (x - dst) else ram x).
  { intros x. unfold mwrite. rewrite Hl. unfold in_range. case_decide; [| reflexivity].
    replace (x - (dst + off)) with (x - dst - off) by lia.
    rewrite lookup_total_slice by lia. f_equal. lia. }
  split; [| lia]. split; cbn; rewrite ?length_app; try assumption; try lia.
  - apply Forall_app; split; (eapply Forall_impl; [eassumption |]); intros m; apply is_write_mono; cbn; lia.
  - intros i Hi. rewrite Hw. unfold in_range. case_decide as Hd; [left; f_equal; lia |].
    destruct (R9 i Hi) as [?|(j & o & q & Hin & ?)]; [left; assumption | right].
    apply elem_of_app in Hin as [Hin|Hin].
    + exists j, o, q. split; [apply elem_of_app; left; assumption | assumption].
    + apply elem_of_cons in Hin as [E|Hin].
      * exfalso. injection E as _ E1 E2. apply (f_equal length) in E2.
        assert (o = off) as -> by lia. unfold slice in E2. rewrite !length_take, !length_drop in E2.
        unfold len in *. lia.
      * exists j, o, q. split; [apply elem_of_app; right; assumption | assumption].
  - intros x Hx. rewrite Hw. unfold in_range in *. rewrite decide_False by lia. apply R10. exact Hx.
Qed.

(** When every write is answered memory holds the output. *)
Lemma write_window_full ram g : write_window [] ram g -> op_next_dma_off g = len ->
  ram ≐ mwrite m0 dst out.
Proof.
  intros [R1 R2 R3 R5 R6 R7 R9 R10] Hn x. unfold mwrite. fold len. case_decide as Hd; [| auto].
  unfold in_range in Hd. destruct (R9 (x - dst)) as [E|(j & o & q & Hin & _)]; [lia | | inversion Hin].
  rewrite <- E. f_equal. lia.
Qed.
End Operation.

(** ** Bookkeeping around an operation *)

Section Bookkeeping.
Context `{FileSystem} (P : Params).
Hypothesis durable : forall n, can_flush n = true.

(** What interrupts, the log, statistics and responses leave alone. *)
Definition ei (g : Gpu) : Gpu :=
  g <| irq_pending := false |> <| irq_events := 0 |> <| event_writer := writer0 |>
    <| stats := stats0 |> <| sent := [] |> <| holding_sim := false |> <| op_doorbell_resp := None |>.

Definition quiet (g g' : Gpu) : Prop := ei g' = ei g /\ dma (sent g') = dma (sent g).

Lemma quiet_refl g : quiet g g.
Proof. split; reflexivity. Qed.
Lemma quiet_trans g1 g2 g3 : quiet g1 g2 -> quiet g2 g3 -> quiet g1 g3.
Proof. intros [] []. split; congruence. Qed.

Lemma quiet_hold b g : quiet g (updatePrimaryHold b g).
Proof. unfold updatePrimaryHold. repeat case_match; split; reflexivity. Qed.

Lemma quiet_send g m : is_dma m = false -> quiet g (send m g).
Proof.
  intros Hm. split; [reflexivity |]. unfold send; cbn. rewrite dma_app. cbn. rewrite Hm. apply app_nil_r.
Qed.

Lemma emit_ok e w : exists w', emit e w = inl w'.
Proof. unfold emit. rewrite durable. destruct (enabled w); eauto. Qed.

Lemma log_ok r why g : (exists w, r (event_writer g) = inl w) ->
  exists g', log_event r why g = Ok g' /\ quiet g g'.
Proof.
  intros [w Hw]. unfold log_event. rewrite Hw. eexists. split; [reflexivity | split; reflexivity].
Qed.

Lemma emitIrqEvent_ok kind v obs g : existsb (String.eqb kind) irq_kinds = true ->
  isIdentifier obs = true ->
  exists g', emitIrqEvent P kind v obs g = Ok g' /\ quiet g g'.
Proof.
  intros Hk Ho. unfold emitIrqEvent. destruct (negb _); [exists g; split; [reflexivity | apply quiet_refl] |].
  apply log_ok. unfold emitIrq. rewrite Hk, Ho. apply emit_ok.
Qed.

Lemma raise_quiet g : exists g', raiseIrqOnRetire P g = Ok g' /\ quiet g g'.
Proof.
  unfold raiseIrqOnRetire. destruct (_ <? _); [exists g; split; [reflexivity | apply quiet_refl] |].
  destruct (irq_pending _); [eexists; split; [reflexivity | split; reflexivity] |].
  match goal with |- context [emitIrqEvent P ?k ?v ?o ?x] =>
    destruct (emitIrqEvent_ok k v o x eq_refl eq_refl) as (g' & -> & Q) end.
  cbn [mbind result_bind]. eexists. split; [reflexivity |].
  eapply quiet_trans; [| apply quiet_send; reflexivity].
  eapply quiet_trans; [| split; reflexivity]. eapply quiet_trans; [| exact Q]. split; reflexivity.
Qed.

Lemma release_quiet g : quiet g (release_doorbell g).
Proof.
  unfold release_doorbell. case_match; [| apply quiet_refl].
  eapply quiet_trans; [| apply quiet_send; reflexivity]. split; reflexivity.
Qed.

Lemma opReject_quiet why g : exists g', opReject why g = Ok g' /\
  quiet (g <| op_phase := IDLE |> <| busy_until_clk := 0 |>) g'.
Proof.
  unfold opReject, emitOpError.
  match goal with |- context [log_event ?r ?w g] => destruct (log_ok r w g) as (g1 & -> & Q) end.
  { unfold emitError. cbn [isIdentifier]. apply emit_ok. }
  cbn [mbind result_bind]. eexists. split; [reflexivity |].
  eapply quiet_trans; [| apply quiet_hold]. eapply quiet_trans; [| apply release_quiet].
  destruct Q as [Q1 Q2]. split; [| exact Q2].
  apply (f_equal (fun x => x <| op_phase := IDLE |> <| busy_until_clk := 0 |>)) in Q1. exact Q1.
Qed.

Lemma opFinish_quiet g : exists g', opFinish P g = Ok g' /\
  quiet (g <| op_phase := IDLE |> <| kernel_id ::= fun n => u64 (n + 1) |>) g'.
Proof.
  unfold opFinish, emitOpCompleted.
  match goal with |- context [log_event ?r ?w g] => destruct (log_ok r w g) as (g1 & -> & Q) end.
  { apply emit_ok. }
  cbn [mbind result_bind].
  match goal with |- context [raiseIrqOnRetire P ?x] => destruct (raise_quiet x) as (g2 & -> & Q2) end.
  cbn [mbind result_bind]. eexists. split; [reflexivity |].
  eapply quiet_trans; [| apply quiet_hold]. eapply quiet_trans; [| exact Q2].
  eapply quiet_trans; [| apply release_quiet].
  destruct Q as [Q1 Q1']. split; [| exact Q1'].
  apply (f_equal (fun x => x <| op_phase := IDLE |> <| kernel_id ::= fun n => u64 (n + 1) |>)) in Q1.
  exact Q1.
Qed.
End Bookkeeping.

(** The windows look only at the DMA registers. *)
Lemma read_window_quiet src n m0 F g g' : ei g' = ei g -> read_window src n m0 F g -> read_window src n m0 F g'.
Proof.
  intros E [R1 R2 R3 R4 R5 R6 R7 R8 R9].
  pose proof (f_equal op_next_dma_off E) as E1. pose proof (f_equal op_in_bytes E) as E2.
  pose proof (f_equal op_args E) as E3. pose proof (f_equal op_in E) as E4.
  pose proof (f_equal op_dma_outstanding E) as E5. pose proof (f_equal op_req_off E) as E6.
  pose proof (f_equal next_id E) as E7. cbn in *.
  split; rewrite ?E1, ?E2, ?E3, ?E4, ?E5; try assumption.
  eapply Forall_impl; [exact R7 |]. unfold is_read. rewrite E1, E6, E7. auto.
Qed.

Lemma write_window_quiet m0 dst out F ram g g' : ei g' = ei g -> write_window m0 dst out F ram g ->
  write_window m0 dst out F ram g'.
Proof.
  intros E [R1 R2 R3 R5 R6 R7 R9 R10].
  pose proof (f_equal op_next_dma_off E) as E1. pose proof (f_equal op_out E) as E2.
  pose proof (f_equal op_args E) as E3. pose proof (f_equal op_dma_outstanding E) as E5. cbn in *.
  split; rewrite ?E1, ?E2, ?E3, ?E5; try assumption.
  eapply Forall_impl; [exact R7 |]. unfold is_write. rewrite E1. auto.
Qed.
