(* ===== verification/GpuOp.v ===== *)
(** * One compute operation, from doorbell to completion

    The device together with the memory that answers its DMA, in any order,
    interleaved with device clocks and guest polls. *)
From S2P Require Import Prelude.
From S2P Require Import StdMem.
From S2P Require Import Backing.
From S2P Require Import MemSpan.
From S2P Require Import EventWriter.
From S2P Require Import Kernel.
From S2P Require Import Gpu.
From S2P Require Import GpuDma.

(** ** The closed system *)

Record Sys := mkSys { dev : Gpu; ram : mem; flight : list Msg }.

Section System.
Context `{FileSystem} (P : Params).

Definition clear_sent (g : Gpu) : Gpu := g <| sent := [] |>.

Inductive sys_step : Sys -> Sys -> Prop :=
  | serve_read s pre post id a k g' :
      flight s = pre ++ MemRead id a k :: post ->
      step P (DmaReadResp id (mread (ram s) a k)) (clear_sent (dev s)) = Ok g' ->
      sys_step s (mkSys g' (ram s) (pre ++ post ++ dma (sent g')))
  | serve_write s pre post id a data g' :
      flight s = pre ++ MemWrite id a data :: post ->
      step P DmaWriteResp (clear_sent (dev s)) = Ok g' ->
      sys_step s (mkSys g' (mwrite (ram s) a data) (pre ++ post ++ dma (sent g')))
  | clock s g' :
      step P Tick (clear_sent (dev s)) = Ok g' ->
      sys_step s (mkSys g' (ram s) (flight s ++ dma (sent g')))
  | poll s r g' :
      step P (Read r) (clear_sent (dev s)) = Ok g' ->
      sys_step s (mkSys g' (ram s) (flight s ++ dma (sent g'))).
End System.

Section Run.
Context `{FileSystem} (P : Params) (K : QuetzKernel).
Hypothesis durable : forall n, can_flush n = true.
Hypothesis line_size_ok : 0 <= mem_line_size P.
Hypothesis has_kernel : kernel P = Some K.
Hypothesis kernel_latency_ok : 0 <= kernel_latency P < 2 ^ 62.

(** The operation: its arguments, memory at the doorbell, the counter. *)
Variables (args : KernelArgs) (m0 : mem) (k0 : Z).
Let src := src_addr args.
Let dst := dst_addr args.
Let n := (inputBytes K args).1.
Let computed := compute K (data_big_endian P) args (mread m0 src n).
Let out := computed.1.
Let len := Z.of_nat (length out).

Hypothesis args_ok : is_u64 src /\ is_u64 dst /\ 0 <= n < 2 ^ 64.
Hypothesis kernel_ok : out <> [] /\ len < 2 ^ 64 /\ 0 <= computed.2 < 2 ^ 62.
Hypothesis k0_ok : 0 <= k0 < 2 ^ 62.

Record common (g : Gpu) : Prop :=
  { cm_args : op_args g = args; cm_clk : 0 <= gpu_clk g; cm_override : 0 <= latency_override g < 2 ^ 62 }.

(** The five states of an operation. *)
Record reading (s : Sys) : Prop :=
  { rd_phase : op_phase (dev s) = READING; rd_busy : busy_until_clk (dev s) = 0;
    rd_common : common (dev s); rd_kernel : kernel_id (dev s) = k0; rd_ram : ram s ≐ m0;
    rd_window : read_window src n m0 (flight s) (dev s); rd_some : flight s <> [];
    rd_span : span_ok src n }.

Record computing (s : Sys) : Prop :=
  { bs_phase : op_phase (dev s) = READING;
    bs_busy : 0 < busy_until_clk (dev s) < 2 ^ 63;
    bs_common : common (dev s); bs_kernel : kernel_id (dev s) = k0; bs_ram : ram s ≐ m0;
    bs_flight : flight s = []; bs_out : op_out (dev s) = out }.

Record writing (s : Sys) : Prop :=
  { wt_phase : op_phase (dev s) = WRITING; wt_busy : busy_until_clk (dev s) = 0;
    wt_common : common (dev s); wt_kernel : kernel_id (dev s) = k0;
    wt_window : write_window m0 dst out (flight s) (ram s) (dev s); wt_some : flight s <> [];
    wt_range : dmaRangeOk P dst len = true }.

Record at_rest (s : Sys) : Prop :=
  { ar_phase : op_phase (dev s) = IDLE; ar_busy : busy_until_clk (dev s) = 0; ar_flight : flight s = [] }.

Definition finished (s : Sys) : Prop :=
  at_rest s /\ kernel_id (dev s) = k0 + 1 /\ dmaRangeOk P dst len = true /\ ram s ≐ mwrite m0 dst out.
Definition rejected (s : Sys) : Prop :=
  at_rest s /\ kernel_id (dev s) = k0 /\ dmaRangeOk P dst len = false /\ ram s ≐ m0.

Definition op_state (s : Sys) : Prop :=
  reading s \/ computing s \/ writing s \/ finished s \/ rejected s.

(** ** Frames *)

Lemma common_quiet g g' : ei g' = ei g -> common g -> common g'.
Proof.
  intros E [C1 C2 C3].
  pose proof (f_equal op_args E) as E1. pose proof (f_equal gpu_clk E) as E2.
  pose proof (f_equal latency_override E) as E3. cbn in E1, E2, E3.
  split; rewrite ?E1, ?E2, ?E3; assumption.
Qed.

Lemma common_window g g' : ew g' = ew g -> common g -> common g'.
Proof.
  intros E [C1 C2 C3].
  pose proof (f_equal op_args E) as E1. pose proof (f_equal gpu_clk E) as E2.
  pose proof (f_equal latency_override E) as E3. cbn in E1, E2, E3.
  split; rewrite ?E1, ?E2, ?E3; assumption.
Qed.

Lemma dmaRange_span addr l : dmaRangeOk P addr l = true -> is_u64 addr -> is_u64 l -> 0 < l -> addr + l <= 2 ^ 64.
Proof.
  intros Hr Ha Hl Hp. unfold dmaRangeOk in Hr.
  destruct (memorySpanValid addr l) eqn:E; [| discriminate].
  apply memorySpanValid_iff in E; [| assumption..]. lia.
Qed.

Lemma len_pos : 0 < len.
Proof. unfold len. destruct kernel_ok as [Hne _]. destruct out; [contradiction | cbn; lia]. Qed.

Lemma dst_span : dmaRangeOk P dst len = true -> out_span_ok dst out.
Proof.
  intros Hr. destruct args_ok as (_ & Hd & _). destruct kernel_ok as (_ & Hl & _). pose proof len_pos.
  unfold out_span_ok. fold len. pose proof (dmaRange_span dst len Hr Hd). unfold is_word in *. lia.
Qed.

(** ** Starting to write back *)

Lemma begin_writeback g m : op_out g = out -> common g -> kernel_id g = k0 -> busy_until_clk g = 0 ->
  m ≐ m0 -> dma (sent g) = [] ->
  exists g', opBeginWriteback P g = Ok g' /\
    let s' := mkSys g' m (dma (sent g')) in writing s' \/ rejected s'.
Proof.
  intros Ho C Hk Hb Hm Hd. unfold opBeginWriteback. rewrite Ho, (cm_args g C). fold dst len.
  destruct (dmaRangeOk P dst len) eqn:Hr; cbn [negb].
  - set (g1 := g <| op_phase := WRITING |> <| op_dma_outstanding := 0 |> <| op_next_dma_off := 0 |>).
    assert (W1 : write_window m0 dst out [] m g1).
    { split; cbn; try lia; try constructor; try assumption.
      - rewrite (cm_args g C). reflexivity.
      - unfold kMaxOpDmaOutstanding. lia.
      - intros x _. apply Hm. }
    destruct (issue_writes_ok P line_size_ok m0 dst out m window_fuel [] g1 (dst_span Hr) W1)
      as (g2 & new & E & HS & HD & HW & HE & HO & HM & HN); [unfold window_fuel, kMaxOpDmaOutstanding; cbn; lia |].
    unfold opIssueWriteWindow. rewrite E. cbn [mbind result_bind]. eexists. split; [reflexivity |]. left.
    destruct (quiet_hold false g2) as [Q1 Q2].
    assert (Hfl : dma (sent (updatePrimaryHold false g2)) = new).
    { rewrite Q2, HS, dma_app. change (sent g1) with (sent g). rewrite Hd. exact HD. }
    pose proof (f_equal op_phase HE) as E1. pose proof (f_equal busy_until_clk HE) as E2.
    pose proof (f_equal kernel_id HE) as E3. cbn in E1, E2, E3.
    pose proof (f_equal op_phase Q1) as F1. pose proof (f_equal busy_until_clk Q1) as F2.
    pose proof (f_equal kernel_id Q1) as F3. cbn in F1, F2, F3.
    assert (C2 : common g2) by (apply (common_window g1); [exact HE | apply C || (destruct C; split; assumption)]).
    cbv zeta. split; cbn; rewrite ?Hfl; try congruence.
    + apply (common_quiet g2); assumption.
    + apply (write_window_quiet m0 dst out new m g2); assumption.
    + apply HN; [exact len_pos | reflexivity].
  - destruct (opReject_quiet durable "output buffer escapes the DMA range (dma_range_start/end)" g)
      as (g' & E & Q1 & Q2). rewrite E. exists g'. split; [reflexivity |]. right.
    pose proof (f_equal op_phase Q1) as F1. pose proof (f_equal busy_until_clk Q1) as F2.
    pose proof (f_equal kernel_id Q1) as F3. cbn in F1, F2, F3.
    split; [split; cbn | cbn; split; [| split]]; try congruence. rewrite Q2. exact Hd.
Qed.
(** Retiring leaves the clock alone. *)
Lemma issue_writes_clk fuel : forall g g', issue_writes P fuel g = Ok g' -> gpu_clk g' = gpu_clk g.
Proof.
  induction fuel as [|fuel IH]; intros g g'; cbn [issue_writes]; [discriminate |].
  destruct (_ && _); [intros E; apply IH in E; exact E | intros E; injection E as <-; reflexivity].
Qed.

Lemma write_window_clk g g' : opIssueWriteWindow P g = Ok g' -> gpu_clk g' = gpu_clk g.
Proof. unfold opIssueWriteWindow. generalize window_fuel. intros fuel. apply issue_writes_clk. Qed.

Lemma begin_writeback_clk g g' : opBeginWriteback P g = Ok g' -> gpu_clk g' = gpu_clk g.
Proof.
  unfold opBeginWriteback. destruct (negb _).
  - intros E. destruct (opReject_quiet durable "output buffer escapes the DMA range (dma_range_start/end)" g)
      as (g1 & E1 & Q & _). rewrite E1 in E. injection E as <-. apply (f_equal gpu_clk) in Q. exact Q.
  - intros E. apply bind_ok in E as (a & E0 & E).
    injection E as <-. apply write_window_clk in E0.
    destruct (quiet_hold false a) as [Q _]. apply (f_equal gpu_clk) in Q.
    change (gpu_clk (updatePrimaryHold false a) = gpu_clk a) in Q. rewrite Q, E0. reflexivity.
Qed.

(** ** Computing *)

Lemma compute_step g m : op_in g = mread m0 src n -> op_phase g = READING -> common g ->
  kernel_id g = k0 -> busy_until_clk g = 0 -> m ≐ m0 -> dma (sent g) = [] -> gpu_clk g < 2 ^ 62 ->
  exists g', opComputeAndStartBusy P K g = Ok g' /\
    gpu_clk g' = gpu_clk g /\
    let s' := mkSys g' m (dma (sent g')) in computing s' \/ writing s' \/ rejected s'.
Proof.
  intros Hin Hp C Hk Hb Hm Hd Hclk. unfold opComputeAndStartBusy.
  rewrite Hin, (cm_args g C). fold computed. rewrite (surjective_pairing computed). fold out.
  destruct kernel_ok as (Hne & _ & Hlat). rewrite bool_decide_false by exact Hne. cbn [throw_if mbind result_bind].
  change (latency_override (g <| op_out := out |>)) with (latency_override g).
  set (l := if latency_override g =? 0 then _ else _).
  assert (Hl : 0 <= l < 2 ^ 62).
  { unfold l. destruct C as [_ _ C3]. destruct (_ =? 0); [destruct (_ =? 0) |]; assumption. }
  match goal with |- context [opBeginWriteback P ?k] => set (g1 := k) end.
  assert (C1 : common g1) by (destruct C as [C1 C2 C3]; split; cbn; try assumption; lia).
  destruct (Z.eqb_spec l 0) as [Hl0|Hl0].
  - destruct (begin_writeback g1 m) as (g' & E & HS); try assumption; [reflexivity |].
    rewrite E. exists g'. split; [reflexivity |]. split; [exact (begin_writeback_clk _ _ E) |].
    right. exact HS.
  - set (g2 := g1 <| busy_until_clk := _ |>). exists (updatePrimaryHold false g2).
    split; [reflexivity |].
    destruct (quiet_hold false g2) as [Q1 Q2]. split; [exact (f_equal gpu_clk Q1) |]. left.
    assert (Hbusy : busy_until_clk g2 = gpu_clk g + l) by (destruct C; apply wrap_small; word).
    pose proof (f_equal op_phase Q1) as F1. pose proof (f_equal busy_until_clk Q1) as F2.
    pose proof (f_equal kernel_id Q1) as F3. pose proof (f_equal gpu_clk Q1) as F4.
    pose proof (f_equal op_out Q1) as F5. cbn in F1, F3, F4, F5.
    change (busy_until_clk (updatePrimaryHold false g2) = busy_until_clk g2) in F2.
    destruct C as [_ Cc _].
    split; cbn; try congruence.
    + rewrite F2, Hbusy. lia.
    + apply (common_quiet g2); [exact Q1 |]. destruct C1; split; assumption.
    + rewrite Q2. exact Hd.
Qed.

(** ** Answers *)

(** Twice the bytes still to request, and the requests in flight. *)
Definition read_left (s : Sys) : Z := 2 * (n - op_next_dma_off (dev s)) + Z.of_nat (length (flight s)).
Definition write_left (s : Sys) : Z := 2 * (len - op_next_dma_off (dev s)) + Z.of_nat (length (flight s)).

Lemma read_step s pre post id a k : reading s -> flight s = pre ++ MemRead id a k :: post ->
  gpu_clk (dev s) < 2 ^ 62 ->
  exists g', step P (DmaReadResp id (mread (ram s) a k)) (clear_sent (dev s)) = Ok g' /\
    gpu_clk g' = gpu_clk (dev s) /\
    let s' := mkSys g' (ram s) (pre ++ post ++ dma (sent g')) in
    computing s' \/ writing s' \/ rejected s' \/ (reading s' /\ read_left s' < read_left s).
Proof.
  intros [R1 R2 R3 R4 R5 R6 R7 R8] Hf Hclk. cbn [step]. rewrite has_kernel.
  rewrite (mread_proper _ _ R5 _ _ eq_refl _ _ eq_refl). rewrite Hf in R6.
  assert (W0 : read_window src n m0 (pre ++ MemRead id a k :: post) (clear_sent (dev s)))
    by (destruct R6; split; assumption).
  destruct (serve_read_window src n m0 pre post id a k _ ltac:(destruct R8; lia) W0) as (off & El & W1).
  unfold opOnReadResp. rewrite El, (rw_bytes _ _ _ _ _ W0).
  match goal with |- context [opIssueReadWindow P ?x] => set (g1 := x) in * end.
  destruct (issue_reads_ok P line_size_ok src n m0 window_fuel (pre ++ post) g1 R8 W1)
    as (g2 & new & E & HS & HD & HW & HE & HO & HM & HN); [unfold window_fuel, kMaxOpDmaOutstanding; lia |].
  unfold opIssueReadWindow. rewrite E. cbn [mbind result_bind].
  assert (C2 : common g2) by (apply (common_window g1); [exact HE | destruct R3; split; assumption]).
  pose proof (f_equal op_phase HE) as E1. pose proof (f_equal busy_until_clk HE) as E2.
  pose proof (f_equal kernel_id HE) as E3. pose proof (f_equal gpu_clk HE) as E4.
  change (op_phase g2 = op_phase (dev s)) in E1. change (busy_until_clk g2 = busy_until_clk (dev s)) in E2.
  change (kernel_id g2 = kernel_id (dev s)) in E3. change (gpu_clk g2 = gpu_clk (dev s)) in E4.
  cbn in HS. rewrite (rw_bytes _ _ _ _ _ HW).
  destruct (Z.eqb_spec (op_dma_outstanding g2) 0) as [H0'|H0'];
    [destruct (Z.eqb_spec (op_next_dma_off g2) n) as [Hn|Hn] |]; cbn [andb].
  - pose proof (rw_count _ _ _ _ _ HW) as Hc. rewrite H0' in Hc.
    destruct ((pre ++ post) ++ new) as [|x l] eqn:Hnil; [| cbn in Hc; lia].
    apply app_nil in Hnil as [Hpp Hnew]. subst new.
    destruct (compute_step g2 (ram s)) as (g' & E' & Hgc & HS'); try assumption; try congruence.
    + apply (read_window_full src n m0); [exact HW | exact Hn | destruct R8; lia].
    + rewrite E'. exists g'. split; [reflexivity |]. split; [congruence |].
      rewrite app_assoc, Hpp. cbn [app]. cbv zeta in HS' |- *. tauto.
  - exfalso. unfold kMaxOpDmaOutstanding in HO. lia.
  - exists g2. split; [reflexivity |]. split; [congruence |]. cbv zeta. right; right; right.
    assert (Hfl : pre ++ post ++ dma (sent g2) = (pre ++ post) ++ new) by (rewrite HS, HD, app_assoc; reflexivity).
    split.
    + split; cbn; try congruence; rewrite Hfl.
      intros Hnil. rewrite Hnil in HW. apply H0'. apply (rw_count _ _ _ _ _ HW).
    + unfold read_left. cbn [dev flight]. rewrite Hfl, Hf. rewrite length_app in HM |- *.
      change (op_next_dma_off g1) with (op_next_dma_off (dev s)) in HM.
      rewrite !length_app in *. cbn [length]. lia.
Qed.

Lemma write_step s pre post id a data : writing s -> flight s = pre ++ MemWrite id a data :: post ->
  exists g', step P DmaWriteResp (clear_sent (dev s)) = Ok g' /\
    gpu_clk g' = gpu_clk (dev s) /\
    let s' := mkSys g' (mwrite (ram s) a data) (pre ++ post ++ dma (sent g')) in
    finished s' \/ (writing s' /\ write_left s' < write_left s).
Proof.
  intros [R1 R2 R3 R4 R5 R6 R7] Hf. cbn [step]. rewrite Hf in R5.
  assert (W0 : write_window m0 dst out (pre ++ MemWrite id a data :: post) (ram s) (clear_sent (dev s)))
    by (destruct R5; split; assumption).
  destruct (serve_write_window m0 dst out pre post id a data (ram s) _ W0) as [W1 Hne].
  unfold opOnWriteResp. rewrite (proj2 (Z.eqb_neq _ _) Hne).
  match goal with |- context [opIssueWriteWindow P ?x] => set (g1 := x) in * end.
  destruct (issue_writes_ok P line_size_ok m0 dst out (mwrite (ram s) a data) window_fuel (pre ++ post) g1 (dst_span R7) W1)
    as (g2 & new & E & HS & HD & HW & HE & HO & HM & HN); [unfold window_fuel, kMaxOpDmaOutstanding; lia |].
  unfold opIssueWriteWindow. rewrite E. cbn [mbind result_bind].
  assert (C2 : common g2) by (apply (common_window g1); [exact HE | destruct R3; split; assumption]).
  pose proof (f_equal op_phase HE) as E1. pose proof (f_equal busy_until_clk HE) as E2.
  pose proof (f_equal kernel_id HE) as E3. pose proof (f_equal gpu_clk HE) as E4.
  change (op_phase g2 = op_phase (dev s)) in E1. change (busy_until_clk g2 = busy_until_clk (dev s)) in E2.
  change (kernel_id g2 = kernel_id (dev s)) in E3. change (gpu_clk g2 = gpu_clk (dev s)) in E4.
  cbn in HS. rewrite (ww_out _ _ _ _ _ _ HW). fold len.
  destruct (Z.eqb_spec (op_dma_outstanding g2) 0) as [H0'|H0'];
    [destruct (Z.eqb_spec (op_next_dma_off g2) len) as [Hn|Hn] |]; cbn [andb].
  - pose proof (ww_count _ _ _ _ _ _ HW) as Hc. rewrite H0' in Hc.
    destruct ((pre ++ post) ++ new) as [|x l] eqn:Hnil; [| cbn in Hc; lia].
    apply app_nil in Hnil as [Hpp Hnew]. subst new.
    destruct (opFinish_quiet P durable g2) as (g' & E' & Q1 & Q2).
    rewrite E'. exists g'. split; [reflexivity |].
    split; [rewrite <- E4; exact (f_equal gpu_clk Q1) |]. left.
    pose proof (f_equal op_phase Q1) as F1. pose proof (f_equal busy_until_clk Q1) as F2.
    pose proof (f_equal kernel_id Q1) as F3. cbn in F1, F2, F3. rewrite E3, R4, wrap_small in F3 by word.
    change (dma (sent g') = dma (sent g2)) in Q2. rewrite app_assoc, Hpp, Q2, Hnew.
    split; [split; cbn; congruence |]. cbn. split; [assumption | split; [assumption |]].
    apply (write_window_full m0 dst out _ g2); assumption.
  - exfalso. unfold kMaxOpDmaOutstanding in HO. fold len in HO. lia.
  - exists g2. split; [reflexivity |]. split; [congruence |]. cbv zeta. right.
    assert (Hfl : pre ++ post ++ dma (sent g2) = (pre ++ post) ++ new) by (rewrite HS, HD, app_assoc; reflexivity).
    split.
    + split; cbn; try congruence; rewrite Hfl.
      intros Hnil. rewrite Hnil in HW. apply H0'. apply (ww_count _ _ _ _ _ _ HW).
    + unfold write_left. cbn [dev flight]. rewrite Hfl, Hf. fold len in HM. rewrite length_app in HM |- *.
      change (op_next_dma_off g1) with (op_next_dma_off (dev s)) in HM.
      rewrite !length_app in *. cbn [length]. lia.
Qed.
(** ** Clocks and polls *)

Definition et (g : Gpu) : Gpu := ei (g <| gpu_clk := 0 |>).

Lemma frame_common g g' : et g' = et g -> 0 <= gpu_clk g' -> common g -> common g'.
Proof.
  intros E Hc [C1 C2 C3].
  pose proof (f_equal op_args E) as E1. pose proof (f_equal latency_override E) as E3. cbn in E1, E3.
  split; rewrite ?E1, ?E3; assumption.
Qed.

Section Frame.
Variables (g g' : Gpu) (m : mem) (F : list Msg).
Hypotheses (E : et g' = et g) (Hc : 0 <= gpu_clk g').

Lemma frame_fields : op_phase g' = op_phase g /\ busy_until_clk g' = busy_until_clk g /\
  kernel_id g' = kernel_id g /\ op_out g' = op_out g.
Proof.
  split; [exact (f_equal op_phase E) | split; [exact (f_equal busy_until_clk E) |
    split; [exact (f_equal kernel_id E) | exact (f_equal op_out E)]]].
Qed.

Lemma frame_reading : reading (mkSys g m F) -> reading (mkSys g' m F).
Proof.
  pose proof frame_fields as (E1 & E2 & E3 & E4). intros [R1 R2 R3 R4 R5 R6 R7 R8].
  cbn [dev ram flight] in *. split; cbn [dev ram flight]; try congruence.
  - apply (frame_common g); assumption.
  - assert (Hw : read_window src n m0 F (g' <| gpu_clk := 0 |>))
      by (apply (read_window_quiet _ _ _ _ (g <| gpu_clk := 0 |>)); [exact E | destruct R6; split; assumption]).
    destruct Hw; split; assumption.
Qed.

Lemma frame_computing : computing (mkSys g m F) -> computing (mkSys g' m F).
Proof.
  pose proof frame_fields as (E1 & E2 & E3 & E4). intros [R1 R2 R3 R4 R5 R6 R7].
  cbn [dev ram flight] in *. split; cbn [dev ram flight]; try congruence.
  apply (frame_common g); assumption.
Qed.

Lemma frame_writing : writing (mkSys g m F) -> writing (mkSys g' m F).
Proof.
  pose proof frame_fields as (E1 & E2 & E3 & E4). intros [R1 R2 R3 R4 R5 R6 R7].
  cbn [dev ram flight] in *. split; cbn [dev ram flight]; try congruence.
  - apply (frame_common g); assumption.
  - assert (Hw : write_window m0 dst out F m (g' <| gpu_clk := 0 |>))
      by (apply (write_window_quiet _ _ _ _ _ (g <| gpu_clk := 0 |>)); [exact E | destruct R5; split; assumption]).
    destruct Hw; split; assumption.
Qed.

Lemma frame_rest : at_rest (mkSys g m F) -> at_rest (mkSys g' m F).
Proof.
  pose proof frame_fields as (E1 & E2 & E3 & E4). intros [R1 R2 R3]. split; cbn in *; congruence.
Qed.

Lemma frame_finished : finished (mkSys g m F) -> finished (mkSys g' m F).
Proof.
  pose proof frame_fields as (E1 & E2 & E3 & E4). intros (R & K1 & K2 & K3).
  split; [apply frame_rest; exact R |]. cbn in *. split; [congruence | split; assumption].
Qed.

Lemma frame_rejected : rejected (mkSys g m F) -> rejected (mkSys g' m F).
Proof.
  pose proof frame_fields as (E1 & E2 & E3 & E4). intros (R & K1 & K2 & K3).
  split; [apply frame_rest; exact R |]. cbn in *. split; [congruence | split; assumption].
Qed.

Lemma op_state_frame : op_state (mkSys g m F) -> op_state (mkSys g' m F).
Proof.
  unfold op_state.
  intros [?|[?|[?|[?|?]]]]; [left | right; left | right; right; left | do 3 right; left | do 4 right];
    [apply frame_reading | apply frame_computing | apply frame_writing | apply frame_finished |
     apply frame_rejected]; assumption.
Qed.
End Frame.

Lemma retire_state g m F now : op_state (mkSys g m F) -> dma (sent g) = [] ->
  exists g', retireIfReady P now g = Ok g' /\ op_state (mkSys g' m (F ++ dma (sent g'))).
Proof.
  intros S Hd. unfold retireIfReady.
  assert (Hid : op_state (mkSys g m (F ++ dma (sent g)))) by (rewrite Hd, app_nil_r; assumption).
  destruct (Z.eqb_spec (busy_until_clk g) 0) as [Hb|Hb]; cbn [orb]; [eauto |].
  destruct (now <? busy_until_clk g); [eauto |].
  destruct S as [[]|[[]|[[]|[([] & _)|([] & _)]]]]; cbn [dev ram flight] in *; try contradiction; try lia.
  rewrite has_kernel, bool_decide_true by eauto. rewrite (bool_decide_true (op_phase g = READING)) by assumption.
  cbn [andb]. destruct (begin_writeback (g <| busy_until_clk := 0 |>) m) as (g' & E & HS);
    try assumption; [destruct bs_common0; split; assumption | reflexivity |].
  exists g'. split; [exact E |]. subst F. cbn [app]. unfold op_state. cbv zeta in HS. tauto.
Qed.

Lemma hold_state b g m F : op_state (mkSys g m (F ++ dma (sent g))) -> 0 <= gpu_clk g ->
  op_state (mkSys (updatePrimaryHold b g) m (F ++ dma (sent (updatePrimaryHold b g)))).
Proof.
  intros S Hc. destruct (quiet_hold b g) as [Q1 Q2]. rewrite Q2.
  apply (op_state_frame g); [| | exact S].
  - apply (f_equal (fun x => x <| gpu_clk := 0 |>)) in Q1. exact Q1.
  - pose proof (f_equal gpu_clk Q1) as E. cbn in E. rewrite E. exact Hc.
Qed.

Lemma retire_clk g m F now g' : op_state (mkSys g m F) -> retireIfReady P now g = Ok g' -> gpu_clk g' = gpu_clk g.
Proof.
  intros S. unfold retireIfReady.
  destruct (Z.eqb_spec (busy_until_clk g) 0) as [Hb|Hb]; cbn [orb]; [intros E; injection E as <-; reflexivity |].
  destruct (now <? busy_until_clk g); [intros E; injection E as <-; reflexivity |].
  destruct S as [[]|[[]|[[]|[([] & _)|([] & _)]]]]; cbn [dev ram flight] in *; try contradiction; try lia.
  rewrite has_kernel, bool_decide_true by eauto. rewrite (bool_decide_true (op_phase g = READING)) by assumption.
  cbn [andb]. intros E. apply begin_writeback_clk in E. exact E.
Qed.

Lemma op_state_clk s : op_state s -> finished s \/ rejected s \/ 0 <= gpu_clk (dev s).
Proof. intros [[]|[[]|[[]|[]]]]; auto; right; right; eapply cm_clk; eassumption. Qed.

Lemma tick_step s : op_state s -> 0 <= gpu_clk (dev s) < 2 ^ 63 ->
  exists g', step P Tick (clear_sent (dev s)) = Ok g' /\
    gpu_clk g' = gpu_clk (dev s) + 1 /\
    op_state (mkSys g' (ram s) (flight s ++ dma (sent g'))).
Proof.
  destruct s as [g m F]; cbn [dev ram flight]. intros S Hc. cbn [step]. unfold tickBusy.
  set (g1 := clear_sent g <| gpu_clk ::= _ |>).
  assert (E1 : gpu_clk g1 = gpu_clk g + 1) by (apply wrap_small; word).
  set (g2 := if busy_until_clk g1 =? 0 then g1 else count busy_cycles g1).
  assert (V : et g2 = et g /\ gpu_clk g2 = gpu_clk g + 1 /\ dma (sent g2) = [])
    by (unfold g2; case_match; (split; [reflexivity | split; [exact E1 | reflexivity]])).
  destruct V as (V1 & V2 & V3).
  assert (S2 : op_state (mkSys g2 m F)) by (apply (op_state_frame g); [exact V1 | lia | exact S]).
  destruct (retire_state g2 m F (gpu_clk g2) S2 V3) as (g' & E & S').
  rewrite E. cbn [mbind result_bind]. eexists. split; [reflexivity |].
  pose proof (retire_clk g2 m F _ g' S2 E) as Ec.
  split; [rewrite <- V2, <- Ec; exact (f_equal gpu_clk (proj1 (quiet_hold true g'))) |].
  apply hold_state; [exact S' | lia].
Qed.

Lemma poll_step r s : op_state s -> 0 <= gpu_clk (dev s) ->
  exists g', step P (Read r) (clear_sent (dev s)) = Ok g' /\
    gpu_clk g' = gpu_clk (dev s) /\
    op_state (mkSys g' (ram s) (flight s ++ dma (sent g'))).
Proof.
  destruct s as [g m F]; cbn [dev ram flight]. intros S Hc. cbn [step]. unfold handle_read.
  set (g1 := clear_sent g).
  assert (S1 : op_state (mkSys g1 m F)) by (apply (op_state_frame g); [reflexivity | exact Hc | exact S]).
  destruct (retire_state g1 m F (gpu_clk g1) S1 eq_refl) as (g2 & E & S2).
  pose proof (retire_clk g1 m F _ g2 S1 E) as Ec.
  assert (Hid : op_state (mkSys g1 m (F ++ dma (sent g1)))) by (cbn; rewrite app_nil_r; exact S1).
  assert (HR : exists v g', read_register P (offset_of P (rd_addr r)) g1 = Ok (v, g') /\
    gpu_clk g' = gpu_clk g /\ op_state (mkSys g' m (F ++ dma (sent g')))).
  { unfold read_register. rewrite !E. cbn [mbind result_bind].
    assert (Hc2 : 0 <= gpu_clk g2) by (rewrite Ec; exact Hc).
    repeat match goal with |- context [if offset_of P (rd_addr r) =? ?k then _ else _] =>
      destruct (offset_of P (rd_addr r) =? k) end; cbn [orb];
      repeat match goal with |- context [if _ =? ?k then Ok _ else Ok _] => destruct (_ =? k) end.
    all: repeat case_match; do 2 eexists; (split; [reflexivity |]); (split; [exact Ec || reflexivity |]).
    all: first [exact S2 | exact Hid |
      apply (op_state_frame g2); [reflexivity | exact Hc2 | exact S2] |
      apply (op_state_frame g1); [reflexivity | exact Hc | exact Hid]]. }
  destruct HR as (v & g' & -> & Hc' & S'). cbn [mbind result_bind]. eexists. split; [reflexivity |].
  destruct (quiet_send g' (ReadResp (rd_id r) (u64ToData v (rd_size r))) eq_refl) as [Q1 Q2]. rewrite Q2.
  split; [exact Hc' |]. apply (op_state_frame g'); [reflexivity | | exact S'].
  change (0 <= gpu_clk g'). lia.
Qed.
(** ** The doorbell *)

(** The doorbell's conditions: the kernel accepts the arguments and the input
    and the output's first byte lie in the DMA range. *)
Definition accepted : bool :=
  negb (n =? 0) && dmaRangeOk P src n && dmaRangeOk P dst 1.

Definition args_of (g : Gpu) : KernelArgs :=
  let a := arg_regs g in mkArgs (a !!! 0%nat) (a !!! 1%nat) (a !!! 2%nat) (a !!! 3%nat).

Lemma start_dma g : op_args g = args -> 0 <= gpu_clk g -> 0 <= latency_override g < 2 ^ 62 ->
  kernel_id g = k0 -> busy_until_clk g = 0 -> dma (sent g) = [] ->
  exists g', opStartDma P K g = Ok g' /\ gpu_clk g' = gpu_clk g /\
    let s' := mkSys g' m0 (dma (sent g')) in
    if accepted then reading s' else at_rest s' /\ kernel_id g' = k0.
Proof.
  intros Ha Hc Hov Hk Hb Hd. unfold opStartDma. rewrite Ha.
  rewrite (surjective_pairing (inputBytes K args)). fold n.
  set (g0 := g <| op_in_bytes := n |>).
  assert (Hrej : forall why, exists g', opReject why g0 = Ok g' /\ gpu_clk g' = gpu_clk g /\
    let s' := mkSys g' m0 (dma (sent g')) in at_rest s' /\ kernel_id g' = k0).
  { intros why. destruct (opReject_quiet durable why g0) as (g' & E & Q1 & Q2). exists g'.
    pose proof (f_equal op_phase Q1) as F1. pose proof (f_equal busy_until_clk Q1) as F2.
    pose proof (f_equal kernel_id Q1) as F3. pose proof (f_equal gpu_clk Q1) as F4. cbn in F1, F2, F3, F4.
    split; [exact E | split; [exact F4 |]]. cbv zeta.
    split; [split; cbn; [assumption | assumption | rewrite Q2; exact Hd] | congruence]. }
  unfold accepted. change (src_addr args) with src. change (dst_addr args) with dst.
  change (op_args g0) with (op_args g). rewrite Ha. change (src_addr args) with src. change (dst_addr args) with dst.
  destruct (Z.eqb_spec n 0) as [Hn|Hn]; cbn [negb andb]; [apply Hrej |].
  destruct (dmaRangeOk P src n) eqn:Hsrc; cbn [negb andb]; [| apply Hrej].
  destruct (dmaRangeOk P dst 1) eqn:Hdst; cbn [negb]; [| apply Hrej].
  destruct args_ok as (A1 & A2 & A3).
  assert (S : span_ok src n).
  { pose proof (dmaRange_span src n Hsrc A1). unfold span_ok, is_word in *. lia. }
  match goal with |- context [opIssueReadWindow P ?x] => set (g1 := x) end.
  assert (W1 : read_window src n m0 [] g1).
  { split; cbn; try lia; try constructor; rewrite ?Ha, ?length_replicate; try reflexivity; try lia.
    unfold kMaxOpDmaOutstanding. lia. }
  destruct (issue_reads_ok P line_size_ok src n m0 window_fuel [] g1 S W1)
    as (g2 & new & E & HS & HD & HW & HE & HO & HM & HN); [unfold window_fuel, kMaxOpDmaOutstanding; cbn; lia |].
  unfold opIssueReadWindow. rewrite E. cbn [mbind result_bind]. eexists. split; [reflexivity |].
  destruct (quiet_hold false g2) as [Q1 Q2].
  pose proof (f_equal op_phase HE) as E1. pose proof (f_equal busy_until_clk HE) as E2.
  pose proof (f_equal kernel_id HE) as E3. pose proof (f_equal gpu_clk HE) as E4.
  pose proof (f_equal op_args HE) as E5. pose proof (f_equal latency_override HE) as E6.
  change (op_phase g2 = READING) in E1. change (busy_until_clk g2 = busy_until_clk g) in E2.
  change (kernel_id g2 = kernel_id g) in E3. change (gpu_clk g2 = gpu_clk g) in E4.
  change (op_args g2 = op_args g) in E5. change (latency_override g2 = latency_override g) in E6.
  pose proof (f_equal op_phase Q1) as F1. pose proof (f_equal busy_until_clk Q1) as F2.
  pose proof (f_equal kernel_id Q1) as F3. pose proof (f_equal gpu_clk Q1) as F4. cbn in F1, F2, F3, F4.
  split; [congruence |]. cbv zeta.
  assert (Hfl : dma (sent (updatePrimaryHold false g2)) = new).
  { rewrite Q2, HS, dma_app. change (sent g1) with (sent g). rewrite Hd. exact HD. }
  split; cbn [dev ram flight]; rewrite ?Hfl; try congruence; try reflexivity; try assumption.
  - apply (common_quiet g2); [exact Q1 |]. split; rewrite ?E4, ?E5, ?E6; assumption.
  - apply (read_window_quiet _ _ _ _ g2); assumption.
  - apply HN; [change (0 < n); destruct S; lia | reflexivity].
Qed.

(** ** The whole operation *)

Lemma op_state_step s s' : op_state s -> 0 <= gpu_clk (dev s) < 2 ^ 62 -> sys_step P s s' ->
  op_state s' /\ 0 <= gpu_clk (dev s') <= gpu_clk (dev s) + 1.
Proof.
  intros S Hc Hst. destruct Hst as [s pre post id a k g' Hf E | s pre post id a d g' Hf E | s g' E | s r g' E];
    cbn [dev].
  - destruct S as [R|[R|[R|[(R & _)|(R & _)]]]].
    + destruct (read_step s pre post id a k R Hf) as (g2 & E2 & Hg & HS); [lia |].
      rewrite E in E2. injection E2 as <-. split; [unfold op_state; cbv zeta in HS; tauto | lia].
    + rewrite (bs_flight s R) in Hf. destruct pre; discriminate.
    + pose proof (ww_flight _ _ _ _ _ _ (wt_window s R)) as Hw. rewrite Hf in Hw.
      apply Forall_app in Hw as [_ Hw]. apply Forall_cons in Hw as [(? & ? & ? & ? & _) _]. discriminate.
    + rewrite (ar_flight s R) in Hf. destruct pre; discriminate.
    + rewrite (ar_flight s R) in Hf. destruct pre; discriminate.
  - destruct S as [R|[R|[R|[(R & _)|(R & _)]]]].
    + pose proof (rw_flight _ _ _ _ _ (rd_window s R)) as Hw. rewrite Hf in Hw.
      apply Forall_app in Hw as [_ Hw]. apply Forall_cons in Hw as [(? & ? & ? & ? & _) _]. discriminate.
    + rewrite (bs_flight s R) in Hf. destruct pre; discriminate.
    + destruct (write_step s pre post id a d R Hf) as (g2 & E2 & Hg & HS).
      rewrite E in E2. injection E2 as <-. split; [unfold op_state; cbv zeta in HS; tauto | lia].
    + rewrite (ar_flight s R) in Hf. destruct pre; discriminate.
    + rewrite (ar_flight s R) in Hf. destruct pre; discriminate.
  - destruct (tick_step s S) as (g2 & E2 & Hg & HS); [lia |].
    rewrite E in E2. injection E2 as <-. split; [exact HS | lia].
  - destruct (poll_step r s S) as (g2 & E2 & Hg & HS); [lia |].
    rewrite E in E2. injection E2 as <-. split; [exact HS | lia].
Qed.

Lemma op_state_steps j s s' : nsteps (sys_step P) j s s' -> op_state s -> 0 <= gpu_clk (dev s) ->
  gpu_clk (dev s) + Z.of_nat j < 2 ^ 62 -> op_state s'.
Proof.
  induction 1 as [|j s1 s2 s3 Hst Hr IH]; [auto |]. intros S Hc Hb.
  destruct (op_state_step s1 s2 S) as [S2 Hc2]; [lia | assumption |]. apply IH; [assumption | lia | lia].
Qed.

(** ** Completion *)

Lemma writing_completes j : forall s, writing s -> write_left s <= Z.of_nat j ->
  exists s', rtc (sys_step P) s s' /\ finished s'.
Proof.
  induction j as [|j IH]; intros s R Hj; destruct (flight s) as [|m post] eqn:Hf;
    try (destruct (wt_some s R Hf)).
  { unfold write_left in Hj. rewrite Hf in Hj. cbn in Hj.
    pose proof (ww_next _ _ _ _ _ _ (wt_window s R)) as Hw. change (Z.of_nat (length out)) with len in Hw. lia. }
  pose proof (ww_flight _ _ _ _ _ _ (wt_window s R)) as Hw. rewrite Hf in Hw.
  apply Forall_cons in Hw as [(id & off & k & -> & _) _].
  destruct (write_step s [] post _ _ _ R Hf) as (g' & E & _ & [F|[R' Hl]]).
  - eexists. split; [| exact F]. apply rtc_once. eapply (serve_write P s []); eassumption.
  - destruct (IH _ R') as (s' & Hr & F); [lia |]. exists s'. split; [| exact F].
    eapply rtc_l; [| exact Hr]. eapply (serve_write P s []); eassumption.
Qed.

Lemma hold_et b g : et (updatePrimaryHold b g) = et g.
Proof. pose proof (proj1 (quiet_hold b g)) as Q. exact (f_equal (fun x => x <| gpu_clk := 0 |>) Q). Qed.

(** One clock of the computing state: it stays, or the time is up. *)
Lemma computing_tick s : computing s -> gpu_clk (dev s) < 2 ^ 63 - 1 ->
  exists s', sys_step P s s' /\
    ((computing s' /\ busy_until_clk (dev s') = busy_until_clk (dev s) /\
      gpu_clk (dev s') = gpu_clk (dev s) + 1 /\ gpu_clk (dev s') < busy_until_clk (dev s')) \/
     writing s' \/ rejected s').
Proof.
  intros R Hlt. pose proof (bs_busy s R) as Hb. pose proof (cm_clk _ (bs_common s R)) as Hc.
  destruct (tick_step s) as (g' & E & Hg & _); [right; left; exact R | lia |].
  exists (mkSys g' (ram s) (flight s ++ dma (sent g'))). split; [apply clock; exact E |].
  pose proof (bs_flight s R) as Hf. cbn [step] in E. unfold tickBusy in E. apply bind_ok in E as (g2 & E & Eq).
  set (g1 := clear_sent (dev s) <| gpu_clk ::= _ |>) in E.
  assert (E1 : gpu_clk g1 = gpu_clk (dev s) + 1) by (apply wrap_small; word).
  set (gc := if busy_until_clk g1 =? 0 then g1 else count busy_cycles g1) in E.
  assert (V : et gc = et (dev s) /\ gpu_clk gc = gpu_clk (dev s) + 1 /\ dma (sent gc) = [] /\
    busy_until_clk gc = busy_until_clk (dev s))
    by (unfold gc; case_match; (split; [reflexivity | split; [exact E1 | split; reflexivity]])).
  destruct V as (V1 & V2 & V3 & V4).
  assert (Rc : computing (mkSys gc (ram s) [])).
  { rewrite <- Hf. apply (frame_computing (dev s)); [exact V1 | lia |]. destruct s; exact R. }
  unfold retireIfReady in E. rewrite V2, V4, (proj2 (Z.eqb_neq _ 0)) in E by lia. cbn [orb] in E.
  injection Eq as <-. rewrite Hf. cbn [app].
  rewrite (proj2 (quiet_hold true g2)). cbn [dev].
  destruct (Z.ltb_spec (gpu_clk (dev s) + 1) (busy_until_clk (dev s))) as [Hlt2|Hge].
  - left. injection E as <-. rewrite V3.
    split; [apply (frame_computing gc); [apply hold_et | | exact Rc] |].
    + pose proof (f_equal gpu_clk (proj1 (quiet_hold true gc))) as F. cbn in F. lia.
    + pose proof (f_equal gpu_clk (proj1 (quiet_hold true gc))) as F.
      pose proof (f_equal busy_until_clk (proj1 (quiet_hold true gc))) as F'. cbn in F, F'. lia.
  - right. destruct Rc as [P1 P2 P3 P4 P5 P6 P7]. cbn [dev ram flight] in *.
    rewrite has_kernel, bool_decide_true in E by eauto.
    rewrite (bool_decide_true (op_phase gc = READING)) in E by assumption. cbn [andb] in E.
    destruct (begin_writeback (gc <| busy_until_clk := 0 |>) (ram s)) as (g3 & E3 & HS);
      try assumption; [destruct P3; split; assumption | reflexivity |].
    rewrite E in E3. injection E3 as <-.
    pose proof (begin_writeback_clk _ _ E) as Ec. change (gpu_clk g2 = gpu_clk gc) in Ec.
    pose proof (f_equal gpu_clk (proj1 (quiet_hold true g2))) as F. cbn in F.
    destruct HS as [HS|HS]; [left; apply (frame_writing g2) | right; apply (frame_rejected g2)];
      try assumption; try apply hold_et; lia.
Qed.

Lemma computing_completes j : forall s, computing s -> gpu_clk (dev s) < 2 ^ 63 - 1 ->
  busy_until_clk (dev s) - gpu_clk (dev s) <= Z.of_nat j ->
  exists s', rtc (sys_step P) s s' /\ (finished s' \/ rejected s').
Proof.
  induction j as [|j IH]; intros s R Hlt Hj;
    destruct (computing_tick s R Hlt) as (s1 & Hst & [(R1 & E1 & E2 & E3)|[W|W]]).
  - lia.
  - destruct (writing_completes (Z.to_nat (write_left s1)) s1 W) as (s' & Hr & F); [lia |].
    exists s'. split; [eapply rtc_l; eassumption | auto].
  - exists s1. split; [apply rtc_once; exact Hst | auto].
  - pose proof (bs_busy s1 R1). destruct (IH s1 R1) as (s' & Hr & F); [lia | lia |].
    exists s'. split; [eapply rtc_l; eassumption | exact F].
  - destruct (writing_completes (Z.to_nat (write_left s1)) s1 W) as (s' & Hr & F); [lia |].
    exists s'. split; [eapply rtc_l; eassumption | auto].
  - exists s1. split; [apply rtc_once; exact Hst | auto].
Qed.

Lemma reading_completes j : forall s, reading s -> gpu_clk (dev s) < 2 ^ 62 -> read_left s <= Z.of_nat j ->
  exists s', rtc (sys_step P) s s' /\ (finished s' \/ rejected s').
Proof.
  induction j as [|j IH]; intros s R Hc Hj; destruct (flight s) as [|m post] eqn:Hf;
    try (destruct (rd_some s R Hf)).
  { unfold read_left in Hj. rewrite Hf in Hj. cbn in Hj.
    pose proof (rw_next _ _ _ _ _ (rd_window s R)). lia. }
  pose proof (rw_flight _ _ _ _ _ (rd_window s R)) as Hw. rewrite Hf in Hw.
  apply Forall_cons in Hw as [(id & off & k & -> & _) _].
  destruct (read_step s [] post _ _ _ R Hf Hc) as (g' & E & Hg & HS). cbv zeta in HS.
  set (s1 := mkSys g' (ram s) ([] ++ post ++ dma (sent g'))) in *.
  assert (Hst : sys_step P s s1) by (eapply (serve_read P s []); eassumption).
  destruct HS as [R'|[R'|[R'|[R' Hl]]]].
  - destruct (computing_completes (Z.to_nat (busy_until_clk (dev s1) - gpu_clk (dev s1))) s1 R')
      as (s' & Hr & F); [cbn [dev s1]; lia | lia |]. exists s'. split; [eapply rtc_l; eassumption | exact F].
  - destruct (writing_completes (Z.to_nat (write_left s1)) s1 R') as (s' & Hr & F); [lia |].
    exists s'. split; [eapply rtc_l; eassumption | auto].
  - exists s1. split; [apply rtc_once; exact Hst | auto].
  - destruct (IH s1 R') as (s' & Hr & F); [cbn [dev s1]; lia | lia |].
    exists s'. split; [eapply rtc_l; eassumption | exact F].
Qed.
End Run.

(** ** Theorems

    An accelerator with kernel [K], a lifecycle log that does not fail and a
    doorbell rung while it is idle. *)

(** What the environment and the kernel promise for one operation. *)
Record op_env `{FileSystem} (P : Params) (K : QuetzKernel) (args : KernelArgs) (m0 : mem) (k0 : Z) : Prop :=
  { oe_log : forall n, can_flush n = true;
    oe_line : 0 <= mem_line_size P;
    oe_kernel : kernel P = Some K;
    oe_latency : 0 <= kernel_latency P < 2 ^ 62;
    oe_args : is_u64 (src_addr args) /\ is_u64 (dst_addr args) /\ 0 <= (inputBytes K args).1 < 2 ^ 64;
    oe_out : let r := compute K (data_big_endian P) args (mread m0 (src_addr args) (inputBytes K args).1) in
      r.1 <> [] /\ Z.of_nat (length r.1) < 2 ^ 64 /\ 0 <= r.2 < 2 ^ 62;
    oe_k0 : 0 <= k0 < 2 ^ 62 }.

(** The device when the doorbell rings. *)
Record idle_device (g : Gpu) (k0 : Z) : Prop :=
  { id_phase : op_phase g = IDLE; id_busy : busy_until_clk g = 0; id_kernel : kernel_id g = k0;
    id_clk : 0 <= gpu_clk g; id_override : 0 <= latency_override g < 2 ^ 62; id_sent : dma (sent g) = [] }.

(** Memory after an operation: the kernel's output at the destination. *)
Definition op_result (P : Params) (K : QuetzKernel) (args : KernelArgs) (m0 : mem) : mem :=
  mwrite m0 (dst_addr args)
    (compute K (data_big_endian P) args (mread m0 (src_addr args) (inputBytes K args).1)).1.

Lemma ring_start `{FileSystem} P K g w k0 m0 : op_env P K (args_of g) m0 k0 -> idle_device g k0 ->
  exists g', ring_kernel P K w g = Ok g' /\ gpu_clk g' = gpu_clk g /\
    let s := mkSys g' m0 (dma (sent g')) in
    if accepted P K (args_of g) then reading K (args_of g) m0 k0 s
    else at_rest s /\ kernel_id g' = k0.
Proof.
  intros [O1 O2 O3 O4 O5 O6 O7] [I1 I2 I3 I4 I5 I6]. unfold ring_kernel.
  set (g1 := count doorbell_writes g).
  assert (Hb : (negb (bool_decide (op_phase g1 = IDLE)) || isBusyAt g1) = false).
  { rewrite bool_decide_true by exact I1. unfold isBusyAt. change (busy_until_clk g1) with (busy_until_clk g).
    rewrite I2. reflexivity. }
  rewrite Hb. cbn [throw_if mbind result_bind].
  set (g2 := if negb (wr_posted w) && doorbell_blocking P then _ else _).
  set (g3 := g2 <| submit_id ::= _ |>). set (g4 := g3 <| op_args := _ |>).
  assert (V : arg_regs g3 = arg_regs g /\ gpu_clk g4 = gpu_clk g /\ latency_override g4 = latency_override g /\
    kernel_id g4 = kernel_id g /\ busy_until_clk g4 = busy_until_clk g /\ sent g4 = sent g)
    by (unfold g4, g3, g2; case_match; repeat split).
  destruct V as (V1 & V2 & V3 & V4 & V5 & V6).
  assert (Ha : op_args g4 = args_of g) by (unfold g4, args_of; rewrite <- V1; reflexivity).
  unfold emitOpRequested.
  match goal with |- context [log_event ?r ?y g4] => destruct (log_ok r y g4) as (g5 & -> & Q1 & Q2) end.
  { apply emit_ok. exact O1. }
  cbn [mbind result_bind].
  pose proof (f_equal op_args Q1) as F1. pose proof (f_equal gpu_clk Q1) as F2.
  pose proof (f_equal latency_override Q1) as F3. pose proof (f_equal kernel_id Q1) as F4.
  pose proof (f_equal busy_until_clk Q1) as F5. cbn [ei] in F1, F2, F3, F4, F5.
  change (op_args g5 = op_args g4) in F1. change (gpu_clk g5 = gpu_clk g4) in F2.
  change (latency_override g5 = latency_override g4) in F3. change (kernel_id g5 = kernel_id g4) in F4.
  change (busy_until_clk g5 = busy_until_clk g4) in F5.
  destruct (start_dma P K O1 O2 (args_of g) m0 k0 O5 g5) as (g6 & E & Hc & HS); try congruence; try lia.

  rewrite E. cbn [mbind result_bind]. eexists. split; [reflexivity |]. cbv zeta in HS |- *.
  destruct (negb (wr_posted w) && negb (doorbell_blocking P)); [| split; [congruence | exact HS]].
  split; [change (gpu_clk g6 = gpu_clk g); congruence |].
  destruct (quiet_send g6 (WriteResp (wr_id w)) eq_refl) as [_ Qs]. rewrite Qs.
  destruct (accepted P K (args_of g)).
  - apply (frame_reading K (args_of g) m0 k0 g6); [reflexivity | | exact HS].
    change (0 <= gpu_clk g6). lia.
  - destruct HS as [HS Hk]. split; [apply (frame_rest g6); [reflexivity | exact HS] | exact Hk].
Qed.

(** C10. Soundness, for every order in which memory answers and every
    interleaving with clocks and status polls: when the device is idle again,
    either the completion counter has advanced by one and memory holds the
    kernel's output at the destination and is unchanged elsewhere, or the
    output did not fit the DMA range, the counter has not moved and memory is
    untouched. *)
Theorem operation_sound `{FileSystem} P K g w k0 m0 :
  op_env P K (args_of g) m0 k0 -> idle_device g k0 -> accepted P K (args_of g) = true ->
  exists g', ring_kernel P K w g = Ok g' /\
    forall j s, nsteps (sys_step P) j (mkSys g' m0 (dma (sent g'))) s ->
      gpu_clk g + Z.of_nat j < 2 ^ 62 -> op_phase (dev s) = IDLE ->
      flight s = [] /\ busy_until_clk (dev s) = 0 /\
      if dmaRangeOk P (dst_addr (args_of g))
           (Z.of_nat (length (compute K (data_big_endian P) (args_of g)
              (mread m0 (src_addr (args_of g)) (inputBytes K (args_of g)).1)).1))
      then kernel_id (dev s) = k0 + 1 /\ ram s ≐ op_result P K (args_of g) m0
      else kernel_id (dev s) = k0 /\ ram s ≐ m0.
Proof.
  intros O I A. destruct (ring_start P K g w k0 m0 O I) as (g' & E & Hc & S). rewrite A in S. cbv zeta in S.
  exists g'. split; [exact E |]. intros j s Hst Hj Hph. pose proof I as [_ _ _ Ic _ _]. destruct O as [O1 O2 O3 O4 O5 O6 O7].
  assert (S' : op_state P K (args_of g) m0 k0 s).
  { eapply (op_state_steps P K O1 O2 O3 O4 (args_of g) m0 k0 O5 O6 O7); [exact Hst | left; exact S | cbn; lia | cbn; lia]. }
  destruct S' as [[]|[[]|[[]|[(R & K1 & K2 & K3)|(R & K1 & K2 & K3)]]]]; try congruence; rewrite K2; destruct R; auto.
Qed.


(** A rejected doorbell completes at once: no DMA, no busy time, no count. *)
Lemma operation_rejected `{FileSystem} P K g w k0 m0 :
  op_env P K (args_of g) m0 k0 -> idle_device g k0 -> accepted P K (args_of g) = false ->
  exists g', ring_kernel P K w g = Ok g' /\ op_phase g' = IDLE /\ busy_until_clk g' = 0 /\
    dma (sent g') = [] /\ kernel_id g' = k0.
Proof.
  intros O I A. destruct (ring_start P K g w k0 m0 O I) as (g' & E & _ & S). rewrite A in S.
  destruct S as [[] ?]. exists g'. auto.
Qed.

(** During an operation every answer memory gives is accepted: no unknown
    request id, no second answer, no failing clock or poll. *)
Lemma operation_never_fails `{FileSystem} P K args m0 k0 s :
  op_env P K args m0 k0 -> op_state P K args m0 k0 s -> 0 <= gpu_clk (dev s) < 2 ^ 62 ->
  (forall m, m ∈ flight s -> exists g',
     match m with
     | MemRead id a k => step P (DmaReadResp id (mread (ram s) a k)) (clear_sent (dev s)) = Ok g'
     | _ => step P DmaWriteResp (clear_sent (dev s)) = Ok g'
     end) /\
  (exists g', step P Tick (clear_sent (dev s)) = Ok g') /\
  (forall r, exists g', step P (Read r) (clear_sent (dev s)) = Ok g').
Proof.
  intros [O1 O2 O3 O4 O5 O6 O7] S Hc. split; [| split].
  - intros m Hm. apply list_elem_of_split in Hm as (pre & post & Hf).
    destruct S as [R|[R|[R|[(R & _)|(R & _)]]]];
      try (first [rewrite (bs_flight _ _ _ _ _ _ R) in Hf | rewrite (ar_flight _ R) in Hf]; destruct pre; discriminate).
    + pose proof (rw_flight _ _ _ _ _ (rd_window _ _ _ _ _ R)) as Hw. rewrite Hf in Hw.
      apply Forall_app in Hw as [_ Hw]. apply Forall_cons in Hw as [(id & off & k & -> & _) _].
      destruct (read_step P K O1 O2 O3 O4 args m0 k0 O5 O6 O7 s pre post _ _ _ R Hf) as (g' & E & _); [lia | eauto].
    + pose proof (ww_flight _ _ _ _ _ _ (wt_window _ _ _ _ _ _ R)) as Hw. rewrite Hf in Hw.
      apply Forall_app in Hw as [_ Hw]. apply Forall_cons in Hw as [(id & off & k & -> & _) _].
      destruct (write_step P K O1 O2 args m0 k0 O5 O6 O7 s pre post _ _ _ R Hf) as (g' & E & _). eauto.
  - destruct (tick_step P K O1 O2 O3 O4 args m0 k0 O5 O6 O7 s S) as (g' & E & _); [lia | eauto].
  - intros r. destruct (poll_step P K O1 O2 O3 O4 args m0 k0 O5 O6 O7 r s S) as (g' & E & _); [lia | eauto].
Qed.

(** ** The theorems at concrete inputs

    One sample scaled by 3 and offset by 7, read at 0 and written at 64. *)
Definition demo_kernel : QuetzKernel := ScaleOffsetKernel 4.
Definition demo_params_to (dma_end : Z) : Params :=
  mkParams 0x5000 0x400 5000 false false false (-1) 0 (Some demo_kernel) false 0 dma_end 64 0
    "" "accelerator.quetz" "kernel" true true false true.
Definition demo_params : Params := demo_params_to 0.
Definition demo_mem : mem := fun x => if x =? 0 then 100 else 0.
Definition demo_gpu (samples : Z) : Gpu := gpu0 writer0 <| arg_regs := [0; 64; samples; 7 * 65536 + 3] |>.
Definition demo_doorbell : WriteReq := mkWrite 0 0x5000 4 [1; 0; 0; 0] false.

Lemma demo_env : @op_env good_fs demo_params demo_kernel (args_of (demo_gpu 1)) demo_mem 0.
Proof.
  split; [reflexivity | cbn; lia | reflexivity | vm_compute; repeat split; congruence ..].
Qed.

Lemma demo_idle n : idle_device (demo_gpu n) 0.
Proof. split; try reflexivity; cbn; lia. Qed.

Lemma operation_sound_witness : exists g',
  @ring_kernel good_fs demo_params demo_kernel demo_doorbell (demo_gpu 1) = Ok g' /\
  forall s, nsteps (@sys_step good_fs demo_params) 9 (mkSys g' demo_mem (dma (sent g'))) s ->
    op_phase (dev s) = IDLE -> kernel_id (dev s) = 1.
Proof.
  destruct (@operation_sound good_fs demo_params demo_kernel (demo_gpu 1) demo_doorbell 0 demo_mem)
    as (g' & E & Hs).
  - apply demo_env.
  - apply demo_idle.
  - reflexivity.
  - exists g'. split; [exact E |]. intros s Hst Hi. destruct (Hs 9%nat s Hst) as (_ & _ & H); [cbn; lia | exact Hi |].
    exact (proj1 H).
Defined.


(** The ring that starts the demo operation, then a clock while it reads. *)
Lemma operation_never_fails_witness : exists g' g'',
  @ring_kernel good_fs demo_params demo_kernel demo_doorbell (demo_gpu 1) = Ok g' /\
  op_phase g' = READING /\ @step good_fs demo_params Tick (clear_sent g') = Ok g''.
Proof.
  destruct (@ring_start good_fs demo_params demo_kernel (demo_gpu 1) demo_doorbell 0 demo_mem demo_env (demo_idle 1))
    as (g' & E & Hc & S).
  destruct (@operation_never_fails good_fs demo_params demo_kernel (args_of (demo_gpu 1)) demo_mem 0
    (mkSys g' demo_mem (dma (sent g')))) as (_ & (g'' & E') & _).
  - apply demo_env.
  - left. exact S.
  - cbn [dev]. rewrite Hc. cbn. lia.
  - exists g', g''. split; [exact E | split; [exact (rd_phase _ _ _ _ _ S) | exact E']].
Defined.

(** The same operation with a DMA range that ends below its destination. *)
Lemma operation_rejected_witness : exists g',
  @ring_kernel good_fs (demo_params_to 32) demo_kernel demo_doorbell (demo_gpu 1) = Ok g' /\
  op_phase g' = IDLE /\ kernel_id g' = 0.
Proof.
  destruct (@operation_rejected good_fs (demo_params_to 32) demo_kernel (demo_gpu 1) demo_doorbell 0 demo_mem)
    as (g' & E & Hp & _ & _ & Hk).
  - split; [reflexivity | cbn; lia | reflexivity | vm_compute; repeat split; congruence ..].
  - apply demo_idle.
  - reflexivity.
  - exists g'. auto.
Defined.
