(* ===== verification/GpuIrq.v ===== *)
(** * Completion interrupts of the accelerator

    Level semantics with event counting: completions are counted, the line is
    raised while any is unconsumed, an acknowledgement consumes. *)
From S2P Require Import Prelude.
From S2P Require Import StdMem.
From S2P Require Import EventWriter.
From S2P Require Import Kernel.
From S2P Require Import Gpu.
From S2P Require Import GpuDma.

(** The interrupt messages sent, and the level the CPU last saw. *)
Definition irq_of (m : Msg) : option Z := match m with Irq e => Some (level e) | _ => None end.
Definition irq_levels (l : list Msg) : list Z := omap irq_of l.
Definition line_level (l : list Msg) : Z := default 0 (last (irq_levels l)).

(** What happens at the interrupt logic: a completion or an acknowledgement. *)
Inductive IrqOp : Set := Retire | Ack (consume : Z).

Section Irq.
Context `{FileSystem} (P : Params).
Hypothesis durable : forall n, can_flush n = true.
Hypothesis irq_enabled : 0 <= p_irq_line P.

Definition irq_step (o : IrqOp) (g : Gpu) : result Gpu :=
  match o with
  | Retire => raiseIrqOnRetire P g
  | Ack consume => if consume =? 0 then Ok g else ackIrq P consume g
  end.

Fixpoint irq_run (os : list IrqOp) (g : Gpu) : result Gpu :=
  match os with [] => Ok g | o :: os => irq_step o g ≫= irq_run os end.

(** The specification: completions not yet consumed. *)
Definition spec_step (o : IrqOp) (n : Z) : Z :=
  match o with Retire => n + 1 | Ack consume => Z.max 0 (n - consume) end.
Definition spec_run (os : list IrqOp) (n : Z) : Z := fold_left (fun n o => spec_step o n) os n.

Record irq_ok (n : Z) (g : Gpu) : Prop :=
  { io_events : irq_events g = n; io_nonneg : 0 <= n;
    io_pending : irq_pending g = (0 <? n);
    io_line : line_level (sent g) = if 0 <? n then 1 else 0 }.

Lemma line_send_irq l e : line_level (l ++ [Irq e]) = level e.
Proof. unfold line_level, irq_levels. rewrite omap_app, last_app. reflexivity. Qed.

Lemma irq_quiet kind v obs g g' : emitIrqEvent P kind v obs g = Ok g' ->
  irq_events g' = irq_events g /\ irq_pending g' = irq_pending g /\ sent g' = sent g.
Proof.
  unfold emitIrqEvent, log_event. destruct (negb _); [intros E; injection E as <-; auto |].
  case_match; [intros E; injection E as <-; auto | discriminate].
Qed.

Lemma retire_irq n g : irq_ok n g -> n + 1 < 2 ^ 64 ->
  exists g', raiseIrqOnRetire P g = Ok g' /\ irq_ok (n + 1) g'.
Proof.
  intros [I1 I2 I3 I4] Hn. unfold raiseIrqOnRetire. rewrite (proj2 (Z.ltb_ge _ _) irq_enabled).
  assert (E : u64 (irq_events g + 1) = n + 1) by (rewrite I1; apply wrap_small; word).
  assert (Hpos : (0 <? n + 1) = true) by lia.
  change (irq_pending (g <| irq_events ::= fun n => u64 (n + 1) |>)) with (irq_pending g).
  destruct (irq_pending g) eqn:Hp.
  - eexists. split; [reflexivity |].
    split; rewrite ?Hpos; [exact E | lia | exact Hp |].
    change (line_level (sent g) = 1). rewrite I4, <- I3. reflexivity.
  - match goal with |- context [emitIrqEvent P ?k ?v ?o ?x] =>
      destruct (emitIrqEvent_ok P durable k v o x eq_refl eq_refl) as (g1 & E1 & _) end.
    rewrite E1. cbn [mbind result_bind]. apply irq_quiet in E1 as (F1 & F2 & F3). eexists. split; [reflexivity |].
    split; rewrite ?Hpos.
    + change (irq_events g1 = n + 1). rewrite F1. exact E.
    + lia.
    + change (irq_pending g1 = true). rewrite F2. reflexivity.
    + change (line_level (sent g1 ++ [Irq (mkIrq (irq_vcpu P) (u32 (p_irq_line P)) 1)]) = 1).
      apply line_send_irq.
Qed.

Lemma ack_irq n c g : irq_ok n g -> 0 < c ->
  exists g', ackIrq P c g = Ok g' /\ irq_ok (Z.max 0 (n - c)) g'.
Proof.
  intros [I1 I2 I3 I4] Hc. unfold ackIrq. rewrite (proj2 (Z.ltb_ge _ _) irq_enabled). cbn [orb].
  rewrite I3. destruct (Z.ltb_spec 0 n) as [Hn|Hn]; cbn [negb].
  2:{ exists g. assert (n = 0) as -> by lia. split; [reflexivity |].
      replace (Z.max 0 (0 - c)) with 0 by lia. split; assumption || lia. }
  match goal with |- context [emitIrqEvent P ?k ?v ?o g] =>
    destruct (emitIrqEvent_ok P durable k v o g eq_refl eq_refl) as (g1 & E1 & _) end.
  rewrite E1. cbn [mbind result_bind]. apply irq_quiet in E1 as (F1 & F2 & F3).
  set (g2 := g1 <| irq_events ::= _ |>).
  assert (E2 : irq_events g2 = Z.max 0 (n - c)).
  { change (irq_events g1 - (if c <? irq_events g1 then c else irq_events g1) = Z.max 0 (n - c)).
    rewrite F1, I1. destruct (Z.ltb_spec c n); lia. }
  rewrite E2. destruct (Z.ltb_spec 0 (Z.max 0 (n - c))) as [Hm|Hm].
  - exists g2. split; [reflexivity |]. split; [exact E2 | lia | |];
      rewrite (proj2 (Z.ltb_lt _ _) Hm).
    + change (irq_pending g1 = true). rewrite F2. exact I3.
    + change (line_level (sent g1) = 1). rewrite F3. exact I4.
  - match goal with |- context [emitIrqEvent P ?k ?v ?o ?x] =>
      destruct (emitIrqEvent_ok P durable k v o x eq_refl eq_refl) as (g3 & E3 & _) end.
    rewrite E3. cbn [mbind result_bind]. apply irq_quiet in E3 as (H1 & H2 & H3). eexists. split; [reflexivity |].
    split; rewrite ?(proj2 (Z.ltb_ge _ _) Hm).
    + change (irq_events g3 = Z.max 0 (n - c)). rewrite H1. exact E2.
    + lia.
    + change (irq_pending g3 = false). rewrite H2. reflexivity.
    + change (line_level (sent g3 ++ [Irq (mkIrq (irq_vcpu P) (u32 (p_irq_line P)) 0)]) = 0).
      apply line_send_irq.
Qed.

Lemma irq_run_ok os : forall n g, irq_ok n g -> Forall (fun o => match o with Ack c => 0 <= c | _ => True end) os ->
  n + Z.of_nat (length os) < 2 ^ 64 ->
  exists g', irq_run os g = Ok g' /\ irq_ok (spec_run os n) g'.
Proof.
  induction os as [|o os IH]; intros n g I Hos Hn; cbn [irq_run length] in *; [eauto |].
  apply Forall_cons in Hos as [Ho Hos].
  assert (HS : exists g1, irq_step o g = Ok g1 /\ irq_ok (spec_step o n) g1).
  { destruct o as [|c]; cbn [irq_step spec_step]; [apply retire_irq; [assumption | lia] |].
    destruct (Z.eqb_spec c 0) as [->|]; [| apply ack_irq; [assumption | lia]].
    exists g. split; [reflexivity |]. rewrite Z.sub_0_r, Z.max_r by apply I. exact I. }
  destruct HS as (g1 & -> & I1). cbn [mbind result_bind].
  apply IH; [assumption | assumption |]. pose proof (io_nonneg n g I). destruct o; cbn; lia.
Qed.

(** However completions and acknowledgements interleave, the level the CPU
    sees is raised exactly while completions are unconsumed, and none is
    lost: the events left are those a saturating counter has. *)
Lemma irq_level_exact os w : Forall (fun o => match o with Ack c => 0 <= c | _ => True end) os ->
  Z.of_nat (length os) < 2 ^ 64 ->
  exists g, irq_run os (gpu0 w) = Ok g /\ irq_events g = spec_run os 0 /\
    line_level (sent g) = (if 0 <? spec_run os 0 then 1 else 0) /\
    irq_pending g = (0 <? spec_run os 0).
Proof.
  intros Ha Hn. destruct (irq_run_ok os 0 (gpu0 w)) as (g & E & [I1 I2 I3 I4]); [| assumption | assumption |].
  - split; reflexivity || lia.
  - exists g. auto.
Qed.
End Irq.

(** ** The theorem at a concrete input *)

Definition demo_params : Params :=
  mkParams 0x5000 0x400 3 false false false 5 0 None false 0 0 64 0
    "" "accelerator.quetz" "kernel" true false true true.

Lemma irq_level_exact_witness : exists g,
  @irq_run good_fs demo_params [Retire; Retire; Ack 1] (gpu0 writer0) = Ok g /\ line_level (sent g) = 1.
Proof.
  destruct (@irq_level_exact good_fs demo_params (fun _ => eq_refl) ltac:(cbn; lia) [Retire; Retire; Ack 1] writer0)
    as (g & E & _ & Hl & _).
  - repeat constructor; lia.
  - cbn. lia.
  - exists g. split; [exact E | exact Hl].
Defined.
