(* ===== verification/Mailbox.v ===== *)
(** * The synchronous MMIO mailbox

    One slot of the shared memory ([mmio_req], [mmio_slot] in
    [include/quetz/quetz_ipc_types.h]), used by any number of producers
    ([quetz_ipc_mmio_read], [quetz_ipc_mmio_write] of
    [qemu-overlay/quetz_ipc_client.c] and [cb_cache_op] of
    [src/src/qemu_plugin/instrument.cpp], all under the lock of
    [quetz_ipc_lock.h]) and by the simulator's poll loop
    ([pollMmioSyncMailbox], [postResponse]).

    Every shared-memory access is a step of its own and all interleavings are
    considered; the code's acquire and release accesses are taken as
    sequentially consistent. *)
From S2P Require Import Prelude.

(** ** Requests and program points *)

Definition QUETZ_CMD_MMIO_READ_REQ : Z := 4.
Definition QUETZ_CMD_MMIO_WRITE_REQ : Z := 5.
Definition QUETZ_CMD_CACHE_OP : Z := 7.

Record Req := mkReq { rq_addr : Z; rq_size : Z; rq_write_val : Z; rq_cmd : Z }.
#[export] Instance Req_eq_dec : EqDecision Req.
Proof. solve_decision. Defined.

(** Where a producer is in its call. *)
Inductive Pc : Type :=
  | Out                        (* not in a call *)
  | Locking (q : Req)          (* quetz_ipc_lock *)
  | Locked (q : Req)
  | ReadyCleared (q : Req)     (* clear_slot, between its two stores *)
  | PendingChecked (q : Req)   (* cb_cache_op, between its two loads *)
  | Filling (q : Req) (n : nat) (* n of the four request fields stored *)
  | Waiting (q : Req)          (* pending stored; polling ready *)
  | SawReady (q : Req)
  | Got (q : Req) (v : Z)      (* value read *)
  | Leaving (q : Req) (v : Z). (* ready cleared; about to unlock *)

(** Where the simulator's poll of this slot is. *)
Inductive PollPc : Type := PollIdle | PollSeen | PollRead (q : Req).

Record State := mkState
  { busy : Z; pending : Z; fields : Req; ready : Z; value : Z;
    pcs : nat -> Pc;
    poll : PollPc;
    serving : option (Req * option Z);   (* taken; response value stored or not *)
    served : list (Req * Z);             (* responses posted, in order *)
    done_ : list (Req * Z);              (* calls returned, in order *)
    fatal : bool }.                      (* cache_op_fatal: mailbox in use *)
#[export] Instance State_settable : Settable State := fun s =>
  mkState (busy s) (pending s) (fields s) (ready s) (value s) (pcs s) (poll s) (serving s)
    (served s) (done_ s) (fatal s).

Definition init : State :=
  mkState 0 0 (mkReq 0 0 0 0) 0 0 (fun _ => Out) PollIdle None [] [] false.

Definition upd (f : nat -> Pc) (i : nat) (p : Pc) : nat -> Pc := fun j => if Nat.eqb j i then p else f j.
Definition at_pc (i : nat) (p : Pc) (s : State) : State := s <| pcs := upd (pcs s) i p |>.

Definition is_cache_op (q : Req) : bool := rq_cmd q =? QUETZ_CMD_CACHE_OP.

(** The request fields in the order the producers store them. *)
Definition store_field (q : Req) (n : nat) (f : Req) : Req :=
  match n with
  | O => mkReq (rq_addr q) (rq_size f) (rq_write_val f) (rq_cmd f)
  | 1%nat => mkReq (rq_addr f) (rq_size q) (rq_write_val f) (rq_cmd f)
  | 2%nat => mkReq (rq_addr f) (rq_size f) (rq_write_val q) (rq_cmd f)
  | _ => mkReq (rq_addr f) (rq_size f) (rq_write_val f) (rq_cmd q)
  end.

(** ** Steps *)

(** The next step of producer [i]; [None] where it must wait. *)
Definition producer_step (i : nat) (s : State) : option State :=
  match pcs s i with
  | Out => None
  | Locking q => if busy s =? 0 then Some (at_pc i (Locked q) (s <| busy := 1 |>)) else None
  | Locked q =>
      if is_cache_op q then
        if pending s =? 0 then Some (at_pc i (PendingChecked q) s) else Some (s <| fatal := true |>)
      else Some (at_pc i (ReadyCleared q) (s <| ready := 0 |>))
  | ReadyCleared q => Some (at_pc i (Filling q 0) (s <| value := 0 |>))
  | PendingChecked q =>
      if ready s =? 0 then Some (at_pc i (Filling q 0) s) else Some (s <| fatal := true |>)
  | Filling q n =>
      if (n <? 4)%nat then Some (at_pc i (Filling q (S n)) (s <| fields ::= store_field q n |>))
      else Some (at_pc i (Waiting q) (s <| pending := 1 |>))
  | Waiting q => if ready s =? 0 then None else Some (at_pc i (SawReady q) s)
  | SawReady q => Some (at_pc i (Got q (value s)) s)
  | Got q v => Some (at_pc i (Leaving q v) (s <| ready := 0 |>))
  | Leaving q v => Some (at_pc i Out (s <| busy := 0 |> <| done_ ::= fun l => l ++ [(q, v)] |>))
  end.

(** The next step of the poll loop. *)
Definition poll_step (s : State) : option State :=
  match poll s with
  | PollIdle => if pending s =? 0 then None else Some (s <| poll := PollSeen |>)
  | PollSeen => Some (s <| poll := PollRead (fields s) |>)
  | PollRead q => Some (s <| poll := PollIdle |> <| pending := 0 |> <| serving := Some (q, None) |>)
  end.

(** Posting a response with some value: the value, then the flag. *)
Definition post_value (v : Z) (s : State) : option State :=
  match serving s with
  | Some (q, None) => Some (s <| value := v |> <| serving := Some (q, Some v) |>)
  | _ => None
  end.
Definition post_ready (s : State) : option State :=
  match serving s with
  | Some (q, Some v) =>
      Some (s <| ready := 1 |> <| serving := None |> <| served ::= fun l => l ++ [(q, v)] |>)
  | _ => None
  end.

Inductive step : State -> State -> Prop :=
  | step_call s i q : pcs s i = Out -> step s (at_pc i (Locking q) s)
  | step_producer s i s' : producer_step i s = Some s' -> step s s'
  | step_poll s s' : poll_step s = Some s' -> step s s'
  | step_value s v s' : post_value v s = Some s' -> step s s'
  | step_ready s s' : post_ready s = Some s' -> step s s'.

Definition reachable (s : State) : Prop := rtc step init s.

(** ** The invariant *)

(** A producer outside the critical section. *)
Definition outside (p : Pc) : Prop := p = Out \/ exists q, p = Locking q.

Definition quiet (s : State) : Prop :=
  pending s = 0 /\ ready s = 0 /\ poll s = PollIdle /\ serving s = None /\ served s = done_ s.

(** The first [n] fields are those of [q]. *)
Definition filled (n : nat) (q f : Req) : Prop :=
  (0 < n -> rq_addr f = rq_addr q)%nat /\ (1 < n -> rq_size f = rq_size q)%nat /\
  (2 < n -> rq_write_val f = rq_write_val q)%nat /\ (3 < n -> rq_cmd f = rq_cmd q)%nat.

(** The request of the waiting producer: published, taken, answered or ready. *)
Inductive service (q : Req) (s : State) : Prop :=
  | sv_published : pending s = 1 -> ready s = 0 -> fields s = q -> serving s = None ->
      served s = done_ s -> (forall q', poll s = PollRead q' -> q' = q) -> service q s
  | sv_taken : pending s = 0 -> ready s = 0 -> poll s = PollIdle -> serving s = Some (q, None) ->
      served s = done_ s -> service q s
  | sv_value v : pending s = 0 -> ready s = 0 -> poll s = PollIdle -> serving s = Some (q, Some v) ->
      value s = v -> served s = done_ s -> service q s
  | sv_ready v : pending s = 0 -> ready s = 1 -> poll s = PollIdle -> serving s = None ->
      value s = v -> served s = done_ s ++ [(q, v)] -> service q s.

Definition answered (q : Req) (v : Z) (s : State) : Prop :=
  pending s = 0 /\ poll s = PollIdle /\ serving s = None /\ served s = done_ s ++ [(q, v)].

Definition holder_ok (p : Pc) (s : State) : Prop :=
  match p with
  | Out | Locking _ => False
  | Locked _ | ReadyCleared _ | PendingChecked _ => quiet s
  | Filling q n => quiet s /\ (n <= 4)%nat /\ filled n q (fields s)
  | Waiting q => service q s
  | SawReady q => answered q (value s) s /\ ready s = 1
  | Got q v => answered q v s /\ ready s = 1
  | Leaving q v => answered q v s /\ ready s = 0
  end.

Definition inv (s : State) : Prop :=
  fatal s = false /\
  ((busy s = 0 /\ quiet s /\ forall i, outside (pcs s i)) \/
   (busy s = 1 /\ exists i, holder_ok (pcs s i) s /\ forall j, j <> i -> outside (pcs s j))).

Lemma upd_same f i p : upd f i p i = p.
Proof. unfold upd. rewrite Nat.eqb_refl. reflexivity. Qed.

Lemma upd_other f i j p : j <> i -> upd f i p j = f j.
Proof. intros. unfold upd. destruct (Nat.eqb_spec j i); congruence. Qed.

Lemma outside_upd f i p : (forall j, j <> i -> outside (f j)) -> forall j, j <> i -> outside (upd f i p j).
Proof. intros Hf j Hj. rewrite upd_other by assumption. auto. Qed.

Lemma filled_all q f : filled 4 q f -> f = q.
Proof. intros (H1 & H2 & H3 & H4). destruct f, q; cbn in *. f_equal; auto with lia. Qed.

Lemma filled_store q n f : (n < 4)%nat -> filled n q f -> filled (S n) q (store_field q n f).
Proof.
  intros Hn (H1 & H2 & H3 & H4). destruct n as [|[|[|[|n]]]]; try lia; unfold filled; cbn in *;
    repeat split; intros; try reflexivity; try lia; auto with lia.
Qed.

(** The holder moves on, in a state that suits it. *)
Lemma inv_holder s s' i p : busy s' = 1 -> fatal s' = false -> pcs s' = upd (pcs s) i p ->
  (forall j, j <> i -> outside (pcs s j)) -> holder_ok p s' -> inv s'.
Proof.
  intros Hb Hf Hp Ho Hh. split; [assumption | right]. split; [assumption |].
  exists i. rewrite Hp, upd_same. split; [assumption |]. apply outside_upd. assumption.
Qed.

Lemma inv_producer s i s' : inv s -> producer_step i s = Some s' -> inv s'.
Proof.
  intros [Hf [(Hb & Hq & Ho)|(Hb & i0 & Hh & Ho)]] E; unfold producer_step in E.
  - destruct (Ho i) as [Ei|[q Ei]]; rewrite Ei in E; [discriminate |]. rewrite Hb in E. injection E as <-.
    apply (inv_holder s _ i (Locked q)); auto.
  - destruct (Nat.eq_dec i i0) as [->|Hne].
    2:{ destruct (Ho i Hne) as [Ei|[q Ei]]; rewrite Ei in E; [discriminate |]. rewrite Hb in E. discriminate. }
    destruct (pcs s i0) as [|q|q|q|q|q n|q|q|q v|q v] eqn:Ei; cbn in Hh; try contradiction.
    + destruct (is_cache_op q).
      * destruct Hh as (H1 & H2 & H3 & H4 & H5). rewrite H1 in E. injection E as <-.
        apply (inv_holder s _ i0 (PendingChecked q)); auto. repeat split; assumption.
      * injection E as <-. apply (inv_holder s _ i0 (ReadyCleared q)); auto.
        destruct Hh as (H1 & H2 & H3 & H4 & H5). repeat split; assumption.
    + injection E as <-. apply (inv_holder s _ i0 (Filling q 0)); auto.
      destruct Hh as (H1 & H2 & H3 & H4 & H5). repeat split; try assumption; lia.
    + destruct Hh as (H1 & H2 & H3 & H4 & H5). rewrite H2 in E. injection E as <-.
      apply (inv_holder s _ i0 (Filling q 0)); auto. repeat split; try assumption; lia.
    + destruct Hh as (Hq & Hn & Hfl). destruct (Nat.ltb_spec n 4) as [Hlt|Hge]; injection E as <-.
      * apply (inv_holder s _ i0 (Filling q (S n))); auto.
        split; [exact Hq | split; [lia |]]. apply filled_store; assumption.
      * assert (n = 4%nat) as -> by lia. destruct Hq as (H1 & H2 & H3 & H4 & H5).
        apply (inv_holder s _ i0 (Waiting q)); auto.
        apply sv_published; auto; cbn; [apply filled_all; assumption |]. intros q' Hq'. congruence.
    + destruct (Z.eqb_spec (ready s) 0) as [|Hr]; [discriminate |]. injection E as <-.
      apply (inv_holder s _ i0 (SawReady q)); auto.
      destruct Hh as [| | |v H1 H2 H3 H4 H5 H6]; try congruence.
      split; [| exact H2]. unfold answered; cbn. subst v. auto.
    + injection E as <-. apply (inv_holder s _ i0 (Got q (value s))); auto.
    + injection E as <-. apply (inv_holder s _ i0 (Leaving q v)); auto.
      destruct Hh as [Ha _]. split; [exact Ha | reflexivity].
    + injection E as <-. destruct Hh as [(H1 & H2 & H3 & H4) H5].
      split; [exact Hf | left]. split; [reflexivity |]. split; [repeat split; assumption |].
      intros j. cbn. destruct (Nat.eq_dec j i0) as [->|Hj]; [rewrite upd_same; left; reflexivity |].
      rewrite upd_other by assumption. auto.
Qed.

(** The simulator's steps change no program point and keep the lock. *)
Lemma inv_server s s' : inv s -> pcs s' = pcs s -> busy s' = busy s -> fatal s' = fatal s ->
  (quiet s -> quiet s') ->
  (forall i, holder_ok (pcs s i) s -> holder_ok (pcs s i) s') -> inv s'.
Proof.
  intros [Hf H] Hp Hb Hft Hq Hh. split; [congruence |]. rewrite Hp, Hb.
  destruct H as [(H1 & H2 & H3)|(H1 & i & H2 & H3)]; [left; auto | right].
  split; [assumption |]. exists i. auto.
Qed.

Lemma holder_at p i p' s : holder_ok p s -> holder_ok p (at_pc i p' s).
Proof.
  destruct p as [|q|q|q|q|q n|q|q|q v|q v]; try (intros Hh; exact Hh).
  intros [H1 H2 H3 H4 H5 H6|H1 H2 H3 H4 H5|v H1 H2 H3 H4 H5 H6|v H1 H2 H3 H4 H5 H6];
    [apply sv_published | apply sv_taken | apply (sv_value _ _ v) | apply (sv_ready _ _ v)]; assumption.
Qed.

Lemma inv_step s s' : inv s -> step s s' -> inv s'.
Proof.
  intros I Hst. destruct Hst as [s i q Hi | s i s' E | s s' E | s v s' E | s s' E].
  - destruct I as [Hf [(Hb & Hq & Ho)|(Hb & i0 & Hh & Ho)]]; split; try exact Hf.
    + left. split; [exact Hb | split; [exact Hq |]]. intros j. cbn.
      destruct (Nat.eq_dec j i) as [->|Hj]; [rewrite upd_same; right; eauto |].
      rewrite upd_other by assumption. apply Ho.
    + right. split; [exact Hb |]. exists i0.
      assert (i0 <> i) by (intros ->; rewrite Hi in Hh; exact Hh).
      split; [cbn; rewrite upd_other by assumption; apply holder_at; exact Hh |].
      intros j Hj. cbn. destruct (Nat.eq_dec j i) as [->|Hj']; [rewrite upd_same; right; eauto |].
      rewrite upd_other by assumption. auto.
  - eapply inv_producer; eassumption.
  - unfold poll_step in E. destruct (poll s) as [| |q] eqn:Ep.
    + destruct (Z.eqb_spec (pending s) 0) as [|Hne]; [discriminate |]. injection E as <-.
      apply (inv_server s); auto.
      * intros (H1 & _). congruence.
      * intros i. destruct (pcs s i) as [|q|q|q|q|q n|q|q|q v|q v]; cbn; unfold quiet, answered; try tauto.
        intros [H1 H2 H3 H4 H5 H6|H1|v H1|v H1]; try congruence. apply sv_published; auto; discriminate.
    + injection E as <-. apply (inv_server s); auto.
      * intros (_ & _ & H3 & _). congruence.
      * intros i. destruct (pcs s i) as [|q|q|q|q|q n|q|q|q v|q v]; cbn; unfold quiet, answered;
          rewrite ?Ep; try (intros; exfalso; intuition congruence).
        intros [H1 H2 H3 H4 H5 H6|? ? H1|v ? ? H1|v ? ? H1]; try congruence.
        apply sv_published; auto; cbn. congruence.
    + injection E as <-. apply (inv_server s); auto.
      * intros (_ & _ & H3 & _). congruence.
      * intros i. destruct (pcs s i) as [|q'|q'|q'|q'|q' n|q'|q'|q' v|q' v]; cbn; unfold quiet, answered;
          rewrite ?Ep; try (intros; exfalso; intuition congruence).
        intros [H1 H2 H3 H4 H5 H6|? ? H1|v ? ? H1|v ? ? H1]; try congruence.
        rewrite (H6 q Ep). apply sv_taken; auto.
  - unfold post_value in E. destruct (serving s) as [[q [v'|]]|] eqn:Es; try discriminate. injection E as <-.
    apply (inv_server s); auto.
    + intros (_ & _ & _ & H4 & _). congruence.
    + intros i. destruct (pcs s i) as [|q'|q'|q'|q'|q' n|q'|q'|q' v'|q' v']; cbn; unfold quiet, answered;
        rewrite ?Es; try (intros; exfalso; intuition congruence).
      intros [? ? ? H1|H1 H2 H3 H4 H5|v' ? ? ? H1|v' ? ? ? H1]; try congruence.
      assert (q = q') as -> by congruence. apply (sv_value _ _ v); auto.
  - unfold post_ready in E. destruct (serving s) as [[q [v'|]]|] eqn:Es; try discriminate. injection E as <-.
    apply (inv_server s); auto.
    + intros (_ & _ & _ & H4 & _). congruence.
    + intros i. destruct (pcs s i) as [|q'|q'|q'|q'|q' n|q'|q'|q' v|q' v]; cbn; unfold quiet, answered;
        rewrite ?Es; try (intros; exfalso; intuition congruence).
      intros [? ? ? H1|? ? ? H1|v H1 H2 H3 H4 H5 H6|v ? ? ? H1]; try congruence.
      assert (q = q' /\ v' = v) as [-> ->] by (split; congruence).
      apply (sv_ready _ _ v); auto. cbn. rewrite H6. reflexivity.
Qed.

Lemma inv_init : inv init.
Proof. split; [reflexivity | left]. repeat split. intros i. left. reflexivity. Qed.

Lemma inv_reachable s : reachable s -> inv s.
Proof.
  unfold reachable. intros Hr. remember init as s0 eqn:E0. pose proof inv_init as I. rewrite <- E0 in I.
  clear E0. induction Hr as [|s1 s2 s3 Hst _ IH]; [assumption |]. apply IH. eapply inv_step; eassumption.
Qed.

(** ** Theorems *)

(** C5. Mutual exclusion, matching responses, no lost or overwritten request: in
    every reachable state at most one producer is inside; the calls that have
    returned are, in order, the responses the simulator posted, each with the
    request it was posted for; at most one response is under way; the
    simulator never takes a request while it is serving another; and the cache
    instruction never finds the mailbox in use. *)
Theorem mailbox_safe s : reachable s ->
  (forall i j, ~ outside (pcs s i) -> ~ outside (pcs s j) -> i = j) /\
  fatal s = false /\
  (exists under_way, served s = done_ s ++ under_way /\ (length under_way <= 1)%nat) /\
  (forall q, poll s = PollRead q -> serving s = None).
Proof.
  intros Hr. destruct (inv_reachable s Hr) as [Hf H].
  assert (Hservice : forall i, holder_ok (pcs s i) s ->
    (exists u, served s = done_ s ++ u /\ (length u <= 1)%nat) /\ (forall q, poll s = PollRead q -> serving s = None)).
  { intros i. assert (H0 : served s = done_ s -> exists u, served s = done_ s ++ u /\ (length u <= 1)%nat)
      by (intros E; exists []; rewrite app_nil_r; cbn; auto).
    assert (H1 : forall q v, served s = done_ s ++ [(q, v)] -> exists u, served s = done_ s ++ u /\ (length u <= 1)%nat)
      by (intros q v E; exists [(q, v)]; cbn; auto).
    destruct (pcs s i) as [|q|q|q|q|q n|q|q|q v|q v]; cbn; unfold quiet, answered; try tauto.
    - intros [? ? ? H2 ? ?|? ? ? H2 ?|v ? ? ? H2 ? ?|v ? ? ? H2 ? ?]; split; eauto; intros; congruence.
    - intros ((_ & _ & ? & ?) & _). eauto.
    - intros ((_ & _ & ? & ?) & _). eauto.
    - intros ((_ & _ & ? & ?) & _). eauto. }
  split; [| split; [exact Hf |]].
  - destruct H as [(_ & _ & Ho)|(_ & k & _ & Ho)]; intros i j Hi Hj; [destruct (Hi (Ho i)) |].
    destruct (Nat.eq_dec i k) as [->|Hik]; [| destruct (Hi (Ho i Hik))].
    destruct (Nat.eq_dec j k) as [->|Hjk]; [reflexivity | destruct (Hj (Ho j Hjk))].
  - destruct H as [(_ & (_ & _ & _ & H4 & H5) & _)|(_ & k & Hk & _)]; [| apply (Hservice k Hk)].
    split; [exists []; rewrite app_nil_r; cbn; auto | intros; assumption].
Qed.

(** Steps until the producer inside leaves. *)
Definition remaining (p : Pc) (s : State) : nat :=
  match p with
  | Out | Locking _ => 0
  | Locked _ => 20
  | ReadyCleared _ | PendingChecked _ => 19
  | Filling _ n => 18 - n
  | Waiting _ =>
      if Z.eqb (ready s) 1 then 8
      else match serving s with
           | Some (_, Some _) => 9
           | Some (_, None) => 10
           | None => match poll s with PollRead _ => 11 | PollSeen => 12 | PollIdle => 13 end
           end
  | SawReady _ => 7
  | Got _ _ => 6
  | Leaving _ _ => 5
  end%nat.

(** A step that leaves the holder with less to do. *)
Definition advances (s : State) (i : nat) : Prop :=
  exists s', step s s' /\
    (busy s' = 0 \/
     (busy s' = 1 /\ holder_ok (pcs s' i) s' /\ (remaining (pcs s' i) s' < remaining (pcs s i) s)%nat)).

Lemma advance_intro s i s' p : inv s -> step s s' -> busy s' = 1 -> pcs s' i = p -> ~ outside p ->
  (remaining p s' < remaining (pcs s i) s)%nat -> advances s i.
Proof.
  intros I Hst Hb Hp Hn Hr. exists s'. split; [assumption | right]. split; [assumption |]. rewrite Hp.
  split; [| assumption]. destruct (inv_step s s' I Hst) as [_ [(H0 & _)|(_ & k & Hk & Ho)]]; [lia |].
  destruct (Nat.eq_dec i k) as [->|Hne]; [congruence |]. destruct Hn. rewrite <- Hp. apply Ho. assumption.
Qed.

Ltac inside := intros [?|[? ?]]; discriminate.

(** Whoever is inside can be brought one step closer to returning, by its own
    step or the simulator's. *)
Lemma holder_advances s i : inv s -> holder_ok (pcs s i) s -> busy s = 1 -> advances s i.
Proof.
  intros I Hh Hb.
  assert (Hown : forall s' p, producer_step i s = Some s' -> busy s' = 1 -> pcs s' i = p -> ~ outside p ->
    (remaining p s' < remaining (pcs s i) s)%nat -> advances s i)
    by (intros s' p E; apply advance_intro; [exact I | apply (step_producer s i); exact E]).
  assert (Hsrv : forall s', step s s' -> busy s' = busy s -> pcs s' = pcs s -> ~ outside (pcs s i) ->
    (remaining (pcs s i) s' < remaining (pcs s i) s)%nat -> advances s i)
    by (intros s' Hst Hb' Hp; apply (advance_intro s i s'); [exact I | exact Hst | congruence | congruence]).
  unfold producer_step in Hown.
  destruct (pcs s i) as [|q|q|q|q|q n|q|q|q v|q v] eqn:Ei; cbn in Hh; try contradiction.
  - destruct Hh as (H1 & _). destruct (is_cache_op q); [rewrite H1 in Hown |];
      (eapply Hown; [reflexivity | assumption || exact Hb | apply upd_same | inside | cbn; lia]).
  - eapply Hown; [reflexivity | exact Hb | apply upd_same | inside | cbn; lia].
  - destruct Hh as (_ & H2 & _). rewrite H2 in Hown.
    eapply Hown; [reflexivity | exact Hb | apply upd_same | inside | cbn; lia].
  - destruct Hh as (Hq & Hn & _). destruct (Nat.ltb_spec n 4).
    + eapply Hown; [reflexivity | exact Hb | apply upd_same | inside | cbn; lia].
    + destruct Hq as (H1 & H2 & H3 & H4 & _).
      eapply Hown; [reflexivity | exact Hb | apply upd_same | inside |]. cbn. rewrite H2, H3, H4. cbn. lia.
  - destruct Hh as [H1 H2 H3 H4 H5 H6|H1 H2 H3 H4 H5|v H1 H2 H3 H4 H5 H6|v H1 H2 H3 H4 H5 H6].
    + destruct (poll s) as [| |q'] eqn:Ep.
      * eapply (Hsrv (s <| poll := PollSeen |>)); try reflexivity; [| inside | cbn; rewrite H2, H4, Ep; cbn; lia].
        apply step_poll. unfold poll_step. rewrite Ep, H1. reflexivity.
      * eapply (Hsrv (s <| poll := PollRead (fields s) |>)); try reflexivity;
          [| inside | cbn; rewrite H2, H4, Ep; cbn; lia].
        apply step_poll. unfold poll_step. rewrite Ep. reflexivity.
      * eapply (Hsrv (s <| poll := PollIdle |> <| pending := 0 |> <| serving := Some (q', None) |>));
          try reflexivity; [| inside | cbn; rewrite H2, H4, Ep; cbn; lia].
        apply step_poll. unfold poll_step. rewrite Ep. reflexivity.
    + eapply (Hsrv (s <| value := 0 |> <| serving := Some (q, Some 0) |>)); try reflexivity;
        [| inside | cbn; rewrite H2, H4; cbn; lia].
      apply (step_value s 0). unfold post_value. rewrite H4. reflexivity.
    + eapply (Hsrv (s <| ready := 1 |> <| serving := None |> <| served ::= fun l => l ++ [(q, v)] |>));
        try reflexivity; [| inside | cbn; rewrite H2, H4; cbn; lia].
      apply step_ready. unfold post_ready. rewrite H4. reflexivity.
    + rewrite H2 in Hown. eapply Hown; [reflexivity | exact Hb | apply upd_same | inside |].
      cbn. rewrite H2. cbn. lia.
  - eapply Hown; [reflexivity | exact Hb | apply upd_same | inside | cbn; lia].
  - eapply Hown; [reflexivity | exact Hb | apply upd_same | inside | cbn; lia].
  - eexists. split; [apply (step_producer s i); unfold producer_step; rewrite Ei; reflexivity |].
    left. reflexivity.
Qed.

Lemma holder_leaves n : forall s i, inv s -> holder_ok (pcs s i) s -> busy s = 1 ->
  (remaining (pcs s i) s <= n)%nat -> exists s', rtc step s s' /\ busy s' = 0.
Proof.
  induction n as [|n IH]; intros s i I Hh Hb Hn; destruct (holder_advances s i I Hh Hb) as (s1 & Hst & [H0|(H1 & H2 & H3)]).
  - exists s1. split; [apply rtc_once; assumption | assumption].
  - lia.
  - exists s1. split; [apply rtc_once; assumption | assumption].
  - destruct (IH s1 i (inv_step s s1 I Hst) H2 H1) as (s' & Hr & H'); [lia |].
    exists s'. split; [eapply rtc_l; eassumption | assumption].
Qed.

(** The mailbox cannot wedge: from every reachable state the lock can become
    free, and a producer that waits for a free lock can take it. *)
Lemma mailbox_progress s : reachable s ->
  (exists s', rtc step s s' /\ busy s' = 0) /\
  (busy s = 0 -> forall i q, pcs s i = Locking q -> exists s', step s s' /\ pcs s' i = Locked q).
Proof.
  intros Hr. pose proof (inv_reachable s Hr) as I. split.
  - destruct I as [Hf [(Hb & _)|(Hb & i & Hh & Ho)]].
    + exists s. split; [apply rtc_refl | assumption].
    + apply (holder_leaves (remaining (pcs s i) s) s i); auto. split; [assumption | right]; eauto.
  - intros Hb i q Hi. eexists. split.
    + apply (step_producer s i). unfold producer_step. rewrite Hi, Hb. reflexivity.
    + apply upd_same.
Qed.

(** ** The theorems at a concrete state *)

Lemma demo_reachable : reachable (at_pc 0 (Locking (mkReq 16 4 0 QUETZ_CMD_MMIO_READ_REQ)) init).
Proof. apply rtc_once, (step_call init 0). reflexivity. Qed.

Lemma mailbox_safe_witness :
  fatal (at_pc 0 (Locking (mkReq 16 4 0 QUETZ_CMD_MMIO_READ_REQ)) init) = false.
Proof. exact (proj1 (proj2 (mailbox_safe _ demo_reachable))). Defined.

Lemma mailbox_progress_witness : exists s',
  step (at_pc 0 (Locking (mkReq 16 4 0 QUETZ_CMD_MMIO_READ_REQ)) init) s' /\
  pcs s' 0%nat = Locked (mkReq 16 4 0 QUETZ_CMD_MMIO_READ_REQ).
Proof. exact (proj2 (mailbox_progress _ demo_reachable) eq_refl 0%nat _ eq_refl). Defined.
