(* ===== verification/IrqMailbox.v ===== *)
(** * The interrupt mailbox

    The reverse path: the simulator publishes interrupt levels in
    [irq_slot] ([QuetzMmioSync::postIrq], [src/src/quetz_mmio_sync.h]) and the
    QEMU bridge drains them from a timer ([quetz_ipc_irq_drain],
    [qemu-overlay/quetz_ipc_client.c], called by [sst_mmio_bridge_irq_poll]).
    The two sides share memory without a lock; every access is a step and all
    interleavings are considered.  Acquire and release accesses are taken as
    sequentially consistent. *)
From S2P Require Import Prelude.

(** A slot: vCPU row and line number. *)
Definition Key : Type := nat * nat.
#[export] Instance Key_eq_dec : EqDecision Key := _.

Definition QUETZ_MAX_IRQ_LINES : nat := 64.
Definition QUETZ_MAX_MMIO_VCORES : nat := 256.

(** The rows and lines a drain scans, in its order. *)
Definition scan_keys (ncores max_lines : nat) : list Key :=
  v ← seq 0 (min ncores QUETZ_MAX_MMIO_VCORES);
  (fun l => (v, l)) <$> seq 0 (min max_lines QUETZ_MAX_IRQ_LINES).

Record QuetzIrqSlot := mkSlot { seq_ : Z; level : Z }.

(** Where [postIrq] is: between its stores. *)
Inductive PostPc : Type :=
  | PostIdle
  | PostLevel (k : Key)    (* level stored *)
  | PostSeq (k : Key).     (* seq stored; generation not yet *)
#[export] Instance PostPc_eq_dec : EqDecision PostPc.
Proof. solve_decision. Defined.

(** A change in the drain's [out] array. *)
Record QuetzIrqChange := mkChange { ch_key : Key; ch_level : Z }.

(** Where the drain is, with the first changes of [out] filled in. *)
Inductive DrainPc : Type :=
  | DrainIdle
  | Scan (gen : Z) (rest : list Key) (out : list QuetzIrqChange)
  | ReadLevel (gen : Z) (k : Key) (rest : list Key) (out : list QuetzIrqChange).  (* shadow stored *)

Record State := mkState
  { slot : Key -> QuetzIrqSlot; irq_generation : Z; post : PostPc;
    posts : Z;                                 (* calls of postIrq so far *)
    irq_seq : Key -> Z; irq_gen : Z;           (* the client's shadows *)
    drain : DrainPc;
    changes : list QuetzIrqChange;             (* what the last drain returned *)
    handed : Key -> Z }.                       (* the level last put in [out] for a slot *)
#[export] Instance State_settable : Settable State := fun s =>
  mkState (slot s) (irq_generation s) (post s) (posts s) (irq_seq s) (irq_gen s) (drain s) (changes s) (handed s).

Definition init : State :=
  mkState (fun _ => mkSlot 0 0) 0 PostIdle 0 (fun _ => 0) 0 DrainIdle [] (fun _ => 0).

Definition put {A} (f : Key -> A) (k : Key) (a : A) : Key -> A := fun j => if decide (j = k) then a else f j.

Section Mailbox.
(** Cores and lines the drain scans, and the room for changes. *)
Variables (keys : list Key) (max_out : nat).

(** ** [postIrq] *)

Definition post_level (k : Key) (lev : Z) (s : State) : option State :=
  match post s with
  | PostIdle => Some (s <| slot ::= fun f => put f k (mkSlot (seq_ (f k)) lev) |>
                        <| posts ::= Z.succ |> <| post := PostLevel k |>)
  | _ => None
  end.
Definition post_next (s : State) : option State :=
  match post s with
  | PostIdle => None
  | PostLevel k =>
      Some (s <| slot ::= fun f => put f k (mkSlot (u32 (seq_ (f k) + 1)) (level (f k))) |>
              <| post := PostSeq k |>)
  | PostSeq k => Some (s <| irq_generation ::= fun n => u32 (n + 1) |> <| post := PostIdle |>)
  end.

(** ** [quetz_ipc_irq_drain] *)

Definition drain_start (s : State) : option State :=
  match drain s with
  | DrainIdle =>
      if irq_generation s =? irq_gen s then Some (s <| changes := [] |>)
      else Some (s <| drain := Scan (irq_generation s) keys [] |>)
  | _ => None
  end.
Definition drain_next (s : State) : option State :=
  match drain s with
  | DrainIdle => None
  | Scan gen [] out => Some (s <| irq_gen := gen |> <| drain := DrainIdle |> <| changes := out |>)
  | Scan gen (k :: rest) out =>
      let seq := seq_ (slot s k) in
      if seq =? irq_seq s k then Some (s <| drain := Scan gen rest out |>)
      else Some (s <| irq_seq ::= fun f => put f k seq |> <| drain := ReadLevel gen k rest out |>)
  | ReadLevel gen k rest out =>
      let lev := level (slot s k) in
      let out := out ++ [mkChange k lev] in
      let s := s <| handed ::= fun f => put f k lev |> in
      if Nat.eqb (length out) max_out then Some (s <| drain := DrainIdle |> <| changes := out |>)
      else Some (s <| drain := Scan gen rest out |>)
  end.

(** A whole call of the drain, with nothing else running. *)
Fixpoint drain_run (fuel : nat) (s : State) : option State :=
  match fuel with
  | O => None
  | S fuel => match drain_next s with Some s' => drain_run fuel s' | None => Some s end
  end.
Definition quetz_ipc_irq_drain (s : State) : option State :=
  s' ← drain_start s; drain_run (2 * length keys + 2) s'.

(** ** [sst_mmio_bridge_irq_poll] *)

(** The bridge's output lines, and how a tick ends. *)
Inductive PollResult : Type :=
  | Exits                              (* a change in a row other than 0 *)
  | Done (irqs : nat -> bool) (s : State).

(** [qemu_set_irq] on the lines of the changes, in order. *)
Fixpoint set_irqs (cs : list QuetzIrqChange) (irqs : nat -> bool) : option (nat -> bool) :=
  match cs with
  | [] => Some irqs
  | c :: cs =>
      if Nat.eqb (fst (ch_key c)) 0
      then set_irqs cs (fun l => if Nat.eqb l (snd (ch_key c)) then negb (ch_level c =? 0) else irqs l)
      else None
  end.

Fixpoint sst_mmio_bridge_irq_poll (fuel : nat) (irqs : nat -> bool) (s : State) : option PollResult :=
  match fuel with
  | O => None
  | S fuel =>
      s' ← quetz_ipc_irq_drain s;
      match set_irqs (changes s') irqs with
      | None => Some Exits
      | Some irqs' =>
          if Nat.eqb (length (changes s')) max_out then sst_mmio_bridge_irq_poll fuel irqs' s'
          else Some (Done irqs' s')
      end
  end.

Inductive step : State -> State -> Prop :=
  | step_post_level s k lev s' : k ∈ keys -> post_level k lev s = Some s' -> step s s'
  | step_post s s' : post_next s = Some s' -> step s s'
  | step_drain_start s s' : drain_start s = Some s' -> step s s'
  | step_drain s s' : drain_next s = Some s' -> step s s'.

Definition reachable (s : State) : Prop := rtc step init s.

(** ** The invariant *)

Definition posting (k : Key) (s : State) : Prop := post s = PostLevel k \/ post s = PostSeq k.

(** A slot the drain has caught up with holds the level it handed over, unless
    one side is between its two accesses. *)
Definition level_ok (s : State) (k : Key) : Prop :=
  seq_ (slot s k) = irq_seq s k -> post s <> PostLevel k ->
  (forall g r out, drain s <> ReadLevel g k r out) -> handed s k = level (slot s k).

(** Since the generation [g] was read, slot [k] has not changed, or the
    generation has moved or is about to. *)
Definition since (g : Z) (s : State) (k : Key) : Prop :=
  seq_ (slot s k) <> irq_seq s k -> g < irq_generation s \/ post s = PostSeq k.

Definition drain_ok (s : State) : Prop :=
  match drain s with
  | DrainIdle => forall k, k ∈ keys -> since (irq_gen s) s k
  | Scan g rest _ => irq_gen s < g <= irq_generation s /\
      forall k, k ∈ keys -> k ∈ rest \/ since g s k
  | ReadLevel g k0 rest _ => irq_gen s < g <= irq_generation s /\
      forall k, k ∈ keys -> k ∈ rest \/ since g s k
  end.

Definition in_flight (s : State) : Z := match post s with PostIdle => 0 | _ => 1 end.

Record inv (s : State) : Prop :=
  { iv_seq : forall k, 0 <= irq_seq s k <= seq_ (slot s k);
    iv_posts : forall k, seq_ (slot s k) <= posts s - (if decide (post s = PostLevel k) then 1 else 0);
    iv_gen : irq_generation s = posts s - in_flight s;
    iv_shadow : 0 <= irq_gen s <= irq_generation s;
    iv_level : forall k, k ∈ keys -> level_ok s k;
    iv_drain : drain_ok s }.

Lemma put_same {A} f k (a : A) : put f k a k = a.
Proof. unfold put. rewrite decide_True; reflexivity. Qed.

Lemma put_other {A} f k j (a : A) : j <> k -> put f k a j = f j.
Proof. intros. unfold put. rewrite decide_False; auto. Qed.

Lemma since_moves g s s' k : since g s k -> seq_ (slot s' k) = seq_ (slot s k) -> irq_seq s' k = irq_seq s k ->
  (post s = PostSeq k -> post s' = PostSeq k \/ g < irq_generation s') ->
  irq_generation s <= irq_generation s' -> since g s' k.
Proof.
  unfold since. intros H E1 E2 Hp Hg Hne. rewrite E1, E2 in Hne. destruct (H Hne) as [|Hk]; [left; lia |].
  destruct (Hp Hk); auto.
Qed.

Lemma since_seen g s k : seq_ (slot s k) = irq_seq s k -> since g s k.
Proof. intros H Hne. contradiction. Qed.

Ltac case_put :=
  match goal with
  | |- context [put _ ?k _ ?j] =>
      destruct (decide (j = k)) as [->|?]; [rewrite ?put_same | rewrite ?put_other by assumption]
  end.

(** Steps of [postIrq] keep what the drain knows. *)
Lemma drain_ok_moves s s' : drain s' = drain s -> irq_gen s' = irq_gen s ->
  irq_generation s <= irq_generation s' -> drain_ok s ->
  (forall g k, k ∈ keys -> g <= irq_generation s -> since g s k -> since g s' k) ->
  irq_gen s <= irq_generation s -> drain_ok s'.
Proof.
  unfold drain_ok. intros -> -> Hg H Hs Hi.
  destruct (drain s) as [|g rest out|g k0 rest out]; [auto | |];
    (destruct H as [? H]; split; [lia |]; intros k Hk; destruct (H k Hk); [auto | right; apply Hs; auto; lia]).
Qed.

Lemma inv_post_level s k lev s' : inv s -> post_level k lev s = Some s' -> inv s'.
Proof.
  intros [I1 I2 I3 I4 I5 I6] E. unfold post_level in E. destruct (post s) eqn:Ep; try discriminate.
  injection E as <-. unfold in_flight in I3. rewrite Ep in I3.
  assert (Hseq : forall j, seq_ (put (slot s) k (mkSlot (seq_ (slot s k)) lev) j) = seq_ (slot s j))
    by (intros j; case_put; reflexivity).
  split; cbn -[decide].
  - intros j. rewrite Hseq. apply I1.
  - intros j. rewrite Hseq. specialize (I2 j). rewrite decide_False in I2 by discriminate.
    case_decide; lia.
  - lia.
  - assumption.
  - intros j Hj. unfold level_ok. cbn. rewrite Hseq. intros E1 Hp E2. case_put; [congruence |].
    apply I5; auto. congruence.
  - apply (drain_ok_moves s); auto; try (cbn; lia). intros g j _ Hg Hs Hne. cbn in *. rewrite Hseq in Hne.
    destruct (Hs Hne); [auto | congruence].
Qed.

Lemma inv_post_next s s' : inv s -> posts s < 2 ^ 32 -> post_next s = Some s' -> inv s'.
Proof.
  intros [I1 I2 I3 I4 I5 I6] Hp E. unfold post_next in E. unfold in_flight in I3.
  destruct (post s) as [|k|k] eqn:Ep; try discriminate; injection E as <-.
  - pose proof (I2 k) as H2. rewrite decide_True in H2 by reflexivity. pose proof (I1 k) as H1.
    rewrite (wrap_small 32 (seq_ (slot s k) + 1)) by word.
    split; cbn -[decide].
    + intros j. case_put; [cbn; lia | apply I1].
    + intros j. rewrite decide_False by discriminate. specialize (I2 j).
      case_put; [cbn; lia | rewrite decide_False in I2 by congruence; lia].
    + assumption.
    + assumption.
    + intros j Hj. unfold level_ok. cbn. intros E1 _ E2. revert E1. case_put; cbn; [lia |].
      intros E1. apply I5; auto. congruence.
    + apply (drain_ok_moves s); auto; try (cbn; lia). intros g j _ Hg Hs Hne. cbn in *.
      revert Hne. case_put; [auto |]. intros Hne. destruct (Hs Hne); [auto | congruence].
  - rewrite (wrap_small 32 (irq_generation s + 1)) by word. split; cbn -[decide].
    + assumption.
    + intros j. specialize (I2 j). rewrite !decide_False in * by discriminate. assumption.
    + lia.
    + lia.
    + intros j Hj. unfold level_ok. cbn. intros E1 _ E2. apply I5; auto. congruence.
    + apply (drain_ok_moves s); auto; try (cbn; lia). intros g j _ Hg Hs Hne. cbn in *. left. lia.
Qed.

Lemma inv_drain_start s s' : inv s -> drain_start s = Some s' -> inv s'.
Proof.
  intros [I1 I2 I3 I4 I5 I6] E. unfold drain_start in E. destruct (drain s) eqn:Ed; try discriminate.
  destruct (Z.eqb_spec (irq_generation s) (irq_gen s)) as [Eg|Ng]; injection E as <-; split; auto.
  - intros j Hj. unfold level_ok. cbn. intros E1 Hp _. apply I5; auto. congruence.
  - unfold drain_ok. cbn. split; [lia | auto].
Qed.

(** A drain that returns early has not yet moved its shadow generation. *)
Lemma since_behind s k : irq_gen s < irq_generation s -> since (irq_gen s) s k.
Proof. intros H _. left. assumption. Qed.

Lemma inv_drain_next s s' : inv s -> drain_next s = Some s' -> inv s'.
Proof.
  intros [I1 I2 I3 I4 I5 I6] E. unfold drain_next in E. unfold drain_ok in I6.
  destruct (drain s) as [|g [|k rest] out|g k rest out] eqn:Ed; try discriminate.
  - injection E as <-. destruct I6 as [Hg H]. split; auto; cbn.
    + lia.
    + intros j Hj. unfold level_ok. cbn. intros E1 Hp _. apply I5; auto. congruence.
    + unfold drain_ok. cbn. intros j Hj. destruct (H j Hj) as [Hin|Hs]; [inversion Hin | exact Hs].
  - destruct I6 as [Hg H]. cbv zeta in E. destruct (Z.eqb_spec (seq_ (slot s k)) (irq_seq s k)) as [Es|Ns]; injection E as <-.
    + split; auto.
      * intros j Hj. unfold level_ok. cbn. intros E1 Hp _. apply I5; auto. congruence.
      * unfold drain_ok. cbn. split; [assumption |]. intros j Hj.
        destruct (decide (j = k)) as [->|Hjk]; [right; apply since_seen; assumption |].
        destruct (H j Hj) as [Hin|Hs]; [| right; exact Hs].
        apply elem_of_cons in Hin as [|]; [contradiction | auto].
    + split; auto; cbn.
      * intros j. case_put; [specialize (I1 k); lia | apply I1].
      * intros j Hj. unfold level_ok. cbn. intros E1 Hp Hr.
        assert (j <> k) by (intros ->; eapply Hr; reflexivity). rewrite put_other in E1 by assumption.
        apply I5; auto. congruence.
      * unfold drain_ok. cbn. split; [assumption |]. intros j Hj. unfold since. cbn. case_put; [right; congruence |].
        destruct (H j Hj) as [Hin|Hs]; [| right; exact Hs].
        apply elem_of_cons in Hin as [|]; [contradiction | auto].
  - destruct I6 as [Hg H]. cbv zeta in E.
    assert (Hlev : forall j, j ∈ keys -> seq_ (slot s j) = irq_seq s j -> post s <> PostLevel j ->
      put (handed s) k (level (slot s k)) j = level (slot s j)).
    { intros j Hj E1 Hp. case_put; [reflexivity |]. apply I5; auto. congruence. }
    destruct (Nat.eqb _ _); injection E as <-; split; auto.
    + intros j Hj. unfold level_ok. cbn. auto.
    + unfold drain_ok. cbn. intros j _. apply (since_behind s). lia.
    + intros j Hj. unfold level_ok. cbn. auto.
    + unfold drain_ok. cbn. split; assumption.
Qed.

Lemma irq_inv_init : inv init.
Proof.
  split; try (intros; cbn; lia); try reflexivity.
  - intros k _. unfold level_ok. reflexivity.
  - unfold drain_ok. cbn. intros k _. apply since_seen. reflexivity.
Qed.

Lemma posts_mono s s' : step s s' -> posts s <= posts s'.
Proof.
  intros [s0 k lev s1 _ E|s0 s1 E|s0 s1 E|s0 s1 E].
  - unfold post_level in E. destruct (post s0); try discriminate. injection E as <-. cbn. lia.
  - unfold post_next in E. destruct (post s0); try discriminate; injection E as <-; cbn; lia.
  - unfold drain_start in E. destruct (drain s0); try discriminate.
    destruct (_ =? _); injection E as <-; cbn; lia.
  - unfold drain_next in E. destruct (drain s0) as [|g [|k rest] out|g k rest out]; try discriminate;
      cbv zeta in E; [| destruct (_ =? _) | destruct (Nat.eqb _ _)]; injection E as <-; cbn; lia.
Qed.

Lemma irq_inv_step s s' : inv s -> step s s' -> posts s' < 2 ^ 32 -> inv s'.
Proof.
  intros I Hst Hp. pose proof (posts_mono _ _ Hst). destruct Hst.
  - eapply inv_post_level; eassumption.
  - eapply inv_post_next; [eassumption | lia | eassumption].
  - eapply inv_drain_start; eassumption.
  - eapply inv_drain_next; eassumption.
Qed.

Lemma posts_mono_rtc s s' : rtc step s s' -> posts s <= posts s'.
Proof. induction 1 as [|a b c Hst _ IH]; [lia |]. pose proof (posts_mono _ _ Hst). lia. Qed.

Lemma inv_steps s s' : rtc step s s' -> inv s -> posts s' < 2 ^ 32 -> inv s'.
Proof.
  induction 1 as [|a b c Hst Hr IH]; intros I Hp; [assumption |]. apply IH; auto.
  eapply irq_inv_step; [eassumption | eassumption |]. pose proof (posts_mono_rtc _ _ Hr). lia.
Qed.

Lemma irq_inv_reachable s : reachable s -> posts s < 2 ^ 32 -> inv s.
Proof. intros Hr Hp. apply (inv_steps init); auto using irq_inv_init. Qed.

(** With both sides between calls and the generation seen, every level is. *)
Lemma caught_up s : inv s -> post s = PostIdle -> drain s = DrainIdle -> irq_gen s = irq_generation s ->
  forall k, k ∈ keys -> seq_ (slot s k) = irq_seq s k /\ handed s k = level (slot s k).
Proof.
  intros [I1 I2 I3 I4 I5 I6] Ep Ed Eg k Hk. unfold drain_ok in I6. rewrite Ed in I6.
  assert (seq_ (slot s k) = irq_seq s k).
  { destruct (Z.eq_dec (seq_ (slot s k)) (irq_seq s k)) as [|Hne]; [assumption |].
    destruct (I6 k Hk Hne) as [|Hps]; [lia | congruence]. }
  split; [assumption |]. apply I5; auto; congruence.
Qed.

(** ** A call of the drain *)

Definition unseen (s : State) (k : Key) : bool := negb (seq_ (slot s k) =? irq_seq s k).
Definition backlog (s : State) : nat := length (List.filter (unseen s) keys).

Lemma backlog_weaken (f g : Key -> bool) ks : (forall j, g j = true -> f j = true) ->
  (length (List.filter g ks) <= length (List.filter f ks))%nat.
Proof.
  intros Hfg. induction ks as [|j ks IH]; cbn; [lia |].
  destruct (g j) eqn:Eg; [rewrite (Hfg j Eg); cbn; lia | destruct (f j); cbn; lia].
Qed.

Lemma backlog_drops (f g : Key -> bool) ks k : (forall j, g j = true -> f j = true) -> k ∈ ks ->
  f k = true -> g k = false -> (length (List.filter g ks) < length (List.filter f ks))%nat.
Proof.
  intros Hfg Hk Ef Eg. induction ks as [|j ks IH]; [inversion Hk |]. cbn.
  apply elem_of_cons in Hk as [->|Hin]; [| specialize (IH Hin)].
  - rewrite Ef, Eg. cbn. pose proof (backlog_weaken f g ks Hfg). lia.
  - destruct (g j) eqn:Egj; [rewrite (Hfg j Egj); cbn; lia | destruct (f j); cbn; lia].
Qed.

(** What the new changes of a drain do to the levels handed over. *)
Definition hand (f : Key -> Z) (cs : list QuetzIrqChange) : Key -> Z :=
  fold_left (fun f c => put f (ch_key c) (ch_level c)) cs f.

(** What a drain leaves: nothing of the simulator's, and each change reported
    was of a slot not yet seen. *)
Record drained (s s' : State) (new : list QuetzIrqChange) : Prop :=
  { dr_steps : rtc step s s';
    dr_idle : drain s' = DrainIdle;
    dr_slot : slot s' = slot s;
    dr_post : post s' = post s;
    dr_posts : posts s' = posts s;
    dr_gen : irq_generation s' = irq_generation s;
    dr_handed : handed s' = hand (handed s) new;
    dr_unseen : forall k, unseen s' k = true -> unseen s k = true;
    dr_new : Forall (fun c => ch_key c ∈ keys /\ unseen s (ch_key c) = true) new;
    dr_backlog : (length new + backlog s' <= backlog s)%nat }.

(** How it ended: out of room, or having seen the generation it read. *)
Definition ended (g : Z) (s s' : State) : Prop :=
  length (changes s') = max_out \/ ((length (changes s') < max_out)%nat /\ irq_gen s' = g).

Lemma drained_skip s s1 s' new : step s s1 -> slot s1 = slot s -> post s1 = post s -> posts s1 = posts s ->
  irq_generation s1 = irq_generation s -> handed s1 = handed s -> irq_seq s1 = irq_seq s ->
  drained s1 s' new -> drained s s' new.
Proof.
  intros Hst E1 E2 E3 E4 E5 E6 [D1 D2 D3 D4 D5 D6 D7 D8 D9 D10].
  assert (Hu : forall k, unseen s1 k = unseen s k) by (intros; unfold unseen; rewrite E1, E6; reflexivity).
  split; try congruence.
  - eapply rtc_l; eassumption.
  - intros k Hk. rewrite <- Hu. auto.
  - eapply Forall_impl; [exact D9 |]. intros c [? ?]. rewrite <- Hu. auto.
  - unfold backlog in *. rewrite (List.filter_ext _ _ Hu) in D10. exact D10.
Qed.

Lemma drained_end s s' : step s s' -> drain s' = DrainIdle -> slot s' = slot s -> post s' = post s ->
  posts s' = posts s -> irq_generation s' = irq_generation s -> irq_seq s' = irq_seq s ->
  handed s' = handed s -> drained s s' [].
Proof.
  intros Hst Ed E1 E2 E3 E4 E5 E6.
  assert (Hu : forall k, unseen s' k = unseen s k) by (intros; unfold unseen; rewrite E1, E5; reflexivity).
  split; auto using rtc_once.
  - intros k. rewrite Hu. auto.
  - cbn. unfold backlog. rewrite (List.filter_ext _ _ Hu). lia.
Qed.

Lemma drained_refl s : drain s = DrainIdle -> drained s s [].
Proof. intros Ed. split; auto using rtc_refl. Qed.

(** The two steps that report a change of slot [k]. *)
Record reports (k : Key) (s s2 : State) : Prop :=
  { rp_steps : rtc step s s2;
    rp_key : k ∈ keys;
    rp_unseen : unseen s k = true;
    rp_slot : slot s2 = slot s;
    rp_post : post s2 = post s;
    rp_posts : posts s2 = posts s;
    rp_gen : irq_generation s2 = irq_generation s;
    rp_seq : irq_seq s2 = put (irq_seq s) k (seq_ (slot s k));
    rp_handed : handed s2 = put (handed s) k (level (slot s k)) }.

Lemma reports_unseen k s s2 : reports k s s2 ->
  (forall j, unseen s2 j = true -> unseen s j = true) /\ (backlog s2 < backlog s)%nat.
Proof.
  intros [_ H1 H2 H3 _ _ _ H4 _].
  assert (Hu : forall j, unseen s2 j = true -> unseen s j = true).
  { intros j. unfold unseen at 1. rewrite H3, H4. case_put; [rewrite Z.eqb_refl; discriminate | auto]. }
  split; [exact Hu |]. apply (backlog_drops (unseen s) (unseen s2) keys k); auto.
  unfold unseen. rewrite H3, H4, put_same, Z.eqb_refl. reflexivity.
Qed.

Lemma drained_report k s s2 s' new : reports k s s2 -> drained s2 s' new ->
  drained s s' (mkChange k (level (slot s k)) :: new).
Proof.
  intros Hr [D1 D2 D3 D4 D5 D6 D7 D8 D9 D10]. destruct (reports_unseen k s s2 Hr) as [Hu Hb].
  destruct Hr as [R1 R2 R3 R4 R5 R6 R7 R8 R9]. split; try congruence.
  - etransitivity; eassumption.
  - cbn. rewrite D7, R9. reflexivity.
  - auto.
  - constructor; [auto |]. eapply Forall_impl; [exact D9 |]. intros c [? ?]. auto.
  - cbn. lia.
Qed.

Lemma reports_intro g k rest out s : drain s = Scan g (k :: rest) out -> k ∈ keys -> unseen s k = true ->
  let s1 := s <| irq_seq ::= fun f => put f k (seq_ (slot s k)) |> <| drain := ReadLevel g k rest out |> in
  drain_next s = Some s1 /\ forall s2, drain_next s1 = Some s2 -> reports k s s2.
Proof.
  intros Ed Hk Hu s1. assert (E1 : drain_next s = Some s1).
  { unfold drain_next. rewrite Ed. cbv zeta. unfold unseen in Hu. apply negb_true_iff in Hu. rewrite Hu. reflexivity. }
  split; [exact E1 |]. intros s2 E2.
  assert (Hst : rtc step s s2) by (eapply rtc_l; [apply step_drain; exact E1 | apply rtc_once, step_drain; exact E2]).
  unfold drain_next in E2. cbn -[length Nat.eqb] in E2. cbv zeta in E2.
  destruct (Nat.eqb _ _) in E2; injection E2 as <-; split; auto.
Qed.

Lemma read_level g k rest out s : drain s = ReadLevel g k rest out ->
  drain_next s =
    let out' := out ++ [mkChange k (level (slot s k))] in
    let s' := s <| handed ::= fun f => put f k (level (slot s k)) |> in
    if Nat.eqb (length out') max_out then Some (s' <| drain := DrainIdle |> <| changes := out' |>)
    else Some (s' <| drain := Scan g rest out' |>).
Proof. intros Ed. unfold drain_next. rewrite Ed. reflexivity. Qed.

Lemma scan_runs g rest : forall out s, drain s = Scan g rest out -> (forall k, k ∈ rest -> k ∈ keys) ->
  (length out < max_out)%nat ->
  exists s' new, (forall n, (2 * length rest + 2 <= n)%nat -> drain_run n s = Some s') /\
    changes s' = out ++ new /\ drained s s' new /\ ended g s s'.
Proof.
  induction rest as [|k rest IH]; intros out s Ed Hkeys Hout.
  - set (s1 := s <| irq_gen := g |> <| drain := DrainIdle |> <| changes := out |>).
    assert (E1 : drain_next s = Some s1) by (unfold drain_next; rewrite Ed; reflexivity).
    exists s1, []. split; [| split; [symmetry; apply app_nil_r | split]].
    + intros [|[|n]] Hn; cbn in Hn; try lia. cbn [drain_run]. rewrite E1. reflexivity.
    + apply drained_end; try reflexivity. apply step_drain. exact E1.
    + right. auto.
  - assert (Hkeys' : forall j, j ∈ rest -> j ∈ keys) by (intros j Hj; apply Hkeys; right; assumption).
    assert (Hk : k ∈ keys) by (apply Hkeys; left).
    destruct (unseen s k) eqn:Eu.
    + destruct (reports_intro g k rest out s Ed Hk Eu) as [E1 Hrep]. set (s1 := s <| irq_seq ::= _ |> <| drain := _ |>) in *.
      set (out' := out ++ [mkChange k (level (slot s k))]).
      set (s2 := s1 <| handed ::= fun f => put f k (level (slot s k)) |>).
      destruct (Nat.eqb (length out') max_out) eqn:El.
      * set (s3 := s2 <| drain := DrainIdle |> <| changes := out' |>).
        assert (E2 : drain_next s1 = Some s3) by (rewrite (read_level g k rest out); [cbv zeta; change (slot s1) with (slot s); fold out'; rewrite El; reflexivity | reflexivity]).
        exists s3, [mkChange k (level (slot s k))].
        split; [| split; [reflexivity | split; [| left; apply Nat.eqb_eq; exact El]]].
        -- intros [|[|[|n]]] Hn; cbn in Hn; try lia. cbn [drain_run]. rewrite E1, E2. reflexivity.
        -- apply (drained_report k s s3); auto. apply drained_refl. reflexivity.
      * set (s3 := s2 <| drain := Scan g rest out' |>).
        assert (E2 : drain_next s1 = Some s3) by (rewrite (read_level g k rest out); [cbv zeta; change (slot s1) with (slot s); fold out'; rewrite El; reflexivity | reflexivity]).
        apply Nat.eqb_neq in El. assert (Hout' : (length out' < max_out)%nat) by (unfold out' in *; rewrite length_app in *; cbn in *; lia).
        destruct (IH out' s3 eq_refl Hkeys' Hout') as (s' & new & Hr & Hc & Hd & He).
        exists s', (mkChange k (level (slot s k)) :: new). split; [| split; [| split; [| exact He]]].
        -- intros [|[|n]] Hn; cbn in Hn; try lia. cbn [drain_run]. rewrite E1, E2. apply Hr. lia.
        -- rewrite Hc. unfold out'. rewrite <- app_assoc. reflexivity.
        -- apply (drained_report k s s3); auto.
    + set (s1 := s <| drain := Scan g rest out |>).
      assert (E1 : drain_next s = Some s1).
      { unfold drain_next. rewrite Ed. cbv zeta. unfold unseen in Eu. apply negb_false_iff in Eu. rewrite Eu. reflexivity. }
      destruct (IH out s1 eq_refl Hkeys' Hout) as (s' & new & Hr & Hc & Hd & He).
      exists s', new. split; [| split; [exact Hc | split; [| exact He]]].
      * intros [|n] Hn; cbn in Hn; [lia |]. cbn [drain_run]. rewrite E1. apply Hr. lia.
      * apply (drained_skip s s1); auto. apply step_drain. exact E1.
Qed.

(** ** Theorems *)

(** The bridge's lines show the levels handed over for row 0. *)
Definition shows (irqs : nat -> bool) (f : Key -> Z) : Prop :=
  forall l, irqs l = negb (f (0%nat, l) =? 0).

(** Every change the drain has not seen is in row 0. *)
Definition row0 (s : State) : Prop := forall k, k ∈ keys -> unseen s k = true -> fst k = 0%nat.

Lemma set_irqs_shows cs : forall irqs f, Forall (fun c => fst (ch_key c) = 0%nat) cs -> shows irqs f ->
  exists irqs', set_irqs cs irqs = Some irqs' /\ shows irqs' (hand f cs).
Proof.
  induction cs as [|[[v l] lev] cs IH]; intros irqs f Hc Hs; [exists irqs; auto |].
  apply Forall_cons in Hc as [Ev Hc]. cbn in Ev. subst v. cbn [set_irqs ch_key fst snd ch_level Nat.eqb].
  apply IH; [assumption |]. intros j. unfold put. destruct (Nat.eqb_spec j l) as [->|Hne].
  - rewrite decide_True by reflexivity. reflexivity.
  - rewrite decide_False by (cbn; congruence). apply Hs.
Qed.

Lemma drain_call s : drain s = DrainIdle -> (0 < max_out)%nat ->
  exists s' new, quetz_ipc_irq_drain s = Some s' /\ changes s' = new /\ drained s s' new /\
    ended (irq_generation s) s s'.
Proof.
  intros Ed Hm. unfold quetz_ipc_irq_drain, drain_start. rewrite Ed.
  destruct (Z.eqb_spec (irq_generation s) (irq_gen s)) as [Eg|Ng].
  - set (s1 := s <| changes := [] |>). exists s1, [].
    assert (Hst : step s s1)
      by (apply step_drain_start; unfold drain_start; rewrite Ed, <- Eg, Z.eqb_refl; reflexivity).
    split; [| split; [reflexivity | split; [apply drained_end; auto | right; cbn; auto]]].
    replace (2 * length keys + 2)%nat with (S (2 * length keys + 1)) by lia. cbn [mbind option_bind drain_run].
    unfold drain_next. change (drain s1) with (drain s). rewrite Ed. reflexivity.
  - set (s1 := s <| drain := Scan (irq_generation s) keys [] |>).
    destruct (scan_runs (irq_generation s) keys [] s1 eq_refl (fun k H => H) Hm) as (s' & new & Hr & Hc & Hd & He).
    exists s', new. split; [apply Hr; lia | split; [exact Hc | split; [| exact He]]].
    apply (drained_skip s s1); auto. apply step_drain_start. unfold drain_start. rewrite Ed.
    apply Z.eqb_neq in Ng. rewrite Ng. reflexivity.
Qed.

Lemma poll_delivers n : forall s irqs, reachable s -> posts s < 2 ^ 32 -> post s = PostIdle -> drain s = DrainIdle ->
  (0 < max_out)%nat -> row0 s -> shows irqs (handed s) -> (backlog s < n)%nat ->
  exists irqs' s', sst_mmio_bridge_irq_poll n irqs s = Some (Done irqs' s') /\ rtc step s s' /\
    slot s' = slot s /\ drain s' = DrainIdle /\ shows irqs' (handed s') /\
    forall k, k ∈ keys -> handed s' k = level (slot s k).
Proof.
  induction n as [|n IH]; intros s irqs Hr Hp Ep Ed Hm H0 Hs Hb; [lia |].
  destruct (drain_call s Ed Hm) as (s' & new & Ec & <- & [D1 D2 D3 D4 D5 D6 D7 D8 D9 D10] & He).
  assert (Hrow : Forall (fun c => fst (ch_key c) = 0%nat) (changes s'))
    by (eapply Forall_impl; [exact D9 |]; intros c [? ?]; auto).
  destruct (set_irqs_shows _ irqs (handed s) Hrow Hs) as (irqs' & Ei & Hs'). rewrite <- D7 in Hs'.
  assert (Hr' : reachable s') by (unfold reachable; etransitivity; eassumption).
  cbn [sst_mmio_bridge_irq_poll]. rewrite Ec. cbn [mbind option_bind]. rewrite Ei.
  destruct He as [El|[Hl Eg]].
  - rewrite El, Nat.eqb_refl. destruct (IH s' irqs') as (irqs2 & s2 & E2 & Hst & Esl & Hd & Hsh & Hk); auto; try congruence.
    + intros k Hk Hu. auto.
    + lia.
    + exists irqs2, s2. split; [exact E2 |]. split; [etransitivity; eassumption |].
      split; [congruence | split; [exact Hd | split; [exact Hsh |]]]. intros k Hk'. rewrite <- D3. auto.
  - rewrite (proj2 (Nat.eqb_neq _ _)) by lia. exists irqs', s'. split; [reflexivity |].
    split; [exact D1 | split; [exact D3 | split; [exact D2 | split; [exact Hs' |]]]].
    intros k Hk. rewrite <- D3. apply caught_up; try congruence. apply irq_inv_reachable; [exact Hr' | lia].
Qed.


(** No post is missed: whenever both sides are between calls and the drain's
    shadow generation is current, it has handed over every level posted. *)
Lemma irq_generation_exact s : reachable s -> posts s < 2 ^ 32 -> post s = PostIdle -> drain s = DrainIdle ->
  irq_gen s = irq_generation s -> forall k, k ∈ keys -> handed s k = level (slot s k).
Proof. intros Hr Hp Ep Ed Eg k Hk. apply caught_up; auto. apply irq_inv_reachable; assumption. Qed.
End Mailbox.

(** ** The theorems at a concrete state: line 3 raised, then drained *)

Definition demo_keys : list Key := scan_keys 1 8.
Definition demo_posted : State :=
  init <| slot := fun k => if decide (k = (0%nat, 3%nat)) then mkSlot 1 1 else mkSlot 0 0 |>
       <| irq_generation := 1 |> <| posts := 1 |>.

Lemma demo_posted_reachable : exists s, reachable demo_keys 64 s /\ posts s = 1 /\ post s = PostIdle /\
  drain s = DrainIdle /\ irq_gen s = 0 /\ handed s = (fun _ => 0) /\ irq_seq s = (fun _ => 0) /\
  level (slot s (0%nat, 3%nat)) = 1 /\ (forall k, k <> (0%nat, 3%nat) -> seq_ (slot s k) = 0).
Proof.
  eexists. split.
  - eapply rtc_l; [eapply (step_post_level demo_keys 64 init (0%nat, 3%nat) 1); [vm_compute; apply list_elem_of_lookup_2 with 3%nat; reflexivity | reflexivity] |].
    eapply rtc_l; [apply step_post; reflexivity |]. eapply rtc_l; [apply step_post; reflexivity |]. apply rtc_refl.
  - cbn. repeat split; try reflexivity. intros k Hk. unfold put. rewrite !decide_False by assumption. reflexivity.
Qed.


Lemma irq_generation_exact_witness : handed init (0%nat, 0%nat) = 0.
Proof.
  apply (irq_generation_exact demo_keys 64 init); try reflexivity; [apply rtc_refl |].
  vm_compute. apply list_elem_of_lookup_2 with 0%nat. reflexivity.
Defined.
