(* ===== verification/AcceleratorPort.v ===== *)
(** * The accelerator port interface

    [src/src/quetz_accelerator_port.h]: what a port is for the CPU component
    ([AcceleratorPort]), what it may call on it ([AcceleratorHost]), and the
    laws a port must satisfy for the synchronous mailbox to be answered
    exactly once.  [BalarAnswers.v] discharges them for the Balar port,
    [CpuSyncThm.v] uses them for any. *)
From S2P Require Import Prelude.
From S2P Require Import StdMem.
From S2P Require Import Command.

(** What the memory system answers. *)
Inductive Resp : Type :=
  | FlushR (id : Z)
  | ReadR (id : Z) (data : list Z)
  | WriteR (id : Z).
Definition resp_id (r : Resp) : Z := match r with FlushR i | ReadR i _ | WriteR i => i end.

(** Calls on the host, [AcceleratorHost]. *)
Inductive HostCall : Type :=
  | PostResponse (v value : Z)
  | SendFlush (v id line size : Z)
  | SendRead (v : Z) (r : ReadReq)
  | SendWrite (v : Z) (w : WriteReq)
  | RecordSyncRequest (v : Z) (is_read : bool)
  | RecordDoorbellFlush (v : Z)
  | RecordDoorbellFlushCycles (v cycles : Z)
  | RecordAsyncSubmit (v : Z)
  | RecordAsyncCompletion (v : Z).

(** What the host answers when the port asks: the next request id, the cycle
    count, which vCPUs are drained; and the order the port's hash maps are
    walked in, which the language leaves open. *)
Record HostView := mkHost
  { hv_next : Z; hv_cycles : Z; hv_drained : Z -> bool; hv_order : list Z }.

(** What a call of the port leaves: the next request id, its calls on the
    host in order, and its state. *)
Record Effect (A : Type) := mkEffect { ef_next : Z; ef_calls : list HostCall; ef_port : A }.
Arguments mkEffect {A} _ _ _.
Arguments ef_next {A} _.
Arguments ef_calls {A} _.
Arguments ef_port {A} _.

Class AcceleratorPort (A : Type) :=
  { ownsAddr : A -> Z -> bool;
    handleCommand : Z -> QuetzCommand -> HostView -> A -> result (Effect A);
    handleResponse : Resp -> HostView -> A -> result (bool * Effect A);
    process : HostView -> A -> result (Effect A);
    hasOutstanding : A -> bool;
    vcpuHasOutstanding : A -> Z -> bool }.

(** ** The laws *)

(** Answers given to vCPU [v] among some calls. *)
Definition is_post (v : Z) (h : HostCall) : bool :=
  match h with PostResponse w _ => v =? w | _ => false end.
Definition posts (v : Z) (l : list HostCall) : Z := Z.of_nat (length (List.filter (is_post v) l)).

(** A command the mailbox carries to a port. *)
Definition guest_access (c : QuetzCommand) : Prop :=
  cmd c = CMD_MMIO_READ_REQ \/ cmd c = CMD_MMIO_WRITE_REQ.

(** [owed a v]: commands of vCPU [v] the port has accepted and not answered.
    [holds a id]: request ids the port has created and still waits for. *)
Class AcceleratorLaws (A : Type) `{AcceleratorPort A} :=
  { port_inv : Z -> A -> Prop;
    owed : A -> Z -> Z;
    holds : A -> Z -> Prop;
    owed_nonneg : forall a v, 0 <= owed a v;
    holds_old : forall n a id, port_inv n a -> holds a id -> id < n;
    port_inv_mono : forall n n' a, port_inv n a -> n <= n' -> port_inv n' a;
    (* [a'] comes from [a] with [k v] more commands of vCPU [v] *)
    command_law : forall v c h a e, port_inv (hv_next h) a -> guest_access c ->
      handleCommand v c h a = Ok e ->
      hv_next h <= ef_next e /\ port_inv (ef_next e) (ef_port e) /\
      (forall id, holds (ef_port e) id -> holds a id \/ hv_next h <= id) /\
      (forall w, owed (ef_port e) w + posts w (ef_calls e) = owed a w + (if w =? v then 1 else 0));
    response_law : forall r h a b e, port_inv (hv_next h) a -> handleResponse r h a = Ok (b, e) ->
      hv_next h <= ef_next e /\ port_inv (ef_next e) (ef_port e) /\
      (forall id, holds (ef_port e) id -> holds a id \/ hv_next h <= id) /\
      (forall w, owed (ef_port e) w + posts w (ef_calls e) = owed a w);
    (* a response that is not the port's is declined *)
    response_foreign : forall r h a, port_inv (hv_next h) a -> ~ holds a (resp_id r) ->
      handleResponse r h a = Ok (false, mkEffect (hv_next h) [] a);
    process_law : forall h a e, port_inv (hv_next h) a -> process h a = Ok e ->
      hv_next h <= ef_next e /\ port_inv (ef_next e) (ef_port e) /\
      (forall id, holds (ef_port e) id -> holds a id \/ hv_next h <= id) /\
      (forall w, owed (ef_port e) w + posts w (ef_calls e) = owed a w) }.

Lemma posts_app v l l' : posts v (l ++ l') = posts v l + posts v l'.
Proof. unfold posts. rewrite List.filter_app, length_app. lia. Qed.
Lemma posts_cons v h l : posts v (h :: l) = (if is_post v h then 1 else 0) + posts v l.
Proof. unfold posts. cbn. destruct (is_post v h); cbn [length]; lia. Qed.
Lemma posts_nonneg v l : 0 <= posts v l.
Proof. unfold posts. lia. Qed.
