(* ===== verification/BalarPort.v ===== *)
(** * The Balar accelerator port

    [src/src/quetz_balar_accelerator_port.h/.cc], class
    [BalarAcceleratorPort]: the doorbell that flushes the staged packet before
    it is forwarded, and the posted offloads with their tickets.

    The maps are the class's [unordered_map]s.  Calls on the host
    ([quetz_accelerator_port.h], [AcceleratorHost]) are appended to [log] in
    the order they are made, between the inputs that cause them.  The host's
    answers ([hasMem], [cacheLineSize], [isDrained], [cycles]) are parameters
    or arguments of the operation that asks. *)
From S2P Require Import Prelude.
From S2P Require Import MemSpan.
From S2P Require Import StdMem.
From S2P Require Import Command.
From S2P Require Import AcceleratorPort.

(** ** Registers of the submit aperture *)
Definition ASYNC_REG_SUBMIT : Z := 0x00.
Definition ASYNC_REG_STATUS : Z := 0x08.
Definition ASYNC_REG_COMPLETED : Z := 0x10.
Definition ASYNC_REG_TICKET : Z := 0x20.
Definition ASYNC_REG_RESULT : Z := 0x28.

(** ** State *)

Record Params := mkParams
  { doorbell_addr : Z; doorbell_size : Z; packet_flush_bytes : Z; flush_enabled : bool;
    async_offload : bool; async_doorbell_addr : Z; async_doorbell_size : Z;
    async_completion_depth : Z }.

(** The constructor: the flush policy by name, and a depth of at least one. *)
Definition construct (p : Params) (flush_mode : string) : result Params :=
  (if String.eqb flush_mode "none" then Ok false
   else if String.eqb flush_mode "range_from_value" then Ok true
   else Throw Fatal "unknown flush_mode") ≫= fun enabled =>
  Ok (mkParams (doorbell_addr p) (doorbell_size p) (packet_flush_bytes p) enabled
        (async_offload p) (async_doorbell_addr p) (async_doorbell_size p)
        (if async_completion_depth p =? 0 then 1 else async_completion_depth p)).

(** The port's inputs, and its history: inputs and calls on the host. *)
Inductive Input : Type :=
  | Cmd (v : Z) (c : QuetzCommand)
  | Response (r : Resp)
  | Process (order : list Z) (drained : Z -> bool)
  | Cycles (now : Z).
Inductive Event : Type := In (i : Input) | Out (h : HostCall).

Record ForwardPending := mkForward { fp_vcpu : Z; fp_is_read : bool; fp_is_async : bool }.
Record FlushCtx := mkFlush
  { fc_remaining : Z; fc_start : Z; fc_doorbell : WriteReq; fc_is_async : bool; fc_pre_acked : bool }.
Record ArmedDoorbell := mkArmed { ad_req : WriteReq; ad_is_async : bool; ad_pre_acked : bool }.

Record Port := mkPort
  { pending : gmap Z ForwardPending; flush_to_vcpu : gmap Z Z;
    doorbell_flushes : gmap Z FlushCtx; armed_doorbells : gmap Z ArmedDoorbell;
    submit_id : gmap Z Z; completed_id : gmap Z Z; last_result : gmap Z Z;
    async_busy : gmap Z bool; submit_queue : gmap Z (list WriteReq);
    async_in_flight : Z; async_vcpu : Z;
    next_id : Z; cycles : Z; log : list Event }.
#[export] Instance Port_settable : Settable Port := fun s =>
  mkPort (pending s) (flush_to_vcpu s) (doorbell_flushes s) (armed_doorbells s) (submit_id s)
    (completed_id s) (last_result s) (async_busy s) (submit_queue s) (async_in_flight s)
    (async_vcpu s) (next_id s) (cycles s) (log s).

Definition port0 : Port := mkPort ∅ ∅ ∅ ∅ ∅ ∅ ∅ ∅ ∅ 0 (-1) 0 0 [].

(** [m[v]], where a missing entry is made with the default. *)
Definition get {A} (d : A) (m : gmap Z A) (v : Z) : A := default d (m !! v).

Definition call (h : HostCall) (s : Port) : Port := s <| log ::= fun l => l ++ [Out h] |>.
(** [new StandardMem::...]: the request takes the next id. *)
Definition fresh (s : Port) : Port := s <| next_id ::= Z.succ |>.

Section Port.
Variable P : Params.
(** [hasMem] and [cacheLineSize] of the host. *)
Variables (has_mem : Z -> bool) (line_size : Z).

Definition in_doorbell (addr : Z) : bool :=
  negb (doorbell_addr P =? 0) && negb (doorbell_size P =? 0) &&
  (doorbell_addr P <=? addr) && (addr <? u64 (doorbell_addr P + doorbell_size P)).
Definition in_async (addr : Z) : bool :=
  async_offload P && negb (async_doorbell_addr P =? 0) &&
  (async_doorbell_addr P <=? addr) && (addr <? u64 (async_doorbell_addr P + async_doorbell_size P)).
Definition ownsAddr (addr : Z) : bool := in_doorbell addr || in_async addr.

(** ** Forwarding *)

Definition forwardDoorbell (v : Z) (req : WriteReq) (is_async pre_acked : bool) (s : Port) : Port :=
  if is_async && get false (async_busy s) v then
    let s := s <| submit_queue ::= fun m => <[v := get [] m v ++ [req]]> m |> in
    if pre_acked then s else call (PostResponse v 0) s
  else
    let s := if is_async then s <| async_busy ::= <[v := true]> |> else s in
    let s := s <| pending ::= <[wr_id req := mkForward v false is_async]> |> in
    let s := call (RecordSyncRequest v false) (call (SendWrite v req) s) in
    if is_async && negb pre_acked then call (PostResponse v 0) s else s.

(** ** Flushes *)

(** The loop over the lines: [n] are left, the next is at [line]; [remaining]
    counts those sent. *)
Fixpoint flush_lines (v : Z) (n : nat) (line remaining : Z) (s : Port) : result (Z * Port) :=
  match n with
  | O => Ok (remaining, s)
  | S n =>
      let id := next_id s in
      let s := fresh s <| flush_to_vcpu ::= <[id := v]> |> in
      let s := call (SendFlush v id line line_size) (call (RecordDoorbellFlush v) s) in
      match n with
      | O => Ok (u32 (remaining + 1), s)
      | _ =>
          throw_if (u64 (max_u64 - line_size) <? line) Fatal
            "doorbell flush line progression overflows" ≫= fun _ =>
          flush_lines v n (u64 (line + line_size)) (u32 (remaining + 1)) s
      end
  end.

Definition flush_bytes : Z := if flush_enabled P then packet_flush_bytes P else 0.

Definition issueDoorbellFlushes (v : Z) (req : WriteReq) (is_async pre_acked : bool)
    (s : Port) : result Port :=
  throw_if (bool_decide (is_Some (doorbell_flushes s !! v))) Fatal
    "nested doorbell while a flush is pending" ≫= fun _ =>
  match computeBalarFlushRange (dataToU64 (wr_data req)) flush_bytes line_size with
  | None => Throw Fatal "invalid doorbell flush range"
  | Some range =>
      throw_if (max_u32 <? line_count range) Fatal
        "doorbell flush range exceeds the supported maximum" ≫= fun _ =>
      '(remaining, s) ← flush_lines v (Z.to_nat (line_count range)) (first_line range) 0 s;
      Ok (if remaining =? 0 then forwardDoorbell v req is_async pre_acked s
          else s <| doorbell_flushes ::= <[v := mkFlush remaining (cycles s) req is_async pre_acked]> |>)
  end.

(** ** Commands *)

(** The scratch address of a submit: [scratch |= data[i] << (8 * i)].  The
    shift is defined for the sizes the bridge uses, at most eight bytes. *)
Definition scratch_of (c : QuetzCommand) : Z := pack 0 (take (Z.to_nat (size c)) (data c)).

Definition async_register (off v : Z) (s : Port) : Z :=
  if off =? ASYNC_REG_STATUS then async_in_flight s
  else if off =? ASYNC_REG_COMPLETED then get 0 (completed_id s) v
  else if off =? ASYNC_REG_TICKET then get 0 (submit_id s) v
  else if off =? ASYNC_REG_RESULT then get 0 (last_result s) v
  else 0.

Definition submit (v : Z) (c : QuetzCommand) (s : Port) : result Port :=
  throw_if ((doorbell_addr P =? 0) || negb (has_mem v)) Fatal
    "async SUBMIT requires doorbell_addr and a cache (mem) interface" ≫= fun _ =>
  throw_if (async_completion_depth P <? u32 (async_in_flight s + 1)) Fatal
    "async SUBMIT exceeds async_completion_depth" ≫= fun _ =>
  let s := s <| submit_id ::= fun m => <[v := u64 (get 0 m v + 1)]> m |>
             <| async_in_flight ::= fun n => u32 (n + 1) |> in
  let s := call (RecordAsyncSubmit v) s in
  let db_size := if size c =? 0 then u32 (doorbell_size P) else size c in
  let doorbell := mkWrite (next_id s) (doorbell_addr P) db_size (u64ToData (scratch_of c) db_size) false in
  let s := fresh s in
  throw_if (bool_decide (is_Some (armed_doorbells s !! v)) || bool_decide (is_Some (doorbell_flushes s !! v)))
    Fatal "Nested async SUBMIT before its acknowledgement." ≫= fun _ =>
  Ok (s <| armed_doorbells ::= <[v := mkArmed doorbell true false]> |>).

Definition handleAsyncAperture (v : Z) (c : QuetzCommand) (s : Port) : result Port :=
  throw_if (negb (async_vcpu s <? 0) && negb (v =? async_vcpu s)) Fatal
    "async offload is single-vCPU only" ≫= fun _ =>
  let s := if async_vcpu s <? 0 then s <| async_vcpu := v |> else s in
  let off := u64 (addr c - async_doorbell_addr P) in
  match cmd c with
  | CMD_MMIO_READ_REQ =>
      Ok (call (RecordSyncRequest v true) (call (PostResponse v (async_register off v s)) s))
  | CMD_MMIO_WRITE_REQ =>
      if negb (off =? ASYNC_REG_SUBMIT) then Ok (call (PostResponse v 0) s) else submit v c s
  | _ => Ok s
  end.

Definition handleCommand (v : Z) (c : QuetzCommand) (s : Port) : result Port :=
  if in_async (addr c) then handleAsyncAperture v c s
  else
    match cmd c with
    | CMD_MMIO_READ_REQ =>
        let req := mkRead (next_id s) (addr c) (size c) in
        Ok (call (RecordSyncRequest v true)
              (call (SendRead v req) (fresh s <| pending ::= <[rd_id req := mkForward v true false]> |>)))
    | CMD_MMIO_WRITE_REQ =>
        let req := mkWrite (next_id s) (addr c) (size c) (take (Z.to_nat (size c)) (data c)) false in
        let s := fresh s in
        if negb (has_mem v) || negb (flush_enabled P) || (packet_flush_bytes P =? 0) then
          Ok (forwardDoorbell v req false false s)
        else
          throw_if (bool_decide (is_Some (armed_doorbells s !! v))) Fatal
            "nested doorbell while one is armed" ≫= fun _ =>
          Ok (s <| armed_doorbells ::= <[v := mkArmed req false false]> |>)
    | _ => Ok s
    end.

(** ** Ticks *)

(** [process]: the armed doorbells in the order the map gives them. *)
Fixpoint process (order : list Z) (drained : Z -> bool) (s : Port) : result Port :=
  match order with
  | [] => Ok s
  | v :: order =>
      match armed_doorbells s !! v with
      | Some a =>
          if drained v then
            issueDoorbellFlushes v (ad_req a) (ad_is_async a) (ad_pre_acked a)
              (s <| armed_doorbells ::= delete v |>) ≫= process order drained
          else process order drained s
      | None => process order drained s
      end
  end.

(** ** Responses *)

Definition handle_flush (v : Z) (r : Resp) (s : Port) : result Port :=
  let s := s <| flush_to_vcpu ::= delete (resp_id r) |> in
  match doorbell_flushes s !! v with
  | None => Throw Fatal "doorbell flush response without context"
  | Some ctx =>
      throw_if (match r with FlushR _ => false | _ => true end) Fatal
        "doorbell flush completed with non-FlushResp" ≫= fun _ =>
      let remaining := if 0 <? fc_remaining ctx then u32 (fc_remaining ctx - 1) else fc_remaining ctx in
      if remaining =? 0 then
        let elapsed := u64 (cycles s - fc_start ctx) in
        let s := call (RecordDoorbellFlushCycles v elapsed) s <| doorbell_flushes ::= delete v |> in
        Ok (forwardDoorbell v (fc_doorbell ctx) (fc_is_async ctx) (fc_pre_acked ctx) s)
      else
        Ok (s <| doorbell_flushes ::=
                 <[v := mkFlush remaining (fc_start ctx) (fc_doorbell ctx) (fc_is_async ctx) (fc_pre_acked ctx)]> |>)
  end.

(** A posted offload retires: the counters move and the next one goes out. *)
Definition retire (v value : Z) (s : Port) : Port :=
  let s := s <| completed_id ::= fun m => <[v := u64 (get 0 m v + 1)]> m |>
             <| last_result ::= <[v := value]> |>
             <| async_in_flight ::= fun n => if 0 <? n then u32 (n - 1) else n |>
             <| async_busy ::= <[v := false]> |> in
  let s := call (RecordAsyncCompletion v) s in
  match get [] (submit_queue s) v with
  | [] => s
  | next :: rest => forwardDoorbell v next true true (s <| submit_queue ::= <[v := rest]> |>)
  end.

(** The boolean: whether the response was this port's. *)
Definition handleResponse (r : Resp) (s : Port) : result (bool * Port) :=
  match flush_to_vcpu s !! resp_id r with
  | Some v => handle_flush v r s ≫= fun s => Ok (true, s)
  | None =>
      match pending s !! resp_id r with
      | None => Ok (false, s)
      | Some f =>
          let value := if fp_is_read f then match r with ReadR _ data => dataToU64 data | _ => 0 end else 0 in
          let s := s <| pending ::= delete (resp_id r) |> in
          Ok (true, if fp_is_async f then retire (fp_vcpu f) value s
                    else call (PostResponse (fp_vcpu f) value) s)
      end
  end.

Definition hasOutstanding (s : Port) : bool := 0 <? async_in_flight s.
Definition vcpuHasOutstanding (v : Z) (s : Port) : bool :=
  match submit_id s !! v with
  | None => false
  | Some n => get 0 (completed_id s) v <? n
  end.

(** ** Runs *)

Definition step (i : Input) (s : Port) : result Port :=
  let s := s <| log ::= fun l => l ++ [In i] |> in
  match i with
  | Cmd v c => handleCommand v c s
  | Response r => '(_, s) ← handleResponse r s; Ok s
  | Process order drained => process order drained s
  | Cycles now => Ok (s <| cycles := now |>)
  end.
Fixpoint run (ins : list Input) (s : Port) : result Port :=
  match ins with [] => Ok s | i :: ins => step i s ≫= run ins end.
End Port.
