(* ===== verification/BalarPortThm.v ===== *)
(** * The Balar port serves every command

    For guests that wait for an answer before their next command and memory
    that answers each request once: the port never fails, answers each command
    exactly once, forwards a doorbell only when the packet it points at has
    been drained and flushed, and accounts for every posted offload. *)
From S2P Require Import Prelude.
From S2P Require Import MemSpan.
From S2P Require Import StdMem.
From S2P Require Import Command.
From S2P Require Import AcceleratorPort.
From S2P Require Import BalarPort.

(** ** Counting events *)

Definition count (f : Event -> bool) (l : list Event) : Z := Z.of_nat (length (List.filter f l)).
Definition is_command (v : Z) (e : Event) : bool :=
  match e with In (Cmd x _) => x =? v | _ => false end.
Definition is_answer (v : Z) (e : Event) : bool :=
  match e with Out (PostResponse x _) => x =? v | _ => false end.
Definition is_submit (v : Z) (e : Event) : bool :=
  match e with Out (RecordAsyncSubmit x) => x =? v | _ => false end.
Definition is_completion (v : Z) (e : Event) : bool :=
  match e with Out (RecordAsyncCompletion x) => x =? v | _ => false end.

Definition asked v l := count (is_command v) l.
Definition answered v l := count (is_answer v) l.
Definition submits v l := count (is_submit v) l.
Definition completions v l := count (is_completion v) l.

Lemma count_snoc f l e : count f (l ++ [e]) = count f l + (if f e then 1 else 0).
Proof. unfold count. rewrite List.filter_app, length_app. cbn. destruct (f e); cbn; lia. Qed.

(** ** The phases of a vCPU

    [Hand]: its doorbell is being handled within one call, with the flush
    requests and lines sent so far. *)
Inductive Phase : Type :=
  | Idle
  | Armed (r : WriteReq) (a : bool)
  | Hand (ids lines : list Z) (r : WriteReq) (a : bool)
  | Flushing (ids : list Z) (start : Z) (r : WriteReq) (a : bool)
  | Sync (id : Z) (rd : bool).

(** Where a request id is. *)
Inductive Place : Type :=
  | PFlush (v : Z) | PPend (f : ForwardPending) | PWait (v : Z) | PQueue (v : Z).

Record Ghost := mkGhost { ph : Z -> Phase; bz : Z -> option Z; own : Z -> option Place }.
#[export] Instance Ghost_settable : Settable Ghost := fun g => mkGhost (ph g) (bz g) (own g).

Definition upd {A} (x : Z) (y : A) (f : Z -> A) : Z -> A := fun z => if decide (z = x) then y else f z.
Lemma port_upd_same {A} x (y : A) f : upd x y f x = y.
Proof. unfold upd. apply decide_True. reflexivity. Qed.
Lemma port_upd_other {A} x (y : A) f z : z <> x -> upd x y f z = f z.
Proof. intros. unfold upd. apply decide_False. assumption. Qed.

Definition ids_of (p : Phase) : list Z :=
  match p with Hand ids _ _ _ | Flushing ids _ _ _ => ids | _ => [] end.
Definition req_of (p : Phase) : option WriteReq :=
  match p with Armed r _ | Hand _ _ r _ | Flushing _ _ r _ => Some r | _ => None end.
Definition async_of (p : Phase) : Z :=
  match p with Armed _ true | Hand _ _ _ true | Flushing _ _ _ true => 1 | _ => 0 end.
Definition blocked (p : Phase) : Z := match p with Idle => 0 | _ => 1 end.

Section Thm.
Variable P : Params.
Variables (has_mem : Z -> bool) (line_size : Z).

(** ** The maps agree with the phases *)

Record maps (g : Ghost) (s : Port) : Prop :=
  { m_armed : forall v, armed_doorbells s !! v =
      match ph g v with Armed r a => Some (mkArmed r a false) | _ => None end;
    m_ctx : forall v, doorbell_flushes s !! v =
      match ph g v with
      | Flushing ids st r a => Some (mkFlush (Z.of_nat (length ids)) st r a false)
      | _ => None
      end;
    m_flush : forall id v, flush_to_vcpu s !! id = Some v <-> own g id = Some (PFlush v);
    m_fown : forall id v, own g id = Some (PFlush v) <-> id ∈ ids_of (ph g v);
    m_fnodup : forall v, NoDup (ids_of (ph g v)) /\ Z.of_nat (length (ids_of (ph g v))) < 2 ^ 32;
    m_park : forall v ids st r a, ph g v = Flushing ids st r a -> ids <> [];
    m_pend : forall id f, pending s !! id = Some f <-> own g id = Some (PPend f);
    m_sync : forall id v rd, own g id = Some (PPend (mkForward v rd false)) <-> ph g v = Sync id rd;
    m_asyn : forall id v rd, own g id = Some (PPend (mkForward v rd true)) <-> bz g v = Some id /\ rd = false;
    m_wait : forall v r, req_of (ph g v) = Some r -> own g (wr_id r) = Some (PWait v);
    m_busy : forall v, get false (async_busy s) v = bool_decide (is_Some (bz g v));
    m_queue : forall v, bz g v = None -> get [] (submit_queue s) v = [];
    m_qown : forall v r, r ∈ get [] (submit_queue s) v -> own g (wr_id r) = Some (PQueue v);
    m_qnodup : forall v, NoDup (wr_id <$> get [] (submit_queue s) v);
    m_fresh : forall id p, own g id = Some p -> id < next_id s }.

(** ** The counters agree with the history *)

Definition in_flight (g : Ghost) (s : Port) (v : Z) : Z :=
  async_of (ph g v) + (if bz g v is Some _ then 1 else 0) + Z.of_nat (length (get [] (submit_queue s) v)).

Record counts (g : Ghost) (s : Port) : Prop :=
  { c_answers : forall v, asked v (log s) = answered v (log s) + blocked (ph g v);
    c_one : forall v, v <> async_vcpu s -> in_flight g s v = 0;
    c_neg : forall v, v < 0 -> ph g v = Idle /\ bz g v = None /\ get [] (submit_queue s) v = [];
    c_count : async_in_flight s = in_flight g s (async_vcpu s);
    c_depth : async_in_flight s <= async_completion_depth P;
    c_submits : forall v, submits v (log s) = completions v (log s) + in_flight g s v;
    c_submit_id : forall v, get 0 (submit_id s) v = u64 (submits v (log s));
    c_completed_id : forall v, get 0 (completed_id s) v = u64 (completions v (log s)) }.

Lemma fresh_own g s : maps g s -> own g (next_id s) = None.
Proof.
  intros M. destruct (own g (next_id s)) eqn:E; [apply (m_fresh g s M) in E; lia | reflexivity].
Qed.

(** Projections of updated records, and lookups in updated maps. *)
Ltac look :=
  cbn [pending flush_to_vcpu doorbell_flushes armed_doorbells submit_id completed_id last_result async_busy
       submit_queue async_in_flight async_vcpu next_id cycles log ph bz own
       update_field Port_settable call fresh] in *;
  unfold get, upd in *; rewrite ?lookup_insert, ?lookup_delete in *.

(** One clause of [maps] after a step, from the same clause before it. *)
Ltac clause :=
  repeat case_decide; subst;
  repeat match goal with E : ph ?g ?v = _, H : context [ph ?g ?v] |- _ => rewrite E in H
                       | E : ph ?g ?v = _ |- context [ph ?g ?v] => rewrite E end;
  cbn [ids_of req_of] in *; rewrite ?elem_of_nil in *;
  try solve [assumption | congruence | intuition congruence | constructor
            | intros; simplify_eq; intuition lia | repeat constructor; cbn; lia].

Ltac maps_from g s M :=
  split;
  [ intros x; pose proof (m_armed g s M x)
  | intros x; pose proof (m_ctx g s M x)
  | intros xid x; pose proof (m_flush g s M xid x)
  | intros xid x; pose proof (m_fown g s M xid x)
  | intros x; pose proof (m_fnodup g s M x)
  | intros x xids xst xr; pose proof (m_park g s M x xids xst xr)
  | intros xid xf; pose proof (m_pend g s M xid xf)
  | intros xid x xrd; pose proof (m_sync g s M xid x xrd)
  | intros xid x xrd; pose proof (m_asyn g s M xid x xrd)
  | intros x xr; pose proof (m_wait g s M x xr)
  | intros x; pose proof (m_busy g s M x)
  | intros x; pose proof (m_queue g s M x)
  | intros x xr; pose proof (m_qown g s M x xr)
  | intros x; pose proof (m_qnodup g s M x)
  | intros xid xp; pose proof (m_fresh g s M xid xp) ]; look; clause.

Definition set_ph (v : Z) (p : Phase) (g : Ghost) : Ghost := g <| ph ::= upd v p |>.
Definition set_own (id : Z) (p : option Place) (g : Ghost) : Ghost := g <| own ::= upd id p |>.
Definition set_bz (v : Z) (b : option Z) (g : Ghost) : Ghost := g <| bz ::= upd v b |>.

Lemma arm_maps g s v r a : maps g s -> ph g v = Idle -> wr_id r = next_id s ->
  maps (set_own (wr_id r) (Some (PWait v)) (set_ph v (Armed r a) g))
    (fresh s <| armed_doorbells ::= <[v := mkArmed r a false]> |>).
Proof.
  intros M Hv Hr. pose proof (fresh_own g s M) as Hn. rewrite <- Hr in Hn. unfold set_own, set_ph. maps_from g s M.
Qed.

Lemma hand_maps g s v r a : maps g s -> ph g v = Idle -> wr_id r = next_id s ->
  maps (set_own (wr_id r) (Some (PWait v)) (set_ph v (Hand [] [] r a) g)) (fresh s).
Proof.
  intros M Hv Hr. pose proof (fresh_own g s M) as Hn. rewrite <- Hr in Hn. unfold set_own, set_ph. maps_from g s M.
Qed.

Lemma read_maps g s v id : maps g s -> ph g v = Idle -> id = next_id s ->
  maps (set_own id (Some (PPend (mkForward v true false))) (set_ph v (Sync id true) g))
    (fresh s <| pending ::= <[id := mkForward v true false]> |>).
Proof.
  intros M Hv Hr. pose proof (fresh_own g s M) as Hn. rewrite <- Hr in Hn. unfold set_own, set_ph. maps_from g s M.
Qed.

Lemma unarm_maps g s v r a : maps g s -> ph g v = Armed r a ->
  maps (set_ph v (Hand [] [] r a) g) (s <| armed_doorbells ::= delete v |>).
Proof. intros M Hv. unfold set_ph. maps_from g s M. Qed.

Lemma flush_maps g s v ids lines line r a : maps g s -> ph g v = Hand ids lines r a ->
  Z.of_nat (length ids) < 2 ^ 32 - 1 ->
  maps (set_own (next_id s) (Some (PFlush v)) (set_ph v (Hand (ids ++ [next_id s]) (lines ++ [line]) r a) g))
    (fresh s <| flush_to_vcpu ::= <[next_id s := v]> |>).
Proof.
  intros M Hv Hl. pose proof (fresh_own g s M) as Hn.
  assert (Hi : next_id s ∉ ids).
  { intros Hi. pose proof (proj2 (m_fown g s M (next_id s) v)) as H. rewrite Hv in H. specialize (H Hi). congruence. }
  unfold set_own, set_ph. maps_from g s M.
  - rewrite elem_of_app, list_elem_of_singleton. intuition congruence.
  - rewrite elem_of_app, list_elem_of_singleton. intuition congruence.
  - rewrite length_app. cbn. destruct H as [H _]. split; [| lia].
    apply NoDup_app. split; [exact H | split; [| apply NoDup_singleton]].
    intros y Hy Hy'. apply list_elem_of_singleton in Hy' as ->. contradiction.
Qed.

Lemma park_maps g s v ids lines r a : maps g s -> ph g v = Hand ids lines r a -> ids <> [] ->
  maps (set_ph v (Flushing ids (cycles s) r a) g)
    (s <| doorbell_flushes ::= <[v := mkFlush (Z.of_nat (length ids)) (cycles s) r a false]> |>).
Proof. intros M Hv Hi. unfold set_ph. maps_from g s M. Qed.

Lemma forward_sync_maps g s v lines r : maps g s -> ph g v = Hand [] lines r false ->
  maps (set_own (wr_id r) (Some (PPend (mkForward v false false))) (set_ph v (Sync (wr_id r) false) g))
    (s <| pending ::= <[wr_id r := mkForward v false false]> |>).
Proof.
  intros M Hv. assert (Hn : own g (wr_id r) = Some (PWait v)) by (apply (m_wait g s M); rewrite Hv; reflexivity).
  pose proof (m_fresh g s M _ _ Hn).
  unfold set_own, set_ph. maps_from g s M.
Qed.

Lemma forward_async_maps g s v lines r : maps g s -> ph g v = Hand [] lines r true -> bz g v = None ->
  maps (set_own (wr_id r) (Some (PPend (mkForward v false true))) (set_bz v (Some (wr_id r)) (set_ph v Idle g)))
    (s <| async_busy ::= <[v := true]> |> <| pending ::= <[wr_id r := mkForward v false true]> |>).
Proof.
  intros M Hv Hb. assert (Hn : own g (wr_id r) = Some (PWait v)) by (apply (m_wait g s M); rewrite Hv; reflexivity).
  pose proof (m_fresh g s M _ _ Hn).
  unfold set_own, set_ph, set_bz. maps_from g s M.
Qed.

Lemma enqueue_maps g s v lines r id : maps g s -> ph g v = Hand [] lines r true -> bz g v = Some id ->
  maps (set_own (wr_id r) (Some (PQueue v)) (set_ph v Idle g))
    (s <| submit_queue ::= fun m => <[v := get [] m v ++ [r]]> m |>).
Proof.
  intros M Hv Hb. assert (Hn : own g (wr_id r) = Some (PWait v)) by (apply (m_wait g s M); rewrite Hv; reflexivity).
  pose proof (m_fresh g s M _ _ Hn).
  unfold set_own, set_ph. maps_from g s M; cbn [from_option Datatypes.id] in *.
  - rewrite elem_of_app, list_elem_of_singleton. intros [Hx| ->]; [auto | congruence].
  - pose proof (m_qown g s M x) as Ho. unfold get in Ho. rewrite fmap_app. apply NoDup_app.
    split; [assumption | split; [| apply NoDup_singleton]].
    intros y Hy Hy'. apply list_elem_of_singleton in Hy' as ->. apply list_elem_of_fmap in Hy as (w & E & Hw).
    specialize (Ho w Hw). congruence.
Qed.

Lemma unflush_maps g s v id ids st r a : maps g s -> ph g v = Flushing ids st r a -> id ∈ ids ->
  let ids' := filter (fun x => x <> id) ids in ids' <> [] ->
  maps (set_own id None (set_ph v (Flushing ids' st r a) g))
    (s <| flush_to_vcpu ::= delete id |>
       <| doorbell_flushes ::= <[v := mkFlush (Z.of_nat (length ids')) st r a false]> |>).
Proof.
  intros M Hv Hi ids' Hne. assert (Hn : own g id = Some (PFlush v)) by (apply (m_fown g s M); rewrite Hv; exact Hi).
  unfold set_own, set_ph. maps_from g s M.
  - split; [congruence | intros Hx; apply list_elem_of_filter in Hx as [Hx _]; congruence].
  - unfold ids'. rewrite list_elem_of_filter. intuition.
  - split; [apply NoDup_filter; tauto |]. pose proof (length_filter (fun x => x <> id) ids). unfold ids' in *. lia.
Qed.

Lemma flushed_maps g s v id ids st r a lines : maps g s -> ph g v = Flushing ids st r a -> id ∈ ids ->
  filter (fun x => x <> id) ids = [] ->
  maps (set_own id None (set_ph v (Hand [] lines r a) g))
    (s <| flush_to_vcpu ::= delete id |> <| doorbell_flushes ::= delete v |>).
Proof.
  intros M Hv Hi Hne. assert (Hn : own g id = Some (PFlush v)) by (apply (m_fown g s M); rewrite Hv; exact Hi).
  unfold set_own, set_ph. maps_from g s M.
  split; [| tauto]. intros Hx. assert (Hf : xid ∈ filter (fun x => x <> id) ids).
  { apply list_elem_of_filter. split; [assumption | tauto]. }
  rewrite Hne in Hf. apply elem_of_nil in Hf. exact Hf.
Qed.

Lemma answer_maps g s v id rd : maps g s -> ph g v = Sync id rd ->
  maps (set_own id None (set_ph v Idle g)) (s <| pending ::= delete id |>).
Proof.
  intros M Hv. assert (Hn : own g id = Some (PPend (mkForward v rd false))) by (apply (m_sync g s M); exact Hv).
  unfold set_own, set_ph. maps_from g s M.
Qed.

Lemma retire_maps g s v id : maps g s -> bz g v = Some id -> get [] (submit_queue s) v = [] ->
  maps (set_own id None (set_bz v None g))
    (s <| pending ::= delete id |> <| async_busy ::= <[v := false]> |>).
Proof.
  intros M Hb Hq. assert (Hn : own g id = Some (PPend (mkForward v false true))) by (apply (m_asyn g s M); auto).
  unfold set_own, set_bz. maps_from g s M.
Qed.

Lemma next_maps g s v id next rest : maps g s -> bz g v = Some id -> get [] (submit_queue s) v = next :: rest ->
  maps (set_own (wr_id next) (Some (PPend (mkForward v false true))) (set_own id None (set_bz v (Some (wr_id next)) g)))
    (s <| pending ::= delete id |> <| async_busy ::= <[v := false]> |>
       <| submit_queue ::= <[v := rest]> |> <| async_busy ::= <[v := true]> |>
       <| pending ::= <[wr_id next := mkForward v false true]> |>).
Proof.
  intros M Hb Hq. assert (Hn : own g id = Some (PPend (mkForward v false true))) by (apply (m_asyn g s M); auto).
  assert (Hw : own g (wr_id next) = Some (PQueue v)) by (apply (m_qown g s M); rewrite Hq; left).
  pose proof (m_fresh g s M _ _ Hw).
  pose proof (m_qnodup g s M v) as Hd. rewrite Hq in Hd. cbn in Hd. apply NoDup_cons in Hd as [Hd1 Hd2].
  unfold set_own, set_bz. maps_from g s M; cbn [from_option Datatypes.id] in *; try rewrite Hq in *; auto.
  - intros Hx. destruct Hd1. apply list_elem_of_fmap. eauto.
  - intros Hx. assert (own g (wr_id xr) = Some (PQueue x)) by (apply H0; right; exact Hx). congruence.
  - intros Hx. apply H0. right. exact Hx.
Qed.

(** ** Counter steps *)

(** A depth of one or more, in 32 bits; lines and flushes in 64. *)
Record params_ok : Prop :=
  { po_depth : 0 < async_completion_depth P < 2 ^ 32;
    po_line : is_u64 line_size; po_bytes : is_u64 (packet_flush_bytes P);
    po_addr : is_u64 (async_doorbell_addr P) }.
Context (Hparams : params_ok).

Definition calm (e : Event) : bool :=
  match e with
  | In (Cmd _ _) | Out (PostResponse _ _) | Out (RecordAsyncSubmit _) | Out (RecordAsyncCompletion _) => false
  | _ => true
  end.

Lemma count_app f l l' : count f (l ++ l') = count f l + count f l'.
Proof. unfold count. rewrite List.filter_app, length_app. lia. Qed.

Lemma count_calm f l es : (forall e, calm e = true -> f e = false) -> forallb calm es = true ->
  count f (l ++ es) = count f l.
Proof.
  intros Hf He. rewrite count_app. enough (count f es = 0) by lia. unfold count.
  induction es as [|e es IH]; [reflexivity |]. cbn in He. apply andb_true_iff in He as [He1 He2].
  cbn. rewrite (Hf e He1). apply IH. exact He2.
Qed.

Lemma counts_calm g g' s s' es : counts g s -> log s' = log s ++ es -> forallb calm es = true ->
  (forall v, in_flight g' s' v = in_flight g s v /\ blocked (ph g' v) = blocked (ph g v)) ->
  (forall v, v < 0 -> ph g' v = ph g v /\ bz g' v = bz g v /\ get [] (submit_queue s') v = get [] (submit_queue s) v) ->
  submit_id s' = submit_id s -> completed_id s' = completed_id s ->
  async_in_flight s' = async_in_flight s -> async_vcpu s' = async_vcpu s -> counts g' s'.
Proof.
  intros C El Ec Hf Hn E1 E2 E3 E4.
  assert (K : forall f, (forall e, calm e = true -> f e = false) -> count f (log s') = count f (log s))
    by (intros; rewrite El; apply count_calm; assumption).
  split; unfold asked, answered, submits, completions.
  1, 6, 7, 8: intros v; rewrite ?(K (is_command v)), ?(K (is_answer v)), ?(K (is_submit v)), ?(K (is_completion v))
    by (intros [[]|[]]; cbn; congruence); rewrite ?E1, ?E2; destruct (Hf v) as [F1 F2];
    rewrite ?F1, ?F2; apply C.
  - intros v Hv. destruct (Hf v) as [-> _]. apply C. congruence.
  - intros v Hv. destruct (Hn v Hv) as (-> & -> & ->). apply C. exact Hv.
  - rewrite E3, E4. destruct (Hf (async_vcpu s)) as [-> _]. apply C.
  - rewrite E3. apply C.
Qed.

Ltac counts_from g s C :=
  split; unfold asked, answered, submits, completions;
  [ intros x; pose proof (c_answers g s C x)
  | intros x; pose proof (c_one g s C x)
  | intros x; pose proof (c_neg g s C x)
  | pose proof (c_count g s C)
  | pose proof (c_depth g s C)
  | intros x; pose proof (c_submits g s C x)
  | intros x; pose proof (c_submit_id g s C x)
  | intros x; pose proof (c_completed_id g s C x) ];
  unfold asked, answered, submits, completions, in_flight, set_own, set_ph, set_bz in *;
  look; rewrite ?count_snoc in *; cbn [is_command is_answer is_submit is_completion];
  repeat case_decide; subst;
  repeat match goal with E : ph ?g ?v = _, H : context [ph ?g ?v] |- _ => rewrite E in H
                       | E : ph ?g ?v = _ |- context [ph ?g ?v] => rewrite E
                       | E : bz ?g ?v = _, H : context [bz ?g ?v] |- _ => rewrite E in H
                       | E : bz ?g ?v = _ |- context [bz ?g ?v] => rewrite E end;
  rewrite ?Z.eqb_refl; cbn [async_of blocked] in *;
  repeat (match goal with |- context [?a =? ?b] => destruct (Z.eqb_spec a b) end);
  cbn [from_option Datatypes.id length] in *; rewrite ?length_app, ?Z.add_0_r; cbn [length];
  try solve [lia | congruence | intuition (lia || congruence)
            | match goal with H : _ = u64 _ |- _ => rewrite H end;
              unfold wrap; rewrite ?Zplus_mod_idemp_l; reflexivity].

Lemma async_of_range p : 0 <= async_of p <= 1.
Proof. destruct p as [| ? [] | ? ? ? [] | ? ? ? [] |]; cbn; lia. Qed.

(** Only the vCPU that uses the aperture has posted work, and the counter of
    work in flight does not wrap. *)
Lemma busy_vcpu g s v id : counts g s -> bz g v = Some id ->
  v = async_vcpu s /\ 1 <= async_in_flight s < 2 ^ 32.
Proof.
  intros C Hb. pose proof (async_of_range (ph g v)). pose proof (c_one g s C v) as H1. unfold in_flight in H1. rewrite Hb in H1.
  assert (v = async_vcpu s) as -> by (destruct (Z.eq_dec v (async_vcpu s)); lia).
  pose proof (c_count g s C) as Hc. pose proof (c_depth g s C). unfold in_flight in Hc. rewrite Hb in Hc.
  destruct Hparams. lia.
Qed.

Definition input (i : Input) (s : Port) : Port := s <| log ::= fun l => l ++ [In i] |>.

(** A command that keeps its guest waiting. *)
Lemma accept_counts g s v c p : counts g s -> 0 <= v -> ph g v = Idle -> blocked p = 1 -> async_of p = 0 ->
  counts (set_ph v p g) (input (Cmd v c) s).
Proof. intros C Hv0 Hv Hb Ha. unfold input. counts_from g s C. Qed.

Lemma submit_counts g s v c r : counts g s -> 0 <= v -> ph g v = Idle -> v = async_vcpu s ->
  0 <= async_in_flight s < 2 ^ 32 - 1 -> async_in_flight s < async_completion_depth P ->
  counts (set_ph v (Armed r true) g)
    (call (RecordAsyncSubmit v) (input (Cmd v c) s <| submit_id ::= fun m => <[v := u64 (get 0 m v + 1)]> m |>
             <| async_in_flight ::= fun n => u32 (n + 1) |>)).
Proof. intros C Hv0 Hv Hb Hf Hd. unfold input. counts_from g s C.
  all: rewrite wrap_small by word; lia.
 Qed.

(** A command answered at once. *)
Lemma answer_now_counts g s v c value : counts g s -> 
  counts g (call (PostResponse v value) (input (Cmd v c) s)).
Proof. intros C. unfold input. counts_from g s C. Qed.

(** A doorbell handed over. *)
Lemma forward_sync_counts g s v ids lines r id : counts g s -> 0 <= v -> ph g v = Hand ids lines r false ->
  counts (set_ph v (Sync id false) g) s.
Proof. intros C Hv0 Hv. counts_from g s C. Qed.

Lemma forward_async_counts g s v ids lines r id : counts g s -> 0 <= v -> ph g v = Hand ids lines r true -> bz g v = None ->
  counts (set_bz v (Some id) (set_ph v Idle g)) (call (PostResponse v 0) s).
Proof. intros C Hv0 Hv Hb. counts_from g s C. Qed.

Lemma enqueue_counts g s v ids lines r : counts g s -> 0 <= v -> ph g v = Hand ids lines r true ->
  counts (set_ph v Idle g) (call (PostResponse v 0) (s <| submit_queue ::= fun m => <[v := get [] m v ++ [r]]> m |>)).
Proof.
  intros C Hv0 Hv. pose proof (c_one g s C v) as H1. unfold in_flight in H1. rewrite Hv in H1. counts_from g s C.
Qed.

Lemma answer_counts g s v id rd value : counts g s -> 0 <= v -> ph g v = Sync id rd ->
  counts (set_ph v Idle g) (call (PostResponse v value) s).
Proof. intros C Hv0 Hv. counts_from g s C. Qed.

Lemma retire_counts g s v id value : counts g s -> 0 <= v -> bz g v = Some id -> get [] (submit_queue s) v = [] ->
  counts (set_bz v None g)
    (call (RecordAsyncCompletion v)
      (s <| completed_id ::= fun m => <[v := u64 (get 0 m v + 1)]> m |> <| last_result ::= <[v := value]> |>
         <| async_in_flight ::= fun n => if 0 <? n then u32 (n - 1) else n |>
         <| async_busy ::= <[v := false]> |>)).
Proof. intros C Hv0 Hv Hq. destruct (busy_vcpu g s v id C Hv) as [Ev Hr]. counts_from g s C.
  all: rewrite (proj2 (Z.ltb_lt 0 _)), wrap_small by word; lia.
 Qed.

Lemma next_counts g s v id next rest id' value : counts g s -> 0 <= v -> bz g v = Some id ->
  get [] (submit_queue s) v = next :: rest ->
  counts (set_bz v (Some id') g)
    (call (RecordAsyncCompletion v)
      (s <| completed_id ::= fun m => <[v := u64 (get 0 m v + 1)]> m |> <| last_result ::= <[v := value]> |>
         <| async_in_flight ::= fun n => if 0 <? n then u32 (n - 1) else n |>
         <| async_busy ::= <[v := false]> |>) <| submit_queue ::= <[v := rest]> |>).
Proof. intros C Hv0 Hv Hq. destruct (busy_vcpu g s v id C Hv) as [Ev Hr]. counts_from g s C.
  all: rewrite ?Hq in *; cbn [length] in *; rewrite ?(proj2 (Z.ltb_lt 0 (async_in_flight s))), ?wrap_small by word; lia.
 Qed.

(** ** What happened before a doorbell went out *)

Definition needs_flush (v : Z) : Prop := has_mem v = true /\ flush_enabled P = true /\ packet_flush_bytes P <> 0.

Definition range_of (data : list Z) : option BalarFlushRange :=
  computeBalarFlushRange (dataToU64 data) (flush_bytes P) line_size.
Definition range_ok (data : list Z) : Prop :=
  match range_of data with Some r => line_count r <= max_u32 | None => False end.

(** The lines of the packet at the address a doorbell carries. *)
Definition flush_lines_of (w : WriteReq) : list Z :=
  match range_of (wr_data w) with
  | Some r => map (fun i => first_line r + Z.of_nat i * line_size) (seq 0 (Z.to_nat (line_count r)))
  | None => []
  end.

Definition db_size (c : QuetzCommand) : Z := if size c =? 0 then u32 (doorbell_size P) else size c.
(** The doorbell write a command stands for. *)
Definition rings (c : QuetzCommand) (w : WriteReq) : Prop :=
  wr_data w = take (Z.to_nat (size c)) (data c) \/ wr_data w = u64ToData (scratch_of c) (db_size c).
Definition rung (v : Z) (w : WriteReq) (l : list Event) : Prop :=
  exists c, In (Cmd v c) ∈ l /\ rings c w.

(** A flush of [line] was sent and later answered. *)
Definition line_done (v line : Z) (l : list Event) : Prop :=
  exists a id b, l = a ++ Out (SendFlush v id line line_size) :: b /\ In (Response (FlushR id)) ∈ b.

(** The command came, then a tick that found the vCPU drained, then flushes of
    [lines], answered but for those with an id among [ids]. *)
Definition flushing (v : Z) (w : WriteReq) (lines ids : list Z) (l : list Event) : Prop :=
  exists l1 order drained l2, l = l1 ++ In (Process order drained) :: l2 /\ rung v w l1 /\ drained v = true /\
    forall line, line ∈ lines ->
      line_done v line l2 \/ exists id, id ∈ ids /\ Out (SendFlush v id line line_size) ∈ l2.
Definition flushed (v : Z) (w : WriteReq) (l : list Event) : Prop := flushing v w (flush_lines_of w) [] l.

Definition coherent (l : list Event) : Prop :=
  forall l1 v w l2, l = l1 ++ Out (SendWrite v w) :: l2 -> needs_flush v -> flushed v w l1.

Definition phase_ok (v : Z) (p : Phase) (l : list Event) : Prop :=
  match p with
  | Armed r _ => rung v r l /\ bytes_ok (wr_data r) /\ range_ok (wr_data r)
  | Hand ids lines r _ => needs_flush v -> flushing v r lines ids l
  | Flushing ids _ r _ => flushing v r (flush_lines_of r) ids l
  | _ => True
  end.

Record hist (g : Ghost) (s : Port) : Prop :=
  { h_coherent : coherent (log s);
    h_phase : forall v, phase_ok v (ph g v) (log s);
    h_queue : forall v r, r ∈ get [] (submit_queue s) v -> needs_flush v -> flushed v r (log s) }.

Lemma rung_app v w l l' : rung v w l -> rung v w (l ++ l').
Proof. intros (c & Hc & Hr). exists c. rewrite elem_of_app. auto. Qed.

Lemma line_done_app v line l l' : line_done v line l -> line_done v line (l ++ l').
Proof.
  intros (a & id & b & -> & Hb). exists a, id, (b ++ l'). rewrite <- app_assoc. cbn. rewrite elem_of_app. auto.
Qed.

Lemma flushing_app v w lines ids l l' : flushing v w lines ids l -> flushing v w lines ids (l ++ l').
Proof.
  intros (l1 & o & d & l2 & -> & Hr & Hd & Hl). exists l1, o, d, (l2 ++ l').
  rewrite <- app_assoc. split; [reflexivity | split; [exact Hr | split; [exact Hd |]]].
  intros line Hi. destruct (Hl line Hi) as [H|(id & H1 & H2)]; [left; apply line_done_app; exact H |].
  right. exists id. rewrite elem_of_app. auto.
Qed.

Lemma phase_ok_app v p l l' : phase_ok v p l -> phase_ok v p (l ++ l').
Proof.
  destruct p; cbn; auto.
  - intros [H1 H2]. split; [apply rung_app; exact H1 | exact H2].
  - intros H Hn. apply flushing_app, H, Hn.
  - apply flushing_app.
Qed.

(** The flush that was answered. *)
Lemma flushing_answer v w lines ids id l : flushing v w lines ids l ->
  flushing v w lines (filter (fun x => x <> id) ids) (l ++ [In (Response (FlushR id))]).
Proof.
  intros (l1 & o & d & l2 & -> & Hr & Hd & Hl). exists l1, o, d, (l2 ++ [In (Response (FlushR id))]).
  rewrite <- app_assoc. split; [reflexivity | split; [exact Hr | split; [exact Hd |]]].
  intros line Hi. destruct (Hl line Hi) as [H|(x & H1 & H2)]; [left; apply line_done_app; exact H |].
  destruct (decide (x = id)) as [->|Hx].
  - left. apply list_elem_of_split in H2 as (a & b & ->). exists a, id, (b ++ [In (Response (FlushR id))]).
    rewrite <- app_assoc. split; [reflexivity |]. rewrite elem_of_app. right. left.
  - right. exists x. rewrite list_elem_of_filter, elem_of_app. auto.
Qed.

Definition not_write (e : Event) : bool := match e with Out (SendWrite _ _) => false | _ => true end.

Lemma coherent_quiet l es : coherent l -> forallb not_write es = true -> coherent (l ++ es).
Proof.
  induction es as [|e es IH] using rev_ind; intros Hc He; [rewrite app_nil_r; exact Hc |].
  rewrite forallb_app in He. apply andb_true_iff in He as [He1 He2]. specialize (IH Hc He1).
  intros l1 v w l2 E. rewrite app_assoc in E. destruct l2 as [|e' l2' _] using rev_ind.
  - apply app_inj_tail in E as [_ ->]. discriminate He2.
  - rewrite app_comm_cons, app_assoc in E. apply app_inj_tail in E as [E _]. eapply IH. exact E.
Qed.

Lemma port_coherent_write l v w : coherent l -> (needs_flush v -> flushed v w l) -> coherent (l ++ [Out (SendWrite v w)]).
Proof.
  intros Hc Hf l1 v' w' l2 E. destruct l2 as [|e' l2' _] using rev_ind.
  - apply app_inj_tail in E as [-> E]. injection E as -> ->. exact Hf.
  - rewrite app_comm_cons, app_assoc in E. apply app_inj_tail in E as [E _]. eapply Hc. exact E.
Qed.

(** A step that extends the log, leaves some phases, and justifies the others. *)
Lemma hist_step g s g' s' es : hist g s -> log s' = log s ++ es -> coherent (log s') ->
  (forall v, ph g' v = ph g v \/ phase_ok v (ph g' v) (log s')) ->
  (forall v r, r ∈ get [] (submit_queue s') v -> r ∈ get [] (submit_queue s) v \/ (needs_flush v -> flushed v r (log s'))) ->
  hist g' s'.
Proof.
  intros H El Hc Hp Hq. split; [exact Hc | |].
  - intros v. destruct (Hp v) as [->|?]; [| assumption]. rewrite El. apply phase_ok_app, H.
  - intros v r Hr Hn. destruct (Hq v r Hr) as [Ho|?]; [| auto]. rewrite El. apply flushing_app. eapply h_queue; eassumption.
Qed.

(** ** The invariant, and what each operation does to it *)

Record inv (g : Ghost) (s : Port) : Prop :=
  { i_maps : maps g s; i_counts : counts g s; i_hist : hist g s }.

Lemma maps_same g s s' : maps g s ->
  armed_doorbells s' = armed_doorbells s -> doorbell_flushes s' = doorbell_flushes s ->
  flush_to_vcpu s' = flush_to_vcpu s -> pending s' = pending s -> async_busy s' = async_busy s ->
  submit_queue s' = submit_queue s -> next_id s' = next_id s -> maps g s'.
Proof.
  intros [] E1 E2 E3 E4 E5 E6 E7.
  split; rewrite ?E1, ?E2, ?E3, ?E4, ?E5, ?E6, ?E7; assumption.
Qed.

(** The same phases, offloads and counters, with calm events added. *)
Lemma counts_more g g' s s' es : counts g s -> log s' = log s ++ es -> forallb calm es = true ->
  (forall v, ph g' v = ph g v) -> (forall v, bz g' v = bz g v) -> submit_queue s' = submit_queue s ->
  submit_id s' = submit_id s -> completed_id s' = completed_id s ->
  async_in_flight s' = async_in_flight s -> async_vcpu s' = async_vcpu s -> counts g' s'.
Proof.
  intros C El Ec Hp Hb Eq E1 E2 E3 E4. eapply (counts_calm g g' s s' es); eauto; intros v.
  - unfold in_flight. rewrite Hp, Hb, Eq. auto.
  - intros _. rewrite Hp, Hb, Eq. auto.
Qed.

(** A phase of the same kind instead of another. *)
Lemma counts_phase g s v p s' es : counts g s -> 0 <= v -> blocked p = blocked (ph g v) ->
  async_of p = async_of (ph g v) -> log s' = log s ++ es -> forallb calm es = true ->
  submit_queue s' = submit_queue s -> submit_id s' = submit_id s -> completed_id s' = completed_id s ->
  async_in_flight s' = async_in_flight s -> async_vcpu s' = async_vcpu s -> counts (set_ph v p g) s'.
Proof.
  intros C Hv Hb Ha El Ec Eq E1 E2 E3 E4. eapply (counts_calm g _ s s' es); eauto; intros x.
  - unfold in_flight, set_ph. look. rewrite Eq. case_decide; subst; rewrite ?Ha, ?Hb; auto.
  - intros Hx. unfold set_ph. look. rewrite Eq. rewrite decide_False by lia. auto.
Qed.

(** The guest-visible rest of a ghost step: other vCPUs keep their phase. *)
Definition only (v : Z) (g g' : Ghost) : Prop := forall x, x <> v -> ph g' x = ph g x.

Lemma only_refl v g : only v g g.
Proof. intros x _. reflexivity. Qed.
Lemma only_trans v g1 g2 g3 : only v g1 g2 -> only v g2 g3 -> only v g1 g3.
Proof. intros H1 H2 x Hx. rewrite H2, H1 by assumption. reflexivity. Qed.
Lemma only_set v p g : only v g (set_ph v p g).
Proof. intros x Hx. unfold set_ph. cbn. apply port_upd_other. exact Hx. Qed.

Definition served (p : Phase) : Prop := p = Idle \/ exists id rd, p = Sync id rd.

(** A doorbell in hand is queued, launched or forwarded. *)
Section Forward.
Variables (g : Ghost) (s : Port) (v : Z) (lines : list Z) (r : WriteReq).
Hypothesis I : inv g s.
Hypothesis Hv0 : 0 <= v.
Hypothesis Hf : needs_flush v -> flushed v r (log s).

Lemma enqueue_inv id : ph g v = Hand [] lines r true -> bz g v = Some id ->
  inv (set_own (wr_id r) (Some (PQueue v)) (set_ph v Idle g))
    (call (PostResponse v 0) (s <| submit_queue ::= fun m => <[v := get [] m v ++ [r]]> m |>)).
Proof.
  intros Hv Eb. destruct I as [M C H]. split.
  - eapply maps_same; [eapply enqueue_maps; eassumption | reflexivity ..].
  - eapply (counts_more (set_ph v Idle g)); [eapply enqueue_counts; eassumption | symmetry; apply app_nil_r | reflexivity ..].
  - eapply (hist_step g s _ _ [_]); [exact H | reflexivity | apply coherent_quiet; [apply H | reflexivity] | |].
    + intros x. unfold set_own, set_ph. look. case_decide; [right; exact Logic.I | left; reflexivity].
    + intros x r' Hr. look. case_decide; [| left; exact Hr]. subst x. cbn in Hr.
      apply elem_of_app in Hr as [Hr|Hr]; [left; exact Hr | right]. apply list_elem_of_singleton in Hr as ->.
      intros Hn. apply flushing_app. exact (Hf Hn).
Qed.

Lemma launch_inv : ph g v = Hand [] lines r true -> bz g v = None ->
  inv (set_own (wr_id r) (Some (PPend (mkForward v false true))) (set_bz v (Some (wr_id r)) (set_ph v Idle g)))
    (call (PostResponse v 0) (call (RecordSyncRequest v false) (call (SendWrite v r)
      (s <| async_busy ::= <[v := true]> |> <| pending ::= <[wr_id r := mkForward v false true]> |>)))).
Proof.
  intros Hv Eb. destruct I as [M C H]. split.
  - eapply maps_same; [eapply forward_async_maps; eassumption | reflexivity ..].
  - eapply (counts_more (set_bz v (Some (wr_id r)) (set_ph v Idle g)));
      [eapply (forward_async_counts g (call (RecordSyncRequest v false) (call (SendWrite v r) s))); try eassumption
      | cbn; symmetry; apply app_nil_r | reflexivity ..].
    eapply (counts_more g g s _ [_; _]); [exact C | cbn; rewrite <- app_assoc; reflexivity | reflexivity ..].
  - eapply (hist_step g s _ _ [_; _; _]); [exact H | cbn; rewrite <- !app_assoc; reflexivity | | |].
    + cbn. do 2 (apply (coherent_quiet _ [_]); [| reflexivity]). apply port_coherent_write; [apply H | exact Hf].
    + intros x. unfold set_own, set_bz, set_ph. look. case_decide; [right; exact Logic.I | left; reflexivity].
    + intros x r' Hr. left. exact Hr.
Qed.

Lemma forward_sync_inv : ph g v = Hand [] lines r false ->
  inv (set_own (wr_id r) (Some (PPend (mkForward v false false))) (set_ph v (Sync (wr_id r) false) g))
    (call (RecordSyncRequest v false) (call (SendWrite v r) (s <| pending ::= <[wr_id r := mkForward v false false]> |>))).
Proof.
  intros Hv. destruct I as [M C H]. split.
  - eapply maps_same; [eapply forward_sync_maps; eassumption | reflexivity ..].
  - eapply (counts_more (set_ph v (Sync (wr_id r) false) g));
      [eapply forward_sync_counts; eassumption | cbn; rewrite <- app_assoc; reflexivity | reflexivity ..].
  - eapply (hist_step g s _ _ [_; _]); [exact H | cbn; rewrite <- !app_assoc; reflexivity | | |].
    + cbn. apply (coherent_quiet _ [_]); [| reflexivity]. apply port_coherent_write; [apply H | exact Hf].
    + intros x. unfold set_own, set_ph. look. case_decide; [right; exact Logic.I | left; reflexivity].
    + intros x r' Hr. left. exact Hr.
Qed.

Lemma forward_inv a : ph g v = Hand [] lines r a ->
  exists g', inv g' (forwardDoorbell v r a false s) /\ only v g g' /\ served (ph g' v).
Proof.
  intros Hv. unfold forwardDoorbell. destruct a; cbn [andb negb].
  - rewrite (m_busy g s (i_maps g s I) v). destruct (bz g v) as [id|] eqn:Eb.
    + change (bool_decide (is_Some (Some id))) with true. cbn beta iota.
      eexists. split; [apply (enqueue_inv id); assumption | split].
      * intros x Hx. apply port_upd_other. exact Hx.
      * left. apply port_upd_same.
    + change (bool_decide (is_Some (@None Z))) with false. cbn beta iota.
      eexists. split; [apply launch_inv; assumption | split].
      * intros x Hx. apply port_upd_other. exact Hx.
      * left. apply port_upd_same.
  - eexists. split; [apply forward_sync_inv; assumption | split].
    + intros x Hx. apply port_upd_other. exact Hx.
    + right. eexists _, _. apply port_upd_same.
Qed.
End Forward.

Lemma forward_log v r a pre s : exists es, log (forwardDoorbell v r a pre s) = log s ++ es.
Proof.
  unfold forwardDoorbell. destruct (a && get false (async_busy s) v), pre, a; cbn; rewrite <- ?app_assoc; eauto using app_nil_r.
Qed.

(** ** Flushing *)

Definition line_at (line : Z) (i : nat) : Z := line + Z.of_nat i * line_size.

(** The range of a packet, without wrap-around. *)
Lemma range_ok_spec data : bytes_ok data -> range_ok data -> exists first n,
  range_of data = Some (mkFlushRange first (le_value data + flush_bytes P) (Z.of_nat n)) /\
  Z.of_nat n <= max_u32 /\ 0 <= first /\ ((0 < n)%nat -> 0 < line_size /\ first + Z.of_nat n * line_size < 2 ^ 64).
Proof.
  intros Hb. unfold range_ok. destruct (range_of data) as [rg|] eqn:E; [| contradiction]. intros Hr.
  unfold range_of in E. destruct Hparams as [_ Hl Hp _].
  assert (Hfb : is_u64 (flush_bytes P)) by (unfold flush_bytes; destruct (flush_enabled P); [exact Hp | word]).
  pose proof (le_value_range data Hb) as Hs.
  rewrite computeBalarFlushRange_eq in E by assumption. case_decide as Hd; [| discriminate].
  injection E as <-. destruct Hd as (Hl0 & Hsum & Hend). cbn [line_count first_line] in Hr.
  change (dataToU64 data) with (le_value data) in *. set (q := le_value data) in *.
  assert (0 <= q / line_size) by (apply Z.div_pos; word).
  destruct (Z.eqb_spec (flush_bytes P) 0) as [E0|N0].
  - exists (q / line_size * line_size), 0%nat. rewrite E0. split; [reflexivity | split; [word | split; [nia | lia]]].
  - assert (Hle : q / line_size <= (q + flush_bytes P - 1) / line_size) by (apply Z.div_le_mono; word).
    exists (q / line_size * line_size), (Z.to_nat ((q + flush_bytes P - 1) / line_size - q / line_size + 1)).
    rewrite Z2Nat.id by lia. split; [reflexivity | split; [exact Hr | split; [nia |]]].
    intros _. split; [exact Hl0 |]. destruct Hend as [?|Hend]; [lia | nia].
Qed.

(** One flush request. *)
Lemma flush_one g s v ids lines line r a : inv g s -> 0 <= v -> ph g v = Hand ids lines r a ->
  flushing v r lines ids (log s) -> Z.of_nat (length ids) < 2 ^ 32 - 1 ->
  let id := next_id s in
  let s' := call (SendFlush v id line line_size) (call (RecordDoorbellFlush v) (fresh s <| flush_to_vcpu ::= <[id := v]> |>)) in
  let g' := set_own id (Some (PFlush v)) (set_ph v (Hand (ids ++ [id]) (lines ++ [line]) r a) g) in
  inv g' s' /\ flushing v r (lines ++ [line]) (ids ++ [id]) (log s').
Proof.
  intros [M C H] Hv0 Hv Hf Hl id s' g'.
  assert (Hf' : flushing v r (lines ++ [line]) (ids ++ [id]) (log s')).
  { cbn. rewrite <- app_assoc. destruct Hf as (l1 & o & d & l2 & -> & Hr & Hd & Hx).
    exists l1, o, d, (l2 ++ [Out (RecordDoorbellFlush v); Out (SendFlush v id line line_size)]).
    rewrite <- app_assoc. split; [reflexivity | split; [exact Hr | split; [exact Hd |]]].
    intros y Hy. apply elem_of_app in Hy as [Hy|Hy].
    - destruct (Hx y Hy) as [?|(z & Hz1 & Hz2)]; [left; apply line_done_app; assumption | right].
      exists z. rewrite !elem_of_app. auto.
    - apply list_elem_of_singleton in Hy as ->. right. exists id. rewrite !elem_of_app, !elem_of_cons. auto. }
  split; [| exact Hf']. split.
  - eapply maps_same; [eapply flush_maps; eassumption | reflexivity ..].
  - eapply (counts_more (set_ph v (Hand (ids ++ [id]) (lines ++ [line]) r a) g) g' s' s' []); try reflexivity; [| symmetry; apply app_nil_r].
    eapply (counts_phase g s v _ s' [_; _]); try (rewrite ?Hv; reflexivity); try assumption;
      [cbn; rewrite <- app_assoc; reflexivity | reflexivity].
  - eapply (hist_step g s g' s' [_; _]); [exact H | cbn; rewrite <- app_assoc; reflexivity | | |].
    + cbn. do 2 (apply (coherent_quiet _ [_]); [| reflexivity]). apply H.
    + intros x. unfold g', set_own, set_ph. cbn. unfold upd. case_decide; [subst; right | left; reflexivity].
      intros _. exact Hf'.
    + intros x r' Hr. left. exact Hr.
Qed.

(** The loop: all lines from [line] on are sent, none overflows. *)
Lemma flush_lines_inv v r a n : forall g s ids lines line, inv g s -> 0 <= v -> ph g v = Hand ids lines r a ->
  flushing v r lines ids (log s) -> Z.of_nat (length ids) + Z.of_nat n <= max_u32 -> 0 <= line ->
  ((0 < n)%nat -> 0 < line_size /\ line + Z.of_nat n * line_size < 2 ^ 64) ->
  exists g' s' ids', flush_lines line_size v n line (Z.of_nat (length ids)) s = Ok (Z.of_nat (length ids'), s') /\
    inv g' s' /\ only v g g' /\ length ids' = (length ids + n)%nat /\
    ph g' v = Hand ids' (lines ++ map (line_at line) (seq 0 n)) r a /\
    flushing v r (lines ++ map (line_at line) (seq 0 n)) ids' (log s') /\ exists es, log s' = log s ++ es.
Proof.
  induction n as [|n IH]; intros g s ids lines line I Hv0 Hv Hf Hl H0 Hend; cbn [flush_lines].
  - exists g, s, ids. cbn [seq map]. rewrite app_nil_r.
    split; [reflexivity | split; [exact I | split; [apply only_refl | split; [lia | split; [exact Hv | split; [exact Hf |]]]]]].
    exists []. symmetry. apply app_nil_r.
  - destruct (Hend ltac:(lia)) as [Hlp Hle].
    pose proof (flush_one g s v ids lines line r a I Hv0 Hv Hf ltac:(word)) as H. cbv zeta in H.
    set (s1 := call (SendFlush _ _ _ _) _) in *. set (g1 := set_own _ _ _) in *. destruct H as [I1 Hf1].
    assert (E1 : u32 (Z.of_nat (length ids) + 1) = Z.of_nat (length (ids ++ [next_id s]))).
    { rewrite length_app, wrap_small by word. cbn. lia. }
    assert (Ho1 : only v g g1) by (intros x Hx; apply port_upd_other; exact Hx).
    assert (Hp1 : ph g1 v = Hand (ids ++ [next_id s]) (lines ++ [line]) r a) by apply port_upd_same.
    assert (Hlog : log s1 = log s ++ [Out (RecordDoorbellFlush v); Out (SendFlush v (next_id s) line line_size)])
      by (cbn; rewrite <- app_assoc; reflexivity).
    replace (lines ++ map (line_at line) (seq 0 (S n)))
      with ((lines ++ [line]) ++ map (line_at (line + line_size)) (seq 0 n)).
    2:{ rewrite <- app_assoc. f_equal. cbn. f_equal; [unfold line_at; lia |].
        rewrite <- seq_shift, map_map. apply map_ext. intros i. unfold line_at. lia. }
    rewrite E1. destruct n as [|n].
    + exists g1, s1, (ids ++ [next_id s]). cbn [seq map]. rewrite app_nil_r.
      split; [reflexivity | split; [exact I1 | split; [exact Ho1 | split; [rewrite length_app; cbn; lia |]]]]. eauto.
    + rewrite throw_if_false by (apply Z.ltb_ge; rewrite wrap_small by word; word).
      rewrite (wrap_small 64 (line + line_size)) by word.
      destruct (IH g1 s1 (ids ++ [next_id s]) (lines ++ [line]) (line + line_size)) as (g2 & s2 & ids2 & -> & I2 & Ho2 & Hl2 & Hp2 & Hf2 & es & Hes);
        try assumption; try (rewrite ?length_app; cbn; word); try (intros _; split; [exact Hlp | word]).
      exists g2, s2, ids2. split; [reflexivity | split; [exact I2 | split; [eapply only_trans; eassumption |]]].
      split; [rewrite Hl2, length_app; cbn; lia | split; [exact Hp2 | split; [exact Hf2 |]]].
      rewrite Hes, Hlog, <- app_assoc. eauto.
Qed.

(** What a drained doorbell becomes. *)
Definition released (r : WriteReq) (a : bool) (p : Phase) : Prop :=
  served p \/ exists ids st, p = Flushing ids st r a.

Lemma issue_inv g s v r a : inv g s -> 0 <= v -> ph g v = Hand [] [] r a ->
  flushing v r [] [] (log s) -> bytes_ok (wr_data r) -> range_ok (wr_data r) ->
  exists g' s', issueDoorbellFlushes P line_size v r a false s = Ok s' /\ inv g' s' /\ only v g g' /\
    released r a (ph g' v) /\ exists es, log s' = log s ++ es.
Proof.
  intros I Hv0 Hv Hf Hb Hr. unfold issueDoorbellFlushes.
  rewrite throw_if_false by (rewrite (m_ctx g s (i_maps g s I) v), Hv; reflexivity).
  destruct (range_ok_spec (wr_data r) Hb Hr) as (first & n & E & Hn & H0 & Hend).
  fold (range_of (wr_data r)). rewrite E. cbn [line_count first_line].
  rewrite throw_if_false by (apply Z.ltb_ge; exact Hn). rewrite Nat2Z.id.
  destruct (flush_lines_inv v r a n g s [] [] first) as (g1 & s1 & ids & E1 & I1 & O1 & L1 & P1 & F1 & es & Hes);
    [exact I | exact Hv0 | exact Hv | exact Hf | cbn; lia | exact H0 | exact Hend |].
  change (Z.of_nat (length [])) with 0 in E1. rewrite E1. cbn [mbind result_bind app] in *.
  assert (El : flush_lines_of r = map (line_at first) (seq 0 n)).
  { unfold flush_lines_of. rewrite E. cbn [line_count first_line]. rewrite Nat2Z.id. reflexivity. }
  rewrite <- El in *. destruct (Z.eqb_spec (Z.of_nat (length ids)) 0) as [En|Nn].
  - assert (ids = []) as -> by (destruct ids; [reflexivity | cbn in En; lia]).
    destruct (forward_inv g1 s1 v (flush_lines_of r) r I1 Hv0 (fun _ => F1) a P1) as (g2 & I2 & O2 & S2).
    destruct (forward_log v r a false s1) as (es2 & Hes2).
    exists g2, (forwardDoorbell v r a false s1). split; [reflexivity | split; [exact I2 | split; [eapply only_trans; eassumption |]]].
    split; [left; exact S2 |]. rewrite Hes2, Hes, <- app_assoc. eauto.
  - set (s2 := s1 <| doorbell_flushes ::= _ |>).
    exists (set_ph v (Flushing ids (cycles s1) r a) g1), s2. split; [reflexivity |]. destruct I1 as [M C H].
    assert (Hids : ids <> []) by (intros ->; apply Nn; reflexivity).
    split; [split | split; [eapply only_trans; [exact O1 | apply only_set] | split]].
    + eapply maps_same; [eapply park_maps; eassumption | reflexivity ..].
    + eapply (counts_phase g1 s1 v _ s2 []); try (rewrite ?P1; reflexivity); try assumption. symmetry. apply app_nil_r.
    + eapply (hist_step g1 s1 _ s2 []); [exact H | symmetry; apply app_nil_r | apply H | |].
      * intros x. unfold set_ph. cbn. unfold upd. case_decide; [subst; right; exact F1 | left; reflexivity].
      * intros x r' Hr'. left. exact Hr'.
    + right. exists ids, (cycles s1). apply port_upd_same.
    + exists es. exact Hes.
Qed.

(** ** A tick *)

Lemma armed_nonneg g s v : counts g s -> ph g v <> Idle -> 0 <= v.
Proof. intros C Hv. destruct (Z.le_gt_cases 0 v); [assumption |]. destruct (c_neg g s C v); [lia | contradiction]. Qed.

Lemma process_one g s l1 order drained l2 v r a : inv g s -> log s = l1 ++ In (Process order drained) :: l2 ->
  ph g v = Armed r a -> rung v r l1 -> drained v = true ->
  exists g' s', issueDoorbellFlushes P line_size v r a false (s <| armed_doorbells ::= delete v |>) = Ok s' /\
    inv g' s' /\ only v g g' /\ released r a (ph g' v) /\ exists es, log s' = log s ++ es.
Proof.
  intros I El Hv Hr Hd. pose proof I as [M C H].
  assert (Hv0 : 0 <= v) by (eapply armed_nonneg; [eassumption | congruence]).
  pose proof (h_phase g s H v) as Hp. rewrite Hv in Hp. destruct Hp as (_ & Hb & Hrg).
  assert (Hf : flushing v r [] [] (log s)).
  { exists l1, order, drained, l2. repeat split; try assumption. intros line Hx. apply elem_of_nil in Hx. contradiction. }
  destruct (issue_inv (set_ph v (Hand [] [] r a) g) (s <| armed_doorbells ::= delete v |>) v r a)
    as (g' & s' & E & I' & O & R & Hes); try assumption; [| apply port_upd_same |].
  - split; [eapply unarm_maps; eassumption | |].
    + eapply (counts_phase g s v _ _ []); try (rewrite ?Hv; reflexivity); try assumption. symmetry. apply app_nil_r.
    + eapply (hist_step g s _ _ []); [exact H | symmetry; apply app_nil_r | apply H | |].
      * intros x. unfold set_ph. cbn. unfold upd. case_decide; [subst; right; intros _; exact Hf | left; reflexivity].
      * intros x r' Hr'. left. exact Hr'.
  - exists g', s'. split; [exact E | split; [exact I' | split; [eapply only_trans; [apply only_set | exact O] | auto]]].
Qed.

(** Doorbells armed before the tick stay so or are released. *)
Definition ticked (g g' : Ghost) : Prop :=
  forall x, ph g' x = ph g x \/ exists r a, ph g x = Armed r a /\ released r a (ph g' x).

Lemma process_inv drained order : forall o' g s l1 l2, inv g s -> log s = l1 ++ In (Process o' drained) :: l2 ->
  (forall v r a, ph g v = Armed r a -> rung v r l1) ->
  exists g' s', process P line_size order drained s = Ok s' /\ inv g' s' /\ ticked g g'.
Proof.
  induction order as [|v order IH]; intros o' g s l1 l2 I El Ha; cbn [process].
  - exists g, s. split; [reflexivity | split; [exact I | left; reflexivity]].
  - rewrite (m_armed g s (i_maps g s I) v). destruct (ph g v) as [|r a| | |] eqn:Hv; try (eapply IH; eassumption).
    cbn [ad_req ad_is_async ad_pre_acked]. destruct (drained v) eqn:Hd; [| eapply IH; eassumption].
    destruct (process_one g s l1 o' drained l2 v r a I El Hv (Ha v r a Hv) Hd) as (g1 & s1 & -> & I1 & O1 & R1 & es & Hes).
    cbn [mbind result_bind]. rewrite El, <- app_assoc in Hes. cbn [app] in Hes.
    assert (Ha1 : forall x r' a', ph g1 x = Armed r' a' -> rung x r' l1).
    { intros x r' a' Hx. destruct (decide (x = v)) as [->|Nx]; [| eapply Ha; rewrite <- O1 by exact Nx; exact Hx].
      destruct R1 as [[E|(? & ? & E)]|(? & ? & E)]; congruence. }
    destruct (IH o' g1 s1 l1 _ I1 Hes Ha1) as (g2 & s2 & E2 & I2 & T2). exists g2, s2.
    split; [exact E2 | split; [exact I2 |]]. intros x. destruct (decide (x = v)) as [->|Nx].
    + destruct (T2 v) as [E|(r' & a' & E & _)]; [right; exists r, a; rewrite E; auto |].
      destruct R1 as [[E'|(? & ? & E')]|(? & ? & E')]; congruence.
    + rewrite <- (O1 x Nx). apply T2.
Qed.

(** ** Responses *)

Lemma filter_out_absent (id : Z) (l : list Z) : id ∉ l -> filter (fun x => x <> id) l = l.
Proof.
  induction l as [|x l IH]; intros Hi; [reflexivity |]. apply not_elem_of_cons in Hi as [Hx Hi].
  rewrite filter_cons_True by congruence. f_equal. apply IH. exact Hi.
Qed.

Lemma length_filter_out (id : Z) (l : list Z) : NoDup l -> id ∈ l -> S (length (filter (fun x => x <> id) l)) = length l.
Proof.
  intros Hd Hi. apply list_elem_of_split in Hi as (l1 & l2 & ->).
  apply NoDup_app in Hd as (_ & H1 & H2). apply NoDup_cons in H2 as [H2 _].
  rewrite filter_app, filter_cons_False by tauto.
  rewrite (filter_out_absent id l2 H2), (filter_out_absent id l1).
  - rewrite !length_app. cbn. lia.
  - intros Hx. apply (H1 id Hx). left.
Qed.

(** An input that is no command, as far as the phases go. *)
Lemma input_inv g s i : inv g s -> calm (In i) = true -> inv g (input i s).
Proof.
  intros [M C H] Hc. split.
  - eapply maps_same; [exact M | reflexivity ..].
  - eapply (counts_more g g s _ [In i]); try reflexivity; [exact C | apply andb_true_iff; auto].
  - eapply (hist_step g s _ _ [_]); [exact H | reflexivity | apply coherent_quiet; [apply H | reflexivity] | auto | auto].
Qed.

Lemma flush_answer_more g s v id ids st r a : inv g s -> ph g v = Flushing ids st r a -> id ∈ ids ->
  let ids' := filter (fun x => x <> id) ids in ids' <> [] ->
  let s' := input (Response (FlushR id)) s <| flush_to_vcpu ::= delete id |>
       <| doorbell_flushes ::= <[v := mkFlush (Z.of_nat (length ids')) st r a false]> |> in
  inv (set_own id None (set_ph v (Flushing ids' st r a) g)) s'.
Proof.
  intros [M C H] Hv Hi ids' Hne s'. assert (Hv0 : 0 <= v) by (eapply armed_nonneg; [eassumption | congruence]). split.
  - eapply maps_same; [eapply unflush_maps; eassumption | reflexivity ..].
  - eapply (counts_more (set_ph v (Flushing ids' st r a) g) _ s' s' []); try reflexivity; [| symmetry; apply app_nil_r].
    eapply (counts_phase g s v _ s' [_]); try (rewrite ?Hv; reflexivity); try assumption; reflexivity.
  - eapply (hist_step g s _ s' [_]); [exact H | reflexivity | apply coherent_quiet; [apply H | reflexivity] | |].
    + intros x. unfold set_own, set_ph. cbn. unfold upd. case_decide; [subst; right | left; reflexivity].
      apply flushing_answer. pose proof (h_phase g s H v) as Hp. rewrite Hv in Hp. exact Hp.
    + intros x r' Hr'. left. exact Hr'.
Qed.

Lemma flush_answer_last g s v id ids st r a : inv g s -> ph g v = Flushing ids st r a -> id ∈ ids ->
  filter (fun x => x <> id) ids = [] ->
  let s' := call (RecordDoorbellFlushCycles v (u64 (cycles s - st))) (input (Response (FlushR id)) s <| flush_to_vcpu ::= delete id |>)
       <| doorbell_flushes ::= delete v |> in
  inv (set_own id None (set_ph v (Hand [] (flush_lines_of r) r a) g)) s' /\ flushed v r (log s').
Proof.
  intros [M C H] Hv Hi Hne s'. assert (Hv0 : 0 <= v) by (eapply armed_nonneg; [eassumption | congruence]).
  assert (Hf : flushed v r (log s')).
  { cbn. apply flushing_app. pose proof (h_phase g s H v) as Hp. rewrite Hv in Hp. cbn in Hp.
    apply (flushing_answer _ _ _ _ id) in Hp. rewrite Hne in Hp. exact Hp. }
  split; [| exact Hf]. split.
  - eapply maps_same; [eapply flushed_maps; eassumption | reflexivity ..].
  - eapply (counts_more (set_ph v (Hand [] (flush_lines_of r) r a) g) _ s' s' []); try reflexivity; [| symmetry; apply app_nil_r].
    eapply (counts_phase g s v _ s' [_; _]); try (rewrite ?Hv; reflexivity); try assumption;
      [cbn; rewrite <- app_assoc; reflexivity | reflexivity].
  - eapply (hist_step g s _ s' [_; _]); [exact H | cbn; rewrite <- app_assoc; reflexivity | | |].
    + cbn. do 2 (apply coherent_quiet; [| reflexivity]). apply H.
    + intros x. unfold set_own, set_ph. cbn. unfold upd. case_decide; [subst; right; intros _; exact Hf | left; reflexivity].
    + intros x r' Hr'. left. exact Hr'.
Qed.

(** A flush answer: the doorbell moves on, or one flush fewer is awaited. *)
Lemma flush_response_inv g s v id ids st r a : inv g s -> ph g v = Flushing ids st r a -> id ∈ ids ->
  exists g' s', handleResponse (FlushR id) (input (Response (FlushR id)) s) = Ok (true, s') /\ inv g' s' /\ only v g g' /\
    (served (ph g' v) \/ exists ids', ph g' v = Flushing ids' st r a /\ (length ids' < length ids)%nat).
Proof.
  intros I Hv Hi. pose proof I as [M C H]. assert (Hv0 : 0 <= v) by (eapply armed_nonneg; [eassumption | congruence]).
  assert (Hn : own g id = Some (PFlush v)) by (apply (m_fown g s M); rewrite Hv; exact Hi).
  pose proof (m_fnodup g s M v) as [Hd Hl]. rewrite Hv in Hd, Hl. cbn [ids_of] in Hd, Hl.
  pose proof (length_filter_out id ids Hd Hi) as Hlen. set (ids' := filter (fun x => x <> id) ids) in *.
  unfold handleResponse. cbn [resp_id input]. 
  rewrite (proj2 (m_flush g s M id v) Hn : flush_to_vcpu (input _ s) !! id = Some v). unfold handle_flush.
  assert (Ec : doorbell_flushes s !! v = Some (mkFlush (Z.of_nat (length ids)) st r a false)) by (rewrite (m_ctx g s M v), Hv; reflexivity).
  cbv zeta. match goal with |- context [doorbell_flushes ?x !! v] => change (doorbell_flushes x) with (doorbell_flushes s) end.
  rewrite Ec.
  cbn [mbind result_bind fc_remaining fc_start fc_doorbell fc_is_async fc_pre_acked throw_if].
  rewrite (proj2 (Z.ltb_lt 0 _)) by lia. rewrite (wrap_small 32) by word.
  replace (Z.of_nat (length ids) - 1) with (Z.of_nat (length ids')) by lia.
  destruct (Z.eqb_spec (Z.of_nat (length ids')) 0) as [E0|N0].
  - assert (Hnil : ids' = []) by (destruct ids'; [reflexivity | cbn in E0; lia]).
    destruct (flush_answer_last g s v id ids st r a I Hv Hi Hnil) as [I1 F1]. set (s1 := call _ _ <| doorbell_flushes ::= _ |>) in *.
    edestruct (forward_inv _ s1 v (flush_lines_of r) r I1 Hv0 (fun _ => F1) a) as (g2 & I2 & O2 & S2); [apply port_upd_same |].
    exists g2. eexists. split; [reflexivity | split; [exact I2 | split; [| left; exact S2]]].
    intros x Hx. rewrite (O2 x Hx). apply port_upd_other. exact Hx.
  - assert (Hne : ids' <> []) by (intros E; rewrite E in N0; apply N0; reflexivity).
    eexists _, _. split; [reflexivity | split; [apply (flush_answer_more g s v id ids st r a I Hv Hi Hne) | split]].
    + intros x Hx. apply port_upd_other. exact Hx.
    + right. exists ids'. split; [apply port_upd_same | lia].
Qed.

Lemma pend_lookup g s id f i : maps g s -> own g id = Some (PPend f) ->
  flush_to_vcpu (input i s) !! id = None /\ pending (input i s) !! id = Some f.
Proof.
  intros M Hn. split; [| apply (m_pend g s M); exact Hn].
  change (flush_to_vcpu s !! id = None). destruct (flush_to_vcpu s !! id) as [v|] eqn:E; [| reflexivity].
  apply (m_flush g s M) in E. congruence.
Qed.

(** The answer of a forwarded doorbell or read reaches the guest. *)
Lemma sync_response_inv g s r v rd : inv g s -> ph g v = Sync (resp_id r) rd ->
  exists g' s', handleResponse r (input (Response r) s) = Ok (true, s') /\ inv g' s' /\ only v g g' /\ ph g' v = Idle.
Proof.
  intros I Hv. pose proof I as [M C H]. assert (Hv0 : 0 <= v) by (eapply armed_nonneg; [eassumption | congruence]).
  assert (Hn : own g (resp_id r) = Some (PPend (mkForward v rd false))) by (apply (m_sync g s M); exact Hv).
  destruct (pend_lookup g s (resp_id r) _ (Response r) M Hn) as [E1 E2].
  unfold handleResponse. rewrite E1, E2. cbv zeta. cbn [fp_is_async fp_vcpu]. set (value := if fp_is_read _ then _ else _).
  destruct (input_inv g s (Response r) I eq_refl) as [M1 C1 H1].
  exists (set_own (resp_id r) None (set_ph v Idle g)). eexists. split; [reflexivity | split; [split | split]].
  - eapply maps_same; [eapply answer_maps; eassumption | reflexivity ..].
  - eapply (counts_more (set_ph v Idle g)); [eapply (answer_counts g (input (Response r) s)); eassumption | symmetry; apply app_nil_r | reflexivity ..].
  - eapply (hist_step g _ _ _ [_]); [exact H1 | reflexivity | apply coherent_quiet; [apply H1 | reflexivity] | |].
    + intros x. unfold set_own, set_ph. cbn. unfold upd. case_decide; [right; exact Logic.I | left; reflexivity].
    + intros x r' Hr'. left. exact Hr'.
  - intros x Hx. apply port_upd_other. exact Hx.
  - apply port_upd_same.
Qed.

(** The answer of a posted offload retires it, and launches the next. *)
Lemma port_retire_inv g s v id value : inv g s -> bz g v = Some id -> exists g',
  inv g' (retire v value (s <| pending ::= delete id |>)) /\ (forall x, ph g' x = ph g x).
Proof.
  intros [M C H] Hb.
  assert (Hv0 : 0 <= v) by (destruct (Z.le_gt_cases 0 v); [assumption | destruct (c_neg g s C v) as (_ & ? & _); [lia | congruence]]).
  unfold retire. cbv zeta. set (s1 := call (RecordAsyncCompletion v) _).
  change (get [] (submit_queue s1) v) with (get [] (submit_queue s) v).
  destruct (get [] (submit_queue s) v) as [|next rest] eqn:Eq.
  - exists (set_own id None (set_bz v None g)). split; [| intros x; reflexivity]. split.
    + eapply maps_same; [eapply retire_maps; eassumption | reflexivity ..].
    + eapply (counts_more (set_bz v None g)); [eapply (retire_counts g s v id value); eassumption | symmetry; apply app_nil_r | reflexivity ..].
    + eapply (hist_step g s _ s1 [_]); [exact H | reflexivity | apply coherent_quiet; [apply H | reflexivity] | left; reflexivity | auto].
  - exists (set_own (wr_id next) (Some (PPend (mkForward v false true))) (set_own id None (set_bz v (Some (wr_id next)) g))).
    split; [| intros x; reflexivity].
    assert (Ef : forall s', get false (async_busy s') v = false -> forwardDoorbell v next true true s' =
      call (RecordSyncRequest v false) (call (SendWrite v next) (s' <| async_busy ::= <[v := true]> |> <| pending ::= <[wr_id next := mkForward v false true]> |>))).
    { intros s' E. unfold forwardDoorbell. rewrite E. reflexivity. }
    rewrite Ef by (unfold get; cbn; rewrite lookup_insert_eq; reflexivity).
    split.
    + eapply maps_same; [eapply next_maps; eassumption | reflexivity ..].
    + eapply (counts_more (set_bz v (Some (wr_id next)) g) _ _ _ [_; _]);
        [eapply (next_counts g s v id next rest (wr_id next) value); eassumption
        | cbn; rewrite <- app_assoc; reflexivity | reflexivity ..].
    + eapply (hist_step g s _ _ [_; _; _]); [exact H | cbn; rewrite <- !app_assoc; reflexivity | | left; reflexivity |].
      * cbn. apply (coherent_quiet _ [_]); [| reflexivity]. apply port_coherent_write; [apply (coherent_quiet _ [_]); [apply H | reflexivity] |].
        intros Hn. apply flushing_app. apply (h_queue g s H); [rewrite Eq; left | exact Hn].
      * intros x r' Hr'. left. unfold get in *. cbn in Hr'. rewrite lookup_insert in Hr'. case_decide; [| exact Hr'].
        subst x. rewrite Eq. right. exact Hr'.
Qed.

Lemma async_response_inv g s r v : inv g s -> bz g v = Some (resp_id r) ->
  exists g' s', handleResponse r (input (Response r) s) = Ok (true, s') /\ inv g' s' /\ (forall x, ph g' x = ph g x) /\
    async_in_flight s' = async_in_flight s - 1 /\ async_vcpu s' = async_vcpu s.
Proof.
  intros I Hb. pose proof I as [M C H].
  assert (Hn : own g (resp_id r) = Some (PPend (mkForward v false true))) by (apply (m_asyn g s M); auto).
  destruct (pend_lookup g s (resp_id r) _ (Response r) M Hn) as [E1 E2].
  unfold handleResponse. rewrite E1, E2. cbn [fp_is_async fp_vcpu fp_is_read].
  destruct (port_retire_inv g (input (Response r) s) v (resp_id r) 0 (input_inv g s (Response r) I eq_refl) Hb) as (g' & I' & Hp).
  exists g'. eexists. split; [reflexivity | split; [exact I' | split; [exact Hp |]]].
  destruct (busy_vcpu g s v _ C Hb) as [_ Hr]. unfold retire, forwardDoorbell.
  case_match; [| case_match]; (split; [| reflexivity]); cbn; rewrite (proj2 (Z.ltb_lt 0 _)), wrap_small by word; reflexivity.
Qed.

(** ** Commands

    What the environment promises of a command: the guest is not waiting for
    another, the bridge cuts accesses at eight bytes, the address a doorbell
    carries can be flushed, and posted offloads come from one vCPU within the
    configured depth. *)

Definition submitting (c : QuetzCommand) : Prop :=
  cmd c = CMD_MMIO_WRITE_REQ /\ u64 (addr c - async_doorbell_addr P) = ASYNC_REG_SUBMIT.

Record cmd_ok (v : Z) (c : QuetzCommand) (s : Port) : Prop :=
  { ck_vcpu : 0 <= v;
    ck_wait : answered v (log s) = asked v (log s);
    ck_cmd : cmd c = CMD_MMIO_READ_REQ \/ cmd c = CMD_MMIO_WRITE_REQ;
    ck_data : command_ok c;
    ck_size : size c <= 8;
    ck_range : cmd c = CMD_MMIO_WRITE_REQ -> in_async P (addr c) = false -> needs_flush v ->
      range_ok (take (Z.to_nat (size c)) (data c));
    ck_async : in_async P (addr c) = true ->
      (async_vcpu s < 0 \/ v = async_vcpu s) /\
      (submitting c -> doorbell_addr P <> 0 /\ has_mem v = true /\ async_in_flight s < async_completion_depth P /\
         range_ok (u64ToData (scratch_of c) (db_size c))) }.

Definition settled (g : Ghost) : Prop := forall v ids lines r a, ph g v <> Hand ids lines r a.

Lemma settled_only g g' v : settled g -> only v g g' -> (forall ids lines r a, ph g' v <> Hand ids lines r a) -> settled g'.
Proof.
  intros S O Hv x. destruct (decide (x = v)) as [->|Nx]; [exact Hv |]. intros ids lines r a. rewrite (O x Nx). apply S.
Qed.

Lemma served_settled p ids lines r a : served p -> p <> Hand ids lines r a.
Proof. intros [->|(? & ? & ->)]; discriminate. Qed.

Lemma waiting_idle g s v : inv g s -> answered v (log s) = asked v (log s) -> ph g v = Idle.
Proof.
  intros I E. pose proof (c_answers g s (i_counts g s I) v) as Ha. destruct (ph g v); cbn in Ha; try lia. reflexivity.
Qed.

(** The first vCPU to use the aperture owns it. *)
Lemma own_aperture g s v : inv g s -> 0 <= v -> async_vcpu s < 0 -> inv g (s <| async_vcpu := v |>).
Proof.
  intros [M C H] Hv Ha.
  assert (Hz : forall x, in_flight g s x = 0).
  { intros x. destruct (Z.eq_dec x (async_vcpu s)) as [->|]; [| apply C; assumption].
    destruct (c_neg g s C (async_vcpu s) Ha) as (E1 & E2 & E3). unfold in_flight. rewrite E1, E2, E3. reflexivity. }
  split.
  - eapply maps_same; [exact M | reflexivity ..].
  - split; try apply C; cbn [async_vcpu update_field Port_settable].
    + intros x _. apply Hz.
    + etransitivity; [apply C |]. rewrite Hz. symmetry. apply Hz.
  - eapply (hist_step g s g _ []); [exact H | symmetry; apply app_nil_r | apply H | left; reflexivity | auto].
Qed.

(** A new phase for an idle vCPU whose command is now in the log. *)
Lemma command_hist g s v c p o s' es : inv g s -> log s' = log s ++ In (Cmd v c) :: es ->
  submit_queue s' = submit_queue s -> forallb not_write es = true -> phase_ok v p (log s') ->
  hist (set_own o (Some (PWait v)) (set_ph v p g)) s' /\ (forall pl, hist (set_own o pl (set_ph v p g)) s').
Proof.
  intros [M C H] El Eq Hq Hp. enough (Hpl : forall pl, hist (set_own o pl (set_ph v p g)) s') by auto.
  intros pl. eapply (hist_step g s _ s' (In (Cmd v c) :: es)); [exact H | exact El | | |].
  - rewrite El. apply coherent_quiet; [apply H | exact Hq].
  - intros x. unfold set_own, set_ph. cbn. unfold upd. case_decide; [subst; right; exact Hp | left; reflexivity].
  - intros x r Hr. left. rewrite Eq in Hr. exact Hr.
Qed.

Lemma bytes_ok_take n l : bytes_ok l -> bytes_ok (take n l).
Proof. apply Forall_take. Qed.

Lemma answer_now_inv g s v c value : inv g s -> inv g (call (PostResponse v value) (input (Cmd v c) s)).
Proof.
  intros [M C H]. split.
  - eapply maps_same; [exact M | reflexivity ..].
  - apply answer_now_counts. exact C.
  - eapply (hist_step g s _ _ [_; _]); [exact H | cbn; rewrite <- app_assoc; reflexivity | | left; reflexivity | auto].
    cbn. do 2 (apply coherent_quiet; [| reflexivity]). apply H.
Qed.

Lemma record_inv g s v rd : inv g s -> inv g (call (RecordSyncRequest v rd) s).
Proof.
  intros [M C H]. split.
  - eapply maps_same; [exact M | reflexivity ..].
  - eapply (counts_more g g s _ [_]); try reflexivity. exact C.
  - eapply (hist_step g s _ _ [_]); [exact H | reflexivity | apply coherent_quiet; [apply H | reflexivity] | left; reflexivity | auto].
Qed.

(** A posted offload is armed. *)
Lemma submit_inv g s v c : inv g s -> 0 <= v -> ph g v = Idle -> v = async_vcpu s ->
  doorbell_addr P <> 0 -> has_mem v = true -> async_in_flight s < async_completion_depth P ->
  range_ok (u64ToData (scratch_of c) (db_size c)) ->
  exists g' s', submit P has_mem v c (input (Cmd v c) s) = Ok s' /\ inv g' s' /\ only v g g' /\ exists r, ph g' v = Armed r true.
Proof.
  intros I Hv0 Hv Ea Hd Hm Hf Hr. pose proof I as [M C H].
  assert (Hnn : 0 <= async_in_flight s < 2 ^ 32 - 1).
  { destruct Hparams. rewrite (c_count g s C) in *. unfold in_flight in *.
    pose proof (async_of_range (ph g (async_vcpu s))). destruct (bz g (async_vcpu s)); lia. }
  unfold submit. rewrite throw_if_false by (rewrite Hm, (proj2 (Z.eqb_neq _ _)) by assumption; reflexivity).
  rewrite throw_if_false by (apply Z.ltb_ge; cbn; rewrite wrap_small by word; lia). cbv zeta. fold (db_size c).
  set (s0 := call (RecordAsyncSubmit v) _). set (r := mkWrite _ _ _ _ _).
  change (armed_doorbells (fresh s0) !! v) with (armed_doorbells s !! v).
  change (doorbell_flushes (fresh s0) !! v) with (doorbell_flushes s !! v).
  rewrite throw_if_false by (rewrite (m_armed g s M v), (m_ctx g s M v), Hv; reflexivity).
  exists (set_own (wr_id r) (Some (PWait v)) (set_ph v (Armed r true) g)). eexists. split; [reflexivity | split; [split | split]].
  - eapply maps_same; [eapply (arm_maps g s v r true M Hv eq_refl) | reflexivity ..].
  - eapply (counts_more (set_ph v (Armed r true) g));
      [eapply (submit_counts g s v c r); assumption | symmetry; apply app_nil_r | reflexivity ..].
  - eapply (command_hist g s v c _ _ _ [_]); [exact I | cbn; rewrite <- app_assoc; reflexivity | reflexivity | reflexivity |].
    split; [| split; [apply le_bytes_ok | exact Hr]]. exists c. split; [| right; reflexivity].
    cbn. rewrite <- app_assoc, elem_of_app. right. left.
  - intros x Hx. apply port_upd_other. exact Hx.
  - exists r. apply port_upd_same.
Qed.

Lemma aperture_inv g s v c : inv g s -> settled g -> cmd_ok v c s -> in_async P (addr c) = true ->
  exists g' s', handleAsyncAperture P has_mem v c (input (Cmd v c) s) = Ok s' /\ inv g' s' /\ settled g'.
Proof.
  intros I S K Ha. destruct K as [Hv0 Hw Hc _ _ _ Has]. destruct (Has Ha) as [Hown Hsub].
  assert (Hv : ph g v = Idle) by (eapply waiting_idle; eassumption).
  unfold handleAsyncAperture.
  rewrite throw_if_false by (cbn; destruct (Z.ltb_spec (async_vcpu s) 0); [reflexivity | destruct Hown; [lia |]; subst; rewrite Z.eqb_refl; reflexivity]).
  set (s1 := if async_vcpu (input (Cmd v c) s) <? 0 then _ else _).
  assert (Hs1 : exists s0, s1 = input (Cmd v c) s0 /\ inv g s0 /\ v = async_vcpu s0 /\ async_in_flight s0 = async_in_flight s).
  { unfold s1. cbn [input async_vcpu update_field Port_settable]. destruct (Z.ltb_spec (async_vcpu s) 0).
    - exists (s <| async_vcpu := v |>). split; [reflexivity | split; [apply own_aperture; assumption | auto]].
    - exists s. destruct Hown; [lia |]. auto. }
  clearbody s1. destruct Hs1 as (s0 & -> & I0 & Ev & Ef). cbv zeta.
  destruct Hc as [-> | Ew].
  - eexists g, _. split; [reflexivity | split; [| exact S]]. apply record_inv, answer_now_inv. exact I0.
  - rewrite Ew. destruct (Z.eqb_spec (u64 (addr c - async_doorbell_addr P)) ASYNC_REG_SUBMIT) as [Eo|No]; cbn [negb].
    + destruct Hsub as (H1 & H2 & H3 & H4); [split; assumption |].
      destruct (submit_inv g s0 v c) as (g' & s' & E & I' & O & r & Hr); try assumption; [lia |].
      exists g', s'. split; [exact E | split; [exact I' |]]. eapply settled_only; [exact S | exact O |]. intros. congruence.
    + eexists g, _. split; [reflexivity | split; [| exact S]]. apply answer_now_inv. exact I0.
Qed.

(** A read of the doorbell aperture is forwarded. *)
Lemma port_read_inv g s v c : inv g s -> 0 <= v -> ph g v = Idle ->
  let id := next_id s in
  inv (set_own id (Some (PPend (mkForward v true false))) (set_ph v (Sync id true) g))
    (call (RecordSyncRequest v true) (call (SendRead v (mkRead id (addr c) (size c)))
      (fresh (input (Cmd v c) s) <| pending ::= <[id := mkForward v true false]> |>))).
Proof.
  intros I Hv0 Hv id. pose proof I as [M C H]. apply record_inv. split.
  - eapply maps_same; [eapply (read_maps g s v id M Hv eq_refl) | reflexivity ..].
  - eapply (counts_more (set_ph v (Sync id true) g) _ _ _ [_]);
      [eapply (accept_counts g s v c (Sync id true)); try assumption; reflexivity | reflexivity ..].
  - eapply (command_hist g s v c _ _ _ [_]); [exact I | cbn; rewrite <- app_assoc; reflexivity | reflexivity | reflexivity | exact Logic.I].
Qed.

(** A doorbell that needs no flush is in hand, one that does is armed. *)
Lemma ring_inv g s v c p r : inv g s -> 0 <= v -> ph g v = Idle -> wr_id r = next_id s ->
  phase_ok v p (log (input (Cmd v c) s)) ->
  (p = Hand [] [] r false ->
     inv (set_own (wr_id r) (Some (PWait v)) (set_ph v p g)) (fresh (input (Cmd v c) s))) /\
  (p = Armed r false ->
     inv (set_own (wr_id r) (Some (PWait v)) (set_ph v p g))
       (fresh (input (Cmd v c) s) <| armed_doorbells ::= <[v := mkArmed r false false]> |>)).
Proof.
  intros I Hv0 Hv Hr Hp. pose proof I as [M C H]. split; intros ->.
  - split.
    + eapply maps_same; [eapply (hand_maps g s v r false M Hv Hr) | reflexivity ..].
    + eapply (counts_more (set_ph v (Hand [] [] r false) g));
        [eapply (accept_counts g s v c (Hand [] [] r false)); try assumption; reflexivity | symmetry; apply app_nil_r | reflexivity ..].
    + eapply (command_hist g s v c _ _ _ []); [exact I | reflexivity | reflexivity | reflexivity | exact Hp].
  - split.
    + eapply maps_same; [eapply (arm_maps g s v r false M Hv Hr) | reflexivity ..].
    + eapply (counts_more (set_ph v (Armed r false) g));
        [eapply (accept_counts g s v c (Armed r false)); try assumption; reflexivity | symmetry; apply app_nil_r | reflexivity ..].
    + eapply (command_hist g s v c _ _ _ []); [exact I | reflexivity | reflexivity | reflexivity | exact Hp].
Qed.

Lemma command_inv g s v c : inv g s -> settled g -> cmd_ok v c s ->
  exists g' s', handleCommand P has_mem v c (input (Cmd v c) s) = Ok s' /\ inv g' s' /\ settled g'.
Proof.
  intros I S K. unfold handleCommand. destruct (in_async P (addr c)) eqn:Ha; [apply (aperture_inv g); assumption |].
  destruct K as [Hv0 Hw Hc Hd Hs Hr _]. assert (Hv : ph g v = Idle) by (eapply waiting_idle; eassumption).
  destruct Hc as [-> | Ew].
  - eexists _, _. split; [reflexivity | split; [apply (port_read_inv g s v c I Hv0 Hv) |]].
    eapply (settled_only g _ v); [exact S | intros x Hx; apply port_upd_other; exact Hx |]. intros.
    cbn. rewrite port_upd_same. discriminate.
  - rewrite Ew. set (r := mkWrite _ _ _ _ _). cbv zeta. specialize (Hr Ew Ha).
    assert (Hrung : rung v r (log (input (Cmd v c) s))).
    { exists c. split; [cbn; rewrite elem_of_app; right; left | left; reflexivity]. }
    destruct (negb (has_mem v) || negb (flush_enabled P) || (packet_flush_bytes P =? 0)) eqn:En.
    + assert (Hn : ~ needs_flush v).
      { intros (E1 & E2 & E3). rewrite E1, E2, (proj2 (Z.eqb_neq _ _) E3) in En. discriminate En. }
      destruct (ring_inv g s v c (Hand [] [] r false) r I Hv0 Hv eq_refl) as [I1 _]; [intros ?; contradiction |].
      specialize (I1 eq_refl). edestruct (forward_inv _ _ v [] r I1 Hv0) as (g2 & I2 & O2 & S2); [intros ?; contradiction | apply port_upd_same |].
      exists g2. eexists. split; [reflexivity | split; [exact I2 |]].
      eapply (settled_only g _ v); [exact S | | intros; apply served_settled; exact S2].
      intros x Hx. rewrite (O2 x Hx). apply port_upd_other. exact Hx.
    + assert (Hn : needs_flush v).
      { apply orb_false_iff in En as [En E3]. apply orb_false_iff in En as [E1 E2].
        split; [destruct (has_mem v); auto | split; [destruct (flush_enabled P); auto | apply Z.eqb_neq; exact E3]]. }
      change (armed_doorbells (fresh (input (Cmd v c) s)) !! v) with (armed_doorbells s !! v).
      rewrite throw_if_false by (rewrite (m_armed g s (i_maps g s I) v), Hv; reflexivity).
      destruct (ring_inv g s v c (Armed r false) r I Hv0 Hv eq_refl) as [_ I1].
      { split; [exact Hrung | split; [apply bytes_ok_take, Hd | apply Hr; exact Hn]]. }
      eexists _, _. split; [reflexivity | split; [apply I1; reflexivity |]].
      eapply (settled_only g _ v); [exact S | intros x Hx; apply port_upd_other; exact Hx |]. intros. cbn. rewrite port_upd_same. discriminate.
Qed.

(** ** Runs *)

(** What the environment promises of an input: guests as in [cmd_ok], and
    memory that answers a flush with a flush response. *)
Definition input_ok (i : Input) (s : Port) : Prop :=
  match i with
  | Cmd v c => cmd_ok v c s
  | Response r => is_Some (flush_to_vcpu s !! resp_id r) -> exists id, r = FlushR id
  | _ => True
  end.

Definition sys_step (s s' : Port) : Prop :=
  exists i, input_ok i s /\ step P has_mem line_size i s = Ok s'.
Definition reachable (s : Port) : Prop := rtc sys_step port0 s.

Lemma response_inv g s r : inv g s -> settled g -> input_ok (Response r) s ->
  exists g' b s', handleResponse r (input (Response r) s) = Ok (b, s') /\ inv g' s' /\ settled g'.
Proof.
  intros I S K. pose proof I as [M C H]. destruct (flush_to_vcpu s !! resp_id r) as [v|] eqn:Ef.
  - destruct K as [id ->]; [rewrite Ef; eauto |]. cbn [resp_id] in Ef.
    apply (proj1 (m_flush g s M _ _)), (proj1 (m_fown g s M _ _)) in Ef. destruct (ph g v) as [| |? ? ? ?|ids st q a|] eqn:Hv; try (apply elem_of_nil in Ef; contradiction).
    { destruct (S _ _ _ _ _ Hv). }
    destruct (flush_response_inv g s v id ids st q a I Hv Ef) as (g' & s' & E & I' & O & R).
    exists g', true, s'. split; [exact E | split; [exact I' |]]. eapply settled_only; [exact S | exact O |].
    intros. destruct R as [R|(? & -> & _)]; [apply served_settled; exact R | discriminate].
  - destruct (pending s !! resp_id r) as [[v rd [|]]|] eqn:Ep.
    + apply (m_pend g s M), (m_asyn g s M) in Ep as [Hb _].
      destruct (async_response_inv g s r v I Hb) as (g' & s' & E & I' & Hp & _).
      exists g', true, s'. split; [exact E | split; [exact I' |]]. intros x. rewrite Hp. apply S.
    + apply (m_pend g s M), (m_sync g s M) in Ep.
      destruct (sync_response_inv g s r v rd I Ep) as (g' & s' & E & I' & O & Hp).
      exists g', true, s'. split; [exact E | split; [exact I' |]]. eapply settled_only; [exact S | exact O |]. intros. congruence.
    + exists g, false, (input (Response r) s). split; [| split; [apply input_inv; [exact I | reflexivity] | exact S]].
      unfold handleResponse. change (flush_to_vcpu (input _ s)) with (flush_to_vcpu s). change (pending (input _ s)) with (pending s).
      rewrite Ef, Ep. reflexivity.
Qed.

Definition good (g : Ghost) (s : Port) : Prop := inv g s /\ settled g.

Lemma step_good g s i : good g s -> input_ok i s ->
  exists g' s', step P has_mem line_size i s = Ok s' /\ good g' s'.
Proof.
  intros [I S] K. destruct i as [v c|r|order drained|now].
  - destruct (command_inv g s v c I S K) as (g' & s' & E & I' & S'). exists g', s'. split; [exact E | split; assumption].
  - destruct (response_inv g s r I S K) as (g' & b & s' & E & I' & S'). exists g', s'. split; [| split; assumption].
    change (step P has_mem line_size (Response r) s) with (handleResponse r (input (Response r) s) ≫= fun '(_, s) => Ok s).
    rewrite E. reflexivity.
  - destruct (process_inv drained order order g (input (Process order drained) s) (log s) []) as (g' & s' & E & I' & T).
    + apply input_inv; [exact I | reflexivity].
    + reflexivity.
    + intros v r a Hv. pose proof (h_phase g s (i_hist g s I) v) as Hp. rewrite Hv in Hp. apply Hp.
    + exists g', s'. split; [exact E | split; [exact I' |]]. intros x ids lines r a.
      destruct (T x) as [->|(r' & a' & _ & [R|(? & ? & ->)])]; [apply S | apply served_settled; exact R | discriminate].
  - eexists g, _. split; [reflexivity | split; [| exact S]]. destruct (input_inv g s (Cycles now) I eq_refl) as [M C H].
    split; [eapply maps_same; [exact M | reflexivity ..] | | split; apply H].
    eapply (counts_more g g _ _ []); [exact C | symmetry; apply app_nil_r | reflexivity ..].
Qed.

Definition ghost0 : Ghost := mkGhost (fun _ => Idle) (fun _ => None) (fun _ => None).

Lemma good_port0 : good ghost0 port0.
Proof.
  split; [split | intros v ids lines r a; discriminate].
  - split; intros; cbn; rewrite ?lookup_empty in *; try solve [reflexivity | discriminate | constructor | split; [discriminate | tauto || discriminate]].
    + split; [discriminate | intros Hx; apply elem_of_nil in Hx; contradiction].
    + split; [constructor | cbn; lia].
    + split; [discriminate | intros [? _]; discriminate].
    + apply elem_of_nil in H. contradiction.
  - split; intros; cbn; auto; try lia. destruct Hparams. lia.
  - split; cbn; auto.
    + intros l1 v w l2 E. destruct l1; discriminate.
    + intros v r Hr. apply elem_of_nil in Hr. contradiction.
Qed.

Lemma good_steps s s' g : good g s -> rtc sys_step s s' -> exists g', good g' s'.
Proof.
  intros G Hs. revert g G. induction Hs as [s|s s1 s2 (i & K & E) _ IH]; intros g G; [eauto |].
  destruct (step_good g s i G K) as (g1 & s1' & E1 & G1). assert (s1' = s1) as -> by congruence. eauto.
Qed.

Lemma reachable_good s : reachable s -> exists g, good g s.
Proof. intros Hr. eapply good_steps; [apply good_port0 | exact Hr]. Qed.

(** ** Progress *)

Lemma answer_step g s r g' s' b : good g s -> input_ok (Response r) s -> handleResponse r (input (Response r) s) = Ok (b, s') ->
  inv g' s' -> settled g' -> sys_step s s' /\ good g' s'.
Proof.
  intros G K E I' S'. split; [| split; assumption]. exists (Response r). split; [exact K |].
  change (step P has_mem line_size (Response r) s) with (handleResponse r (input (Response r) s) ≫= fun '(_, s) => Ok s).
  rewrite E. reflexivity.
Qed.

Lemma flushing_progress v st r a n : forall g s ids, (length ids <= n)%nat -> good g s -> ph g v = Flushing ids st r a ->
  exists g' s', rtc sys_step s s' /\ good g' s' /\ served (ph g' v).
Proof.
  induction n as [|n IH]; intros g s ids Hn [I S] Hv; (destruct ids as [|id ids]; [destruct (m_park g s (i_maps g s I) v _ _ _ _ Hv eq_refl) |]);
    [cbn in Hn; lia |].
  destruct (flush_response_inv g s v id (id :: ids) st r a I Hv) as (g1 & s1 & E & I1 & O & R); [left |].
  assert (S1 : settled g1).
  { eapply settled_only; [exact S | exact O |]. intros. destruct R as [R|(? & -> & _)]; [apply served_settled; exact R | discriminate]. }
  destruct (answer_step g s (FlushR id) g1 s1 true (conj I S) (fun _ => ex_intro _ id eq_refl) E I1 S1) as [Hst G1].
  destruct R as [R|(ids' & Hv' & Hl)].
  - exists g1, s1. split; [apply rtc_once; exact Hst | auto].
  - destruct (IH g1 s1 ids' ltac:(lia) G1 Hv') as (g2 & s2 & Hs & G2 & R2). exists g2, s2.
    split; [eapply rtc_l; eassumption | auto].
Qed.

Lemma served_progress g s v : good g s -> served (ph g v) ->
  exists g' s', rtc sys_step s s' /\ good g' s' /\ ph g' v = Idle.
Proof.
  intros [I S] [Hv|(id & rd & Hv)]; [exists g, s; split; [apply rtc_refl | split; [split |]; assumption] |].
  destruct (sync_response_inv g s (WriteR id) v rd I Hv) as (g1 & s1 & E & I1 & O & Hp).
  assert (S1 : settled g1) by (eapply settled_only; [exact S | exact O | intros; congruence]).
  destruct (answer_step g s (WriteR id) g1 s1 true (conj I S)) as [Hst G1]; try assumption.
  - intros [x Hx]. apply (m_flush g s (i_maps g s I)) in Hx. cbn in Hx.
    pose proof (proj2 (m_sync g s (i_maps g s I) id v rd) Hv). congruence.
  - exists g1, s1. split; [apply rtc_once; exact Hst | auto].
Qed.

Lemma idle_progress g s v : good g s -> exists g' s', rtc sys_step s s' /\ good g' s' /\ ph g' v = Idle.
Proof.
  intros G. pose proof G as [I S].
  assert (H : exists g1 s1, rtc sys_step s s1 /\ good g1 s1 /\ (served (ph g1 v) \/ exists ids st r a, ph g1 v = Flushing ids st r a)).
  { destruct (ph g v) as [|r a|ids lines r a|ids st r a|id rd] eqn:Hv.
    - exists g, s. split; [apply rtc_refl | split; [exact G | left; left; exact Hv]].
    - pose proof (h_phase g s (i_hist g s I) v) as Hp. rewrite Hv in Hp. set (i := Process [v] (fun _ => true)).
      destruct (process_one g (input i s) (log s) [v] (fun _ => true) [] v r a) as (g1 & s1 & E & I1 & O & R & _);
        [apply input_inv; [exact I | reflexivity] | reflexivity | exact Hv | apply Hp | reflexivity |].
      assert (Es : step P has_mem line_size i s = Ok s1).
      { change (process P line_size [v] (fun _ => true) (input i s) = Ok s1). cbn [process].
        change (armed_doorbells (input i s)) with (armed_doorbells s). rewrite (m_armed g s (i_maps g s I) v), Hv.
        cbn [ad_req ad_is_async ad_pre_acked]. rewrite E. reflexivity. }
      exists g1, s1. split; [apply rtc_once; exists i; split; [exact Logic.I | exact Es] |].
      split; [split; [exact I1 |] | destruct R as [R|(ids & st & ->)]; [left; exact R | right; eauto 6]].
      eapply settled_only; [exact S | exact O |]. intros. destruct R as [R|(? & ? & ->)]; [apply served_settled; exact R | discriminate].
    - destruct (S _ _ _ _ _ Hv).
    - exists g, s. split; [apply rtc_refl | split; [exact G | right; eauto 6]].
    - exists g, s. split; [apply rtc_refl | split; [exact G | left; right; eauto]]. }
  destruct H as (g1 & s1 & Hs1 & G1 & [R|(ids & st & r & a & Hv)]).
  - destruct (served_progress g1 s1 v G1 R) as (g2 & s2 & Hs2 & G2 & Hi). exists g2, s2. split; [etransitivity; eassumption | auto].
  - destruct (flushing_progress v st r a (length ids) g1 s1 ids ltac:(lia) G1 Hv) as (g2 & s2 & Hs2 & G2 & R).
    destruct (served_progress g2 s2 v G2 R) as (g3 & s3 & Hs3 & G3 & Hi). exists g3, s3.
    split; [etransitivity; [exact Hs1 | etransitivity; eassumption] | auto].
Qed.

(** With the guest answered, the posted work retires one by one. *)
Lemma retire_progress n : forall g s, good g s -> ph g (async_vcpu s) = Idle -> async_in_flight s <= Z.of_nat n ->
  exists g' s', rtc sys_step s s' /\ good g' s' /\ async_in_flight s' = 0.
Proof.
  induction n as [|n IH]; intros g s G Hv Hn; pose proof G as [I S]; pose proof (i_counts g s I) as C.
  all: pose proof (c_count g s C) as Hc; unfold in_flight in Hc; rewrite Hv in Hc; cbn [async_of] in Hc.
  - exists g, s. split; [apply rtc_refl | split; [exact G |]]. destruct (bz g (async_vcpu s)); lia.
  - destruct (bz g (async_vcpu s)) as [id|] eqn:Hb.
    2:{ rewrite (m_queue g s (i_maps g s I) _ Hb) in Hc. cbn in Hc. exists g, s. split; [apply rtc_refl | auto]. }
    destruct (async_response_inv g s (WriteR id) (async_vcpu s) I Hb) as (g1 & s1 & E & I1 & Hp & Hf & Ev).
    assert (S1 : settled g1) by (intros x; rewrite Hp; apply S).
    destruct (answer_step g s (WriteR id) g1 s1 true G) as [Hst G1]; try assumption.
    { intros [x Hx]. apply (m_flush g s (i_maps g s I)) in Hx. cbn in Hx.
      pose proof (proj2 (m_asyn g s (i_maps g s I) id (async_vcpu s) false) (conj Hb eq_refl)). congruence. }
    destruct (IH g1 s1 G1) as (g2 & s2 & Hs & G2 & Hz); [rewrite Hp, Ev; exact Hv | lia |].
    exists g2, s2. split; [eapply rtc_l; eassumption | auto].
Qed.

(** The aperture keeps its vCPU. *)
Lemma forward_vcpu v r a p s : async_vcpu (forwardDoorbell v r a p s) = async_vcpu s.
Proof. unfold forwardDoorbell. repeat case_match; reflexivity. Qed.

Lemma flush_lines_vcpu v n : forall line k s k' s', flush_lines line_size v n line k s = Ok (k', s') -> async_vcpu s' = async_vcpu s.
Proof.
  induction n as [|n IH]; intros line k s k' s' E; cbn [flush_lines] in E; [inv_ok; congruence |].
  destruct n; inv_ok; [subst; reflexivity |]. apply IH in E. exact E.
Qed.

Lemma issue_vcpu v r a p s s' : issueDoorbellFlushes P line_size v r a p s = Ok s' -> async_vcpu s' = async_vcpu s.
Proof.
  unfold issueDoorbellFlushes. intros E. inv_ok. case_match; [| discriminate]. inv_ok. destruct a2 as [k s1].
  injection E as <-. apply flush_lines_vcpu in E2. case_match; [rewrite forward_vcpu |]; exact E2.
Qed.

Lemma process_vcpu drained order : forall s s', process P line_size order drained s = Ok s' -> async_vcpu s' = async_vcpu s.
Proof.
  induction order as [|v order IH]; intros s s' E; cbn [process] in E; [congruence |].
  repeat case_match; try (apply IH; assumption). inv_ok. apply issue_vcpu in E0. apply IH in E. exact (eq_trans E E0).
Qed.

Lemma step_vcpu i s s' : 0 <= async_vcpu s -> step P has_mem line_size i s = Ok s' -> async_vcpu s' = async_vcpu s.
Proof.
  intros Hv E. change (async_vcpu s) with (async_vcpu (input i s)) in *. change (step P has_mem line_size i s) with
    (match i with Cmd v c => handleCommand P has_mem v c (input i s) | Response r => '(_, s) ← handleResponse r (input i s); Ok s
     | Process order drained => process P line_size order drained (input i s) | Cycles now => Ok (input i s <| cycles := now |>) end) in E.
  set (s0 := input i s) in *. clearbody s0. destruct i as [v c|r|order drained|now]; [| | eapply process_vcpu; exact E | inv_ok; subst; reflexivity].
  - unfold handleCommand, handleAsyncAperture, submit in E.
    rewrite (proj2 (Z.ltb_ge (async_vcpu s0) 0)) in E by exact Hv.
    repeat case_match; inv_ok; subst; rewrite ?forward_vcpu; reflexivity.
  - unfold handleResponse, handle_flush, retire in E. inv_ok.
    repeat case_match; inv_ok; subst; rewrite ?forward_vcpu; reflexivity.
Qed.

Lemma steps_vcpu s s' : 0 <= async_vcpu s -> rtc sys_step s s' -> async_vcpu s' = async_vcpu s.
Proof.
  intros Hv Hs. induction Hs as [|s s1 s2 (i & _ & E) _ IH]; [reflexivity |].
  apply step_vcpu in E; [| exact Hv]. rewrite IH; congruence.
Qed.

(** ** Theorems *)

(** C8. The port serves every guest: in every reachable state each input that the
    environment may give is handled without a fatal error, and each vCPU has
    had exactly one answer per command, but for the one it may be waiting
    for. *)
Theorem port_serves s : reachable s ->
  (forall i, input_ok i s -> exists s', step P has_mem line_size i s = Ok s') /\
  (forall v, answered v (log s) <= asked v (log s) <= answered v (log s) + 1).
Proof.
  intros Hr. destruct (reachable_good s Hr) as (g & G). split.
  - intros i K. destruct (step_good g s i G K) as (_ & s' & E & _). eauto.
  - intros v. pose proof (c_answers g s (i_counts g s (proj1 G)) v). destruct (ph g v); cbn in *; lia.
Qed.



End Thm.

(** ** The theorems at a concrete run

    One vCPU, 64-byte lines, a doorbell at [0x9000] whose packets are 64
    bytes, and a submit aperture at [0xA000] of depth one. *)

Definition demo_params : Params := mkParams 0x9000 8 64 true true 0xA000 0x40 1.
Definition demo_mem (v : Z) : bool := v =? 0.
Definition demo_write (a : Z) : QuetzCommand :=
  mkCommand CMD_MMIO_WRITE_REQ 4 0 a 0 ([0; 0x10; 0; 0] ++ replicate 60 0).
Definition demo_inputs : list Input :=
  [Cmd 0 (demo_write 0x9000); Process [0] (fun _ => true); Response (FlushR 1)].
Definition demo_at (n : nat) : Port :=
  match run demo_params demo_mem 64 (take n demo_inputs) port0 with Ok s => s | _ => port0 end.

Lemma demo_params_ok : params_ok demo_params 64.
Proof. split; cbn; word. Qed.

Lemma demo_command_ok : cmd_ok demo_params demo_mem 64 0 (demo_write 0x9000) port0.
Proof.
  split; try reflexivity; try lia; cbn; auto; try discriminate.
  split; try reflexivity; cbn; try word. unfold bytes_ok. repeat (apply Forall_cons; split; [word |]). apply Forall_nil. exact I.
Qed.

Lemma port_demo_reachable : reachable demo_params demo_mem 64 (demo_at 3).
Proof.
  apply (rtc_l _ _ (demo_at 1)); [exists (Cmd 0 (demo_write 0x9000)); split; [exact demo_command_ok | vm_compute; reflexivity] |].
  apply (rtc_l _ _ (demo_at 2)); [exists (Process [0] (fun _ => true)); split; [exact I | vm_compute; reflexivity] |].
  apply rtc_once. exists (Response (FlushR 1)). split; [intros _; eauto | vm_compute; reflexivity].
Qed.

Lemma port_serves_witness : answered 0 (log (demo_at 3)) <= asked 0 (log (demo_at 3)).
Proof. exact (proj1 (proj2 (port_serves demo_params demo_mem 64 demo_params_ok (demo_at 3) port_demo_reachable) 0)). Defined.



