(* ===== verification/BalarAnswers.v ===== *)
(** * The Balar port keeps the laws of an accelerator port

    The instance of [AcceleratorPort] that [BalarPort.v] gives, and its laws:
    every command it accepts is answered exactly once, and it takes no
    response but those to its own requests.  Unlike [BalarPortThm.v] nothing
    is asked of the guest here: the laws hold of every call that does not end
    the simulation. *)
From S2P Require Import Prelude.
From S2P Require Import MemSpan.
From S2P Require Import StdMem.
From S2P Require Import Command.
From S2P Require Import AcceleratorPort.
From S2P Require Import BalarPort.

(** ** The instance *)

Definition outs (l : list Event) : list HostCall :=
  omap (fun e => match e with Out h => Some h | In _ => None end) l.

#[local] Arguments outs : simpl never.

(** A call finds the host's counters, and an empty history. *)
Definition enter (h : HostView) (s : Port) : Port :=
  s <| next_id := hv_next h |> <| cycles := hv_cycles h |> <| log := [] |>.
Definition at_rest (s : Port) : Port := s <| next_id := 0 |> <| cycles := 0 |> <| log := [] |>.
Definition leave (s : Port) : Effect Port := mkEffect (next_id s) (outs (log s)) (at_rest s).

Definition balar_port (P : Params) (has_mem : Z -> bool) (line_size : Z) : AcceleratorPort Port :=
  {| AcceleratorPort.ownsAddr _ addr := ownsAddr P addr;
     AcceleratorPort.handleCommand v c h s := s ← handleCommand P has_mem v c (enter h s); Ok (leave s);
     AcceleratorPort.handleResponse r h s := '(b, s) ← handleResponse r (enter h s); Ok (b, leave s);
     AcceleratorPort.process h s := s ← process P line_size (hv_order h) (hv_drained h) (enter h s); Ok (leave s);
     AcceleratorPort.hasOutstanding s := hasOutstanding s;
     AcceleratorPort.vcpuHasOutstanding s v := vcpuHasOutstanding v s |}.

(** ** Where a request is *)

Inductive Place := PHand | PArm (v : Z) | PCtx (v : Z) | PPend | PQueue (v : Z) | PFlush.
Definition place_at (id : Z) (p : Place) (own : Z -> option Place) : Z -> option Place :=
  fun x => if decide (x = id) then Some p else own x.

Record placed (own : Z -> option Place) (s : Port) : Prop :=
  { pl_arm : forall v a, armed_doorbells s !! v = Some a -> own (wr_id (ad_req a)) = Some (PArm v);
    pl_ctx : forall v c, doorbell_flushes s !! v = Some c -> own (wr_id (fc_doorbell c)) = Some (PCtx v);
    pl_pend : forall id f, pending s !! id = Some f -> own id = Some PPend;
    pl_queue : forall v r, r ∈ get [] (submit_queue s) v -> own (wr_id r) = Some (PQueue v);
    pl_nodup : forall v, NoDup (wr_id <$> get [] (submit_queue s) v);
    pl_flush : forall id v, flush_to_vcpu s !! id = Some v -> own id = Some PFlush;
    pl_old : forall id p, own id = Some p -> id < next_id s }.

(** ** Answers to come *)

Definition unacked (is_async pre_acked : bool) : Z := if is_async && pre_acked then 0 else 1.
Definition armed_debt (w : Z) (s : Port) : Z :=
  match armed_doorbells s !! w with Some a => unacked (ad_is_async a) (ad_pre_acked a) | None => 0 end.
Definition flush_debt (w : Z) (s : Port) : Z :=
  match doorbell_flushes s !! w with Some c => unacked (fc_is_async c) (fc_pre_acked c) | None => 0 end.
Definition sync_of (w : Z) (f : ForwardPending) : bool := (fp_vcpu f =? w) && negb (fp_is_async f).
Definition port_debt (s : Port) (w : Z) : Z :=
  armed_debt w s + flush_debt w s + mcount (sync_of w) (pending s).

(** Debts and answers so far. *)
Definition account (w : Z) (s : Port) : Z := port_debt s w + posts w (outs (log s)).

(** [s'] comes from [s] with [k] more commands; requests made are new. *)
Record moves (k : Z -> Z) (own : Z -> option Place) (s : Port) (own' : Z -> option Place) (s' : Port) : Prop :=
  { mv_placed : placed own' s';
    mv_next : next_id s <= next_id s';
    mv_new : forall id, is_Some (own' id) -> is_Some (own id) \/ next_id s <= id;
    mv_account : forall w, account w s' = account w s + k w }.

Definition zero : Z -> Z := fun _ => 0.
Definition unit_at (v n : Z) : Z -> Z := fun w => if w =? v then n else 0.

Lemma moves_refl own s : placed own s -> moves zero own s own s.
Proof. intros Hp. constructor; auto; [lia |]. intros w. unfold zero. lia. Qed.

Lemma moves_trans k1 k2 own1 s1 own2 s2 own3 s3 : moves k1 own1 s1 own2 s2 -> moves k2 own2 s2 own3 s3 ->
  moves (fun w => k1 w + k2 w) own1 s1 own3 s3.
Proof.
  intros [P1 N1 W1 A1] [P2 N2 W2 A2]. constructor; [assumption | lia | |].
  - intros id Hi. destruct (W2 id Hi) as [H|H]; [destruct (W1 id H); auto | right; lia].
  - intros w. rewrite A2, A1. lia.
Qed.

Lemma moves_ext k k' own s own' s' : (forall w, k w = k' w) -> moves k own s own' s' -> moves k' own s own' s'.
Proof. intros Hk [? ? ? Ha]. constructor; auto. intros w. rewrite <- Hk. apply Ha. Qed.

Lemma outs_snoc l e : outs (l ++ [e]) = outs l ++ match e with Out h => [h] | In _ => [] end.
Proof. unfold outs. rewrite omap_app. destruct e; reflexivity. Qed.

Lemma place_same id p own : place_at id p own id = Some p.
Proof. unfold place_at. rewrite decide_True by reflexivity. reflexivity. Qed.
Lemma place_other id p own x : x <> id -> place_at id p own x = own x.
Proof. intros Hx. unfold place_at. rewrite decide_False by exact Hx. reflexivity. Qed.

Lemma place_keep id p own x q : own id = Some PHand -> own x = Some q -> q <> PHand -> place_at id p own x = Some q.
Proof. intros Hi Hx Hq. rewrite place_other; [exact Hx |]. intros ->. congruence. Qed.

(** A request in hand goes to its place: everything else stays where it is. *)
Ltac keep := intros; (eapply place_keep; [eassumption | solve [eauto] | discriminate]).

Lemma place_old id p own n : own id = Some PHand -> (forall x q, own x = Some q -> x < n) ->
  forall x q, place_at id p own x = Some q -> x < n.
Proof.
  intros Hi Ho x q. destruct (decide (x = id)) as [->|Hne]; [eauto |]. rewrite place_other by exact Hne. eauto.
Qed.
Lemma place_new id p own n : own id = Some PHand ->
  forall x, is_Some (place_at id p own x) -> is_Some (own x) \/ n <= x.
Proof.
  intros Hi x Hx. left. destruct (decide (x = id)) as [->|Hne]; [eauto |]. rewrite place_other in Hx by exact Hne. exact Hx.
Qed.

Lemma get_insert {X} (d : X) (m : gmap Z X) v x w : get d (<[v := x]> m) w = if decide (v = w) then x else get d m w.
Proof. unfold get. rewrite lookup_insert. destruct (decide (v = w)); reflexivity. Qed.

Lemma enqueue_placed own s v r : placed own s -> own (wr_id r) = Some PHand ->
  placed (place_at (wr_id r) (PQueue v) own) (s <| submit_queue ::= fun m => <[v := get [] m v ++ [r]]> m |>).
Proof.
  intros [] Hr. constructor; cbn; try keep.
  - intros w q. rewrite get_insert. destruct (decide (v = w)) as [<-|Hne]; [| keep].
    intros Hq. apply elem_of_app in Hq as [Hq|Hq]; [revert Hq; keep |].
    apply list_elem_of_singleton in Hq as ->. apply place_same.
  - intros w. rewrite get_insert. destruct (decide (v = w)) as [<-|Hne]; [| apply pl_nodup0].
    rewrite fmap_app. apply NoDup_app. split; [apply pl_nodup0 | split; [| apply NoDup_singleton]].
    intros x Hx Hx'. apply list_elem_of_singleton in Hx' as ->. apply list_elem_of_fmap in Hx as (q & Hq & Hin).
    specialize (pl_queue0 v q Hin). rewrite <- Hq in pl_queue0. cbn in *. congruence.
  - apply (place_old _ _ own); assumption.
Qed.

Lemma pend_placed own s r f : placed own s -> own (wr_id r) = Some PHand ->
  placed (place_at (wr_id r) PPend own) (s <| pending ::= <[wr_id r := f]> |>).
Proof.
  intros [] Hr. constructor; cbn; try keep; auto.
  - intros id g Hg. destruct (decide (id = wr_id r)) as [->|Hne]; [apply place_same |].
    rewrite lookup_insert_ne in Hg by congruence. revert Hg. keep.
  - apply (place_old _ _ own); assumption.
Qed.

Lemma hand_not_pending own s r : placed own s -> own (wr_id r) = Some PHand -> pending s !! wr_id r = None.
Proof. intros [] Hr. destruct (pending s !! wr_id r) eqn:E; [| reflexivity]. specialize (pl_pend0 _ _ E). congruence. Qed.

(** Changes that leave requests and debts alone. *)
Lemma same_placed own s s' : placed own s -> armed_doorbells s' = armed_doorbells s -> doorbell_flushes s' = doorbell_flushes s ->
  pending s' = pending s -> submit_queue s' = submit_queue s -> flush_to_vcpu s' = flush_to_vcpu s -> next_id s <= next_id s' ->
  placed own s'.
Proof.
  intros [] E1 E2 E3 E4 E5 Hn. constructor; rewrite ?E1, ?E2, ?E3, ?E4, ?E5; auto.
  intros id p Hp. specialize (pl_old0 id p Hp). lia.
Qed.

Lemma call_moves h own s : placed own s -> moves (fun w => if is_post w h then 1 else 0) own s own (call h s).
Proof.
  intros Hp. constructor; [apply (same_placed own s); auto; cbn; lia | cbn; lia | auto |].
  intros w. unfold account, port_debt, armed_debt, flush_debt. cbn. rewrite outs_snoc, posts_app, posts_cons.
  change (posts w []) with 0. lia.
Qed.
Lemma quiet_moves h own s : placed own s -> (forall w, is_post w h = false) -> moves zero own s own (call h s).
Proof. intros Hp Hh. eapply moves_ext; [| apply (call_moves h own s Hp)]. intros w. cbn beta. rewrite Hh. reflexivity. Qed.

(** Internal changes: counters, and the maps of no concern here. *)
Lemma tau_moves own s s' : placed own s -> armed_doorbells s' = armed_doorbells s -> doorbell_flushes s' = doorbell_flushes s ->
  pending s' = pending s -> submit_queue s' = submit_queue s -> flush_to_vcpu s' = flush_to_vcpu s -> next_id s <= next_id s' ->
  outs (log s') = outs (log s) -> moves zero own s own s'.
Proof.
  intros Hp E1 E2 E3 E4 E5 Hn El. constructor; auto; [apply (same_placed own s); auto |].
  intros w. unfold account, port_debt, armed_debt, flush_debt. rewrite E1, E2, E3, El. unfold zero. lia.
Qed.

(** A request is made: it is in hand. *)
Lemma fresh_moves own s : placed own s -> moves zero own s (place_at (next_id s) PHand own) (fresh s).
Proof.
  intros Hp. assert (Hn : own (next_id s) = None).
  { destruct (own (next_id s)) eqn:E; [| reflexivity]. pose proof (pl_old own s Hp _ _ E). lia. }
  assert (Hk : forall x q, own x = Some q -> place_at (next_id s) PHand own x = Some q).
  { intros x q Hx. rewrite place_other; [exact Hx | congruence]. }
  destruct Hp. constructor.
  - constructor; cbn; eauto.
    intros x q. destruct (decide (x = next_id s)) as [->|Hne]; [intros _; lia |]. rewrite place_other by exact Hne.
    intros Hx. specialize (pl_old0 _ _ Hx). lia.
  - cbn. lia.
  - intros x Hx. destruct (decide (x = next_id s)) as [->|Hne]; [right; lia |]. rewrite place_other in Hx by exact Hne. auto.
  - intros w. unfold zero. rewrite Z.add_0_r. reflexivity.
Qed.

(** ** The operations *)

Lemma enqueue_moves own s v r : placed own s -> own (wr_id r) = Some PHand ->
  moves zero own s (place_at (wr_id r) (PQueue v) own) (s <| submit_queue ::= fun m => <[v := get [] m v ++ [r]]> m |>).
Proof.
  intros Hp Hr. constructor; [apply enqueue_placed; assumption | cbn; lia | apply place_new; exact Hr |].
  intros w. unfold zero. rewrite Z.add_0_r. reflexivity.
Qed.

Lemma pend_moves own s r f : placed own s -> own (wr_id r) = Some PHand ->
  moves (unit_at (fp_vcpu f) (if fp_is_async f then 0 else 1)) own s (place_at (wr_id r) PPend own) (s <| pending ::= <[wr_id r := f]> |>).
Proof.
  intros Hp Hr. constructor; [apply pend_placed; assumption | cbn; lia | apply place_new; exact Hr |].
  intros w. unfold account, port_debt, armed_debt, flush_debt, unit_at. cbn.
  rewrite (mcount_insert _ _ _ _ (hand_not_pending own s r Hp Hr)). unfold sync_of. rewrite (Z.eqb_sym w).
  destruct (fp_vcpu f =? w), (fp_is_async f); cbn; lia.
Qed.


Lemma moves_done k own s own' s' k' : moves k own s own' s' -> (forall w, k w = k' w) -> exists own', moves k' own s own' s'.
Proof. intros Hm Hk. exists own'. eapply moves_ext; eassumption. Qed.


Lemma unit_zero v w : unit_at v 0 w = zero w.
Proof. unfold unit_at, zero. destruct (w =? v); reflexivity. Qed.

Lemma post_moves v x own s : placed own s -> moves (unit_at v 1) own s own (call (PostResponse v x) s).
Proof. apply (call_moves (PostResponse v x)). Qed.

Lemma forward_moves own s v r a pre : placed own s -> own (wr_id r) = Some PHand ->
  exists own', moves (unit_at v (unacked a pre)) own s own' (forwardDoorbell v r a pre s).
Proof.
  intros Hp Hr. unfold forwardDoorbell. destruct (a && get false (async_busy s) v) eqn:Eb.
  - apply andb_true_iff in Eb as [-> _]. pose proof (enqueue_moves own s v r Hp Hr) as M1. cbv zeta.
    destruct pre; [exact (moves_done _ _ _ _ _ _ M1 (fun w => eq_sym (unit_zero v w))) |].
    eapply moves_done; [exact (moves_trans _ _ _ _ _ _ _ _ M1 (post_moves v 0 _ _ (mv_placed _ _ _ _ _ M1))) | reflexivity].
  - cbv zeta. set (s1 := if a then s <| async_busy ::= <[v := true]> |> else s).
    assert (M1 : moves zero own s own s1) by (unfold s1; destruct a; [apply tau_moves; auto; cbn; lia | apply moves_refl; exact Hp]).
    assert (M2 := pend_moves own s1 r (mkForward v false a) (mv_placed _ _ _ _ _ M1) Hr).
    set (s2 := s1 <| pending ::= _ |>) in *. set (own2 := place_at _ _ _) in *.
    assert (M3 := quiet_moves (SendWrite v r) own2 s2 (mv_placed _ _ _ _ _ M2) (fun _ => eq_refl)).
    assert (M4 := quiet_moves (RecordSyncRequest v false) own2 _ (mv_placed _ _ _ _ _ M3) (fun _ => eq_refl)).
    set (s4 := call (RecordSyncRequest v false) _) in *.
    assert (M : moves (unit_at v (if a then 0 else 1)) own s own2 s4).
    { eapply moves_ext; [| exact (moves_trans _ _ _ _ _ _ _ _ M1 (moves_trans _ _ _ _ _ _ _ _ M2 (moves_trans _ _ _ _ _ _ _ _ M3 M4)))].
      intros w. unfold zero. cbn. lia. }
    destruct (a && negb pre) eqn:Ea.
    + apply andb_true_iff in Ea as [-> Ea]. destruct pre; [discriminate |].
      eapply moves_done; [apply (moves_trans _ _ _ _ _ _ _ _ M (post_moves v 0 _ _ (mv_placed _ _ _ _ _ M))) |].
      intros w. unfold unit_at, unacked. cbn. destruct (w =? v); reflexivity.
    + eapply moves_done; [exact M |]. intros w. unfold unacked, unit_at. destruct a, pre; try discriminate; reflexivity.
Qed.

Lemma flush_one_moves own s v size line : placed own s ->
  exists own', moves zero own s own' (call (SendFlush v (next_id s) line size) (call (RecordDoorbellFlush v)
     (fresh s <| flush_to_vcpu ::= <[next_id s := v]> |>))) /\ forall x, own x = Some PHand -> own' x = Some PHand.
Proof.
  intros Hp. assert (Hn : own (next_id s) = None).
  { destruct (own (next_id s)) eqn:E; [| reflexivity]. pose proof (pl_old own s Hp _ _ E). lia. }
  set (own' := place_at (next_id s) PFlush own). exists own'.
  assert (Hk : forall x q, own x = Some q -> own' x = Some q).
  { intros x q Hx. unfold own'. rewrite place_other; [exact Hx | congruence]. }
  assert (M1 : moves zero own s own' (fresh s <| flush_to_vcpu ::= <[next_id s := v]> |>)).
  { destruct Hp. constructor.
    - constructor; cbn; eauto.
      + intros x w Hx. destruct (decide (x = next_id s)) as [->|Hne]; [apply place_same |].
        rewrite lookup_insert_ne in Hx by congruence. eauto.
      + intros x q. unfold own'. destruct (decide (x = next_id s)) as [->|Hne]; [intros _; lia |]. rewrite place_other by exact Hne.
        intros Hx. specialize (pl_old0 _ _ Hx). lia.
    - cbn. lia.
    - intros x Hx. unfold own' in Hx. destruct (decide (x = next_id s)) as [->|Hne]; [right; lia |]. rewrite place_other in Hx by exact Hne. auto.
    - intros w. unfold zero. rewrite Z.add_0_r. reflexivity. }
  assert (M2 := quiet_moves (RecordDoorbellFlush v) own' _ (mv_placed _ _ _ _ _ M1) (fun _ => eq_refl)).
  assert (M3 := quiet_moves (SendFlush v (next_id s) line size) own' _ (mv_placed _ _ _ _ _ M2) (fun _ => eq_refl)).
  split; [| auto]. eapply moves_ext; [| exact (moves_trans _ _ _ _ _ _ _ _ M1 (moves_trans _ _ _ _ _ _ _ _ M2 M3))].
  reflexivity.
Qed.

Lemma flush_lines_moves ls v n : forall own s line rem rem' s', placed own s -> flush_lines ls v n line rem s = Ok (rem', s') ->
  exists own', moves zero own s own' s' /\ (forall x, own x = Some PHand -> own' x = Some PHand) /\
    doorbell_flushes s' = doorbell_flushes s.
Proof.
  induction n as [|n IH]; intros own s line rem rem' s' Hp; cbn [flush_lines].
  - intros [= _ <-]. exists own. split; [apply moves_refl; exact Hp | auto].
  - cbv zeta. destruct (flush_one_moves own s v ls line Hp) as (own1 & M1 & H1). set (s1 := call _ _) in *.
    destruct n as [|n].
    + intros [= _ <-]. exists own1. auto.
    + intros E. apply bind_ok in E as (u & _ & E).
      destruct (IH own1 s1 _ _ _ _ (mv_placed _ _ _ _ _ M1) E) as (own2 & M2 & H2 & E2). exists own2.
      split; [eapply moves_ext; [| exact (moves_trans _ _ _ _ _ _ _ _ M1 M2)]; reflexivity |].
      split; [auto | rewrite E2; reflexivity].
Qed.

(** Into and out of the doorbell's two waiting places. *)
Lemma arm_moves own s v r a pre : placed own s -> own (wr_id r) = Some PHand -> armed_doorbells s !! v = None ->
  moves (unit_at v (unacked a pre)) own s (place_at (wr_id r) (PArm v) own) (s <| armed_doorbells ::= <[v := mkArmed r a pre]> |>).
Proof.
  intros Hp Hr Hn. constructor; [| cbn; lia | apply place_new; exact Hr |].
  - destruct Hp. constructor; cbn; try keep; auto.
    + intros w q. rewrite lookup_insert. destruct (decide (v = w)) as [<-|Hne]; [intros [= <-]; apply place_same | keep].
    + apply (place_old _ _ own); assumption.
  - intros w. unfold account, port_debt, armed_debt, flush_debt, unit_at. cbn. rewrite lookup_insert, (Z.eqb_sym w).
    destruct (decide (v = w)) as [<-|Hne]; [rewrite Z.eqb_refl, Hn; cbn; lia |].
    rewrite (proj2 (Z.eqb_neq v w)) by exact Hne. lia.
Qed.

Lemma park_moves own s v r a pre k st : placed own s -> own (wr_id r) = Some PHand -> doorbell_flushes s !! v = None ->
  moves (unit_at v (unacked a pre)) own s (place_at (wr_id r) (PCtx v) own) (s <| doorbell_flushes ::= <[v := mkFlush k st r a pre]> |>).
Proof.
  intros Hp Hr Hn. constructor; [| cbn; lia | apply place_new; exact Hr |].
  - destruct Hp. constructor; cbn; try keep; auto.
    + intros w q. rewrite lookup_insert. destruct (decide (v = w)) as [<-|Hne]; [intros [= <-]; apply place_same | keep].
    + apply (place_old _ _ own); assumption.
  - intros w. unfold account, port_debt, armed_debt, flush_debt, unit_at. cbn. rewrite lookup_insert, (Z.eqb_sym w).
    destruct (decide (v = w)) as [<-|Hne]; [rewrite Z.eqb_refl, Hn; cbn; lia |].
    rewrite (proj2 (Z.eqb_neq v w)) by exact Hne. lia.
Qed.

(** A request taken back in hand from place [p]. *)
Lemma take_keep id p own x q : own id = Some p -> own x = Some q -> q <> p -> place_at id PHand own x = Some q.
Proof. intros Hi Hx Hq. rewrite place_other; [exact Hx |]. intros ->. congruence. Qed.
Ltac kept := intros; (eapply take_keep; [eassumption | solve [eauto] | congruence || discriminate]).
Lemma take_old id p own n : own id = Some p -> (forall x q, own x = Some q -> x < n) ->
  forall x q, place_at id PHand own x = Some q -> x < n.
Proof.
  intros Hi Ho x q. destruct (decide (x = id)) as [->|Hne]; [eauto |]. rewrite place_other by exact Hne. eauto.
Qed.
Lemma take_new id p own n : own id = Some p -> forall x, is_Some (place_at id PHand own x) -> is_Some (own x) \/ n <= x.
Proof.
  intros Hi x Hx. left. destruct (decide (x = id)) as [->|Hne]; [eauto |]. rewrite place_other in Hx by exact Hne. exact Hx.
Qed.

Lemma unarm_moves own s v a : placed own s -> armed_doorbells s !! v = Some a ->
  moves (unit_at v (- unacked (ad_is_async a) (ad_pre_acked a))) own s (place_at (wr_id (ad_req a)) PHand own)
    (s <| armed_doorbells ::= delete v |>).
Proof.
  intros Hp Ha. pose proof (pl_arm own s Hp v a Ha) as Ho. constructor; [| cbn; lia | apply (take_new _ _ own _ Ho) |].
  - destruct Hp. constructor; cbn; try kept; auto.
    + intros w q Hq. apply lookup_delete_Some in Hq as [Hne Hq]. revert Hq. kept.
    + apply (take_old _ _ own _ Ho); assumption.
  - intros w. unfold account, port_debt, armed_debt, flush_debt, unit_at. cbn. rewrite lookup_delete, (Z.eqb_sym w).
    destruct (decide (v = w)) as [<-|Hne]; [rewrite Z.eqb_refl, Ha; lia |].
    rewrite (proj2 (Z.eqb_neq v w)) by exact Hne. lia.
Qed.

Lemma unpark_moves own s v c : placed own s -> doorbell_flushes s !! v = Some c ->
  moves (unit_at v (- unacked (fc_is_async c) (fc_pre_acked c))) own s (place_at (wr_id (fc_doorbell c)) PHand own)
    (s <| doorbell_flushes ::= delete v |>).
Proof.
  intros Hp Ha. pose proof (pl_ctx own s Hp v c Ha) as Ho. constructor; [| cbn; lia | apply (take_new _ _ own _ Ho) |].
  - destruct Hp. constructor; cbn; try kept; auto.
    + intros w q Hq. apply lookup_delete_Some in Hq as [Hne Hq]. revert Hq. kept.
    + apply (take_old _ _ own _ Ho); assumption.
  - intros w. unfold account, port_debt, armed_debt, flush_debt, unit_at. cbn. rewrite lookup_delete, (Z.eqb_sym w).
    destruct (decide (v = w)) as [<-|Hne]; [rewrite Z.eqb_refl, Ha; lia |].
    rewrite (proj2 (Z.eqb_neq v w)) by exact Hne. lia.
Qed.

Lemma dequeue_moves own s v r rest : placed own s -> get [] (submit_queue s) v = r :: rest ->
  moves zero own s (place_at (wr_id r) PHand own) (s <| submit_queue ::= <[v := rest]> |>).
Proof.
  intros Hp Hq. assert (Ho : own (wr_id r) = Some (PQueue v)) by (apply (pl_queue own s Hp v r); rewrite Hq; left).
  constructor; [| cbn; lia | apply (take_new _ _ own _ Ho) |].
  - destruct Hp. constructor; cbn; try kept; auto.
    + intros w q. rewrite get_insert. destruct (decide (v = w)) as [<-|Hne]; [| kept].
      intros Hin. rewrite place_other; [apply pl_queue0; rewrite Hq; right; exact Hin |].
      specialize (pl_nodup0 v). rewrite Hq in pl_nodup0. apply NoDup_cons in pl_nodup0 as [Hni _].
      intros E. apply Hni. rewrite <- E. apply list_elem_of_fmap_2. exact Hin.
    + intros w. rewrite get_insert. destruct (decide (v = w)) as [<-|Hne]; [| apply pl_nodup0].
      specialize (pl_nodup0 v). rewrite Hq in pl_nodup0. apply NoDup_cons in pl_nodup0 as [_ Hn]. exact Hn.
    + apply (take_old _ _ own _ Ho); assumption.
  - intros w. unfold zero. rewrite Z.add_0_r. reflexivity.
Qed.

(** A forwarded request is answered; a flush is. *)
Lemma unpend_moves own s id f : placed own s -> pending s !! id = Some f ->
  moves (unit_at (fp_vcpu f) (if fp_is_async f then 0 else -1)) own s own (s <| pending ::= delete id |>).
Proof.
  intros Hp Hf. constructor; [| cbn; lia | auto |].
  - destruct Hp. constructor; cbn; eauto. intros x g Hg. apply lookup_delete_Some in Hg as [_ Hg]. eauto.
  - intros w. unfold account, port_debt, armed_debt, flush_debt, unit_at. cbn. rewrite (mcount_delete _ _ _ _ Hf).
    unfold sync_of. rewrite (Z.eqb_sym w). destruct (fp_vcpu f =? w), (fp_is_async f); cbn; lia.
Qed.

Lemma unflush_moves own s id : placed own s -> moves zero own s own (s <| flush_to_vcpu ::= delete id |>).
Proof.
  intros Hp. constructor; [| cbn; lia | auto |].
  - destruct Hp. constructor; cbn; eauto. intros x v Hx. apply lookup_delete_Some in Hx as [_ Hx]. eauto.
  - intros w. unfold zero. rewrite Z.add_0_r. reflexivity.
Qed.

Section Balar.
Variable P : Params.
Variables (has_mem : Z -> bool) (line_size : Z).

Lemma issue_moves own s v r a pre s' : placed own s -> own (wr_id r) = Some PHand ->
  issueDoorbellFlushes P line_size v r a pre s = Ok s' -> exists own', moves (unit_at v (unacked a pre)) own s own' s'.
Proof.
  intros Hp Hr. unfold issueDoorbellFlushes. intros E. apply bind_ok in E as (u & Hg & E). apply throw_if_ok in Hg.
  destruct (computeBalarFlushRange _ _ _) as [range|]; [| discriminate].
  apply bind_ok in E as (u' & _ & E). apply bind_ok in E as ([rem s1] & E1 & [= <-]).
  destruct (flush_lines_moves line_size v _ own s _ _ rem s1 Hp E1) as (own1 & M1 & H1 & E2).
  pose proof (mv_placed _ _ _ _ _ M1) as Hp1.
  assert (Hn : doorbell_flushes s1 !! v = None).
  { rewrite E2. apply eq_None_not_Some. apply bool_decide_eq_false in Hg. exact Hg. }
  destruct (rem =? 0).
  - destruct (forward_moves own1 s1 v r a pre Hp1 (H1 _ Hr)) as (own2 & M2).
    eapply moves_done; [exact (moves_trans _ _ _ _ _ _ _ _ M1 M2) | reflexivity].
  - eapply moves_done; [exact (moves_trans _ _ _ _ _ _ _ _ M1 (park_moves own1 s1 v r a pre rem (cycles s1) Hp1 (H1 _ Hr) Hn)) | reflexivity].
Qed.

Lemma process_moves drained order : forall own s s', placed own s -> process P line_size order drained s = Ok s' ->
  exists own', moves zero own s own' s'.
Proof.
  induction order as [|v order IH]; intros own s s' Hp; cbn [process].
  - intros [= <-]. exists own. apply moves_refl, Hp.
  - destruct (armed_doorbells s !! v) as [a|] eqn:Ha; [| apply IH, Hp].
    destruct (drained v); [| apply IH, Hp]. intros E. apply bind_ok in E as (s1 & E1 & E).
    pose proof (unarm_moves own s v a Hp Ha) as M1.
    destruct (issue_moves _ _ v _ _ _ s1 (mv_placed _ _ _ _ _ M1) (place_same _ _ _) E1) as (own2 & M2).
    destruct (IH own2 s1 s' (mv_placed _ _ _ _ _ M2) E) as (own3 & M3).
    eapply moves_done; [exact (moves_trans _ _ _ _ _ _ _ _ M1 (moves_trans _ _ _ _ _ _ _ _ M2 M3)) |].
    intros w. unfold unit_at, zero. cbn. destruct (w =? v); lia.
Qed.

(** ** Responses *)

Lemma recount_moves own s v c k : placed own s -> doorbell_flushes s !! v = Some c ->
  moves zero own s own (s <| doorbell_flushes ::=
    <[v := mkFlush k (fc_start c) (fc_doorbell c) (fc_is_async c) (fc_pre_acked c)]> |>).
Proof.
  intros Hp Hc. constructor; [| cbn; lia | auto |].
  - destruct Hp. constructor; cbn; eauto. intros w q. rewrite lookup_insert.
    destruct (decide (v = w)) as [<-|Hne]; [intros [= <-]; cbn; eauto | eauto].
  - intros w. unfold account, port_debt, armed_debt, flush_debt, zero. cbn. rewrite lookup_insert.
    destruct (decide (v = w)) as [<-|Hne]; [rewrite Hc; cbn; lia | lia].
Qed.

Lemma handle_flush_moves own s v r s' : placed own s -> handle_flush v r s = Ok s' -> exists own', moves zero own s own' s'.
Proof.
  intros Hp. unfold handle_flush. set (s0 := s <| flush_to_vcpu ::= _ |>).
  pose proof (unflush_moves own s (resp_id r) Hp) as M0. fold s0 in M0. pose proof (mv_placed _ _ _ _ _ M0) as Hp0.
  destruct (doorbell_flushes s0 !! v) as [c|] eqn:Hc; [| discriminate]. intros E. apply bind_ok in E as (u & _ & E).
  cbv zeta in E. set (k := if 0 <? fc_remaining c then _ else _) in E.
  destruct (k =? 0); injection E as <-.
  - set (x := RecordDoorbellFlushCycles v _).
    pose proof (quiet_moves x own s0 Hp0 (fun _ => eq_refl)) as M1.
    assert (M2 := unpark_moves own (call x s0) v c (mv_placed _ _ _ _ _ M1) Hc).
    destruct (forward_moves _ _ v (fc_doorbell c) (fc_is_async c) (fc_pre_acked c) (mv_placed _ _ _ _ _ M2) (place_same _ _ _)) as (own3 & M3).
    eapply moves_done; [exact (moves_trans _ _ _ _ _ _ _ _ M0 (moves_trans _ _ _ _ _ _ _ _ M1 (moves_trans _ _ _ _ _ _ _ _ M2 M3))) |].
    intros w. unfold unit_at, zero. destruct (w =? v); lia.
  - eapply moves_done; [exact (moves_trans _ _ _ _ _ _ _ _ M0 (recount_moves own s0 v c k Hp0 Hc)) | reflexivity].
Qed.

Lemma retire_moves own s v x : placed own s -> exists own', moves zero own s own' (retire v x s).
Proof.
  intros Hp. unfold retire. cbv zeta. set (s1 := s <| completed_id ::= _ |> <| last_result ::= _ |> <| async_in_flight ::= _ |> <| async_busy ::= _ |>).
  assert (M1 : moves zero own s own s1) by (apply tau_moves; auto; cbn; lia).
  pose proof (quiet_moves (RecordAsyncCompletion v) own s1 (mv_placed _ _ _ _ _ M1) (fun _ => eq_refl)) as M2.
  pose proof (mv_placed _ _ _ _ _ M2) as Hp2. pose proof (moves_trans _ _ _ _ _ _ _ _ M1 M2) as M. clear M1 M2.
  set (s2 := call _ s1) in *. destruct (get [] (submit_queue s2) v) as [|q rest] eqn:Hq.
  - eapply moves_done; [exact M | reflexivity].
  - pose proof (dequeue_moves own s2 v q rest Hp2 Hq) as M3.
    destruct (forward_moves _ _ v q true true (mv_placed _ _ _ _ _ M3) (place_same _ _ _)) as (own4 & M4).
    eapply moves_done; [exact (moves_trans _ _ _ _ _ _ _ _ M (moves_trans _ _ _ _ _ _ _ _ M3 M4)) |].
    intros w. unfold unit_at, zero, unacked. cbn. destruct (w =? v); reflexivity.
Qed.

Lemma response_moves own s r b s' : placed own s -> handleResponse r s = Ok (b, s') -> exists own', moves zero own s own' s'.
Proof.
  intros Hp. unfold handleResponse. destruct (flush_to_vcpu s !! resp_id r) as [v|].
  - intros E. apply bind_ok in E as (s1 & E1 & [= _ <-]). apply (handle_flush_moves own s v r s1 Hp E1).
  - destruct (pending s !! resp_id r) as [f|] eqn:Hf; [| intros [= _ <-]; exists own; apply moves_refl, Hp].
    cbv zeta. pose proof (unpend_moves own s (resp_id r) f Hp Hf) as M1. set (s1 := s <| pending ::= _ |>) in *.
    pose proof (mv_placed _ _ _ _ _ M1) as Hp1. set (x := if fp_is_read f then _ else 0).
    intros [= _ <-]. destruct (fp_is_async f).
    + destruct (retire_moves own s1 (fp_vcpu f) x Hp1) as (own2 & M2).
      eapply moves_done; [exact (moves_trans _ _ _ _ _ _ _ _ M1 M2) |]. intros w. unfold unit_at, zero. destruct (w =? fp_vcpu f); reflexivity.
    + eapply moves_done; [exact (moves_trans _ _ _ _ _ _ _ _ M1 (post_moves (fp_vcpu f) x own s1 Hp1)) |].
      intros w. unfold unit_at, zero. destruct (w =? fp_vcpu f); reflexivity.
Qed.

(** ** Commands *)

Lemma submit_moves own s v c s' : placed own s -> submit P has_mem v c s = Ok s' -> exists own', moves (unit_at v 1) own s own' s'.
Proof.
  intros Hp. unfold submit. intros E. apply bind_ok in E as (u & _ & E). apply bind_ok in E as (u' & _ & E). cbv zeta in E.
  set (s1 := s <| submit_id ::= _ |> <| async_in_flight ::= _ |>) in E.
  assert (M1 : moves zero own s own s1) by (apply tau_moves; auto; cbn; lia).
  pose proof (quiet_moves (RecordAsyncSubmit v) own s1 (mv_placed _ _ _ _ _ M1) (fun _ => eq_refl)) as M2.
  set (s2 := call _ s1) in *. pose proof (fresh_moves own s2 (mv_placed _ _ _ _ _ M2)) as M3.
  apply bind_ok in E as (u'' & Hg & E). apply throw_if_ok in Hg. apply orb_false_iff in Hg as [Hg _].
  apply bool_decide_eq_false in Hg. apply eq_None_not_Some in Hg. injection E as <-.
  match goal with |- context [mkArmed ?x true false] => set (d := x) end.
  pose proof (arm_moves _ (fresh s2) v d true false (mv_placed _ _ _ _ _ M3) (place_same _ _ _) Hg) as M4.
  eapply moves_done; [exact (moves_trans _ _ _ _ _ _ _ _ M1 (moves_trans _ _ _ _ _ _ _ _ M2 (moves_trans _ _ _ _ _ _ _ _ M3 M4))) | reflexivity].
Qed.

Lemma answer_moves own s v x b : placed own s ->
  moves (unit_at v 1) own s own (call (RecordSyncRequest v b) (call (PostResponse v x) s)).
Proof.
  intros Hp. pose proof (post_moves v x own s Hp) as M1.
  eapply moves_ext; [| exact (moves_trans _ _ _ _ _ _ _ _ M1 (quiet_moves (RecordSyncRequest v b) own _ (mv_placed _ _ _ _ _ M1) (fun _ => eq_refl)))].
  intros w. unfold unit_at, zero. destruct (w =? v); reflexivity.
Qed.

Lemma aperture_moves own s v c s' : placed own s -> guest_access c -> handleAsyncAperture P has_mem v c s = Ok s' ->
  exists own', moves (unit_at v 1) own s own' s'.
Proof.
  intros Hp Hc. unfold handleAsyncAperture. intros E. apply bind_ok in E as (u & _ & E). cbv zeta in E.
  set (s1 := if async_vcpu s <? 0 then _ else s) in E.
  assert (M1 : moves zero own s own s1) by (unfold s1; destruct (_ <? 0); [apply tau_moves; auto; cbn; lia | apply moves_refl, Hp]).
  pose proof (mv_placed _ _ _ _ _ M1) as Hp1.
  destruct Hc as [Ek|Ek]; rewrite Ek in E.
  - injection E as <-. eapply moves_done; [exact (moves_trans _ _ _ _ _ _ _ _ M1 (answer_moves own s1 v _ true Hp1)) | reflexivity].
  - destruct (negb _).
    + injection E as <-. eapply moves_done; [exact (moves_trans _ _ _ _ _ _ _ _ M1 (post_moves v 0 own s1 Hp1)) | reflexivity].
    + destruct (submit_moves own s1 v c s' Hp1 E) as (own2 & M2).
      eapply moves_done; [exact (moves_trans _ _ _ _ _ _ _ _ M1 M2) | reflexivity].
Qed.

Lemma command_moves own s v c s' : placed own s -> guest_access c -> handleCommand P has_mem v c s = Ok s' ->
  exists own', moves (unit_at v 1) own s own' s'.
Proof.
  intros Hp Hc. unfold handleCommand. destruct (in_async P (addr c)); [apply aperture_moves; assumption |].
  pose proof (fresh_moves own s Hp) as M1. pose proof (mv_placed _ _ _ _ _ M1) as Hp1.
  destruct Hc as [-> | ->]; cbv zeta.
  - set (r := mkRead (next_id s) (addr c) (size c)). intros [= <-].
    assert (M2 := pend_moves _ (fresh s) (mkWrite (next_id s) 0 0 [] false) (mkForward v true false) Hp1 (place_same _ _ _)).
    cbn [wr_id] in M2. set (s2 := fresh s <| pending ::= _ |>) in *.
    assert (M3 := quiet_moves (SendRead v r) _ s2 (mv_placed _ _ _ _ _ M2) (fun _ => eq_refl)).
    assert (M4 := quiet_moves (RecordSyncRequest v true) _ _ (mv_placed _ _ _ _ _ M3) (fun _ => eq_refl)).
    eapply moves_done; [exact (moves_trans _ _ _ _ _ _ _ _ M1 (moves_trans _ _ _ _ _ _ _ _ M2 (moves_trans _ _ _ _ _ _ _ _ M3 M4))) |].
    intros w. unfold unit_at, zero. cbn. destruct (w =? v); reflexivity.
  - match goal with |- context [mkWrite (next_id s) ?x ?y ?z false] => set (r := mkWrite (next_id s) x y z false) end. destruct (_ || _).
    + intros [= <-]. destruct (forward_moves _ (fresh s) v r false false Hp1 (place_same _ _ _)) as (own2 & M2).
      eapply moves_done; [exact (moves_trans _ _ _ _ _ _ _ _ M1 M2) | reflexivity].
    + intros E. apply bind_ok in E as (u & Hg & [= <-]). apply throw_if_ok, bool_decide_eq_false in Hg. apply eq_None_not_Some in Hg.
      pose proof (arm_moves _ (fresh s) v r false false Hp1 (place_same _ _ _) Hg) as M2.
      eapply moves_done; [exact (moves_trans _ _ _ _ _ _ _ _ M1 M2) | reflexivity].
Qed.
End Balar.

(** ** The laws *)

Definition balar_inv (n : Z) (a : Port) : Prop :=
  log a = [] /\ next_id a = 0 /\ cycles a = 0 /\ exists own, placed own (a <| next_id := n |>).
(** The port waits for [id]: every account of its requests has it. *)
Definition balar_holds (a : Port) (id : Z) : Prop :=
  forall own n, placed own (a <| next_id := n |>) -> is_Some (own id).

(** Requests that are known under two accounts are older than both say. *)
Lemma placed_restrict own own0 n n0 a : placed own (a <| next_id := n |>) -> placed own0 (a <| next_id := n0 |>) ->
  placed (fun x => if x <? n0 then own x else None) (a <| next_id := n0 |>).
Proof.
  intros [] []. assert (Hk : forall x p q, own x = Some p -> own0 x = Some q -> (if x <? n0 then own x else None) = Some p).
  { intros x p q Hx H0. rewrite (proj2 (Z.ltb_lt x n0)); [exact Hx |]. apply (pl_old1 x q H0). }
  constructor; cbn in *; eauto. intros x p. destruct (Z.ltb_spec x n0); [auto | discriminate].
Qed.

Lemma law_of k h a s' : balar_inv (hv_next h) a ->
  (forall own, placed own (enter h a) -> exists own', moves k own (enter h a) own' s') ->
  let e := leave s' in
  hv_next h <= ef_next e /\ balar_inv (ef_next e) (ef_port e) /\
  (forall id, balar_holds (ef_port e) id -> balar_holds a id \/ hv_next h <= id) /\
  (forall w, port_debt (ef_port e) w + posts w (ef_calls e) = port_debt a w + k w).
Proof.
  intros (Hl & Hn & Hc & own0 & Hp0) Hm.
  assert (He : forall own, placed own (a <| next_id := hv_next h |>) -> placed own (enter h a)).
  { intros own Hp. apply (same_placed own (a <| next_id := hv_next h |>)); auto. cbn. lia. }
  assert (Hr : forall own, placed own s' -> placed own (at_rest s' <| next_id := next_id s' |>)).
  { intros own Hp. apply (same_placed own s'); auto. cbn. lia. }
  destruct (Hm own0 (He own0 Hp0)) as (own' & M). cbn. split; [apply (mv_next _ _ _ _ _ M) |]. split; [| split].
  - split; [reflexivity | split; [reflexivity | split; [reflexivity |]]]. exists own'. apply Hr, M.
  - intros id Hid. destruct (Z.le_gt_cases (hv_next h) id) as [Hge|Hlt]; [right; exact Hge | left].
    intros own n Hp. destruct (Hm _ (He _ (placed_restrict own own0 n (hv_next h) a Hp Hp0))) as (own1 & M1).
    destruct (mv_new _ _ _ _ _ M1 id (Hid own1 (next_id s') (Hr _ (mv_placed _ _ _ _ _ M1)))) as [Hs|Hge].
    + rewrite (proj2 (Z.ltb_lt _ _) Hlt) in Hs. exact Hs.
    + cbn in Hge. lia.
  - intros w. pose proof (mv_account _ _ _ _ _ M w) as Ha. unfold account in Ha.
    change (port_debt (enter h a) w) with (port_debt a w) in Ha. change (outs (log (enter h a))) with (@nil HostCall) in Ha.
    change (posts w []) with 0 in Ha. change (port_debt (at_rest s') w) with (port_debt s' w). lia.
Qed.

Lemma port_debt_nonneg a w : 0 <= port_debt a w.
Proof.
  unfold port_debt, armed_debt, flush_debt, unacked. pose proof (mcount_nonneg (sync_of w) (pending a)).
  repeat case_match; lia.
Qed.

Lemma at_rest_id a : log a = [] -> next_id a = 0 -> cycles a = 0 -> forall h, at_rest (enter h a) = a.
Proof. intros H1 H2 H3 h. destruct a. cbn in *. subst. reflexivity. Qed.

Section Laws.
Variable P : Params.
Variables (has_mem : Z -> bool) (line_size : Z).
#[local] Existing Instance balar_port.

#[export] Instance balar_laws : @AcceleratorLaws Port (balar_port P has_mem line_size).
Proof.
  refine (@Build_AcceleratorLaws Port (balar_port P has_mem line_size) balar_inv port_debt balar_holds port_debt_nonneg _ _ _ _ _ _).
  - intros n a id (_ & _ & _ & own & Hp) Hh. destruct (Hh own n Hp) as [p Hid]. exact (pl_old own _ Hp id p Hid).
  - intros n n' a (H1 & H2 & H3 & own & Hp) Hn. split; [exact H1 | split; [exact H2 | split; [exact H3 |]]].
    exists own. apply (same_placed own (a <| next_id := n |>)); auto.
  - intros v c h a e Hi Hc E. cbn in E. apply bind_ok in E as (s' & E & [= <-]).
    apply (law_of (unit_at v 1) h a s' Hi). intros own Hp. apply (command_moves P has_mem own (enter h a) v c s' Hp Hc E).
  - intros r h a b e Hi E. cbn in E. apply bind_ok in E as ([b' s'] & E & [= _ <-]).
    pose proof (law_of zero h a s' Hi (fun own Hp => response_moves own (enter h a) r b' s' Hp E)) as (L1 & L2 & L3 & L4).
    split; [exact L1 | split; [exact L2 | split; [exact L3 |]]]. intros w. rewrite (L4 w). unfold zero. lia.
  - intros r h a (H1 & H2 & H3 & _) Hno. cbn. unfold handleResponse.
    assert (flush_to_vcpu (enter h a) !! resp_id r = None) as ->.
    { destruct (flush_to_vcpu (enter h a) !! resp_id r) as [v|] eqn:E; [| reflexivity]. destruct Hno.
      intros own n Hp. exists PFlush. exact (pl_flush own _ Hp _ v E). }
    assert (pending (enter h a) !! resp_id r = None) as ->.
    { destruct (pending (enter h a) !! resp_id r) as [f|] eqn:E; [| reflexivity]. destruct Hno.
      intros own n Hp. exists PPend. exact (pl_pend own _ Hp _ f E). }
    cbn [mbind result_bind]. unfold leave. rewrite (at_rest_id a H1 H2 H3). reflexivity.
  - intros h a e Hi E. cbn in E. apply bind_ok in E as (s' & E & [= <-]).
    pose proof (law_of zero h a s' Hi (fun own Hp => process_moves P line_size (hv_drained h) (hv_order h) own (enter h a) s' Hp E)) as (L1 & L2 & L3 & L4).
    split; [exact L1 | split; [exact L2 | split; [exact L3 |]]]. intros w. rewrite (L4 w). unfold zero. lia.
Defined.
End Laws.

(** The port as it is constructed owes nothing. *)
Lemma balar_start n : balar_inv n port0 /\ forall w, port_debt port0 w = 0.
Proof.
  split.
  - split; [reflexivity | split; [reflexivity | split; [reflexivity |]]]. exists (fun _ => None).
    constructor; cbn; try discriminate.
    + intros v r Hr. apply elem_of_nil in Hr. destruct Hr.
    + intros v. constructor.
  - intros w. unfold port_debt, armed_debt, flush_debt. cbn. rewrite mcount_empty. reflexivity.
Qed.
