(* ===== verification/CpuSync.v ===== *)
(** * Synchronous MMIO in the CPU component

    [src/src/quetzcpu_mmio_sync.cc], class [QuetzCPU]: the mailbox poll, the
    routing of a command to a vCPU's window cache, to an accelerator port or
    to the plain MMIO link, and the routing of a memory response back.

    The state is the part of [QuetzCPU] these functions touch, with the shared
    segment's mailbox slots, reset epochs and native RAM.  Answers, requests
    and statistics are appended to [out] in order; requests take the ids of
    one counter, as [StandardMem] gives them.  What the other parts of the
    component would answer (cycle count, drained cores, the order a port walks
    its hash map in) is the argument [Q]. *)
From S2P Require Import Prelude.
From S2P Require Import Backing.
From S2P Require Import WindowCache.
From S2P Require Import WindowCacheBank.
From S2P Require Import NativeRam.
From S2P Require Import StdMem.
From S2P Require Import AcceleratorPort.
From S2P Require Import Command.

(** ** Configuration and state *)

Record Config := mkConfig
  { vcpu_count : Z; sst_window_cache : bool; window_big_endian : bool;
    sst_window_base : Z; sst_window_size : Z;
    has_mmio : Z -> bool (* [mmio_ifaces_[v] != nullptr] *) }.

(** [QuetzMmioSyncRequest], as the consumer sees it. *)
Record Request := mkRequest
  { rq_pending : bool; rq_cmd : Z; rq_size : Z; rq_addr : Z; rq_val : Z }.
#[export] Instance Request_settable : Settable Request := fun r =>
  mkRequest (rq_pending r) (rq_cmd r) (rq_size r) (rq_addr r) (rq_val r).
#[export] Instance Request_inhabited : Inhabited Request := populate (mkRequest false 0 0 0 0).

Record GenericPending := mkGeneric { gp_vcpu : Z; gp_is_read : bool; gp_win_be : bool }.

Record Cpu (A : Type) := mkCpu
  { window_caches : WindowCacheBank;
    cache_reset_epochs : list Z;
    generic_pending : gmap Z GenericPending;
    accel_ports : list A;
    shared : Shared;
    mmio_req : list Request;
    cpu_reset_epoch : list Z;
    next_id : Z;
    out : list HostCall }.
Arguments mkCpu {A}.
Arguments window_caches {A} _.
Arguments cache_reset_epochs {A} _.
Arguments generic_pending {A} _.
Arguments accel_ports {A} _.
Arguments shared {A} _.
Arguments mmio_req {A} _.
Arguments cpu_reset_epoch {A} _.
Arguments next_id {A} _.
Arguments out {A} _.
#[export] Instance Cpu_settable {A} : Settable (Cpu A) := fun s =>
  mkCpu (window_caches s) (cache_reset_epochs s) (generic_pending s) (accel_ports s) (shared s)
    (mmio_req s) (cpu_reset_epoch s) (next_id s) (out s).

Record HostState := mkHostState { q_cycles : Z; q_drained : Z -> bool; q_order : list Z }.

(** [QuetzShmemCmd] of a number.  No function here tells an unknown number
    from [QUETZ_CMD_NOP]. *)
Definition cmd_of (n : Z) : QuetzShmemCmd :=
  if n =? 1 then CMD_READ else if n =? 2 then CMD_WRITE else if n =? 3 then CMD_EXIT
  else if n =? 4 then CMD_MMIO_READ_REQ else if n =? 5 then CMD_MMIO_WRITE_REQ
  else if n =? 6 then CMD_COMPUTE_RUN else if n =? 7 then CMD_CACHE_OP else CMD_NOP.

(** [catch (const std::exception& e) { output_->fatal(...); }] *)
Definition or_fatal {A} (r : result A) : result A :=
  match r with Ok a => Ok a | Throw OutOfFuel msg => Throw OutOfFuel msg | Throw _ msg => Throw Fatal msg end.

(** The mailbox carries a number; the payload is its bytes, most significant
    first where the aperture is big-endian. *)
Definition payload (be : bool) (size value : Z) : list Z :=
  (fun i => Z.land (Z.shiftr value (8 * (if be then size - 1 - i else i))) 255) <$>
  seqZ 0 (Z.min size QUETZ_CMD_DATA_BYTES).
Definition padded (bs : list Z) : list Z := bs ++ replicate (64 - length bs) 0.

Section Cpu.
Context {A : Type} `{AcceleratorPort A}.
Variable cfg : Config.
Implicit Types (s : Cpu A).

Definition call (h : HostCall) s : Cpu A := s <| out ::= fun l => l ++ [h] |>.
Definition with_cache (v : Z) (c : WindowDataCache) s : Cpu A :=
  s <| window_caches ::= fun b =>
        match at_ v b with Ok st => set_state v (mkState c (s_outstanding st)) b | Throw _ _ => b end |>.

Definition host_view (Q : HostState) s : HostView :=
  mkHost (next_id s) (q_cycles Q) (q_drained Q) (q_order Q).

(** The outcome of a call of port [i]. *)
Definition port_done (i : nat) (e : Effect A) s : Cpu A :=
  s <| next_id := ef_next e |> <| out ::= fun l => l ++ ef_calls e |> <| accel_ports ::= <[i := ef_port e]> |>.

Fixpoint find_port (addr : Z) (i : nat) (ports : list A) : option (nat * A) :=
  match ports with
  | [] => None
  | p :: ports => if ownsAddr p addr then Some (i, p) else find_port addr (S i) ports
  end.
Definition portForAddr (addr : Z) s : option (nat * A) := find_port addr 0 (accel_ports s).

Definition windowBigEndian (addr : Z) s : result bool :=
  if sst_window_cache cfg then
    if window_big_endian cfg then
      c ← cache 0 (window_caches s);
      Ok (contains c addr)
    else Ok false
  else Ok (window_big_endian cfg && negb (sst_window_size cfg =? 0) &&
           (sst_window_base cfg <=? addr) && (addr <? u64 (sst_window_base cfg + sst_window_size cfg))).

(** ** Serving a cache transaction *)

(** [serviceWindowCache]: actions on native RAM are done at once; the first
    one that needs the link is sent; the end of the transaction is the answer. *)
Fixpoint service (fuel : nat) (v : Z) s : result (Cpu A) :=
  match fuel with
  | O => Throw OutOfFuel "serviceWindowCache"
  | S fuel =>
      c ← cache v (window_caches s);
      '(a, c) ← next c;
      let s := with_cache v c s in
      match act_kind a with
      | Done => Ok (call (PostResponse v (be_value (act_bytes a))) s)
      | kind =>
          let read := bool_decide (kind = Read) in
          native ← native_at (shared s) (act_address a) (act_size a);
          match native with
          | Some p =>
              if read then
                c ← WindowCache.complete (mread (bytes (shared s)) p (act_size a)) c;
                service fuel v (with_cache v c s)
              else
                throw_if (negb (Z.of_nat (length (act_bytes a)) =? act_size a)) RuntimeError
                  "invalid native cache writeback size" ≫= fun _ =>
                let s := s <| shared ::= store p (act_bytes a) |> in
                c ← WindowCache.complete [] c;
                service fuel v (with_cache v c s)
          | None =>
              let id := next_id s in
              let request := if read then SendRead v (mkRead id (act_address a) (act_size a))
                             else SendWrite v (mkWrite id (act_address a) (act_size a) (act_bytes a) false) in
              b ← issued v id read (window_caches s);
              Ok (call request (s <| next_id := id + 1 |> <| window_caches := b |>))
          end
      end
  end.

(** A transaction takes at most 26 actions and its end. *)
Definition service_fuel : nat := 32.
Definition serviceWindowCache (v : Z) s : result (Cpu A) := service service_fuel v s.

(** ** Commands *)

(** The cache's part of [handleMmioSyncCommand]. *)
Definition start_cached (v : Z) (c : QuetzCommand) (w : WindowDataCache) s : result (Cpu A) :=
  match cmd c with
  | CMD_CACHE_OP =>
      let value := u32 (pack 0 (take 4 (data c))) in
      throw_if (max_u32 <? addr c) InvalidArgument "invalid cache control operand" ≫= fun _ =>
      w ← (if size c =? 0 then movec (addr c) value w
           else if size c =? 1 then push value (addr c) w
           else Throw InvalidArgument "unknown cache maintenance command");
      Ok (with_cache v w s)
  | CMD_MMIO_READ_REQ | CMD_MMIO_WRITE_REQ =>
      let write := bool_decide (cmd c = CMD_MMIO_WRITE_REQ) in
      throw_if (QUETZ_CMD_DATA_BYTES <? size c) InvalidArgument "oversized cache access" ≫= fun _ =>
      w ← access_ (addr c) (size c) write (if write then take (Z.to_nat (size c)) (data c) else []) w;
      Ok (call (RecordSyncRequest v (negb write)) (with_cache v w s))
  | _ => Throw InvalidArgument "unexpected cached-window command"
  end.

(** The boolean is the function's result. *)
Definition handleMmioSyncCommand (Q : HostState) (v : Z) (c : QuetzCommand) s : result (bool * Cpu A) :=
  throw_if (vcpu_count cfg <=? v) Fatal "MMIO command has invalid vCPU" ≫= fun _ =>
  cached ← (if bool_decide (cmd c = CMD_CACHE_OP) then Ok true
            else if sst_window_cache cfg then w ← cache v (window_caches s); Ok (contains w (addr c))
            else Ok false);
  if (cached : bool) then
    throw_if (negb (sst_window_cache cfg) || negb (has_mmio cfg v)) Fatal
      "Cache mailbox requires an enabled window cache and MMIO interface" ≫= fun _ =>
    s ← or_fatal (w ← cache v (window_caches s); start_cached v c w s ≫= serviceWindowCache v);
    Ok (true, s)
  else if negb (has_mmio cfg v) then Ok (true, call (PostResponse v 0) s)
  else
    match portForAddr (addr c) s with
    | Some (i, p) =>
        e ← handleCommand v c (host_view Q s) p;
        Ok (true, port_done i e s)
    | None =>
        let id := next_id s in
        match cmd c with
        | CMD_MMIO_READ_REQ =>
            be ← windowBigEndian (addr c) s;
            let s := s <| next_id := id + 1 |> <| generic_pending ::= <[id := mkGeneric v true be]> |> in
            Ok (true, call (RecordSyncRequest v true) (call (SendRead v (mkRead id (addr c) (size c))) s))
        | CMD_MMIO_WRITE_REQ =>
            let bytes := take (Z.to_nat (size c)) (data c) in
            let s := s <| next_id := id + 1 |> <| generic_pending ::= <[id := mkGeneric v false false]> |> in
            Ok (true, call (RecordSyncRequest v false) (call (SendWrite v (mkWrite id (addr c) (size c) bytes false)) s))
        | _ => Ok (false, s)
        end
    end.

(** ** The mailbox poll *)

(** A reset seen since the last poll empties the control registers. *)
Definition poll_reset (v : Z) s : result (Cpu A) :=
  let epoch := cpu_reset_epoch s !!! Z.to_nat v in
  if sst_window_cache cfg && negb (epoch =? cache_reset_epochs s !!! Z.to_nat v) then
    b ← or_fatal (resetCore v (window_caches s));
    Ok (s <| window_caches := b |> <| cache_reset_epochs ::= <[Z.to_nat v := epoch]> |>)
  else Ok s.

(** The command of a request. *)
Definition decode (r : Request) s : result QuetzCommand :=
  let cmd := cmd_of (rq_cmd r) in
  data ← match cmd with
         | CMD_CACHE_OP => Ok (payload false 4 (rq_val r))
         | CMD_MMIO_WRITE_REQ =>
             be ← windowBigEndian (rq_addr r) s;
             Ok (payload (be && (rq_size r <=? 8)) (rq_size r) (rq_val r))
         | _ => Ok []
         end;
  Ok (mkCommand cmd (rq_size r) 0 (rq_addr r) 0 (padded data)).

Definition poll_slot (Q : HostState) (v : Z) s : result (Cpu A) :=
  s ← poll_reset v s;
  let r := mmio_req s !!! Z.to_nat v in
  if rq_pending r then
    let s := s <| mmio_req ::= <[Z.to_nat v := r <| rq_pending := false |>]> |> in
    c ← decode r s;
    '(_, s) ← handleMmioSyncCommand Q v c s;
    Ok s
  else Ok s.

Fixpoint poll_from (Q : HostState) (n : nat) (v : Z) s : result (Cpu A) :=
  match n with
  | O => Ok s
  | S n => poll_slot Q v s ≫= poll_from Q n (v + 1)
  end.
Definition pollMmioSyncMailbox (Q : HostState) s : result (Cpu A) :=
  poll_from Q (Z.to_nat (vcpu_count cfg)) 0 s.

(** ** Responses *)

Definition answered_cache (hint : Z) (r : Resp) (fail : bool) (p : Pending) s : result (Cpu A) :=
  let v := p_vcpu p in
  let is_read := match r with ReadR _ _ => true | _ => false end in
  let is_write := match r with WriteR _ => true | _ => false end in
  throw_if (negb (hint =? v) || fail || (if p_read p then negb is_read else negb is_write)) Fatal
    "Invalid or failed window-cache memory response" ≫= fun _ =>
  or_fatal (b ← WindowCacheBank.complete (resp_id r) v is_read (match r with ReadR _ d => d | _ => [] end) (window_caches s);
            serviceWindowCache v (s <| window_caches := b |>)).

(** Each port in turn is offered the response, until one takes it. *)
Fixpoint offer (Q : HostState) (r : Resp) (i : nat) (n : nat) s : result (bool * Cpu A) :=
  match n with
  | O => Ok (false, s)
  | S n =>
      match accel_ports s !! i with
      | None => Ok (false, s)
      | Some p =>
          '(b, e) ← handleResponse r (host_view Q s) p;
          let s := port_done i e s in
          if (b : bool) then Ok (true, s) else offer Q r (S i) n s
      end
  end.

Definition generic_value (g : GenericPending) (r : Resp) : Z :=
  if gp_is_read g then
    match r with
    | ReadR _ d => if gp_win_be g then be_value d else dataToU64 d
    | _ => 0
    end
  else 0.

Definition completeMmioSyncResponse (Q : HostState) (hint : Z) (r : Resp) (fail : bool) s : result (bool * Cpu A) :=
  match WindowCacheBank.pending (window_caches s) !! resp_id r with
  | Some p => s ← answered_cache hint r fail p s; Ok (true, s)
  | None =>
      '(taken, s) ← offer Q r 0 (length (accel_ports s)) s;
      if (taken : bool) then Ok (true, s)
      else
        match generic_pending s !! resp_id r with
        | None => Ok (false, s)
        | Some g =>
            Ok (true, call (PostResponse (gp_vcpu g) (generic_value g r)) (s <| generic_pending ::= delete (resp_id r) |>))
        end
  end.

Definition hasAsyncInFlight s : bool := existsb hasOutstanding (accel_ports s).
Definition asyncOutstandingForVcpu (v : Z) s : bool := existsb (fun p => vcpuHasOutstanding p v) (accel_ports s).

(** ** What drives these functions *)

(** [for (auto* p : accel_ports_) p->process();] *)
Fixpoint process_ports (Q : HostState) (n i : nat) s : result (Cpu A) :=
  match n with
  | O => Ok s
  | S n =>
      match accel_ports s !! i with
      | None => Ok s
      | Some p => e ← process (host_view Q s) p; process_ports Q n (S i) (port_done i e s)
      end
  end.

(** The bridge publishes a request in slot [v]. *)
Definition ask (v : Z) (r : Request) s : Cpu A := s <| mmio_req ::= <[Z.to_nat v := r]> |>.

(** Storing a cache keeps the rest of the bank. *)
Lemma with_cache_eq v c c' s o : states (window_caches s) !! Z.to_nat v = Some (mkState c o) ->
  with_cache v c' s = s <| window_caches := set_state v (mkState c' o) (window_caches s) |>.
Proof. intros Hc. unfold with_cache, at_. cbn. rewrite Hc. reflexivity. Qed.

Lemma cache_ok v b c : cache v b = Ok c <-> exists o, states b !! Z.to_nat v = Some (mkState c o).
Proof.
  unfold cache, at_. destruct (states b !! Z.to_nat v) as [[c' o]|]; cbn; split.
  - intros [= ->]. eauto.
  - intros (o' & [= -> _]). reflexivity.
  - discriminate.
  - intros (? & ?). discriminate.
Qed.
End Cpu.
#[global] Arguments serviceWindowCache : simpl never.
