(* ===== verification/Cpu.v ===== *)
(** * The CPU component

    [src/src/quetzcpu.cc], class [QuetzCPU]: the clock handler that ties the
    mailbox, the cores and the accelerator ports together and decides when the
    simulation ends, the handlers of memory responses
    ([QuetzCore::handleMemResponse], [src/src/quetzcore.cc]) and of device
    interrupts.

    The cores share one region table and, like the ports and the mailbox, take
    their request ids from one counter.  Process supervision
    ([QemuFrontend::checkChild]) and SST's clocks are the environment [Env] of
    a handler. *)
From S2P Require Import Prelude.
From S2P Require Import WindowCache.
From S2P Require Import WindowCacheBank.
From S2P Require Import StdMem.
From S2P Require Import AcceleratorPort.
From S2P Require Import Command.
From S2P Require Import Regions.
From S2P Require Import MemIssue.
From S2P Require Import CpuSync.
From S2P Require Import Pipeline.

(** What a handler's surroundings tell it. *)
Record Env := mkEnv
  { e_nano : Z;                 (* [getCurrentSimTimeNano()] *)
    e_now : Z;                  (* [getCurrentSimTime(tc)], in cycles *)
    e_child : result bool;      (* [frontend_->checkChild()] *)
    e_order : list Z }.         (* the order a port walks its hash map in *)

(** What the component tells SST, statistics and the interrupt mailbox. *)
Inductive CpuEvent : Type :=
  | AsyncOverlapCycle (v : Z)
  | OKToEndSim
  | PostIrq (v line level : Z)
  | Latency (v : Z) (mmio read : bool) (lat : Z).

Record QuetzCPU (A : Type) := mkQuetzCPU
  { sync : Cpu A;
    cores : list Pipeline;
    region_table : list MemRegionHandler;
    sim_time : Z; sim_cycles : Z;          (* in the shared segment *)
    halted_count : Z; child_poll_ticks : Z; child_running : bool; stop_ticking : bool;
    events : list CpuEvent }.
Arguments mkQuetzCPU {A}.
Arguments sync {A} _.
Arguments cores {A} _.
Arguments region_table {A} _.
Arguments sim_time {A} _.
Arguments sim_cycles {A} _.
Arguments halted_count {A} _.
Arguments child_poll_ticks {A} _.
Arguments child_running {A} _.
Arguments stop_ticking {A} _.
Arguments events {A} _.
#[export] Instance QuetzCPU_settable {A} : Settable (QuetzCPU A) := fun s =>
  mkQuetzCPU (sync s) (cores s) (region_table s) (sim_time s) (sim_cycles s) (halted_count s)
    (child_poll_ticks s) (child_running s) (stop_ticking s) (events s).

Section Component.
Context {A : Type} `{AcceleratorPort A}.
(** The configuration, and the cores' configuration. *)
Variables (cfg : Config) (system_mode : bool) (ctx : QuetzCoreContext).
Implicit Types (s : QuetzCPU A).

Definition note (e : CpuEvent) s : QuetzCPU A := s <| events ::= fun l => l ++ [e] |>.

(** ** The host the ports see *)

Definition isDrained_of s (v : Z) : bool :=
  match cores s !! Z.to_nat v with Some p => isDrained p | None => false end.
Definition host (E : Env) s : HostState := mkHostState (sim_cycles s) (isDrained_of s) (e_order E).

(** ** A core in the component *)

(** Core [i] has the MMIO link of vCPU [i]. *)
Definition core_ctx (i : nat) : QuetzCoreContext :=
  mkContext (max_queue_len ctx) (max_issue_per_cycle ctx) (max_pending ctx) (max_insts ctx) (cache_line_size ctx)
    (detailed_tracking ctx) (filter_unmatched_regions ctx) (has_region_table ctx) (exec_latency ctx)
    (compute_latency ctx) (mem_linked ctx) (has_mmio cfg (Z.of_nat i)).

(** What the cores share, given to one of them and taken back from it. *)
Definition enter (E : Env) s (p : Pipeline) : Pipeline :=
  p <| table := region_table s |>
    <| emitter ::= fun e => e <| MemIssue.next_id := CpuSync.next_id (sync s) |> <| now := e_now E |> |>.
Definition leave (i : nat) (p : Pipeline) s : QuetzCPU A :=
  s <| cores ::= <[i := p]> |> <| region_table := table p |>
    <| sync ::= fun c => c <| CpuSync.next_id := MemIssue.next_id (emitter p) |> |>.

(** One turn of the loop over the cores. *)
Definition tick_core (E : Env) (i : nat) s : result (QuetzCPU A) :=
  match cores s !! i with
  | None => Throw OutOfRange "cores_"
  | Some p =>
      let was_halted := halted p in
      let s := if negb was_halted && asyncOutstandingForVcpu (Z.of_nat i) (sync s)
               then note (AsyncOverlapCycle (Z.of_nat i)) s else s in
      p ← Pipeline.tick (core_ctx i) (enter E s p);
      let s := leave i p s in
      Ok (if negb was_halted && halted p then s <| halted_count ::= fun n => u32 (n + 1) |> else s)
  end.
Fixpoint tick_cores (E : Env) (n i : nat) s : result (QuetzCPU A) :=
  match n with
  | O => Ok s
  | S n => tick_core E i s ≫= tick_cores E n (S i)
  end.

(** ** The clock handler *)

Definition poll (E : Env) s : result (QuetzCPU A) :=
  c ← pollMmioSyncMailbox cfg (host E s) (sync s); Ok (s <| sync := c |>).
Definition process_all (E : Env) s : result (QuetzCPU A) :=
  c ← process_ports (host E s) (length (accel_ports (sync s))) 0 (sync s); Ok (s <| sync := c |>).

(** The child is asked for every 1024 ticks, and at the end. *)
Definition asks_child s : bool := (Z.land (child_poll_ticks s) 1023 =? 0) || (halted_count s =? vcpu_count cfg).
Definition poll_child (E : Env) s : result (QuetzCPU A) :=
  let s := s <| child_poll_ticks ::= fun n => u32 (n + 1) |> in
  if asks_child s then
    b ← e_child E; Ok (s <| child_running := b |>)
  else Ok s.

(** Whether something of the guest is still on its way. *)
Definition outstanding s : bool :=
  existsb (fun p => 0 <? pending_count (emitter p)) (cores s) ||
  active (window_caches (sync s)) || negb (bool_decide (generic_pending (sync s) = ∅)) ||
  hasAsyncInFlight (sync s).

(** The boolean is the handler's result: [true] takes it off the clock. *)
Definition end_of_tick (was_running : bool) s : result (bool * QuetzCPU A) :=
  if halted_count s <? vcpu_count cfg then
    throw_if (negb (child_running s) && negb was_running && forallb isDrained (cores s)) Fatal
      "QEMU exited before all vCPU EXIT records arrived" ≫= fun _ =>
    Ok (false, s)
  else if outstanding s then Ok (false, s)
  else Ok (true, if stop_ticking s then s else note OKToEndSim s <| stop_ticking := true |>).

(** The mailbox, the cores and the ports. *)
Definition advance (E : Env) s : result (QuetzCPU A) :=
  let s := s <| sim_time := e_nano E |> <| sim_cycles ::= fun n => u64 (n + 1) |> in
  s ← poll E s;
  s ← tick_cores E (Z.to_nat (vcpu_count cfg)) 0 s;
  process_all E s.
(** Up to the poll of the child; with whether it was last seen running. *)
Definition tick_body (E : Env) s : result (bool * QuetzCPU A) :=
  s ← advance E s;
  let child_was_running := child_running s in
  s ← poll_child E s;
  Ok (child_was_running, s).
Definition tick (E : Env) s : result (bool * QuetzCPU A) :=
  '(child_was_running, s) ← tick_body E s;
  end_of_tick child_was_running s.

(** ** Responses and interrupts *)

(** [QuetzCore::handleMemResponse] of core [i]; the completer is set on cores
    with an MMIO link. *)
Definition handleMemResponse (E : Env) (i : nat) (r : Resp) (fail : bool) s : result (QuetzCPU A) :=
  '(taken, c) ← (if has_mmio cfg (Z.of_nat i)
                 then completeMmioSyncResponse (host E s) (Z.of_nat i) r fail (sync s)
                 else Ok (false, sync s));
  let s := s <| sync := c |> in
  if (taken : bool) then Ok s
  else
    match cores s !! i with
    | None => Throw OutOfRange "cores_"
    | Some p =>
        let (lat, e) := handleResponse (resp_id r) (emitter (enter E s p)) in
        let s := s <| cores ::= <[i := p <| emitter := e |>]> |> in
        Ok match lat with
           | None => s
           | Some (l, mmio) =>
               note (Latency (Z.of_nat i) mmio (match r with ReadR _ _ => true | _ => false end) l) s
           end
    end.

(** [handleIrqEvent]; [postIrq] itself is in IrqMailbox.v. *)
Definition handleIrqEvent (vcpu line level : Z) s : result (QuetzCPU A) :=
  throw_if (system_mode && negb (vcpu =? 0)) Fatal "System-mode device IRQs route only to vCPU 0" ≫= fun _ =>
  Ok (note (PostIrq vcpu line level) s).

(** [init], phase 0: the clock is live. *)
Definition init s : QuetzCPU A := s <| stop_ticking := false |>.
(** [finish]: whether QEMU is expected to exit by itself. *)
Definition guest_exited s : bool := forallb guest_exit (cores s).
End Component.
