(* ===== verification/Plugin.v ===== *)
(** * The QEMU plugin's trace

    [src/src/qemu_plugin]: [plugin_state.cpp], [mem_access_handler.cpp],
    [instrument.cpp] and the exit handler of [plugin_main.cpp].  For every
    instruction it translates the plugin registers callbacks; QEMU calls them
    when the instruction runs, and they write the guest's commands into the
    vCPU's ring, runs of instructions without memory accesses as one command.

    The ring is the FIFO of SST's tunnel.  Modelled with the plugin interface
    of version 4, where the value of a store is available.  The mailbox
    protocol of [cb_cache_op] is in Mailbox.v; here is the request it makes. *)
From S2P Require Import Prelude.
From S2P Require Import Command.
From S2P Require Import CpuSync.
From S2P Require Import InsnClass.

Definition PLUGIN_MAX_VCPUS : Z := 256.

(** The globals of one vCPU, and its ring. *)
Record Vcpu := mkVcpu
  { mem_seen : bool; prev_cls : Z; run_cls : Z; run_count : Z; run_pc : Z; ring : list QuetzCommand }.
#[export] Instance Vcpu_settable : Settable Vcpu := fun x =>
  mkVcpu (mem_seen x) (prev_cls x) (run_cls x) (run_count x) (run_pc x) (ring x).

Record PluginState := mkPlugin
  { vcpus : Z -> Vcpu;                   (* the arrays, indices below [PLUGIN_MAX_VCPUS] *)
    requests : list (Z * Request) }.     (* what [cb_cache_op] put into the mailboxes *)
#[export] Instance PluginState_settable : Settable PluginState := fun s => mkPlugin (vcpus s) (requests s).

Record PluginConfig := mkPluginConfig
  { classifier : InsnClassifier; cache_ops : bool; configured_vcpus : Z;
    mmio_sync_base : Z; mmio_sync_size : Z; sst_win_base : Z; sst_win_size : Z }.

Definition put (v : Z) (x : Vcpu) (s : PluginState) : PluginState :=
  s <| vcpus ::= fun f w => if w =? v then x else f w |>.

(** [qemu_plugin_mem_value]. *)
Inductive MemValue : Type := U8 (x : Z) | U16 (x : Z) | U32 (x : Z) | U64 (x : Z) | U128 (low high : Z).
(** One access of an instruction. *)
Record Access := mkAccess { is_store : bool; size_shift : Z; vaddr : Z; value : MemValue }.
(** An instruction that runs: its address and bytes, the registers before it
    ([d0-d7], [a0-a7]; SR) and its accesses in order. *)
Record Executed := mkExecuted
  { i_pc : Z; i_bytes : list Z; i_regs : Z -> Z; i_sr : Z; i_accesses : list Access }.

Section Plugin.
Variable P : PluginConfig.
Implicit Types (s : PluginState) (v : Z).

Definition require_vcpu v : result () :=
  throw_if ((configured_vcpus P <=? v) || (PLUGIN_MAX_VCPUS <=? v)) Fatal "vCPU exceeds the configured trace rings".

(** ** Runs *)

Definition zeros : list Z := replicate 64 0.
Definition run_command (x : Vcpu) : QuetzCommand :=
  mkCommand CMD_COMPUTE_RUN (run_count x) (run_pc x) 0 (run_cls x) zeros.
Definition writeMessage (v : Z) (c : QuetzCommand) s : PluginState :=
  put v (vcpus s v <| ring ::= fun l => l ++ [c] |>) s.

Definition flush_run v s : result PluginState :=
  require_vcpu v ≫= fun _ =>
  let x := vcpus s v in
  if run_count x =? 0 then Ok s
  else
    let s := writeMessage v (run_command x) s in
    Ok (put v (vcpus s v <| run_count := 0 |>) s).

Definition accumulate_compute v (pc cls : Z) s : result PluginState :=
  require_vcpu v ≫= fun _ =>
  s ← (if (0 <? run_count (vcpus s v)) && negb (run_cls (vcpus s v) =? cls) then flush_run v s else Ok s);
  let s := put v (vcpus s v <| run_cls := cls |> <| run_pc := pc |> <| run_count ::= fun n => u32 (n + 1) |>) s in
  if QUETZ_COMPUTE_RUN_MAX <=? run_count (vcpus s v) then flush_run v s else Ok s.

Definition write_cmd v (type : QuetzShmemCmd) (size pc addr cls : Z) (store_data : option (list Z)) s : result PluginState :=
  require_vcpu v ≫= fun _ =>
  let d := match store_data with
           | Some bytes => let n := Z.to_nat (Z.min size 64) in take n bytes ++ replicate (64 - n) 0
           | None => zeros
           end in
  Ok (writeMessage v (mkCommand type size pc addr cls d) s).

(** ** Memory accesses *)

Definition store_buf (x : MemValue) : list Z :=
  let bytes := match x with
               | U8 x => le_bytes 1 x | U16 x => le_bytes 2 x | U32 x => le_bytes 4 x | U64 x => le_bytes 8 x
               | U128 low high => le_bytes 8 low ++ le_bytes 8 high
               end in
  bytes ++ replicate (64 - length bytes) 0.

Definition access_size (a : Access) : Z := if size_shift a <? 8 then Z.shiftl 1 (size_shift a) else 128.

(** Accesses that go to the simulator through the mailbox. *)
Definition in_mmio_sync (a : Z) : bool :=
  negb (mmio_sync_size P =? 0) && (mmio_sync_base P <=? a) && (a <? u64 (mmio_sync_base P + mmio_sync_size P)).
Definition in_sst_win (a : Z) : bool :=
  negb (sst_win_size P =? 0) && (sst_win_base P <=? a) && (a <? u64 (sst_win_base P + sst_win_size P)).

(** [QemuMemAccessHandler::handle] *)
Definition handle v (a : Access) (pc cls : Z) s : result PluginState :=
  if PLUGIN_MAX_VCPUS <=? v then Ok s
  else
    let size := access_size a in
    if in_mmio_sync (vaddr a) then flush_run v s
    else if in_sst_win (vaddr a) then flush_run v s
    else
      let s := put v (vcpus s v <| mem_seen := true |>) s in
      let cls := if usesPreciseMemCallbacks (classifier P) then cls else refineMemClass (classifier P) cls size in
      let store_data := if is_store a && (size <=? QUETZ_CMD_DATA_BYTES) then Some (store_buf (value a)) else None in
      s ← flush_run v s;
      write_cmd v (if is_store a then CMD_WRITE else CMD_READ) size pc (vaddr a) cls store_data s.

(** ** Instructions without accesses *)

(** The entries of [g_emit_nop_cbs]. *)
Definition cb_emit_nop v (pc cls : Z) s : result PluginState :=
  throw_if (cls <? QUETZ_INSN_INT_COMPUTE) Fatal "null callback" ≫= fun _ => accumulate_compute v pc cls s.

(** On targets without a decoder an instruction's class is told by the next
    one, from whether it accessed memory. *)
Definition handle_exec_delayed v (pc cls : Z) s : result PluginState :=
  if PLUGIN_MAX_VCPUS <=? v then Ok s
  else
    let prev := prev_cls (vcpus s v) in
    let had_mem := mem_seen (vcpus s v) in
    let s := put v (vcpus s v <| prev_cls := cls |> <| mem_seen := false |>) s in
    if negb had_mem then accumulate_compute v pc prev s else Ok s.

(** ** Cache instructions *)

Definition cb_cache_op v (encoding : Z) (regs : Z -> Z) (sr : Z) s : result PluginState :=
  let op := decodeColdFireCacheOp (be_bytes 4 encoding) 4 in
  throw_if ((PLUGIN_MAX_VCPUS <=? v) || negb (op_valid op)) Fatal "invalid cache-op callback" ≫= fun _ =>
  throw_if (Z.land sr 0x2000 =? 0) Fatal "cache instructions require supervisor firmware" ≫= fun _ =>
  let value := if op_kind op =? 0 then regs (op_source op) else op_instruction op in
  s ← flush_run v s;
  let addr := if op_kind op =? 0 then op_control op else regs (op_source op) in
  Ok (s <| requests ::= fun l => l ++ [(v, mkRequest true 7 (op_kind op) addr value)] |>).

(** ** Translation and execution *)

Inductive Callback : Type :=
  | OnMem (cls : Z) | OnExecNop (cls : Z) | OnExecDelayed (cls : Z) | OnExecCacheOp (encoding : Z).

Definition instrument_cache_op (bytes : list Z) : list Callback :=
  if cache_ops P then
    let buf := take 4 (bytes ++ replicate 4 0) in
    if op_valid (decodeColdFireCacheOp buf (Z.min 4 (Z.of_nat (length bytes)))) then [OnExecCacheOp (be_value buf)] else []
  else [].

(** [cb_tb_trans], for one instruction of the block. *)
Definition translate (bytes : list Z) : list Callback :=
  instrument_cache_op bytes ++
  (let enc := le_value (take 4 bytes) in
   if negb (usesPreciseMemCallbacks (classifier P)) then [OnMem QUETZ_INSN_INT_MEM; OnExecDelayed QUETZ_INSN_OTHER]
   else
     let cls := classify (classifier P) enc in
     if is_mem_class cls then [OnMem cls] else [OnExecNop cls]).

Definition exec_callback v (x : Executed) (cb : Callback) s : result PluginState :=
  match cb with
  | OnExecNop cls => cb_emit_nop v (i_pc x) cls s
  | OnExecDelayed cls => handle_exec_delayed v (i_pc x) cls s
  | OnExecCacheOp encoding => cb_cache_op v encoding (i_regs x) (i_sr x) s
  | OnMem _ => Ok s
  end.
Definition mem_callback v (x : Executed) (a : Access) (cb : Callback) s : result PluginState :=
  match cb with OnMem cls => handle v a (i_pc x) cls s | _ => Ok s end.

Fixpoint each {X} (f : X -> PluginState -> result PluginState) (l : list X) s : result PluginState :=
  match l with [] => Ok s | x :: l => f x s ≫= each f l end.

(** QEMU runs the execution callbacks before the instruction and the memory
    callbacks after each of its accesses. *)
Definition execute v (x : Executed) s : result PluginState :=
  let cbs := translate (i_bytes x) in
  s ← each (exec_callback v x) cbs s;
  each (fun a => each (mem_callback v x a) cbs) (i_accesses x) s.

(** [cb_vcpu_init] and [cb_atexit]. *)
Definition cb_vcpu_init v s : result PluginState :=
  require_vcpu v ≫= fun _ =>
  Ok (put v (vcpus s v <| mem_seen := false |> <| prev_cls := QUETZ_INSN_OTHER |> <| run_count := 0 |>) s).

Definition exit_command : QuetzCommand := mkCommand CMD_EXIT 0 0 0 0 zeros.
Definition exit_vcpu v s : result PluginState := s ← flush_run v s; Ok (writeMessage v exit_command s).
Definition cb_atexit (num_vcpus : Z) s : result PluginState :=
  each exit_vcpu (seqZ 0 (if num_vcpus <=? 0 then 1 else num_vcpus)) s.
End Plugin.
