(* ===== verification/PluginThm.v ===== *)
(** * The trace is the execution

    What the plugin writes for a guest CPU, with its runs unfolded, is the
    instructions that CPU executed, in order; and what a core issues from it
    is a prefix of the CPU's memory accesses in program order. *)
From S2P Require Import Prelude.
From S2P Require Import Command.
From S2P Require Import CpuSync.
From S2P Require Import InsnClass.
From S2P Require Import Regions.
From S2P Require Import MemIssue.
From S2P Require Import Pipeline.
From S2P Require Import PipelineThm.
From S2P Require Import Plugin.

(** ** What an executed instruction means *)

Definition nop (cls : Z) : QuetzCommand := mkCommand CMD_NOP 0 0 0 cls zeros.
(** A run keeps one address for all its instructions; addresses of
    instructions without accesses are not compared. *)
Definition erase (c : QuetzCommand) : QuetzCommand :=
  if bool_decide (cmd c = CMD_NOP) then c <| pc := 0 |> else c.
Definition unfolded (l : list QuetzCommand) : list QuetzCommand := erase <$> flat_map expand l.

#[global] Arguments unfolded : simpl never.
(** The trace of a vCPU so far: its ring and the run being collected. *)
Definition shown (x : Vcpu) : list QuetzCommand := unfolded (ring x) ++ replicate (Z.to_nat (run_count x)) (nop (run_cls x)).

Definition run_sized (c : QuetzCommand) : Prop := cmd c = CMD_COMPUTE_RUN -> 1 <= size c <= QUETZ_COMPUTE_RUN_MAX.
Record vcpu_full (x : Vcpu) : Prop :=
  { vo_count : 0 <= run_count x <= QUETZ_COMPUTE_RUN_MAX;
    vo_pc : is_u64 (run_pc x); vo_cls : is_u32 (run_cls x);
    vo_ring : Forall (fun c => valid c /\ run_sized c) (ring x) }.
(** Between callbacks a run has room for one more. *)
Definition vcpu_ok (x : Vcpu) : Prop := vcpu_full x /\ run_count x < QUETZ_COMPUTE_RUN_MAX.

Section Trace.
Variable P : PluginConfig.
Implicit Types (s : PluginState) (v : Z).

Definition configured v : Prop := 0 <= v < configured_vcpus P /\ v < PLUGIN_MAX_VCPUS.
Definition synchronous (a : Access) : bool := in_mmio_sync P (vaddr a) || in_sst_win P (vaddr a).

Definition access_command (pc cls : Z) (a : Access) : QuetzCommand :=
  let size := access_size a in
  let d := if is_store a && (size <=? 64) then take (Z.to_nat size) (store_buf (value a)) ++ replicate (64 - Z.to_nat size) 0 else zeros in
  mkCommand (if is_store a then CMD_WRITE else CMD_READ) size pc (vaddr a)
    (if usesPreciseMemCallbacks (classifier P) then cls else refineMemClass (classifier P) cls size) d.
Definition traced (pc cls : Z) (l : list Access) : list QuetzCommand :=
  flat_map (fun a => if synchronous a then [] else [access_command pc cls a]) l.

Definition class_of (x : Executed) : Z := classify (classifier P) (le_value (take 4 (i_bytes x))).
(** With a decoder: the accesses of a memory instruction, or one [NOP]. *)
Definition meaning (x : Executed) : list QuetzCommand :=
  if is_mem_class (class_of x) then traced (i_pc x) (class_of x) (i_accesses x) else [nop (class_of x)].
(** Without one: the accesses there were, or one [NOP] of no class. *)
Definition untraced (x : Executed) : bool := forallb synchronous (i_accesses x).
Definition meaning_plain (x : Executed) : list QuetzCommand :=
  traced (i_pc x) QUETZ_INSN_INT_MEM (i_accesses x) ++ (if untraced x then [nop QUETZ_INSN_OTHER] else []).

(** An instruction as QEMU reports it. *)
Record access_ok (a : Access) : Prop :=
  { ao_addr : is_u64 (vaddr a); ao_shift : 0 <= size_shift a; ao_span : vaddr a + access_size a <= 2 ^ 64 }.
Record executed_ok (x : Executed) : Prop :=
  { eo_pc : is_u64 (i_pc x); eo_bytes : bytes_ok (i_bytes x); eo_accesses : Forall access_ok (i_accesses x);
    eo_cache : cache_ops P = true -> Z.land (i_sr x) 0x2000 <> 0 }.

(** ** Steps of the trace *)

(** [s'] is [s] with [l] more shown by vCPU [v]. *)
Record more v (l : list QuetzCommand) s s' : Prop :=
  { mo_ok : vcpu_ok (vcpus s' v);
    mo_shown : shown (vcpus s' v) = shown (vcpus s v) ++ l;
    mo_rest : forall w, w <> v -> vcpus s' w = vcpus s w }.

Lemma more_refl v s : vcpu_ok (vcpus s v) -> more v [] s s.
Proof. intros K. split; auto. rewrite app_nil_r. reflexivity. Qed.
Lemma more_trans v l1 l2 s1 s2 s3 : more v l1 s1 s2 -> more v l2 s2 s3 -> more v (l1 ++ l2) s1 s3.
Proof.
  intros [A1 A2 A3] [B1 B2 B3]. split; [exact B1 | rewrite B2, A2, app_assoc; reflexivity |].
  intros w Hw. rewrite B3, A3 by exact Hw. reflexivity.
Qed.

Lemma unfolded_app l l' : unfolded (l ++ l') = unfolded l ++ unfolded l'.
Proof. unfold unfolded. rewrite flat_map_app, fmap_app. reflexivity. Qed.

Lemma put_at v x s : vcpus (put v x s) v = x.
Proof. unfold put. cbn. rewrite Z.eqb_refl. reflexivity. Qed.
Lemma put_off v w x s : w <> v -> vcpus (put v x s) w = vcpus s w.
Proof. intros Hw. unfold put. cbn. apply Z.eqb_neq in Hw. rewrite Hw. reflexivity. Qed.

Lemma required v : configured v -> require_vcpu P v = Ok ().
Proof.
  intros [H1 H2]. unfold require_vcpu. rewrite (proj2 (Z.leb_gt _ _)), (proj2 (Z.leb_gt _ _)) by lia. reflexivity.
Qed.

Lemma zeros_ok : bytes_ok zeros /\ length zeros = 64%nat.
Proof. split; [apply Forall_replicate; word | reflexivity]. Qed.

(** A run, unfolded. *)
Lemma unfolded_run x : 0 < run_count x -> unfolded [run_command x] = replicate (Z.to_nat (run_count x)) (nop (run_cls x)).
Proof.
  intros Hc. unfold unfolded. cbn [flat_map]. rewrite app_nil_r. unfold expand. rewrite bool_decide_true by reflexivity.
  cbn [size run_command]. rewrite (proj2 (Z.eqb_neq _ 0)) by lia. rewrite fmap_replicate. f_equal.
Qed.

Lemma flush_full v s : configured v -> vcpu_full (vcpus s v) -> exists s', flush_run P v s = Ok s' /\ more v [] s s' /\
  run_count (vcpus s' v) = 0 /\ mem_seen (vcpus s' v) = mem_seen (vcpus s v) /\ prev_cls (vcpus s' v) = prev_cls (vcpus s v).
Proof.
  intros Hv K. unfold flush_run. rewrite (required v Hv). cbn [mbind result_bind].
  destruct (Z.eqb_spec (run_count (vcpus s v)) 0) as [E|E].
  { exists s. split; [reflexivity | split; [apply more_refl; split; [exact K | rewrite E; reflexivity] | auto]]. }
  eexists. split; [reflexivity |]. unfold writeMessage. rewrite !put_at. pose proof K as [K1 K2 K3 K4]. split; [split | auto].
  - rewrite put_at. split; [split | reflexivity]; [cbn; unfold QUETZ_COMPUTE_RUN_MAX; lia | exact K2 | exact K3 |].
    cbn. apply Forall_app. split; [exact K4 | apply Forall_singleton].
    unfold valid, run_sized. cbn. unfold QUETZ_COMPUTE_RUN_MAX in *. split; [| lia]. destruct zeros_ok.
    split; [split; cbn; auto; word | lia].
  - rewrite put_at. unfold shown. cbn. rewrite app_nil_r, unfolded_app, app_nil_r, unfolded_run by lia. reflexivity.
  - intros w Hw. rewrite !put_off by exact Hw. reflexivity.
Qed.
(** Changes of the fields the trace does not show. *)
Lemma more_same v s x : vcpu_ok (vcpus s v) -> ring x = ring (vcpus s v) -> run_count x = run_count (vcpus s v) ->
  run_cls x = run_cls (vcpus s v) -> run_pc x = run_pc (vcpus s v) -> more v [] s (put v x s).
Proof.
  intros [[K1 K2 K3 K4] K5] E1 E2 E3 E4. split.
  - rewrite put_at. split; [split |]; rewrite ?E1, ?E2, ?E3, ?E4; assumption.
  - rewrite put_at, app_nil_r. unfold shown. rewrite E1, E2, E3. reflexivity.
  - intros w Hw. apply put_off, Hw.
Qed.

Lemma accumulate_more v pc cls s : configured v -> vcpu_ok (vcpus s v) -> is_u64 pc -> is_u32 cls ->
  exists s', accumulate_compute P v pc cls s = Ok s' /\ more v [nop cls] s s' /\
    mem_seen (vcpus s' v) = mem_seen (vcpus s v) /\ prev_cls (vcpus s' v) = prev_cls (vcpus s v).
Proof.
  intros Hv K Hpc Hcls. unfold accumulate_compute. rewrite (required v Hv). cbn [mbind result_bind].
  assert (H : exists s1, (if (0 <? run_count (vcpus s v)) && negb (run_cls (vcpus s v) =? cls) then flush_run P v s else Ok s) = Ok s1 /\
    more v [] s s1 /\ (run_count (vcpus s1 v) = 0 \/ run_cls (vcpus s1 v) = cls) /\
    mem_seen (vcpus s1 v) = mem_seen (vcpus s v) /\ prev_cls (vcpus s1 v) = prev_cls (vcpus s v)).
  { destruct ((0 <? _) && _) eqn:Eb.
    - destruct (flush_full v s Hv (proj1 K)) as (s1 & E & M & E1 & E2 & E3). eauto 8.
    - exists s. split; [reflexivity | split; [apply more_refl, K | split; [| auto]]].
      apply andb_false_iff in Eb as [Eb|Eb]; [left; apply Z.ltb_ge in Eb; destruct K as [[] _]; lia | right].
      apply negb_false_iff, Z.eqb_eq in Eb. exact Eb. }
  destruct H as (s1 & -> & M & Hr & Em & Ep). cbn [mbind result_bind]. cbv zeta. destruct (mo_ok _ _ _ _ M) as [[K1 K2 K3 K4] K5].
  set (s2 := put v _ s1). assert (Hc : u32 (run_count (vcpus s1 v) + 1) = run_count (vcpus s1 v) + 1)
    by (apply wrap_small; unfold QUETZ_COMPUTE_RUN_MAX in *; word).
  assert (M2 : shown (vcpus s2 v) = shown (vcpus s1 v) ++ [nop cls] /\ (forall w, w <> v -> vcpus s2 w = vcpus s1 w)).
  { split; [| intros w Hw; apply put_off, Hw]. unfold s2. rewrite put_at. unfold shown. cbn. rewrite Hc, <- app_assoc. f_equal.
    rewrite Z2Nat.inj_add, Nat.add_comm by lia. cbn. destruct Hr as [Hr|Hr]; [rewrite Hr; reflexivity |].
    rewrite Hr, <- replicate_cons_app. reflexivity. }
  assert (Es2 : ring (vcpus s2 v) = ring (vcpus s1 v) /\ run_count (vcpus s2 v) = run_count (vcpus s1 v) + 1 /\
    run_cls (vcpus s2 v) = cls /\ run_pc (vcpus s2 v) = pc /\ mem_seen (vcpus s2 v) = mem_seen (vcpus s1 v) /\
    prev_cls (vcpus s2 v) = prev_cls (vcpus s1 v)) by (unfold s2; rewrite put_at; cbn; auto 7).
  clearbody s2. destruct Es2 as (F1 & F2 & F3 & F4 & F5 & F6). destruct M2 as [S2 R2].
  assert (Kf : vcpu_full (vcpus s2 v)) by (split; rewrite ?F1, ?F2, ?F3, ?F4; auto; lia).
  assert (T : forall s3, more v [] s2 s3 -> more v [nop cls] s s3).
  { intros s3 [T1 T2 T3]. split; [exact T1 | |].
    - rewrite T2, app_nil_r, S2, (mo_shown _ _ _ _ M), app_nil_r. reflexivity.
    - intros w Hw. rewrite T3, R2 by exact Hw. apply (mo_rest _ _ _ _ M w Hw). }
  destruct (Z.leb_spec QUETZ_COMPUTE_RUN_MAX (run_count (vcpus s2 v))) as [Hf|Hf].
  - destruct (flush_full v s2 Hv Kf) as (s3 & E3 & M3 & _ & Em3 & Ep3). exists s3.
    split; [exact E3 | split; [exact (T s3 M3) | split; congruence]].
  - exists s2. split; [reflexivity | split; [apply T, more_refl; split; assumption | split; congruence]].
Qed.
Lemma unfolded_one c : cmd c <> CMD_COMPUTE_RUN -> cmd c <> CMD_NOP -> unfolded [c] = [c].
Proof.
  intros Ht Hn. unfold unfolded, expand. cbn [flat_map]. rewrite bool_decide_false by exact Ht. cbn. unfold erase.
  rewrite bool_decide_false by exact Hn. reflexivity.
Qed.

(** A command that is not a run, written when no run is open. *)
Lemma write_more v type size pc addr cls d s : configured v -> vcpu_ok (vcpus s v) -> run_count (vcpus s v) = 0 ->
  let bytes := match d with
               | Some bs => let n := Z.to_nat (Z.min size 64) in take n bs ++ replicate (64 - n) 0
               | None => zeros
               end in
  let c := mkCommand type size pc addr cls bytes in
  type <> CMD_COMPUTE_RUN -> type <> CMD_NOP -> valid c ->
  exists s', write_cmd P v type size pc addr cls d s = Ok s' /\ more v [c] s s' /\
    mem_seen (vcpus s' v) = mem_seen (vcpus s v) /\ prev_cls (vcpus s' v) = prev_cls (vcpus s v).
Proof.
  intros Hv [[K1 K2 K3 K4] K5] Hc bytes c Ht Hn Hval. unfold write_cmd. rewrite (required v Hv). cbn [mbind result_bind]. cbv zeta.
  fold bytes. change (mkCommand type size pc addr cls bytes) with c.
  eexists. split; [reflexivity |]. unfold writeMessage. rewrite put_at. cbn. split; [split | auto].
  - rewrite put_at. split; [split; auto; cbn | exact K5]. apply Forall_app. split; [exact K4 | apply Forall_singleton]. split; [exact Hval |].
    intros Hr. destruct (Ht Hr).
  - rewrite put_at. unfold shown. cbn. rewrite Hc. cbn. rewrite !app_nil_r, unfolded_app. f_equal.
    apply unfolded_one; assumption.
  - intros w Hw. apply put_off, Hw.
Qed.

Lemma store_buf_ok x : bytes_ok (store_buf x) /\ length (store_buf x) = 64%nat.
Proof.
  assert (H : forall bs, bytes_ok bs -> (length bs <= 64)%nat -> bytes_ok (bs ++ replicate (64 - length bs) 0) /\
    length (bs ++ replicate (64 - length bs) 0) = 64%nat).
  { intros bs Hb Hl. split; [apply Forall_app; split; [exact Hb | apply Forall_replicate; word] |].
    rewrite length_app, length_replicate. lia. }
  destruct x; unfold store_buf; apply H;
    try (apply le_bytes_ok || (apply Forall_app; split; apply le_bytes_ok)); rewrite ?length_app, ?length_le_bytes; lia.
Qed.

Lemma access_size_pos a : 0 <= size_shift a -> 1 <= access_size a <= 128.
Proof.
  intros Hs. unfold access_size. destruct (Z.ltb_spec (size_shift a) 8); [| lia].
  rewrite Z.shiftl_mul_pow2, Z.mul_1_l by exact Hs. pose proof (Z.pow_le_mono_r 2 (size_shift a) 7 ltac:(lia) ltac:(lia)).
  pose proof (Z.pow_pos_nonneg 2 (size_shift a) ltac:(lia) Hs). lia.
Qed.

Lemma access_command_valid pc cls a : is_u64 pc -> 0 <= cls < QUETZ_INSN_CLASS_COUNT -> access_ok a -> valid (access_command pc cls a).
Proof.
  intros Hpc Hcls [H1 H2 H3]. pose proof (access_size_pos a H2) as Hs. unfold access_command. cbv zeta.
  split; [| exact H3]. unfold QUETZ_INSN_CLASS_COUNT in Hcls. split; cbn; auto; try word.
  - destruct (usesPreciseMemCallbacks _); [word |]. unfold refineMemClass. destruct (classifier P); try word.
    unfold classify_by_size, QUETZ_INSN_VEC_MEM, QUETZ_INSN_INT_MEM. destruct (16 <=? _); word.
  - destruct (store_buf_ok (value a)) as [Hb _], zeros_ok as [Hz _]. destruct (is_store a && _); [| exact Hz].
    apply Forall_app. split; [apply Forall_take, Hb | apply Forall_replicate; word].
  - destruct (store_buf_ok (value a)) as [_ Hl], zeros_ok as [_ Hz]. destruct (is_store a && _) eqn:E; [| exact Hz].
    apply andb_true_iff in E as [_ E]. apply Z.leb_le in E.
    rewrite length_app, length_take, length_replicate, Hl. lia.
Qed.

Lemma handle_more v a pc cls s : configured v -> vcpu_ok (vcpus s v) -> is_u64 pc -> 0 <= cls < QUETZ_INSN_CLASS_COUNT -> access_ok a ->
  exists s', handle P v a pc cls s = Ok s' /\ more v (traced pc cls [a]) s s' /\
    mem_seen (vcpus s' v) = (if synchronous a then mem_seen (vcpus s v) else true) /\
    prev_cls (vcpus s' v) = prev_cls (vcpus s v).
Proof.
  intros Hv K Hpc Hcls Ha. unfold handle. rewrite (proj2 (Z.leb_gt _ _)) by apply Hv. cbv zeta.
  unfold traced, synchronous. cbn [flat_map]. rewrite app_nil_r.
  destruct (in_mmio_sync P (vaddr a)); cbn [orb];
    [destruct (flush_full v s Hv (proj1 K)) as (s1 & E & M & _ & Em & Ep); eauto |].
  destruct (in_sst_win P (vaddr a)); [destruct (flush_full v s Hv (proj1 K)) as (s1 & E & M & _ & Em & Ep); eauto |].
  set (s0 := put v _ s). assert (M0 : more v [] s s0) by (apply more_same; [exact K | reflexivity ..]).
  assert (E0 : mem_seen (vcpus s0 v) = true /\ prev_cls (vcpus s0 v) = prev_cls (vcpus s v)) by (unfold s0; rewrite put_at; auto).
  clearbody s0. destruct E0 as [Em0 Ep0].
  destruct (flush_full v s0 Hv (proj1 (mo_ok _ _ _ _ M0))) as (s1 & -> & M1 & Hc & Em1 & Ep1). cbn [mbind result_bind].
  set (cl := if usesPreciseMemCallbacks _ then _ else _). set (d := if is_store a && _ then _ else None).
  assert (Ec : mkCommand (if is_store a then CMD_WRITE else CMD_READ) (access_size a) pc (vaddr a) cl
     (match d with Some bs => let n := Z.to_nat (Z.min (access_size a) 64) in take n bs ++ replicate (64 - n) 0 | None => zeros end) =
    access_command pc cls a).
  { unfold access_command, d, cl. cbv zeta. f_equal. unfold QUETZ_CMD_DATA_BYTES. destruct (is_store a && (access_size a <=? 64)) eqn:E; [| reflexivity].
    apply andb_true_iff in E as [_ E]. apply Z.leb_le in E. rewrite Z.min_l by exact E. reflexivity. }
  destruct (write_more v (if is_store a then CMD_WRITE else CMD_READ) (access_size a) pc (vaddr a) cl d s1 Hv (mo_ok _ _ _ _ M1) Hc)
    as (s2 & E2 & M2 & Em2 & Ep2); [destruct (is_store a); discriminate | destruct (is_store a); discriminate |
      rewrite Ec; apply access_command_valid; assumption |].
  rewrite Ec in M2. exists s2. split; [exact E2 | split; [exact (more_trans _ _ _ _ _ _ M0 (more_trans _ _ _ _ _ _ M1 M2)) | split; congruence]].
Qed.
(** ** An instruction *)

Lemma each_app {X} (f : X -> PluginState -> result PluginState) l1 l2 s : each f (l1 ++ l2) s = (s ← each f l1 s; each f l2 s).
Proof.
  revert s. induction l1 as [|x l1 IH]; intros s; cbn [each app]; [reflexivity |].
  destruct (f x s); cbn [mbind result_bind]; [apply IH | reflexivity].
Qed.
Lemma each_ext {X} (f g : X -> PluginState -> result PluginState) l s : (forall x s, f x s = g x s) -> each f l s = each g l s.
Proof.
  intros H. revert s. induction l as [|x l IH]; intros s; cbn [each]; [reflexivity |]. rewrite H. destruct (g x s); cbn; auto.
Qed.
Lemma each_ok {X} (l : list X) s : each (fun _ s => Ok s) l s = Ok s.
Proof. revert s. induction l as [|x l IH]; intros s; cbn; auto. Qed.

Definition quiet v s s' : Prop := mem_seen (vcpus s' v) = mem_seen (vcpus s v) /\ prev_cls (vcpus s' v) = prev_cls (vcpus s v).

Lemma decode_padded bytes : bytes_ok bytes ->
  let buf := take 4 (bytes ++ replicate 4 0) in
  op_valid (decodeColdFireCacheOp buf (Z.min 4 (Z.of_nat (length bytes)))) = true ->
  op_valid (decodeColdFireCacheOp (be_bytes 4 (be_value buf)) 4) = true.
Proof.
  intros Hb buf. assert (Hl : length buf = 4%nat) by (unfold buf; rewrite length_take, length_app, length_replicate; lia).
  assert (Hok : bytes_ok buf) by (apply Forall_take, Forall_app; split; [exact Hb | apply Forall_replicate; word]).
  assert (Eb : be_bytes 4 (be_value buf) = buf) by (rewrite <- (be_bytes_value buf Hok) at 2; [rewrite Hl; reflexivity | rewrite Hl; lia]).
  rewrite Eb.
  unfold decodeColdFireCacheOp. destruct (_ <? 2); [discriminate |]. change (4 <? 2) with false. change (4 <=? 4) with true.
  cbv iota zeta. rewrite andb_true_r. destruct (Z.eqb_spec (half buf 0) 0x4e7b) as [E|E]; cbn [andb].
  - rewrite E. destruct (4 <=? _); [auto | discriminate].
  - destruct (_ =? _); [reflexivity | discriminate].
Qed.

Lemma cache_callbacks_more v x s : configured v -> vcpu_ok (vcpus s v) -> executed_ok x ->
  exists s', each (exec_callback P v x) (instrument_cache_op P (i_bytes x)) s = Ok s' /\ more v [] s s' /\ quiet v s s'.
Proof.
  intros Hv K [Hpc Hb _ Hsr]. unfold instrument_cache_op. destruct (cache_ops P); [| exists s; split; [reflexivity | split; [apply more_refl, K | split; reflexivity]]].
  cbv zeta. set (buf := take 4 _). destruct (op_valid _) eqn:Ev; [| exists s; split; [reflexivity | split; [apply more_refl, K | split; reflexivity]]].
  cbn [each exec_callback]. unfold cb_cache_op. cbv zeta.
  pose proof (decode_padded _ Hb Ev) as Hd. cbv zeta in Hd. fold buf in Hd. rewrite Hd. rewrite (proj2 (Z.leb_gt _ _)) by apply Hv. cbn [orb negb throw_if mbind result_bind].
  rewrite (proj2 (Z.eqb_neq (Z.land (i_sr x) 0x2000) 0)) by (apply Hsr; reflexivity). cbn [throw_if mbind result_bind].
  destruct (flush_full v s Hv (proj1 K)) as (s1 & -> & M & _ & Em & Ep). cbn [mbind result_bind].
  eexists. split; [reflexivity |]. split; [| split; [exact Em | exact Ep]]. destruct M. split; assumption.
Qed.

Lemma accesses_more v pc cls l : configured v -> is_u64 pc -> 0 <= cls < QUETZ_INSN_CLASS_COUNT -> Forall access_ok l ->
  forall s, vcpu_ok (vcpus s v) -> exists s', each (fun a => handle P v a pc cls) l s = Ok s' /\ more v (traced pc cls l) s s' /\
    mem_seen (vcpus s' v) = mem_seen (vcpus s v) || negb (forallb synchronous l) /\ prev_cls (vcpus s' v) = prev_cls (vcpus s v).
Proof.
  intros Hv Hpc Hcls Hl. induction Hl as [|a l Ha _ IH]; intros s K; cbn [each].
  { exists s. rewrite orb_false_r. split; [reflexivity | split; [apply more_refl, K | auto]]. }
  destruct (handle_more v a pc cls s Hv K Hpc Hcls Ha) as (s1 & -> & M1 & Em1 & Ep1). cbn [mbind result_bind].
  destruct (IH s1 (mo_ok _ _ _ _ M1)) as (s2 & E2 & M2 & Em2 & Ep2). exists s2. split; [exact E2 |].
  split; [| split; [| congruence]].
  - pose proof (more_trans _ _ _ _ _ _ M1 M2) as M. unfold traced in *. cbn [flat_map] in *. rewrite app_nil_r in M. exact M.
  - rewrite Em2, Em1. cbn [forallb]. destruct (synchronous a), (mem_seen (vcpus s v)); reflexivity.
Qed.

(** A cache instruction has no memory callback. *)
Lemma cache_no_mem v x a s : each (mem_callback P v x a) (instrument_cache_op P (i_bytes x)) s = Ok s.
Proof. unfold instrument_cache_op. destruct (cache_ops P); [| reflexivity]. cbv zeta. destruct (op_valid _); reflexivity. Qed.

Lemma execute_more v x s : usesPreciseMemCallbacks (classifier P) = true -> configured v -> vcpu_ok (vcpus s v) -> executed_ok x ->
  exists s', execute P v x s = Ok s' /\ more v (meaning x) s s'.
Proof.
  intros Hp Hv K Hx. unfold execute, translate, meaning. cbv zeta. rewrite Hp. cbn [negb]. fold (class_of x).
  destruct (cache_callbacks_more v x s Hv K Hx) as (s1 & E1 & M1 & _). pose proof (classify_range (classifier P) (le_value (take 4 (i_bytes x)))) as Hc.
  fold (class_of x) in Hc. destruct (is_mem_class (class_of x)) eqn:Em; rewrite each_app, E1; cbn [mbind result_bind each exec_callback].
  - destruct (accesses_more v (i_pc x) (class_of x) (i_accesses x) Hv (eo_pc _ Hx) Hc (eo_accesses _ Hx) s1 (mo_ok _ _ _ _ M1)) as (s2 & E2 & M2 & _).
    exists s2. split; [| exact (more_trans _ _ _ _ _ _ M1 M2)]. rewrite <- E2. apply each_ext. intros a t.
    rewrite each_app, cache_no_mem. cbn [mbind result_bind each mem_callback]. destruct (handle _ _ _ _ _ _); reflexivity.
  - assert (Hn : (class_of x <? QUETZ_INSN_INT_COMPUTE) = false).
    { unfold is_mem_class, one_of in Em. cbn in Em. rewrite !orb_false_iff, !Z.eqb_neq in Em.
      unfold QUETZ_INSN_INT_MEM, QUETZ_INSN_FP_MEM, QUETZ_INSN_VEC_MEM, QUETZ_INSN_INT_COMPUTE in *. apply Z.ltb_ge. lia. }
    unfold cb_emit_nop. rewrite Hn. cbn [throw_if mbind result_bind].
    destruct (accumulate_more v (i_pc x) (class_of x) s1 Hv (mo_ok _ _ _ _ M1) (eo_pc _ Hx)) as (s2 & -> & M2 & _);
      [unfold QUETZ_INSN_CLASS_COUNT in Hc; word |]. cbn [mbind result_bind].
    exists s2. split; [| exact (more_trans _ _ _ _ _ _ M1 M2)].
    rewrite (each_ext _ (fun _ t => Ok t)); [apply each_ok |]. intros a t. rewrite each_app, cache_no_mem. reflexivity.
Qed.

Lemma execute_plain v x s : usesPreciseMemCallbacks (classifier P) = false -> configured v -> vcpu_ok (vcpus s v) -> executed_ok x ->
  prev_cls (vcpus s v) = QUETZ_INSN_OTHER ->
  exists s', execute P v x s = Ok s' /\
    more v ((if mem_seen (vcpus s v) then [] else [nop QUETZ_INSN_OTHER]) ++ traced (i_pc x) QUETZ_INSN_INT_MEM (i_accesses x)) s s' /\
    mem_seen (vcpus s' v) = negb (untraced x) /\ prev_cls (vcpus s' v) = QUETZ_INSN_OTHER.
Proof.
  intros Hp Hv K Hx Hprev. unfold execute, translate. cbv zeta. rewrite Hp. cbn [negb].
  destruct (cache_callbacks_more v x s Hv K Hx) as (s1 & E1 & M1 & Q1 & Q2). rewrite each_app, E1.
  cbn [mbind result_bind each exec_callback]. unfold handle_exec_delayed. rewrite (proj2 (Z.leb_gt _ _)) by apply Hv. cbv zeta.
  rewrite Q1, Q2, Hprev. set (s2 := put v _ s1).
  assert (M2 : more v [] s s2) by (apply (more_trans _ [] [] _ _ _ M1), more_same; [apply (mo_ok _ _ _ _ M1) | reflexivity ..]).
  assert (E2 : mem_seen (vcpus s2 v) = false /\ prev_cls (vcpus s2 v) = QUETZ_INSN_OTHER) by (unfold s2; rewrite put_at; auto).
  clearbody s2. destruct E2 as [Em2 Ep2].
  assert (H : exists s3, (if negb (mem_seen (vcpus s v)) then accumulate_compute P v (i_pc x) QUETZ_INSN_OTHER s2 else Ok s2) = Ok s3 /\
    more v (if mem_seen (vcpus s v) then [] else [nop QUETZ_INSN_OTHER]) s s3 /\ mem_seen (vcpus s3 v) = false /\
    prev_cls (vcpus s3 v) = QUETZ_INSN_OTHER).
  { destruct (mem_seen (vcpus s v)); cbn [negb]; [eauto |].
    destruct (accumulate_more v (i_pc x) QUETZ_INSN_OTHER s2 Hv (mo_ok _ _ _ _ M2) (eo_pc _ Hx)) as (s3 & E3 & M3 & Em3 & Ep3); [split; [discriminate | reflexivity] |].
    exists s3. split; [exact E3 | split; [exact (more_trans _ _ _ _ _ _ M2 M3) | split; congruence]]. }
  destruct H as (s3 & -> & M3 & Em3 & Ep3). cbn [mbind result_bind].
  destruct (accesses_more v (i_pc x) QUETZ_INSN_INT_MEM (i_accesses x) Hv (eo_pc _ Hx) ltac:(split; [discriminate | reflexivity]) (eo_accesses _ Hx) s3 (mo_ok _ _ _ _ M3))
    as (s4 & E4 & M4 & Em4 & Ep4).
  exists s4. split; [| split; [exact (more_trans _ _ _ _ _ _ M3 M4) | split; [rewrite Em4, Em3; reflexivity | congruence]]].
  rewrite <- E4. apply each_ext. intros a t. rewrite each_app, cache_no_mem. cbn [mbind result_bind each mem_callback].
  destruct (handle _ _ _ _ _ _); reflexivity.
Qed.
(** ** A guest *)

(** The instructions all vCPUs executed, in the order they did. *)
Definition run_guest (prog : list (Z * Executed)) s : result PluginState := each (fun p => execute P p.1 p.2) prog s.
Definition instructions v (prog : list (Z * Executed)) : list Executed := snd <$> List.filter (fun p => p.1 =? v) prog.
Definition plugin0 : PluginState := mkPlugin (fun _ => mkVcpu false QUETZ_INSN_OTHER 0 0 0 []) [].
Definition prog_ok (prog : list (Z * Executed)) : Prop := Forall (fun p => configured p.1 /\ executed_ok p.2) prog.

Lemma plugin0_ok v : vcpu_ok (vcpus plugin0 v).
Proof. split; [split; cbn; [unfold QUETZ_COMPUTE_RUN_MAX; lia | word | word | constructor] | reflexivity]. Qed.

Lemma instructions_cons v w x prog : instructions v ((w, x) :: prog) = (if w =? v then [x] else []) ++ instructions v prog.
Proof. unfold instructions. cbn. destruct (w =? v); reflexivity. Qed.

Lemma guest_more prog : usesPreciseMemCallbacks (classifier P) = true -> prog_ok prog ->
  forall s, (forall v, vcpu_ok (vcpus s v)) -> exists s', run_guest prog s = Ok s' /\
    forall v, vcpu_ok (vcpus s' v) /\ shown (vcpus s' v) = shown (vcpus s v) ++ flat_map meaning (instructions v prog).
Proof.
  intros Hp Hprog. induction Hprog as [|[w x] prog [Hw Hx] _ IH]; intros s K; unfold run_guest; cbn [each fst snd] in *.
  { exists s. split; [reflexivity |]. intros v. cbn. rewrite app_nil_r. auto. }
  destruct (execute_more w x s Hp Hw (K w) Hx) as (s1 & -> & M). cbn [mbind result_bind].
  assert (K1 : forall v, vcpu_ok (vcpus s1 v)).
  { intros v. destruct (decide (v = w)) as [->|Hn]; [apply (mo_ok _ _ _ _ M) | rewrite (mo_rest _ _ _ _ M v Hn); apply K]. }
  destruct (IH s1 K1) as (s' & E' & H'). exists s'. split; [exact E' |]. intros v. destruct (H' v) as [A1 A2]. split; [exact A1 |].
  rewrite A2, instructions_cons, flat_map_app, app_assoc. f_equal. destruct (Z.eqb_spec w v) as [<-|Hn].
  - cbn. rewrite app_nil_r. apply (mo_shown _ _ _ _ M).
  - cbn. rewrite app_nil_r, (mo_rest _ _ _ _ M v) by congruence. reflexivity.
Qed.

(** Without a decoder, one [NOP] is shown too early: it stands for an
    instruction before the first, and the last instruction's own is still due. *)
Definition due (x : Vcpu) : list QuetzCommand := if mem_seen x then [] else [nop QUETZ_INSN_OTHER].

Lemma plain_more prog : usesPreciseMemCallbacks (classifier P) = false -> prog_ok prog ->
  forall s, (forall v, vcpu_ok (vcpus s v) /\ prev_cls (vcpus s v) = QUETZ_INSN_OTHER) -> exists s', run_guest prog s = Ok s' /\
    forall v, vcpu_ok (vcpus s' v) /\
      shown (vcpus s' v) ++ due (vcpus s' v) = shown (vcpus s v) ++ due (vcpus s v) ++ flat_map meaning_plain (instructions v prog) /\
      mem_seen (vcpus s' v) = match last (instructions v prog) with Some x => negb (untraced x) | None => mem_seen (vcpus s v) end.
Proof.
  intros Hp Hprog. induction Hprog as [|[w x] prog [Hw Hx] _ IH]; intros s K; unfold run_guest; cbn [each fst snd] in *.
  { exists s. split; [reflexivity |]. intros v. cbn. rewrite app_nil_r. split; [apply K | auto]. }
  destruct (execute_plain w x s Hp Hw (proj1 (K w)) Hx (proj2 (K w))) as (s1 & -> & M & Em & Ep). cbn [mbind result_bind].
  assert (K1 : forall v, vcpu_ok (vcpus s1 v) /\ prev_cls (vcpus s1 v) = QUETZ_INSN_OTHER).
  { intros v. destruct (decide (v = w)) as [->|Hn]; [split; [apply (mo_ok _ _ _ _ M) | exact Ep] | rewrite (mo_rest _ _ _ _ M v Hn); apply K]. }
  destruct (IH s1 K1) as (s' & E' & H'). exists s'. split; [exact E' |]. intros v. destruct (H' v) as (A1 & A2 & A3). split; [exact A1 |].
  rewrite instructions_cons, flat_map_app, last_app, A2, A3. destruct (Z.eqb_spec w v) as [<-|Hn].
  - split; [| rewrite Em; destruct (last (instructions w prog)); reflexivity]. rewrite (mo_shown _ _ _ _ M). cbn [flat_map]. rewrite app_nil_r. unfold due at 1, meaning_plain at 2.
    rewrite Em. unfold due. destruct (untraced x); cbn [negb]; rewrite <- !app_assoc; reflexivity.
  - rewrite (mo_rest _ _ _ _ M v) by congruence. split; [reflexivity |]. destruct (last (instructions v prog)); reflexivity.
Qed.

(** ** The end of the guest *)

(** [x'] is [x] with its run written out and the exit after it. *)
Definition closed (x x' : Vcpu) : Prop :=
  unfolded (ring x') = shown x ++ [exit_command] /\ Forall (fun c => valid c /\ run_sized c) (ring x').

Lemma exit_one v s : configured v -> vcpu_ok (vcpus s v) -> exists s', exit_vcpu P v s = Ok s' /\
  closed (vcpus s v) (vcpus s' v) /\ forall w, w <> v -> vcpus s' w = vcpus s w.
Proof.
  intros Hv K. unfold exit_vcpu. destruct (flush_full v s Hv (proj1 K)) as (s1 & -> & M & Hc & _). cbn [mbind result_bind].
  eexists. split; [reflexivity |]. unfold writeMessage. split.
  - rewrite put_at. cbn. destruct (mo_ok _ _ _ _ M) as [[_ _ _ R] _]. split.
    + cbn. rewrite unfolded_app, (unfolded_one exit_command) by discriminate. f_equal.
      pose proof (mo_shown _ _ _ _ M) as Hs. rewrite app_nil_r in Hs. rewrite <- Hs. unfold shown. rewrite Hc. cbn. rewrite app_nil_r. reflexivity.
    + cbn. apply Forall_app. split; [exact R | apply Forall_singleton]. split; [| discriminate]. destruct zeros_ok.
      split; [split; cbn; auto; word | cbn; lia].
  - intros w Hw. rewrite put_off by exact Hw. apply (mo_rest _ _ _ _ M w Hw).
Qed.

Lemma exits_closed l : NoDup l -> Forall configured l -> forall s, (forall v, vcpu_ok (vcpus s v)) ->
  exists s', each (exit_vcpu P) l s = Ok s' /\ forall v, v ∈ l -> closed (vcpus s v) (vcpus s' v).
Proof.
  intros Hd Hl.
  assert (G : forall s, (forall v, v ∈ l -> vcpu_ok (vcpus s v)) -> exists s', each (exit_vcpu P) l s = Ok s' /\
    (forall v, v ∈ l -> closed (vcpus s v) (vcpus s' v)) /\ forall v, v ∉ l -> vcpus s' v = vcpus s v).
  { induction Hd as [|w l Hw Hd IH]; intros s K; cbn [each].
    { exists s. split; [reflexivity | split; [intros v Hv; apply elem_of_nil in Hv as [] | auto]]. }
    apply Forall_cons in Hl as [Hwc Hl]. destruct (exit_one w s Hwc (K w ltac:(left))) as (s1 & -> & C1 & R1). cbn [mbind result_bind].
    destruct (IH Hl s1) as (s2 & E2 & C2 & R2).
    { intros v Hv. rewrite R1 by (intros ->; contradiction). apply K. right. exact Hv. }
    exists s2. split; [exact E2 |]. split.
    - intros v Hv. apply elem_of_cons in Hv as [->|Hv]; [rewrite R2 by exact Hw; exact C1 |].
      rewrite <- (R1 v) by (intros ->; contradiction). apply C2, Hv.
    - intros v Hv. apply not_elem_of_cons in Hv as [Hn Hv]. rewrite R2, R1 by assumption. reflexivity. }
  intros s K. destruct (G s) as (s' & E & C & _); [auto |]. eauto.
Qed.
(** The vCPUs QEMU has are the configured ones. *)
Context (Hn : 1 <= configured_vcpus P <= PLUGIN_MAX_VCPUS).

Lemma trace_closed s : (forall v, vcpu_ok (vcpus s v)) -> exists s', cb_atexit P (configured_vcpus P) s = Ok s' /\
  forall v, 0 <= v < configured_vcpus P -> closed (vcpus s v) (vcpus s' v).
Proof.
  intros K. unfold cb_atexit. rewrite (proj2 (Z.leb_gt _ 0)) by lia.
  destruct (exits_closed (seqZ 0 (configured_vcpus P)) (NoDup_seqZ _ _)) with (s := s) as (s' & E & C); [| exact K |].
  - apply Forall_forall. intros v Hv. apply elem_of_seqZ in Hv. unfold configured. lia.
  - exists s'. split; [exact E |]. intros v Hv. apply C, elem_of_seqZ. lia.
Qed.


(** On a target without a decoder the trace is one [NOP] ahead: it begins with
    one for no instruction, and the last instruction's own is never written.
    The instructions reported are those executed, and one more when the last
    one accessed memory. *)
Lemma plain_trace prog : usesPreciseMemCallbacks (classifier P) = false -> prog_ok prog ->
  exists s, (s ← run_guest prog plugin0; cb_atexit P (configured_vcpus P) s) = Ok s /\
  forall v, 0 <= v < configured_vcpus P -> exists l,
    unfolded (ring (vcpus s v)) = l ++ [exit_command] /\
    l ++ (if from_option untraced true (last (instructions v prog)) then [nop QUETZ_INSN_OTHER] else []) =
      nop QUETZ_INSN_OTHER :: flat_map meaning_plain (instructions v prog).
Proof.
  intros Hp Hprog. destruct (plain_more prog Hp Hprog plugin0) as (s1 & -> & H1); [intros v; split; [apply plugin0_ok | reflexivity] |].
  cbn [mbind result_bind]. destruct (trace_closed s1 (fun v => proj1 (H1 v))) as (s2 & E2 & H2). exists s2. split; [exact E2 |].
  intros v Hv. destruct (H2 v Hv) as [C1 _], (H1 v) as (_ & A2 & A3). exists (shown (vcpus s1 v)). split; [exact C1 |].
  change (shown (vcpus plugin0 v)) with (@nil QuetzCommand) in A2. change (due (vcpus plugin0 v)) with [nop QUETZ_INSN_OTHER] in A2.
  unfold due in A2. rewrite A3 in A2. cbn [app] in A2. rewrite <- A2. f_equal.
  destruct (last (instructions v prog)) as [x|]; cbn; [destruct (untraced x) |]; reflexivity.
Qed.

(** ** From the guest to the memory system *)

Lemma effects_unfolded ctx t0 l : flat_map (effects ctx t0) (unfolded l) = flat_map (effects ctx t0) (flat_map expand l).
Proof.
  unfold unfolded. induction (flat_map expand l) as [|c l' IH]; [reflexivity |]. cbn. rewrite IH. f_equal.
  unfold erase. destruct (bool_decide_reflect (cmd c = CMD_NOP)) as [E|E]; [| reflexivity]. unfold effects. cbn. rewrite E. reflexivity.
Qed.

End Trace.

(** ** The theorems at concrete inputs *)

(** A RISC-V guest on one vCPU: an addition, a store, a load from the window. *)
Definition demo_plugin (k : InsnClassifier) : PluginConfig := mkPluginConfig k false 1 0 0 0x8000 0x100.
Definition demo_prog : list (Z * Executed) :=
  [(0, mkExecuted 0x100 [0x33; 0; 0; 0] (fun _ => 0) 0 []);
   (0, mkExecuted 0x104 [0x23; 0x20; 0; 0] (fun _ => 0) 0 [mkAccess true 2 0x40 (U32 7)]);
   (0, mkExecuted 0x108 [0x03; 0x20; 0; 0] (fun _ => 0) 0 [mkAccess false 2 0x8010 (U32 0)])].

Lemma demo_prog_ok k : prog_ok (demo_plugin k) demo_prog.
Proof.
  unfold prog_ok, demo_prog. repeat (apply Forall_cons; split); try apply Forall_nil_2; (split; [unfold configured; cbn; unfold PLUGIN_MAX_VCPUS; lia |]).
  all: split; cbn; try word; try discriminate.
  all: unfold bytes_ok; repeat (apply Forall_cons; split); try apply Forall_nil_2; try word.
  all: split; vm_compute; intuition discriminate.
Qed.
Lemma demo_vcpus k : 1 <= configured_vcpus (demo_plugin k) <= PLUGIN_MAX_VCPUS.
Proof. unfold PLUGIN_MAX_VCPUS. cbn. lia. Qed.


Lemma plain_trace_witness : exists s l,
  (s ← run_guest (demo_plugin GenericInsnClassifier) demo_prog plugin0; cb_atexit (demo_plugin GenericInsnClassifier) 1 s) = Ok s /\
  unfolded (ring (vcpus s 0)) = l ++ [exit_command] /\ length l = 3%nat.
Proof.
  destruct (plain_trace (demo_plugin GenericInsnClassifier) (demo_vcpus _) demo_prog eq_refl (demo_prog_ok _)) as (s & E & H).
  destruct (H 0 ltac:(cbn; lia)) as (l & E1 & E2). exists s, l. split; [exact E | split; [exact E1 |]].
  apply (f_equal length) in E2. rewrite length_app in E2.
  match type of E2 with (_ + ?a = ?b)%nat => assert (Ha : a = 1%nat) by (vm_compute; reflexivity); assert (Hb : b = 4%nat) by (vm_compute; reflexivity) end.
  lia.
Defined.

