(* ===== verification/CpuSyncThm.v ===== *)
(** * A mailbox command of a cached window is one access of the guest's memory

    The composition of [CpuSync.v] with the window cache, the native RAM and a
    memory behind the MMIO link: whatever mix of native and link actions a
    transaction needs, the poll and the responses that follow post one answer,
    and it is the one the guest's memory gives. *)
From S2P Require Import Prelude.
From S2P Require Import Backing.
From S2P Require Import WindowCache.
From S2P Require Import WindowCacheSpec.
From S2P Require Import WindowCacheThm.
From S2P Require Import WindowCacheActions.
From S2P Require Import WindowCacheBank.
From S2P Require Import NativeRam.
From S2P Require Import StdMem.
From S2P Require Import AcceleratorPort.
From S2P Require Import Command.
From S2P Require Import CpuSync.

Section Thm.
Context {A : Type} `{AcceleratorPort A}.
Variable cfg : Config.
Implicit Types (s : Cpu A) (m : mem).

(** ** The memory behind the link *)

(** The answer to a request on the MMIO link. *)
Definition answer_link (m : mem) (h : HostCall) : option (Resp * mem) :=
  match h with
  | SendRead _ r => Some (ReadR (rd_id r) (mread m (rd_addr r) (rd_size r)), m)
  | SendWrite _ w => Some (WriteR (wr_id w), mwrite m (wr_addr w) (wr_data w))
  | _ => None
  end.

(** The requests from event [k] on are answered in order, until none is left. *)
Fixpoint run_link (fuel : nat) (Q : HostState) (v : Z) (k : nat) s m : result (Cpu A * mem) :=
  match fuel with
  | O => Throw OutOfFuel "run_link"
  | S fuel =>
      match out s !! k with
      | None => Ok (s, m)
      | Some h =>
          match answer_link m h with
          | None => run_link fuel Q v (S k) s m
          | Some (r, m) =>
              '(_, s) ← completeMmioSyncResponse Q v r false s;
              run_link fuel Q v (S k) s m
          end
      end
  end.

(** A transaction has at most 32 requests, one statistic and one answer. *)
Definition link_fuel : nat := 40.

(** ** Between transactions, and frames *)

Definition holds_cache (v : Z) (c : WindowDataCache) s : Prop :=
  states (window_caches s) !! Z.to_nat v = Some (mkState c false).
Definition ids_fresh s : Prop :=
  forall id, is_Some (WindowCacheBank.pending (window_caches s) !! id) -> id < next_id s.

(** What a transaction of vCPU [v] leaves alone. *)
Record rest_same (v : Z) s s' : Prop :=
  { rs_states : forall i, i <> Z.to_nat v -> states (window_caches s') !! i = states (window_caches s) !! i;
    rs_pending : WindowCacheBank.pending (window_caches s') = WindowCacheBank.pending (window_caches s);
    rs_generic : generic_pending s' = generic_pending s;
    rs_ports : accel_ports s' = accel_ports s;
    rs_req : mmio_req s' = mmio_req s;
    rs_epoch : cpu_reset_epoch s' = cpu_reset_epoch s;
    rs_epochs : cache_reset_epochs s' = cache_reset_epochs s;
    rs_next : next_id s <= next_id s' }.

Lemma rest_same_refl v s : rest_same v s s.
Proof. constructor; auto; lia. Qed.
Lemma rest_same_trans v s1 s2 s3 : rest_same v s1 s2 -> rest_same v s2 s3 -> rest_same v s1 s3.
Proof.
  intros [] []. constructor; try congruence; [| lia].
  intros i Hi. rewrite rs_states1, rs_states0 by exact Hi. reflexivity.
Qed.

Lemma ids_fresh_same v s s' : rest_same v s s' -> ids_fresh s -> ids_fresh s'.
Proof. intros R F id. rewrite (rs_pending v s s' R). intros Hi. pose proof (F id Hi). destruct R; lia. Qed.

(** ** Storing a cache *)

Lemma holds_with_cache v c c' s : holds_cache v c s -> holds_cache v c' (with_cache v c' s).
Proof.
  intros Hc. rewrite (with_cache_eq v c c' s false Hc). unfold holds_cache. cbn.
  apply list_lookup_insert_eq, (lookup_lt_Some _ _ _ Hc).
Qed.

Lemma with_cache_same v c s c' : holds_cache v c s -> rest_same v s (with_cache v c' s).
Proof.
  intros Hc. rewrite (with_cache_eq v c c' s false Hc). constructor; try reflexivity.
  intros i Hi. cbn. apply list_lookup_insert_ne. congruence.
Qed.

Lemma with_cache_shared v c s c' : holds_cache v c s -> shared (with_cache v c' s) = shared s /\ out (with_cache v c' s) = out s.
Proof. intros Hc. rewrite (with_cache_eq v c c' s false Hc). auto. Qed.

(** ** One action *)

(** [t] is [s] with a finished transaction answered. *)
Definition finished (v : Z) s (t : Cpu A) (bs : list Z) (c' : WindowDataCache) (sh : Shared) : Prop :=
  holds_cache v c' t /\ shared t = sh /\ rest_same v s t /\
  exists mid, out t = out s ++ mid ++ [PostResponse v (be_value bs)] /\ forall w, posts w mid = 0.

Lemma finished_more v s s1 t bs c' sh es : rest_same v s s1 -> out s1 = out s ++ es ->
  (forall w, posts w es = 0) -> finished v s1 t bs c' sh -> finished v s t bs c' sh.
Proof.
  intros R Ho He (? & ? & R' & mid & Hm & Hp). split; [assumption | split; [assumption |]].
  split; [eapply rest_same_trans; eassumption |]. exists (es ++ mid). split.
  - rewrite Hm, Ho, <- !app_assoc. reflexivity.
  - intros w. rewrite posts_app, He, Hp. reflexivity.
Qed.

Lemma cache_holds v c s : holds_cache v c s -> cache v (window_caches s) = Ok c.
Proof. intros Hc. unfold cache, at_. rewrite Hc. reflexivity. Qed.

(** The request an action on the link makes. *)
Definition request_of (v id : Z) (a : Action) : HostCall :=
  if bool_decide (act_kind a = Read) then SendRead v (mkRead id (act_address a) (act_size a))
  else SendWrite v (mkWrite id (act_address a) (act_size a) (act_bytes a) false).

(** [s] with the transaction of vCPU [v] waiting for the answer to [a]. *)
Definition waiting (v : Z) (c : WindowDataCache) (a : Action) s : Cpu A :=
  call (request_of v (next_id s) a)
    (s <| next_id := next_id s + 1 |>
       <| window_caches := set_state v (mkState c true) (window_caches s) <| WindowCacheBank.pending ::=
            <[next_id s := mkPending v (bool_decide (act_kind a = Read))]> |> |>).

Lemma send_waits v c c1 a s : holds_cache v c s -> ids_fresh s -> WindowCache.active c1 = true ->
  issued v (next_id s) (bool_decide (act_kind a = Read)) (window_caches (with_cache v c1 s)) =
  Ok (set_state v (mkState c1 true) (window_caches s) <| WindowCacheBank.pending ::=
            <[next_id s := mkPending v (bool_decide (act_kind a = Read))]> |>).
Proof.
  intros Hc Hf Ha. rewrite (with_cache_eq v c c1 s false Hc). cbn [window_caches update_field].
  unfold issued, at_. cbn. rewrite list_lookup_insert_eq by apply (lookup_lt_Some _ _ _ Hc). cbn.
  rewrite Ha, (bool_decide_false (is_Some _)); [| intros Hs; specialize (Hf _ Hs); lia]. cbn.
  unfold set_state. cbn. rewrite list_insert_insert_eq. reflexivity.
Qed.

Lemma issue_service fuel v c c1 a s : holds_cache v c s -> ids_fresh s -> next c = Ok (a, c1) ->
  WindowCache.active c1 = true -> act_kind a <> Done -> native_at (shared s) (act_address a) (act_size a) = Ok None ->
  service (S fuel) v s = Ok (waiting v c1 a s).
Proof.
  intros Hc Hf E Ha Hk Hn. cbn [service]. rewrite (cache_holds v c s Hc). cbn [mbind result_bind]. rewrite E. cbn [mbind result_bind].
  destruct (with_cache_shared v c s c1 Hc) as [Hsh _]. rewrite Hsh, Hn. cbn [mbind result_bind].
  assert (Hi : next_id (with_cache v c1 s) = next_id s) by (rewrite (with_cache_eq v c c1 s false Hc); reflexivity).
  rewrite !Hi. unfold waiting, request_of.
  destruct (act_kind a) eqn:Ek; [congruence | |]; cbn [mbind result_bind];
    (rewrite <- Ek at 1 || idtac); pose proof (send_waits v c c1 a s Hc Hf Ha) as Hw; rewrite Ek in Hw; rewrite Hw;
    cbn [mbind result_bind]; rewrite (with_cache_eq v c c1 s false Hc); reflexivity.
Qed.

(** The state the answer leaves, before the transaction goes on. *)
Definition resumed (v : Z) (c : WindowDataCache) (a : Action) s : Cpu A :=
  s <| next_id := next_id s + 1 |> <| out ::= fun l => l ++ [request_of v (next_id s) a] |>
    <| window_caches := set_state v (mkState c false) (window_caches s) |>.

Lemma answer_resumes Q v c c1 c2 a s m : holds_cache v c s -> ids_fresh s -> act_kind a <> Done ->
  WindowCache.complete (if bool_decide (act_kind a = Read) then mread m (act_address a) (act_size a) else []) c1 = Ok c2 ->
  exists r, answer_link m (request_of v (next_id s) a) =
      Some (r, if bool_decide (act_kind a = Read) then m else mwrite m (act_address a) (act_bytes a)) /\
    completeMmioSyncResponse Q v r false (waiting v c1 a s) =
      (s ← or_fatal (serviceWindowCache v (resumed v c2 a s)); Ok (true, s)).
Proof.
  intros Hc Hf Hk E. pose proof (lookup_lt_Some _ _ _ Hc) as Hlt.
  assert (Hb : WindowCacheBank.pending (window_caches s) !! next_id s = None).
  { destruct (_ !! _) eqn:Ep; [| reflexivity]. specialize (Hf (next_id s)). rewrite Ep in Hf. specialize (Hf ltac:(eauto)). lia. }
  assert (Hd : forall x, delete (next_id s) (<[next_id s := x]> (WindowCacheBank.pending (window_caches s))) =
               WindowCacheBank.pending (window_caches s)) by (intros x; rewrite delete_insert_id; auto).
  assert (Hw : forall r (read : bool), read = bool_decide (act_kind a = Read) -> resp_id r = next_id s ->
    (match r with ReadR _ _ => true | _ => false end) = read ->
    (match r with WriteR _ => true | _ => false end) = negb read ->
    (match r with ReadR _ d => d | _ => [] end) = (if read then mread m (act_address a) (act_size a) else []) ->
    completeMmioSyncResponse Q v r false (waiting v c1 a s) =
      (s ← or_fatal (serviceWindowCache v (resumed v c2 a s)); Ok (true, s))).
  { intros r read Hread Hid Hr Hw Hdat. unfold completeMmioSyncResponse, waiting. rewrite <- Hread in *. cbn [call window_caches update_field].
    cbn. rewrite Hid, lookup_insert_eq. cbn.
    unfold answered_cache. cbn. rewrite Z.eqb_refl, Hr, Hw. rewrite throw_if_false by (destruct read; reflexivity).
    unfold WindowCacheBank.complete. cbn. rewrite Hid, lookup_insert_eq. cbn. rewrite Z.eqb_refl, eqb_reflx. cbn.
    unfold at_. cbn. rewrite list_lookup_insert_eq by exact Hlt. cbn. rewrite Hdat, E. cbn.
    unfold resumed, set_state. cbn. rewrite list_insert_insert_eq. rewrite Hd. reflexivity. }
  unfold request_of. destruct (act_kind a) eqn:Ek; [congruence | |]; cbn; (eexists; split; [reflexivity |]); apply (Hw _ _ eq_refl); reflexivity.
Qed.

Lemma resumed_holds v c c2 a s : holds_cache v c s -> holds_cache v c2 (resumed v c2 a s).
Proof. intros Hc. unfold holds_cache. cbn. apply list_lookup_insert_eq, (lookup_lt_Some _ _ _ Hc). Qed.
Lemma resumed_same v c2 a s : rest_same v s (resumed v c2 a s).
Proof. constructor; try reflexivity; [| cbn; lia]. intros i Hi. cbn. apply list_lookup_insert_ne. congruence. Qed.
Lemma request_posts v a id w : posts w [request_of v id a] = 0.
Proof. unfold request_of. destruct (bool_decide _); reflexivity. Qed.

Lemma complete_active data c c' : WindowCache.complete data c = Ok c' -> WindowCache.active c = true.
Proof. unfold WindowCache.complete. destruct (WindowCache.active c); [reflexivity | discriminate]. Qed.

Lemma configured_answer sh m a : configured sh -> line_action a -> configured (answer (sh, m) a).2.1.
Proof.
  intros Hs [Hl Hw]. unfold answer. destruct (act_kind a) eqn:E; try exact Hs.
  apply (@bk_write_ok _ guest_backing guest_backing_laws (sh, m) (act_address a) (act_bytes a) Hs). rewrite Hw by reflexivity. exact Hl.
Qed.

(** An action on native RAM is done on the spot. *)
Lemma native_service fuel v c c1 c2 a p s m : holds_cache v c s -> next c = Ok (a, c1) -> act_kind a <> Done ->
  line_action a -> native_at (shared s) (act_address a) (act_size a) = Ok (Some p) ->
  WindowCache.complete (answer (shared s, m) a).1 c1 = Ok c2 ->
  exists s', service (S fuel) v s = service fuel v s' /\ holds_cache v c2 s' /\ rest_same v s s' /\ out s' = out s /\
    (answer (shared s, m) a).2 = (shared s', m).
Proof.
  intros Hc E Hk [Hl Hlen] Hn E2. pose proof (lookup_lt_Some _ _ _ Hc) as Hlt. cbn [service].
  rewrite (cache_holds v c s Hc). cbn [mbind result_bind]. rewrite E. cbn [mbind result_bind].
  destruct (with_cache_shared v c s c1 Hc) as [Hsh Ho]. rewrite Hsh, Hn. cbn [mbind result_bind].
  pose proof (holds_with_cache v c c1 s Hc) as Hc1. pose proof (with_cache_same v c s c1 Hc) as R1.
  unfold answer in *. destruct (act_kind a) eqn:Ek; [congruence | |]; cbn in E2.
  - unfold guest_read in E2. rewrite Hn in E2.
    rewrite bool_decide_true by reflexivity. rewrite E2. cbn [mbind result_bind].
    exists (with_cache v c2 (with_cache v c1 s)).
    destruct (with_cache_shared v c1 (with_cache v c1 s) c2 Hc1) as [Hsh2 Ho2].
    split; [reflexivity | split; [apply (holds_with_cache v c1 c2 _ Hc1) | split; [| split; [congruence | rewrite Hsh2, Hsh; reflexivity]]]].
    eapply rest_same_trans; [exact R1 | apply (with_cache_same v c1 _ c2 Hc1)].
  - rewrite bool_decide_false by discriminate. rewrite Hlen, Z.eqb_refl by reflexivity.
    cbn [negb throw_if mbind result_bind]. rewrite E2. cbn [mbind result_bind].
    set (t := with_cache v c1 s <| shared ::= store p (act_bytes a) |>).
    assert (Ht : holds_cache v c1 t) by exact Hc1.
    exists (with_cache v c2 t). destruct (with_cache_shared v c1 t c2 Ht) as [Hsh2 Ho2].
    split; [reflexivity | split; [apply (holds_with_cache v c1 c2 _ Ht) | split; [| split]]].
    + eapply rest_same_trans; [exact R1 | eapply rest_same_trans; [| apply (with_cache_same v c1 _ c2 Ht)]].
      constructor; auto; cbn; lia.
    + rewrite Ho2. exact Ho.
    + rewrite Hsh2. cbn. unfold guest_write. rewrite Hlen, Hn by reflexivity. reflexivity.
Qed.

Lemma link_answer sh m a : act_kind a <> Done -> line_action a -> native_at sh (act_address a) (act_size a) = Ok None ->
  (answer (sh, m) a).1 = (if bool_decide (act_kind a = Read) then mread m (act_address a) (act_size a) else []) /\
  (answer (sh, m) a).2 = (sh, if bool_decide (act_kind a = Read) then m else mwrite m (act_address a) (act_bytes a)).
Proof.
  intros Hk [_ Hlen] Hn. unfold answer. destruct (act_kind a) eqn:Ek; [congruence | |]; cbn.
  - unfold guest_read. rewrite Hn. auto.
  - unfold guest_write. rewrite Hlen, Hn by reflexivity. auto.
Qed.

(** The service loop and the responses that follow do what driving the
    transaction against the guest's memory does. *)
Lemma service_drives Q v n : forall fs fr c s m, tame n c (shared s, m) -> (n <= fs)%nat -> (n <= 32)%nat -> (n < fr)%nat ->
  holds_cache v c s -> ids_fresh s -> configured (shared s) ->
  exists s1, service fs v s = Ok s1 /\ exists bs c' sh m' t,
    drive n c (shared s, m) = Ok (bs, c', (sh, m')) /\
    run_link fr Q v (length (out s)) s1 m = Ok (t, m') /\ finished v s t bs c' sh.
Proof.
  induction n as [|n IH]; intros fs fr c s m T Hfs H32 Hfr Hc Hf Hcf; [destruct T |].
  destruct T as (a & c1 & E & Hk). destruct fs as [|fs]; [lia |]. destruct fr as [|fr]; [lia |].
  rewrite drive_S, E. cbn [mbind result_bind]. destruct Hk as [Hd|(Hk & Hl & c2 & E2 & T2)].
  - exists (call (PostResponse v (be_value (act_bytes a))) (with_cache v c1 s)). split.
    { cbn [service]. rewrite (cache_holds v c s Hc). cbn [mbind result_bind]. rewrite E. cbn [mbind result_bind]. rewrite Hd. reflexivity. }
    destruct (with_cache_shared v c s c1 Hc) as [Hsh Ho].
    exists (act_bytes a), c1, (shared s), m, (call (PostResponse v (be_value (act_bytes a))) (with_cache v c1 s)).
    split; [rewrite Hd; reflexivity | split].
    + destruct fr as [|fr]; [lia |]. cbn [run_link].
      assert (E1 : out (call (PostResponse v (be_value (act_bytes a))) (with_cache v c1 s)) = out s ++ [PostResponse v (be_value (act_bytes a))])
        by reflexivity.
      rewrite E1. rewrite (list_lookup_middle (out s) [] (PostResponse v (be_value (act_bytes a))) (length (out s)) eq_refl).
      cbn [answer_link]. rewrite (proj2 (lookup_ge_None (out s ++ _) _)); [reflexivity |]. rewrite length_app. cbn. lia.
    + split; [apply (holds_with_cache v c c1 s Hc) | split; [exact Hsh | split; [destruct (with_cache_same v c s c1 Hc); constructor; assumption |]]].
      exists []. split; reflexivity.
  - assert (Hm : match act_kind a with
        | Done => Ok (act_bytes a, c1, (shared s, m))
        | Read => WindowCache.complete (bk_read (shared s, m) (act_address a) (act_size a)) c1 ≫= fun c => drive n c (shared s, m)
        | Write => WindowCache.complete [] c1 ≫= fun c => drive n c (bk_write (shared s, m) (act_address a) (act_bytes a))
        end = drive n c2 (answer (shared s, m) a).2).
    { unfold answer in *. destruct (act_kind a); [congruence | |]; cbn [fst snd] in *; rewrite E2; reflexivity. }
    pose proof (configured_answer (shared s) m a Hcf Hl) as Hcf2.
    pose proof (native_at_spec (shared s) Hcf _ _ (proj1 Hl)) as Hn.
    destruct (region_at (act_address a) (live (shared s))) as [r|]; cbn [fmap option_fmap option_map] in Hn.
    + destruct (native_service fs v c c1 c2 a _ s m Hc E Hk Hl Hn E2) as (s' & Es & Hc' & R & Ho & Ea).
      rewrite Ea in T2, Hcf2, Hm.
      destruct (IH fs (S fr) c2 s' m T2) as (s1 & E1 & bs & c' & sh & m' & t & D & L & F); try assumption; try lia.
      { apply (ids_fresh_same v s s' R Hf). }
      exists s1. split; [rewrite Es; exact E1 |]. exists bs, c', sh, m', t.
      split; [rewrite <- D; exact Hm | split; [rewrite <- Ho; exact L |]].
      apply (finished_more v s s' t bs c' sh []); [exact R | rewrite Ho, app_nil_r; reflexivity | reflexivity | exact F].
    + destruct (link_answer (shared s) m a Hk Hl Hn) as [Ea1 Ea2]. rewrite Ea1 in E2. rewrite Ea2 in T2, Hm.
      exists (waiting v c1 a s). split.
      { apply (issue_service fs v c c1 a s Hc Hf E); [apply (complete_active _ _ _ E2) | exact Hk | exact Hn]. }
      destruct (answer_resumes Q v c c1 c2 a s m Hc Hf Hk E2) as (r & Er & Ec).
      set (m1 := if bool_decide (act_kind a = Read) then m else _) in *.
      pose proof (resumed_same v c2 a s) as R. pose proof (resumed_holds v c c2 a s Hc) as Hc'.
      destruct (IH 32%nat fr c2 (resumed v c2 a s) m1) as (s1 & E1 & bs & c' & sh & m' & t & D & L & F); try assumption; try lia.
      { apply (ids_fresh_same v s _ R Hf). }
      exists bs, c', sh, m', t. split; [rewrite <- D; exact Hm |]. split.
      * cbn [run_link].
        change (out (waiting v c1 a s)) with (out s ++ [request_of v (next_id s) a]).
        rewrite (list_lookup_middle (out s) [] (request_of v (next_id s) a) (length (out s)) eq_refl), Er.
        rewrite Ec. change (serviceWindowCache v (resumed v c2 a s)) with (service 32 v (resumed v c2 a s)). rewrite E1.
        cbn [or_fatal mbind result_bind]. rewrite <- L. f_equal. cbn. rewrite length_app. cbn. lia.
      * apply (finished_more v s (resumed v c2 a s) t bs c' sh [request_of v (next_id s) a]); auto.
        intros w. apply request_posts.
Qed.

(** ** The payload *)

Lemma le_bytes_fmap n v : le_bytes n v = (fun i => Z.land (Z.shiftr v (8 * i)) 255) <$> seqZ 0 (Z.of_nat n).
Proof.
  apply list_eq_total; [rewrite length_le_bytes, length_fmap, length_seqZ; lia |].
  rewrite length_le_bytes. intros i Hi. symmetry. erewrite list_lookup_total_correct; [| apply list_lookup_fmap_Some; exists i; split; [reflexivity | apply lookup_seqZ; lia]].
  symmetry. assert (Hn : (Z.to_nat i < n)%nat) by lia. replace (8 * i) with (8 * Z.of_nat (Z.to_nat i)) by lia. generalize (Z.to_nat i), Hn.
  clear. intros k. revert n v. induction k as [|k IH]; intros [|n] v Hn; try lia; cbn [le_bytes].
  - cbn. rewrite Z.shiftr_0_r. reflexivity.
  - etransitivity; [apply (IH n (Z.shiftr v 8)); lia |]. rewrite Z.shiftr_shiftr by lia. do 2 f_equal. lia.
Qed.

Lemma payload_le n v : 0 <= n <= 64 -> payload false n v = le_bytes (Z.to_nat n) v.
Proof.
  intros Hn. rewrite le_bytes_fmap. unfold payload, QUETZ_CMD_DATA_BYTES. rewrite Z.min_l by lia.
  rewrite Z2Nat.id by lia. reflexivity.
Qed.

Lemma payload_be n v : 0 <= n <= 64 -> payload true n v = be_bytes (Z.to_nat n) v.
Proof.
  intros Hn. unfold be_bytes. rewrite le_bytes_fmap, <- fmap_reverse.
  unfold payload, QUETZ_CMD_DATA_BYTES. rewrite Z.min_l by lia. rewrite Z2Nat.id by lia.
  apply list_eq_total; [rewrite !length_fmap, length_reverse, !length_seqZ; lia |].
  rewrite length_fmap, length_seqZ. intros i Hi.
  erewrite !list_lookup_total_correct; [reflexivity | | ].
  - apply list_lookup_fmap_Some. exists (n - 1 - i). split; [reflexivity |].
    rewrite reverse_lookup by (rewrite length_seqZ; lia). rewrite length_seqZ. apply lookup_seqZ. lia.
  - apply list_lookup_fmap_Some. exists i. split; [reflexivity |]. apply lookup_seqZ. lia.
Qed.

Lemma take_padded bs n : n = length bs -> take n (padded bs) = bs.
Proof. intros ->. apply take_app_length. Qed.

Lemma length_payload be n v : 0 <= n <= 64 -> length (payload be n v) = Z.to_nat n.
Proof. intros Hn. destruct be; [rewrite payload_be, length_be_bytes | rewrite payload_le, length_le_bytes]; auto. Qed.

(** ** A cached access through the mailbox *)

(** vCPU [v] has cache [c], between transactions, over the shared segment and
    the memory behind the link; no reset is due. *)
Record ready (v : Z) (c : WindowDataCache) s m : Prop :=
  { rd_vcpu : 0 <= v < vcpu_count cfg;
    rd_enabled : sst_window_cache cfg = true;
    rd_mmio : has_mmio cfg v = true;
    rd_cache : holds_cache v c s;
    rd_idle : idle c (shared s, m);
    rd_fresh : ids_fresh s;
    rd_reset : cpu_reset_epoch s !!! Z.to_nat v = cache_reset_epochs s !!! Z.to_nat v }.

(** Both caches of a bank have the same regions. *)
Definition same_regions (c : WindowDataCache) s : Prop :=
  exists c0 o, states (window_caches s) !! 0%nat = Some (mkState c0 o) /\ regions c0 = regions c.

(** The request in slot [v], and the state with the slot released. *)
Definition requested (v : Z) (r : Request) s : Prop :=
  mmio_req s !! Z.to_nat v = Some r /\ rq_pending r = true.
Definition released (v : Z) (r : Request) s : Cpu A :=
  s <| mmio_req ::= <[Z.to_nat v := r <| rq_pending := false |>]> |>.

Lemma poll_slot_requested Q v c s m r : ready v c s m -> requested v r s ->
  poll_slot cfg Q v s =
  (c ← decode cfg r (released v r s); '(_, s) ← handleMmioSyncCommand cfg Q v c (released v r s); Ok s).
Proof.
  intros Hr [H1 H2]. unfold poll_slot, poll_reset. rewrite (rd_reset v c s m Hr), Z.eqb_refl, andb_false_r.
  cbn [mbind result_bind]. rewrite (list_lookup_total_correct _ _ _ H1), H2. reflexivity.
Qed.

(** The part of [handleMmioSyncCommand] for the cache. *)
Lemma handle_cached Q v c s m k : ready v c s m -> cmd k = CMD_CACHE_OP \/ contains c (addr k) = true ->
  handleMmioSyncCommand cfg Q v k s = (s ← or_fatal (start_cached v k c s ≫= serviceWindowCache v); Ok (true, s)).
Proof.
  intros Hr Hk. destruct Hr as [Hv He Hm Hc _ _ _]. unfold handleMmioSyncCommand.
  rewrite throw_if_false by (apply Z.leb_gt; lia). rewrite (cache_holds v c s Hc), He, Hm.
  destruct (bool_decide_reflect (cmd k = CMD_CACHE_OP)) as [E|E]; cbn [mbind result_bind negb orb throw_if].
  - reflexivity.
  - destruct Hk as [? | ->]; [contradiction |]. reflexivity.
Qed.

(** The log only grows. *)
Lemma service_log fuel v : forall s s', service fuel v s = Ok s' -> exists es, out s' = out s ++ es.
Proof.
  assert (W : forall c s, out (with_cache v c s) = out s) by reflexivity.
  induction fuel as [|fuel IH]; intros s s'; cbn [service]; [discriminate |]. intros E. inv_ok.
  destruct a0 as [a0 c1]. destruct (act_kind a0); inv_ok.
  - subst s'. eexists. reflexivity.
  - destruct a1 as [p|].
    + rewrite bool_decide_true in E by reflexivity. inv_ok. exact (IH _ _ E).
    + inv_ok. subst s'. eexists. reflexivity.
  - destruct a1 as [p|].
    + rewrite bool_decide_false in E by discriminate. inv_ok. exact (IH _ _ E).
    + inv_ok. subst s'. eexists. reflexivity.
Qed.

(** From the start of a transaction to its answer. *)
Lemma serve_started Q v c c1 s m es : holds_cache v c s -> ids_fresh s -> configured (shared s) ->
  tame 32 c1 (shared s, m) -> (forall h, In h es -> answer_link m h = None) -> (length es <= 1)%nat ->
  exists s1, serviceWindowCache v (with_cache v c1 s <| out ::= fun l => l ++ es |>) = Ok s1 /\
  exists bs c' sh m' t, drive 32 c1 (shared s, m) = Ok (bs, c', (sh, m')) /\
    run_link link_fuel Q v (length (out s)) s1 m = Ok (t, m') /\
    finished v (with_cache v c1 s <| out ::= fun l => l ++ es |>) t bs c' sh.
Proof.
  intros Hc Hf Hcf T He Hle. set (s2 := with_cache v c1 s <| out ::= fun l => l ++ es |>).
  destruct (with_cache_shared v c s c1 Hc) as [Hsh Ho].
  assert (E2 : shared s2 = shared s /\ out s2 = out s ++ es) by (split; [exact Hsh | unfold s2; cbn; reflexivity]).
  destruct E2 as [E2 Eo].
  assert (H2 : holds_cache v c1 s2) by apply (holds_with_cache v c c1 s Hc).
  assert (F2 : ids_fresh s2) by apply (ids_fresh_same v s _ (with_cache_same v c s c1 Hc) Hf).
  rewrite <- E2 in T, Hcf |- *.
  destruct (service_drives Q v 32 32 (link_fuel - length es) c1 s2 m T) as (s1 & E1 & bs & c' & sh & m' & t & D & L & F);
    try assumption; try (unfold link_fuel; lia).
  exists s1. split; [exact E1 |]. exists bs, c', sh, m', t. split; [exact D | split; [| exact F]].
  rewrite Eo, length_app in L. destruct es as [|h [|]]; cbn in Hle; try lia.
  { rewrite Nat.add_0_r in L. exact L. }
  change (link_fuel - length [h])%nat with 39%nat in L. change link_fuel with (S 39).
  rewrite Nat.add_1_r in L. generalize dependent 39%nat. intros n L. cbn [run_link].
  assert (Hh : out s1 !! length (out s) = Some h).
  { destruct (service_log 32 v s2 s1 E1) as (es' & Es). rewrite Es, Eo, <- app_assoc. apply list_lookup_middle. reflexivity. }
  rewrite Hh, He by (left; reflexivity). exact L.
Qed.

#[local] Strategy opaque [drive tame run_link service].

(** The poll of slot [v], and the answers of the link to what it sends. *)
Definition poll_and_link (Q : HostState) (v : Z) s m : result (Cpu A * mem) :=
  s1 ← poll_slot cfg Q v s; run_link link_fuel Q v (length (out s)) s1 m.

(** From [s], the request of slot [v] has been answered with [value]. *)
Definition answered_with (v value : Z) (r : Request) s (t : Cpu A) : Prop :=
  rest_same v (released v r s) t /\
  exists mid, out t = out s ++ mid ++ [PostResponse v value] /\ forall w, posts w mid = 0.

Lemma ready_released v c s m r : ready v c s m -> ready v c (released v r s) m.
Proof. intros []. constructor; assumption. Qed.

Lemma ready_after v c c1 c' s t m m' r bs sh es : ready v c s m -> (forall w, posts w es = 0) ->
  finished v (with_cache v c1 (released v r s) <| out ::= fun l => l ++ es |>) t bs c' sh ->
  idle c' (sh, m') -> ready v c' t m' /\ answered_with v (be_value bs) r s t.
Proof.
  intros Hr He (Hh & Hsh & R & mid & Hm & Hp) I. destruct Hr as [Hv Hen Hmm Hc _ Hf Hre].
  assert (R' : rest_same v (released v r s) t).
  { eapply rest_same_trans; [| exact R]. destruct (with_cache_same v c (released v r s) c1 Hc). constructor; assumption. }
  split; [constructor; try assumption |].
  - rewrite Hsh. exact I.
  - apply (ids_fresh_same v (released v r s) t R' Hf).
  - rewrite (rs_epoch _ _ _ R'), (rs_epochs _ _ _ R'). exact Hre.
  - split; [exact R' |]. exists (es ++ mid). split.
    + rewrite Hm. cbn. rewrite <- !app_assoc. reflexivity.
    + intros w. rewrite posts_app, He, Hp. reflexivity.
Qed.

Lemma decode_cached v c s r : same_regions c s -> sst_window_cache cfg = true -> window_big_endian cfg = true ->
  contains c (rq_addr r) = true -> 0 <= rq_size r <= 8 -> cmd_of (rq_cmd r) = CMD_MMIO_WRITE_REQ ->
  decode cfg r (released v r s) =
  Ok (mkCommand CMD_MMIO_WRITE_REQ (rq_size r) 0 (rq_addr r) 0 (padded (be_bytes (Z.to_nat (rq_size r)) (rq_val r)))).
Proof.
  intros (c0 & o & Hc0 & Hreg) He Hb Hco Hn Hcmd. unfold decode, windowBigEndian. rewrite Hcmd, He, Hb.
  unfold cache, at_. cbn [window_caches released update_field]. change (Z.to_nat 0) with 0%nat. rewrite Hc0. cbn [mbind result_bind s_cache].
  assert (contains c0 (rq_addr r) = true) as -> by (unfold contains, regionFor in *; rewrite Hreg; exact Hco).
  cbn [mbind result_bind andb]. rewrite (proj2 (Z.leb_le _ _)) by lia. rewrite payload_be by lia. reflexivity.
Qed.

Lemma bad_access_contains c x n w bs : bad_access c x n w bs = false -> 0 <= n -> contains c x = true /\ 0 < n <= 8.
Proof.
  unfold bad_access, contains. rewrite !orb_false_iff. intros (((H1 & H2) & H3) & _) Hn.
  apply Z.eqb_neq in H1. apply Z.ltb_ge in H2. destruct (regionFor c x); [split; [reflexivity | lia] | discriminate].
Qed.

Lemma mailbox_access_ok Q v c s m r (w : bool) : ready v c s m -> same_regions c s -> window_big_endian cfg = true ->
  requested v r s -> cmd_of (rq_cmd r) = (if w then CMD_MMIO_WRITE_REQ else CMD_MMIO_READ_REQ) ->
  is_u64 (rq_addr r) -> 0 <= rq_size r ->
  let bs := be_bytes (Z.to_nat (rq_size r)) (rq_val r) in
  bad_access c (rq_addr r) (rq_size r) w bs = false ->
  exists t m' c' value, poll_and_link Q v s m = Ok (t, m') /\ ready v c' t m' /\ same_controls c c' /\
    answered_with v value r s t /\
    if w then value = 0 /\ view c' (shared t, m') ≐ mwrite (view c (shared s, m)) (rq_addr r) bs
    else value = be_value (mread (view c (shared s, m)) (rq_addr r) (rq_size r)) /\
         view c' (shared t, m') ≐ view c (shared s, m).
Proof.
  intros Hr Hsr Hwb Hq Hcmd Hx Hn bs Hb. destruct (bad_access_contains _ _ _ _ _ Hb Hn) as [Hco Hn8].
  set (s0 := released v r s). pose proof (ready_released v c s m r Hr) as Hr0. fold s0 in Hr0.
  set (bs' := if w then bs else []).
  assert (Hb' : bad_access c (rq_addr r) (rq_size r) w bs' = false).
  { unfold bs'. destruct w; [exact Hb |]. unfold bad_access in *. cbn [andb] in *. exact Hb. }
  destruct (access_txn c (shared s, m) _ _ w bs' (rd_idle v c s m Hr) Hx Hn Hb') as (c1 & E1 & T & P & Hm & _).
  pose proof (access_transparent_ok c (shared s, m) _ _ w bs' (rd_idle v c s m Hr) Hx Hn Hb') as (o & c' & b' & Ed & I' & SC & Hview).
  unfold access in Ed. rewrite E1 in Ed. cbn [mbind result_bind] in Ed. change drive_fuel with 32%nat in Ed, Hm.
  set (k := mkCommand (if w then CMD_MMIO_WRITE_REQ else CMD_MMIO_READ_REQ) (rq_size r) 0 (rq_addr r) 0 (padded bs')).
  assert (Edec : decode cfg r s0 = Ok k).
  { unfold k, bs'. destruct w.
    - apply (decode_cached v c s r); try assumption; [apply Hr | lia].
    - unfold decode. rewrite Hcmd. reflexivity. }
  assert (Est : start_cached v k c s0 = Ok (with_cache v c1 s0 <| out ::= fun l => l ++ [RecordSyncRequest v (negb w)] |>)).
  { unfold start_cached, k. destruct w; cbn [cmd addr size data].
    - rewrite throw_if_false by (apply Z.ltb_ge; unfold QUETZ_CMD_DATA_BYTES; lia).
      rewrite bool_decide_true by reflexivity. rewrite take_padded by (unfold bs', bs; rewrite length_be_bytes; reflexivity).
      rewrite E1. reflexivity.
    - rewrite throw_if_false by (apply Z.ltb_ge; unfold QUETZ_CMD_DATA_BYTES; lia).
      rewrite bool_decide_false by discriminate. change (@nil Z) with bs'. rewrite E1. reflexivity. }
  destruct (serve_started Q v c c1 s0 m [RecordSyncRequest v (negb w)]) as (s1 & Es & bs2 & c2 & sh & m' & t & D & L & F).
  - apply Hr0.
  - apply Hr0.
  - apply (rd_idle v c s m Hr).
  - apply (txn_tame _ 32 c1 (shared s, m) T P Hm).
  - intros h [<-|[]]. reflexivity.
  - cbn. lia.
  - assert (ED : Ok (bs2, c2, (sh, m')) = Ok (o, c', b')) by (rewrite <- D; exact Ed).
    injection ED as -> -> <-.
    destruct (ready_after v c c1 c' s t m m' r o sh [RecordSyncRequest v (negb w)] Hr) as [Hrt Hat].
    + intros u. reflexivity.
    + exact F.
    + exact I'.
    + exists t, m', c', (be_value o). split.
      { unfold poll_and_link. rewrite (poll_slot_requested Q v c s m r Hr Hq). fold s0. rewrite Edec. cbn [mbind result_bind].
        rewrite (handle_cached Q v c s0 m k Hr0 (or_intror Hco)), Est. cbn [mbind result_bind]. rewrite Es. exact L. }
      split; [exact Hrt | split; [exact SC | split; [exact Hat |]]].
      destruct F as (_ & -> & _). unfold bs' in Hview. destruct w; destruct Hview as [-> Hview]; split; auto.
Qed.

(** C1. A read or write of a cached address, polled from the mailbox of an idle
    vCPU, ends when the link has answered the requests it makes, with one
    answer and the vCPU ready for its next command.  A write stores its value
    in the memory that vCPU sees, most significant byte first, and answers 0;
    a read answers the value of that memory and leaves it as it is; whichever
    of the two native regions or the link the lines come from or are evicted
    to.  Nothing of another vCPU, of a port or of a plain request changes. *)
Theorem mailbox_access Q v c s m r (w : bool) : ready v c s m -> same_regions c s -> window_big_endian cfg = true ->
  requested v r s -> cmd_of (rq_cmd r) = (if w then CMD_MMIO_WRITE_REQ else CMD_MMIO_READ_REQ) ->
  is_u64 (rq_addr r) -> 0 <= rq_size r ->
  let bs := be_bytes (Z.to_nat (rq_size r)) (rq_val r) in
  bad_access c (rq_addr r) (rq_size r) w bs = false ->
  exists t m' c' value, poll_and_link Q v s m = Ok (t, m') /\ ready v c' t m' /\ same_controls c c' /\
    answered_with v value r s t /\
    if w then value = 0 /\ view c' (shared t, m') ≐ mwrite (view c (shared s, m)) (rq_addr r) bs
    else value = be_value (mread (view c (shared s, m)) (rq_addr r) (rq_size r)) /\
         view c' (shared t, m') ≐ view c (shared s, m).
Proof. apply mailbox_access_ok. Qed.

(** ** Maintenance *)

(** MOVEC (size 0) and CPUSHL (size 1) on the cache alone. *)
Definition maintain (n a value : Z) (c : WindowDataCache) : result WindowDataCache :=
  if n =? 0 then movec a value c else if n =? 1 then push value a c else Throw InvalidArgument "".
Definition maintained (n a value : Z) (c : WindowDataCache) (b : Shared * mem) :
    result (list Z * WindowDataCache * (Shared * mem)) :=
  if n =? 0 then write_control a value c b else cpushl value a c b.

Lemma pack_operand value : u32 (pack 0 (take 4 (padded (payload false 4 value)))) = u32 value.
Proof.
  rewrite payload_le by lia. change (Z.to_nat 4) with 4%nat.
  rewrite take_padded by (rewrite length_le_bytes; reflexivity).
  rewrite pack_le_value by (rewrite ?length_le_bytes; auto with quetz). rewrite le_value_bytes by lia.
  unfold wrap. change (256 ^ Z.of_nat 4) with (2 ^ 32). apply Zmod_mod.
Qed.

Lemma maintain_tame n a value c c1 (b : Shared * mem) : wf c -> maintain n a value c = Ok c1 -> tame 32 c1 b.
Proof.
  intros W. unfold maintain. destruct (n =? 0); [apply (movec_tame 31) |].
  destruct (n =? 1); [apply (push_tame 30 value a c c1 b W) | discriminate].
Qed.

Lemma maintained_drive n a value c c1 (b : Shared * mem) : maintain n a value c = Ok c1 ->
  maintained n a value c b = drive 32 c1 b.
Proof.
  unfold maintain, maintained, write_control, cpushl. destruct (n =? 0); [intros -> ; reflexivity |].
  destruct (n =? 1); [intros -> ; reflexivity | discriminate].
Qed.

(** Maintenance has no bytes to return. *)
Lemma maintained_nil n a value c c1 (b : Shared * mem) bs c' b' : wf c -> maintain n a value c = Ok c1 ->
  drive 32 c1 b = Ok (bs, c', b') -> bs = [].
Proof.
  intros W E D. rewrite <- (maintained_drive n a value c c1 b E) in D. revert E D. unfold maintain, maintained.
  destruct (n =? 0); [| destruct (n =? 1); [| discriminate]].
  - unfold write_control. intros E. rewrite E. cbn [mbind result_bind]. change drive_fuel with (S 31).
    unfold movec, start in E. inv_ok.
    destruct (a =? 2); [destruct (Z.land value DCINVA =? 0) |]; inv_ok; subst;
      rewrite drive_empty by reflexivity; intros [= <- _ _]; reflexivity.
  - intros E. destruct (decide (Z.land value 0x40 = 0)) as [Hz|Hz].
    + unfold cpushl. rewrite E. cbn [mbind result_bind]. change drive_fuel with (S 31). unfold push, start in E. inv_ok.
      rewrite Hz in E. cbn in E. inv_ok. subst. rewrite drive_empty by reflexivity. intros [= <- _ _]; reflexivity.
    + assert (Hop : Z.land value 0xff38 = 0xf428 /\ WindowCache.active c = false).
      { unfold push, start in E. inv_ok. apply orb_false_iff in E0 as [E0 _]. apply negb_false_iff, Z.eqb_eq in E0. auto. }
      destruct (cpushl_run c b value a W (proj2 Hop) (proj1 Hop) Hz) as (c2 & Er & _). rewrite Er. intros [= <- _ _]. reflexivity.
Qed.

(** A cache maintenance command of an idle vCPU does what the instruction does
    to the cache and the memory behind it ([write_control] and [cpushl], with
    the properties of the window cache), and answers 0 once. *)
Lemma mailbox_maintenance Q v c s m r c1 : ready v c s m -> requested v r s ->
  cmd_of (rq_cmd r) = CMD_CACHE_OP -> is_u32 (rq_addr r) ->
  maintain (rq_size r) (rq_addr r) (u32 (rq_val r)) c = Ok c1 ->
  exists t m' c', maintained (rq_size r) (rq_addr r) (u32 (rq_val r)) c (shared s, m) = Ok ([], c', (shared t, m')) /\
    poll_and_link Q v s m = Ok (t, m') /\ holds_cache v c' t /\ answered_with v 0 r s t.
Proof.
  intros Hr Hq Hcmd Ha E1. set (s0 := released v r s).
  pose proof (ready_released v c s m r Hr) as Hr0. fold s0 in Hr0.
  pose proof (good_wf _ _ (proj1 (rd_idle v c s m Hr))) as W.
  pose proof (maintain_tame _ _ _ c c1 (shared s, m) W E1) as T.
  set (k := mkCommand CMD_CACHE_OP (rq_size r) 0 (rq_addr r) 0 (padded (payload false 4 (rq_val r)))).
  assert (Edec : decode cfg r s0 = Ok k) by (unfold decode; rewrite Hcmd; reflexivity).
  assert (Est : start_cached v k c s0 = Ok (with_cache v c1 s0)).
  { unfold start_cached, k. cbn [cmd addr size data]. rewrite throw_if_false by (apply Z.ltb_ge; word).
    rewrite pack_operand. unfold maintain in E1.
    destruct (rq_size r =? 0); [rewrite E1; reflexivity | destruct (rq_size r =? 1); [rewrite E1; reflexivity | discriminate]]. }
  destruct (serve_started Q v c c1 s0 m []) as (s1 & Es & bs & c' & sh & m' & t & D & L & F).
  - apply Hr0.
  - apply Hr0.
  - apply (rd_idle v c s m Hr).
  - exact T.
  - intros h [].
  - cbn. lia.
  - assert (Hnil : bs = []).
    { apply (maintained_nil _ _ _ c c1 _ _ _ _ W E1 D). }
    subst bs. exists t, m', c'. pose proof F as (F1 & F2 & F3 & mid & F4 & F5). rewrite F2. split.
    { rewrite (maintained_drive _ _ _ c c1 (shared s, m) E1). exact D. }
    split; [| split; [exact F1 | split]].
    + unfold poll_and_link. rewrite (poll_slot_requested Q v c s m r Hr Hq). fold s0. rewrite Edec. cbn [mbind result_bind].
      rewrite (handle_cached Q v c s0 m k Hr0 (or_introl eq_refl)), Est. cbn [mbind result_bind].
      replace (with_cache v c1 s0) with (with_cache v c1 s0 <| out ::= fun l => l ++ [] |>); [rewrite Es; exact L |].
      destruct (with_cache v c1 s0) eqn:Ew. cbn. rewrite app_nil_r. reflexivity.
    + eapply rest_same_trans; [| exact F3]. destruct (with_cache_same v c s0 c1 (rd_cache v c s0 m Hr0)). constructor; assumption.
    + exists mid. split; [rewrite F4; cbn; rewrite app_nil_r; reflexivity | exact F5].
Qed.

(** ** Store, then load *)

Lemma ask_ready v c s m r : ready v c s m -> ready v c (ask v r s) m.
Proof. intros []. constructor; assumption. Qed.

Lemma asked_requested v r r0 s t : rest_same v (released v r0 s) t -> requested v r0 s -> rq_pending r = true ->
  requested v r (ask v r t).
Proof.
  intros R [H1 _] Hp. split; [| exact Hp]. unfold ask. cbn. apply list_lookup_insert_eq. rewrite (rs_req _ _ _ R).
  cbn. rewrite length_insert. apply (lookup_lt_Some _ _ _ H1).
Qed.

Lemma same_regions_after v c c' s t r : rest_same v (released v r s) t ->
  holds_cache v c' t -> regions c' = regions c -> same_regions c s -> same_regions c' t.
Proof.
  intros R Ht Hreg (c0 & o & Hs & H0). destruct (decide (Z.to_nat v = 0%nat)) as [E|E].
  - exists c', false. unfold holds_cache in Ht. rewrite E in Ht. split; [exact Ht | reflexivity].
  - exists c0, o. rewrite (rs_states _ _ _ R 0%nat) by congruence. split; [exact Hs | congruence].
Qed.

(** A value stored through the mailbox comes back from a load of the same size
    at the same address: the window keeps the big-endian guest's bytes. *)
Lemma mailbox_store_load Q v c s m w r : ready v c s m -> same_regions c s -> window_big_endian cfg = true ->
  requested v w s -> cmd_of (rq_cmd w) = CMD_MMIO_WRITE_REQ -> cmd_of (rq_cmd r) = CMD_MMIO_READ_REQ ->
  rq_pending r = true -> rq_addr r = rq_addr w -> rq_size r = rq_size w -> is_u64 (rq_addr w) -> 0 <= rq_size w ->
  bad_access c (rq_addr w) (rq_size w) true (be_bytes (Z.to_nat (rq_size w)) (rq_val w)) = false ->
  exists t m' t' m'', poll_and_link Q v s m = Ok (t, m') /\ answered_with v 0 w s t /\
    poll_and_link Q v (ask v r t) m' = Ok (t', m'') /\
    answered_with v (rq_val w mod 256 ^ rq_size w) r (ask v r t) t'.
Proof.
  intros Hr Hsr Hb Hq Hw Hrd Hp Ea En Hx Hn Hba.
  destruct (mailbox_access_ok Q v c s m w true Hr Hsr Hb Hq Hw Hx Hn Hba) as (t & m' & c' & val & E1 & Hr1 & SC & An & Hval & Hview).
  subst val. pose proof An as [R _]. pose proof (bad_access_contains _ _ _ _ _ Hba Hn) as [_ Hn8].
  assert (Hsr1 : same_regions c' (ask v r t)).
  { apply (same_regions_after v c c' s t w); [exact R | apply Hr1 | apply SC | exact Hsr]. }
  assert (Hba2 : bad_access c' (rq_addr r) (rq_size r) false (be_bytes (Z.to_nat (rq_size r)) (rq_val r)) = false).
  { rewrite Ea, En. unfold bad_access, regionFor in *. rewrite (proj1 SC). rewrite orb_false_iff in Hba. rewrite orb_false_r. apply Hba. }
  destruct (mailbox_access_ok Q v c' (ask v r t) m' r false (ask_ready v c' t m' r Hr1) Hsr1 Hb (asked_requested v r w s t R Hq Hp) Hrd)
    as (t' & m'' & c'' & val & E2 & _ & _ & An2 & Hval2 & _); rewrite ?Ea, ?En; try assumption.
  { rewrite Ea, En in Hba2. exact Hba2. }
  exists t, m', t', m''. split; [exact E1 | split; [exact An | split; [exact E2 |]]].
  replace (rq_val w mod 256 ^ rq_size w) with val; [exact An2 |]. rewrite Hval2, Ea, En.
  change (shared (ask v r t)) with (shared t). rewrite (mread_proper _ _ Hview _ _ eq_refl _ _ eq_refl).
  set (bs := be_bytes _ _). assert (Hl : rq_size w = Z.of_nat (length bs)) by (unfold bs; rewrite length_be_bytes; lia).
  rewrite Hl at 1. rewrite mread_mwrite. unfold bs. rewrite be_value_bytes by lia. f_equal. f_equal. lia.
Qed.
End Thm.

(** ** The theorems at concrete inputs *)

(** No accelerator port. *)
#[local] Instance no_port : AcceleratorPort Empty_set :=
  {| ownsAddr (p : Empty_set) _ := match p with end;
     handleCommand _ _ _ (p : Empty_set) := match p with end;
     handleResponse _ _ (p : Empty_set) := match p with end;
     process _ (p : Empty_set) := match p with end;
     hasOutstanding (p : Empty_set) := match p with end;
     vcpuHasOutstanding (p : Empty_set) _ := match p with end |}.

(** One vCPU with a copyback cache whose region is one page of native RAM. *)
Definition demo_config : Config := mkConfig 1 true true 0x1000 0x1000 (fun _ => true).
Definition demo_shared : Shared :=
  (quetz_configure_native_regions (Some [NativeRam.mkRegion 0x1000 4096 0 0]) 1
     (mkShared 0 0 [region0; region0] (fun _ => 0))).2.
Definition demo_control : Z := 0x82000000.
Definition demo_cpu (r : Request) : Cpu Empty_set :=
  mkCpu (mkBank [mkState (demo_cache demo_control) false] ∅) [0] ∅ [] demo_shared [r] [0] 7 [].
Definition demo_store : Request := mkRequest true 5 4 0x1010 0x11223344.
Definition demo_load : Request := mkRequest true 4 4 0x1010 0.
Definition demo_flush : Request := mkRequest true 7 1 0x10 0xf4e8.
Definition demo_host : HostState := mkHostState 0 (fun _ => true) [].

Lemma demo_configured : configured demo_shared.
Proof.
  constructor; [reflexivity | vm_compute; discriminate | reflexivity |].
  repeat constructor; vm_compute; discriminate.
Qed.

Lemma demo_cpu_ready r : ready demo_config 0 (demo_cache demo_control) (demo_cpu r) demo_mem.
Proof.
  constructor; try reflexivity; [cbn; lia | apply idle_demo_over; exact demo_configured |].
  intros id [x Hx]. discriminate.
Qed.

Lemma mailbox_access_witness : exists t m' c' value,
  poll_and_link demo_config demo_host 0 (demo_cpu demo_load) demo_mem = Ok (t, m') /\
  ready demo_config 0 c' t m' /\ same_controls (demo_cache demo_control) c' /\
  answered_with 0 value demo_load (demo_cpu demo_load) t /\
  value = be_value (mread (view (demo_cache demo_control) (demo_shared, demo_mem)) 0x1010 4) /\
  view c' (shared t, m') ≐ view (demo_cache demo_control) (demo_shared, demo_mem).
Proof.
  apply (mailbox_access demo_config demo_host 0 (demo_cache demo_control) (demo_cpu demo_load) demo_mem demo_load false);
    try reflexivity; [apply demo_cpu_ready | eexists; eexists; split; reflexivity | split; reflexivity | vm_compute; split; [discriminate | reflexivity] | cbn; lia].
Defined.

Lemma mailbox_maintenance_witness : exists t m' c',
  maintained 1 0x10 0xf4e8 (demo_cache demo_control) (demo_shared, demo_mem) = Ok ([], c', (shared t, m')) /\
  poll_and_link demo_config demo_host 0 (demo_cpu demo_flush) demo_mem = Ok (t, m') /\
  holds_cache 0 c' t /\ answered_with 0 0 demo_flush (demo_cpu demo_flush) t.
Proof.
  eapply (mailbox_maintenance demo_config demo_host 0 (demo_cache demo_control) (demo_cpu demo_flush) demo_mem demo_flush);
    [apply demo_cpu_ready | split; reflexivity | reflexivity | vm_compute; split; [discriminate | reflexivity] | reflexivity].
Defined.

Lemma mailbox_store_load_witness : exists t m' t' m'',
  poll_and_link demo_config demo_host 0 (demo_cpu demo_store) demo_mem = Ok (t, m') /\
  answered_with 0 0 demo_store (demo_cpu demo_store) t /\
  poll_and_link demo_config demo_host 0 (ask 0 demo_load t) m' = Ok (t', m'') /\
  answered_with 0 0x11223344 demo_load (ask 0 demo_load t) t'.
Proof.
  apply (mailbox_store_load demo_config demo_host 0 (demo_cache demo_control) (demo_cpu demo_store) demo_mem demo_store demo_load);
    try reflexivity; [apply demo_cpu_ready | eexists; eexists; split; reflexivity | split; reflexivity | vm_compute; split; [discriminate | reflexivity] | cbn; lia].
Defined.
