(* ===== verification/CpuAnswers.v ===== *)
(** * Every mailbox command is answered exactly once

    For any accelerator ports that satisfy [AcceleratorLaws]: whichever way a
    command goes - window cache, port, plain request - and however polls,
    responses and ticks are interleaved, the answers given to a vCPU and those
    still owed to it are together the commands taken from it; and a response
    to a plain request always finds its way back. *)
From S2P Require Import Prelude.
From S2P Require Import Backing.
From S2P Require Import WindowCache.
From S2P Require Import WindowCacheBank.
From S2P Require Import NativeRam.
From S2P Require Import StdMem.
From S2P Require Import AcceleratorPort.
From S2P Require Import Command.
From S2P Require Import CpuSync.
From S2P Require Import CpuSyncThm.
From S2P Require BalarPort.
From S2P Require BalarAnswers.

Section Answers.
Context {A : Type} `{AcceleratorLaws A}.
Variable cfg : Config.
Implicit Types (s : Cpu A) (v w id : Z).

(** ** What is owed *)

Definition b2z (b : bool) : Z := if b then 1 else 0.

(** A transaction of [w]'s cache is an answer to come; so is a plain request,
    and a port knows its own. *)
Definition busy w s : Z :=
  match states (window_caches s) !! Z.to_nat w with
  | Some st => b2z (WindowCache.active (s_cache st))
  | None => 0
  end.
Definition owed_ports w (l : list A) : Z := foldr (fun p n => owed p w + n) 0 l.
#[local] Arguments owed_ports : simpl never.
(** A request still in its slot is one too. *)
Definition waiting w s : Z :=
  match mmio_req s !! Z.to_nat w with
  | Some r => b2z (rq_pending r)
  | None => 0
  end.
Definition debt w s : Z :=
  waiting w s + busy w s + mcount (fun g => gp_vcpu g =? w) (generic_pending s) + owed_ports w (accel_ports s).

(** The commands the bridge posts. *)
Definition guest_command (k : QuetzShmemCmd) : Prop :=
  k = CMD_MMIO_READ_REQ \/ k = CMD_MMIO_WRITE_REQ \/ k = CMD_CACHE_OP.

(** Requests in flight have ids of their own, all given out already. *)
Record inv s : Prop :=
  { iv_guest : forall i r, mmio_req s !! i = Some r -> rq_pending r = true -> guest_command (cmd_of (rq_cmd r));
    iv_ports : Forall (port_inv (next_id s)) (accel_ports s);
    iv_generic : forall id, is_Some (generic_pending s !! id) -> id < next_id s;
    iv_cache : forall id p, WindowCacheBank.pending (window_caches s) !! id = Some p -> id < next_id s /\ 0 <= p_vcpu p;
    iv_apart : forall id, is_Some (generic_pending s !! id) -> WindowCacheBank.pending (window_caches s) !! id = None;
    iv_foreign : forall i p id, accel_ports s !! i = Some p -> holds p id ->
      generic_pending s !! id = None /\ WindowCacheBank.pending (window_caches s) !! id = None }.

(** The ids of requests the mailbox side waits for. *)
Definition waits_for s id : Prop :=
  is_Some (generic_pending s !! id) \/ is_Some (WindowCacheBank.pending (window_caches s) !! id) \/
  exists i p, accel_ports s !! i = Some p /\ holds p id.
(** From [s] to [s'] new requests have new ids. *)
Definition newer s s' : Prop :=
  next_id s <= next_id s' /\ forall id, waits_for s' id -> waits_for s id \/ next_id s <= id.

Lemma waits_old s id : inv s -> waits_for s id -> id < next_id s.
Proof.
  intros [Iq Ip Ig Ic Ia If] [Hg|[[p Hp]|(i & p & Hi & Hh)]]; [apply Ig, Hg | apply (Ic id p Hp) |].
  apply (holds_old _ p id (Forall_lookup_1 _ _ _ _ Ip Hi) Hh).
Qed.

#[export] Instance newer_preorder : PreOrder newer.
Proof.
  split; [intros s; split; [lia | auto] |]. intros s1 s2 s3 [A1 A2] [B1 B2]. split; [lia |].
  intros id Hid. destruct (B2 id Hid) as [H1|H1]; [destruct (A2 id H1); auto | right; lia].
Qed.

Lemma newer_same s s' : next_id s <= next_id s' -> generic_pending s' = generic_pending s ->
  WindowCacheBank.pending (window_caches s') = WindowCacheBank.pending (window_caches s) ->
  accel_ports s' = accel_ports s -> newer s s'.
Proof. intros E1 E2 E3 E4. split; [exact E1 |]. unfold waits_for. rewrite E2, E3, E4. auto. Qed.

(** [s'] comes from [s], with [k w] more commands of each vCPU [w]. *)
Record taken (k : Z -> Z) s s' : Prop :=
  { tk_inv : inv s';
    tk_newer : newer s s';
    tk_out : exists es, out s' = out s ++ es /\ forall w, 0 <= w -> debt w s' + posts w es = debt w s + k w }.

Definition none : Z -> Z := fun _ => 0.
Definition one v : Z -> Z := fun w => b2z (w =? v).

Lemma taken_trans k1 k2 s1 s2 s3 : taken k1 s1 s2 -> taken k2 s2 s3 -> taken (fun w => k1 w + k2 w) s1 s3.
Proof.
  intros [_ N1 (es1 & E1 & D1)] [I3 N2 (es2 & E2 & D2)]. constructor; [assumption | etransitivity; eassumption |].
  exists (es1 ++ es2). split; [rewrite E2, E1, app_assoc; reflexivity |].
  intros w Hw. rewrite posts_app. specialize (D1 w Hw). specialize (D2 w Hw). lia.
Qed.
Lemma taken_ext k k' s s' : (forall w, 0 <= w -> k w = k' w) -> taken k s s' -> taken k' s s'.
Proof. intros Hk [? ? (es & E & D)]. constructor; try assumption. exists es. split; [exact E |]. intros w Hw. rewrite <- Hk by exact Hw. auto. Qed.
Lemma taken_refl s : inv s -> taken none s s.
Proof. intros I. constructor; [exact I | reflexivity |]. exists []. split; [rewrite app_nil_r; reflexivity |]. intros w _. unfold none. change (posts w []) with 0. lia. Qed.

Lemma taken_then k s1 s2 s3 : taken k s1 s2 -> taken none s2 s3 -> taken k s1 s3.
Proof. intros H1 H2. eapply taken_ext; [| eapply taken_trans; eassumption]. intros w _. unfold none. lia. Qed.

(** ** The caches *)

Lemma next_active c a c' : next c = Ok (a, c') ->
  WindowCache.active c = true /\ WindowCache.active c' = negb (bool_decide (act_kind a = Done)).
Proof.
  unfold next. destruct (WindowCache.active c) eqn:Ha; [| discriminate].
  intros E. apply bind_ok in E as (u & _ & E). split; [reflexivity |].
  destruct (pushing c).
  - destruct (l_valid _ && l_dirty _); injection E as <- <-; cbn; [exact Ha | reflexivity].
  - assert (Hb : forall c0, WindowCache.active (next_body c0).2 = WindowCache.active c0 /\
        forall a0, (next_body c0).1 = Some a0 -> act_kind a0 <> Done).
    { intros c0. unfold next_body. cbv zeta. repeat (case_match; cbn); split; try reflexivity; try discriminate;
        intros a0 [= <-]; cbn; repeat case_match; discriminate. }
    revert E. generalize (next_fuel c). intros n. revert c Ha. induction n as [|n IH]; intros c Ha; cbn [next_loop]; [discriminate |].
    destruct (WindowCache.offset c <? count c).
    + destruct (Hb c) as [Hb1 Hb2]. destruct (next_body c) as [[a0|] c0]; cbn [fst snd] in *.
      * intros [= <- <-]. rewrite bool_decide_false by (apply Hb2; reflexivity). cbn. congruence.
      * intros E. apply (IH c0); [congruence | exact E].
    + intros [= <- <-]. reflexivity.
Qed.

Lemma complete_keeps d c c' : WindowCache.complete d c = Ok c' ->
  WindowCache.active c = true /\ WindowCache.active c' = true.
Proof.
  unfold WindowCache.complete. destruct (WindowCache.active c) eqn:Ha; [| discriminate]. intros E.
  apply bind_ok in E as (u & _ & E). apply bind_ok in E as (c1 & E1 & E). injection E as <-. split; [reflexivity |].
  destruct (WindowCache.pending c); inv_ok; subst; cbn; exact Ha.
Qed.

Lemma start_cached_active v k c s s' : start_cached v k c s = Ok s' -> exists c' es, WindowCache.active c = false /\
  WindowCache.active c' = true /\ s' = with_cache v c' s <| out ::= fun l => l ++ es |> /\ forall w, posts w es = 0.
Proof.
  assert (Hst : forall c c', start c = Ok c' -> WindowCache.active c = false /\ WindowCache.active c' = true)
    by (unfold start; intros ? ? E; inv_ok; subst; auto).
  assert (Ha : forall x n (b : bool) bs c c', access_ x n b bs c = Ok c' -> WindowCache.active c = false /\ WindowCache.active c' = true).
  { unfold access_. intros * E. inv_ok. subst. apply Hst in E1. exact E1. }
  unfold start_cached. destruct (cmd k) eqn:Ek; try discriminate; intros E; inv_ok; subst.
  - exists a0, [RecordSyncRequest v (negb (bool_decide (CMD_MMIO_READ_REQ = CMD_MMIO_WRITE_REQ)))].
    destruct (Ha _ _ _ _ _ _ E1). repeat (split; [assumption || reflexivity |]). reflexivity.
  - exists a0, [RecordSyncRequest v (negb (bool_decide (CMD_MMIO_WRITE_REQ = CMD_MMIO_WRITE_REQ)))].
    destruct (Ha _ _ _ _ _ _ E1). repeat (split; [assumption || reflexivity |]). reflexivity.
  - exists a0, []. destruct (size k =? 0); [| destruct (size k =? 1); [| discriminate]].
    + unfold movec in E1. inv_ok. apply Hst in E4 as [? ?]. split; [assumption |].
      destruct (addr k =? 2); [destruct (Z.land _ DCINVA =? 0) |]; inv_ok; subst.
      all: split; [assumption | split; [| reflexivity]]; destruct (with_cache v _ s) eqn:Ew; cbn; rewrite app_nil_r; reflexivity.
    + unfold push in E1. inv_ok. apply Hst in E2 as [? ?]. split; [assumption |].
      destruct (Z.land _ 0x40 =? 0); inv_ok; subst.
      all: split; [assumption | split; [| reflexivity]]; destruct (with_cache v _ s) eqn:Ew; cbn; rewrite app_nil_r; reflexivity.
Qed.

Lemma busy_insert v w st s s' : 0 <= v -> 0 <= w -> (Z.to_nat v < length (states (window_caches s)))%nat ->
  states (window_caches s') = <[Z.to_nat v := st]> (states (window_caches s)) ->
  busy w s' = if w =? v then b2z (WindowCache.active (s_cache st)) else busy w s.
Proof.
  intros Hv Hw Hl E. unfold busy. rewrite E. destruct (Z.eqb_spec w v) as [E1|Hne].
  - rewrite E1, list_lookup_insert_eq by exact Hl. reflexivity.
  - rewrite list_lookup_insert_ne by lia. reflexivity.
Qed.

(** A step of one vCPU's cache. *)
Lemma taken_cache k v st st' s s' es : 0 <= v -> inv s ->
  states (window_caches s) !! Z.to_nat v = Some st ->
  states (window_caches s') = <[Z.to_nat v := st']> (states (window_caches s)) ->
  generic_pending s' = generic_pending s -> accel_ports s' = accel_ports s -> mmio_req s' = mmio_req s ->
  next_id s <= next_id s' ->
  (forall id p, WindowCacheBank.pending (window_caches s') !! id = Some p ->
     WindowCacheBank.pending (window_caches s) !! id = Some p \/ next_id s <= id < next_id s' /\ p_vcpu p = v) ->
  out s' = out s ++ es ->
  (forall w, 0 <= w -> (if w =? v then b2z (WindowCache.active (s_cache st')) else b2z (WindowCache.active (s_cache st))) + posts w es =
     b2z (WindowCache.active (s_cache st)) + k w) ->
  taken k s s'.
Proof.
  intros Hv [Iq Ip Ig Ic Ia If] Hst Es Eg Ep Er Hn Hp Eo Hk. pose proof (lookup_lt_Some _ _ _ Hst) as Hl.
  assert (Hout : forall id, is_Some (WindowCacheBank.pending (window_caches s') !! id) ->
    is_Some (WindowCacheBank.pending (window_caches s) !! id) \/ next_id s <= id).
  { intros id [p Hi]. destruct (Hp id p Hi) as [?|[? _]]; [left; eauto | right; lia]. }
  constructor.
  - constructor; rewrite ?Eg, ?Ep, ?Er.
    + exact Iq.
    + eapply Forall_impl; [exact Ip |]. intros p Hpi. apply (port_inv_mono _ _ _ Hpi Hn).
    + intros id Hi. specialize (Ig id Hi). lia.
    + intros id p Hi. destruct (Hp id p Hi) as [Hi'|[? ->]]; [destruct (Ic id p Hi'); lia | lia].
    + intros id Hi. apply eq_None_not_Some. intros Hc. destruct (Hout id Hc) as [Hc'|Hge].
      * rewrite (Ia id Hi) in Hc'. destruct Hc'. discriminate.
      * specialize (Ig id Hi). lia.
    + intros i p id Hi Hh. destruct (If i p id Hi Hh) as [H1 H2]. split; [exact H1 |].
      apply eq_None_not_Some. intros Hc. destruct (Hout id Hc) as [Hc'|Hge].
      * rewrite H2 in Hc'. destruct Hc'. discriminate.
      * pose proof (holds_old _ p id (Forall_lookup_1 _ _ _ _ Ip Hi) Hh). lia.
  - split; [exact Hn |]. unfold waits_for. rewrite Eg, Ep. intros id [?|[Hi|?]]; auto. destruct (Hout id Hi); auto.
  - exists es. split; [exact Eo |]. intros w Hw. unfold debt, waiting. rewrite Eg, Ep, Er, (busy_insert v w st' s s' Hv Hw Hl Es).
    specialize (Hk w Hw). assert (Hb : w = v -> busy w s = b2z (WindowCache.active (s_cache st)))
      by (intros ->; unfold busy; rewrite Hst; reflexivity).
    destruct (Z.eqb_spec w v) as [E|E]; [rewrite (Hb E) |]; lia.
Qed.

Lemma service_taken fuel v : 0 <= v -> forall s s', inv s -> service fuel v s = Ok s' -> taken none s s'.
Proof.
  intros Hv. induction fuel as [|fuel IH]; intros s s' I; cbn [service]; [discriminate |]. intros E. inv_ok.
  apply cache_ok in E0 as (o & Hst). destruct a0 as [a0 c1]. destruct (next_active _ _ _ E1) as [Ha Ha1].
  pose proof (fun c' => with_cache_eq v a c' s o Hst) as Hwc.
  assert (Hnat : forall c2 sh (t : Cpu A), WindowCache.active c2 = true -> service fuel v t = Ok s' ->
    t = s <| window_caches := set_state v (mkState c2 o) (window_caches s) |> <| shared := sh |> -> taken none s s').
  { intros c2 sh t Hc2 Et ->. eapply taken_then; [| apply (IH _ _) in Et; [exact Et |]].
    - apply (taken_cache none v (mkState a o) (mkState c2 o) s _ []); try reflexivity; auto; try (cbn; lia).
      + cbn. rewrite app_nil_r. reflexivity.
      + intros w Hw. cbn. rewrite Ha, Hc2. unfold none. change (posts w []) with 0. destruct (w =? v); cbn; lia.
    - apply (tk_inv none s). apply (taken_cache none v (mkState a o) (mkState c2 o) s _ []); try reflexivity; auto; try (cbn; lia).
      + cbn. rewrite app_nil_r. reflexivity.
      + intros w Hw. cbn. rewrite Ha, Hc2. unfold none. change (posts w []) with 0. destruct (w =? v); cbn; lia. }
  assert (Hlink : forall read b' h (t : Cpu A), WindowCache.active c1 = true -> (forall w, posts w [h] = 0) ->
    issued v (next_id s) read (set_state v (mkState c1 o) (window_caches s)) = Ok b' ->
    t = call h (s <| next_id := next_id s + 1 |> <| window_caches := b' |>) -> taken none s t).
  { intros read b' h t Hc1 Hh Ei ->. unfold issued in Ei. inv_ok. match goal with E : at_ _ _ = Ok _ |- _ => rename E into Eat end. unfold at_ in Eat. cbn in Eat.
    rewrite list_lookup_insert_eq in Eat by apply (lookup_lt_Some _ _ _ Hst). injection Eat as <-. subst b'.
    apply (taken_cache none v (mkState a o) (mkState c1 true) s _ [h]); try reflexivity; auto; try (cbn; lia).
    - cbn. rewrite list_insert_insert_eq. reflexivity.
    - intros id p Hi. cbn in Hi. destruct (decide (id = next_id s)) as [->|Hne].
      + rewrite lookup_insert_eq in Hi. injection Hi as <-. right. cbn. lia.
      + rewrite lookup_insert_ne in Hi by congruence. left. exact Hi.
    - intros w Hw. cbn [s_cache]. rewrite Ha, Hc1, Hh. unfold none. destruct (w =? v); cbn; lia. }
  assert (Ha2 : WindowCache.active c1 = match act_kind a0 with Done => false | _ => true end)
    by (rewrite Ha1; destruct (act_kind a0); reflexivity).
  clear Ha1. rename Ha2 into Ha1. destruct (act_kind a0) eqn:Ek.
  - inv_ok. subst s'. rewrite Hwc.
    apply (taken_cache none v (mkState a o) (mkState c1 o) s _ [PostResponse v (be_value (act_bytes a0))]); try reflexivity; auto; try (cbn; lia).
    intros w Hw. cbn [s_cache]. rewrite Ha, Ha1. unfold none. rewrite posts_cons. change (posts w []) with 0. cbn. destruct (w =? v); cbn; lia.
  - rewrite !Hwc in E. inv_ok. cbn in E0. destruct a1 as [p|].
    + rewrite bool_decide_true in E by reflexivity. inv_ok. apply (Hnat a1 (shared s) _ (proj2 (complete_keeps _ _ _ E2)) E).
      rewrite (with_cache_eq v c1 _ _ o); [cbn; rewrite set_state_twice; reflexivity |].
      cbn. apply list_lookup_insert_eq, (lookup_lt_Some _ _ _ Hst).
    + rewrite bool_decide_true in E by reflexivity. inv_ok. subst s'. eapply (Hlink true); [exact Ha1 | | exact E2 | reflexivity]. reflexivity.
  - rewrite !Hwc in E. inv_ok. cbn in E0. destruct a1 as [p|].
    + rewrite bool_decide_false in E by discriminate. inv_ok. apply (Hnat a2 (store p (act_bytes a0) (shared s)) _ (proj2 (complete_keeps _ _ _ E3)) E).
      rewrite (with_cache_eq v c1 _ _ o); [cbn; rewrite set_state_twice; reflexivity |].
      cbn. apply list_lookup_insert_eq, (lookup_lt_Some _ _ _ Hst).
    + rewrite bool_decide_false in E by discriminate. inv_ok. subst s'. eapply (Hlink false); [exact Ha1 | | exact E2 | reflexivity]. reflexivity.
Qed.

(** ** Ports *)

Lemma owed_insert w l i p p' : l !! i = Some p ->
  owed_ports w (<[i := p']> l) = owed_ports w l - owed p w + owed p' w.
Proof.
  revert i. induction l as [|q l IH]; intros [|i]; try discriminate.
  - intros [= ->]. change (<[0%nat := p']> (p :: l)) with (p' :: l). unfold owed_ports. cbn [foldr]. lia.
  - intros Hi. change (<[S i := p']> (q :: l)) with (q :: <[i := p']> l). specialize (IH i Hi).
    unfold owed_ports in *. cbn [foldr]. lia.
Qed.

Lemma owed_ports_nonneg w l : 0 <= owed_ports w l.
Proof. unfold owed_ports. induction l as [|p l IH]; cbn [foldr]; [lia |]. pose proof (owed_nonneg p w). lia. Qed.

(** A call of port [i], as its laws describe it. *)
Lemma port_taken k i p e s : inv s -> accel_ports s !! i = Some p -> next_id s <= ef_next e ->
  port_inv (ef_next e) (ef_port e) ->
  (forall id, holds (ef_port e) id -> holds p id \/ next_id s <= id) ->
  (forall w, owed (ef_port e) w + posts w (ef_calls e) = owed p w + k w) -> taken k s (port_done i e s).
Proof.
  intros [Iq Ip Ig Ic Ia If] Hi Hn Hinv Hh Ho. constructor.
  - constructor; cbn; auto.
    + apply Forall_insert; [| exact Hinv]. eapply Forall_impl; [exact Ip |]. intros q Hq. apply (port_inv_mono _ _ _ Hq Hn).
    + intros id Hid. specialize (Ig id Hid). lia.
    + intros id q Hid. destruct (Ic id q Hid). lia.
    + intros j q id Hj Hq. destruct (decide (i = j)) as [<-|Hne].
      * rewrite list_lookup_insert_eq in Hj by apply (lookup_lt_Some _ _ _ Hi). injection Hj as <-.
        destruct (Hh id Hq) as [Hold|Hge]; [apply (If i p id Hi Hold) |].
        split; apply eq_None_not_Some.
        -- intros Hs. specialize (Ig id Hs). lia.
        -- intros [x Hs]. destruct (Ic id x Hs). lia.
      * rewrite list_lookup_insert_ne in Hj by exact Hne. apply (If j q id Hj Hq).
  - split; [exact Hn |]. unfold waits_for. cbn. intros id [?|[?|(j & q & Hj & Hq)]]; auto.
    destruct (decide (i = j)) as [<-|Hne].
    + rewrite list_lookup_insert_eq in Hj by apply (lookup_lt_Some _ _ _ Hi). injection Hj as <-.
      destruct (Hh id Hq) as [Hold|?]; [left; right; right; eauto | auto].
    + rewrite list_lookup_insert_ne in Hj by exact Hne. left. right. right. eauto.
  - exists (ef_calls e). split; [reflexivity |]. intros w _. unfold debt. cbn. rewrite (owed_insert w _ i p _ Hi).
    specialize (Ho w). unfold busy, waiting. cbn. lia.
Qed.

Lemma find_port_some a : forall ports n i p, find_port a n ports = Some (i, p) -> (n <= i)%nat /\ ports !! (i - n)%nat = Some p.
Proof.
  induction ports as [|q ports IH]; intros n i p; cbn [find_port]; [discriminate |].
  destruct (ownsAddr q a).
  - intros [= <- <-]. rewrite Nat.sub_diag. auto.
  - intros Hf. destruct (IH _ _ _ Hf) as [Hle Hl]. split; [lia |]. replace (i - n)%nat with (S (i - S n)) by lia. exact Hl.
Qed.

(** ** Calls on the log and plain requests *)

Lemma log_taken k h s : inv s -> (forall w, posts w [h] = k w) -> taken k s (call h s).
Proof.
  intros [] Hk. constructor; [constructor; assumption | apply newer_same; reflexivity |]. exists [h]. split; [reflexivity |].
  intros w _. rewrite Hk. reflexivity.
Qed.

Lemma generic_taken v (g : GenericPending) h h' s : gp_vcpu g = v -> inv s -> (forall w, posts w [h'; h] = 0) ->
  taken (one v) s (call h (call h' (s <| next_id := next_id s + 1 |> <| generic_pending ::= <[next_id s := g]> |>))).
Proof.
  intros Hg [Iq Ip Ig Ic Ia If] He.
  assert (Hfr : generic_pending s !! next_id s = None).
  { apply eq_None_not_Some. intros Hs. specialize (Ig _ Hs). lia. }
  constructor.
  - constructor; cbn; auto.
    + eapply Forall_impl; [exact Ip |]. intros q Hq. apply (port_inv_mono _ _ _ Hq). lia.
    + intros id Hid. destruct (decide (id = next_id s)) as [->|Hne]; [lia |].
      rewrite lookup_insert_ne in Hid by congruence. specialize (Ig id Hid). lia.
    + intros id q Hid. destruct (Ic id q Hid). lia.
    + intros id Hid. destruct (decide (id = next_id s)) as [->|Hne].
      * apply eq_None_not_Some. intros [x Hx]. destruct (Ic _ x Hx). lia.
      * rewrite lookup_insert_ne in Hid by congruence. apply (Ia id Hid).
    + intros j q id Hj Hq. destruct (If j q id Hj Hq) as [H1 H2]. split; [| exact H2].
      pose proof (holds_old _ q id (Forall_lookup_1 _ _ _ _ Ip Hj) Hq). rewrite lookup_insert_ne by lia. exact H1.
  - split; [cbn; lia |]. unfold waits_for. cbn. intros id [Hid|?]; [| auto].
    destruct (decide (id = next_id s)) as [->|Hne]; [right; lia |]. rewrite lookup_insert_ne in Hid by congruence. auto.
  - exists [h'; h]. split; [cbn; rewrite <- app_assoc; reflexivity |]. intros w _. rewrite He. unfold debt, busy, waiting. cbn.
    rewrite (mcount_insert _ _ _ _ Hfr), Hg. unfold one, b2z. rewrite (Z.eqb_sym v w). lia.
Qed.

(** ** Commands *)

Lemma or_fatal_ok {X} (r : result X) x : or_fatal r = Ok x -> r = Ok x.
Proof. destruct r as [|[] ?]; cbn; congruence. Qed.

Lemma start_taken v k s (w : WindowDataCache) s' : 0 <= v -> inv s -> cache v (window_caches s) = Ok w ->
  start_cached v k w s = Ok s' -> taken (one v) s s'.
Proof.
  intros Hv I Hc E. apply cache_ok in Hc as (o & Hst).
  destruct (start_cached_active v k w s s' E) as (c' & es & Ha & Ha' & -> & Hp).
  rewrite (with_cache_eq v w c' s o Hst).
  apply (taken_cache (one v) v (mkState w o) (mkState c' o) s _ es); try reflexivity; auto.
  - intros u Hu. cbn [s_cache]. rewrite Ha, Ha', Hp. unfold one. destruct (u =? v); cbn; lia.
Qed.

#[local] Strategy opaque [service].
Lemma handle_taken Q v k s b s' : 0 <= v -> inv s -> guest_command (cmd k) ->
  handleMmioSyncCommand cfg Q v k s = Ok (b, s') -> taken (one v) s s' /\ b = true.
Proof.
  intros Hv I Hg. unfold handleMmioSyncCommand. intros E. inv_ok.
  assert (Hplain : cmd k = CMD_MMIO_READ_REQ \/ cmd k = CMD_MMIO_WRITE_REQ \/ a0 = true).
  { destruct Hg as [?|[?|Hop]]; auto. rewrite Hop in E1. rewrite bool_decide_true in E1 by reflexivity.
    injection E1 as <-. auto. }
  destruct a0; inv_ok.
  - subst. apply or_fatal_ok in E3. inv_ok. split; [| reflexivity].
    pose proof (start_taken v k s _ _ Hv I E E4) as T. eapply taken_then; [exact T |].
    apply (service_taken _ v Hv _ _ (tk_inv _ _ _ T) E3).
  - destruct (negb (has_mmio cfg v)); [inv_ok; subst; split; [| reflexivity] |].
    { apply log_taken; [exact I |]. intros w. unfold one. rewrite posts_cons. change (posts w []) with 0. cbn. unfold b2z. lia. }
    destruct (portForAddr (addr k) s) as [[i p]|] eqn:Ep.
    + inv_ok. subst. split; [| reflexivity].
      apply find_port_some in Ep as [_ Ep]. rewrite Nat.sub_0_r in Ep.
      destruct (command_law v k (host_view Q s) p a0) as (H1 & H2 & H3 & H4); auto.
      * apply (Forall_lookup_1 _ _ _ _ (iv_ports s I) Ep).
      * destruct Hplain as [?|[?|?]]; [left | right | discriminate]; assumption.
      * apply (port_taken _ i p); auto.
    + destruct Hplain as [Ek|[Ek|?]]; [| | discriminate]; rewrite Ek in E; inv_ok; subst; split; try reflexivity.
      all: apply (generic_taken v); [reflexivity | exact I | reflexivity].
Qed.

(** ** The poll *)

Lemma release_taken v r s : 0 <= v -> inv s -> mmio_req s !! Z.to_nat v = Some r -> rq_pending r = true ->
  taken (fun w => - one v w) s (s <| mmio_req ::= <[Z.to_nat v := r <| rq_pending := false |>]> |>).
Proof.
  intros Hv [Iq Ip Ig Ic Ia If] Hr Hp. constructor.
  - constructor; try assumption. cbn. intros i q Hi. destruct (decide (i = Z.to_nat v)) as [->|Hne].
    + rewrite list_lookup_insert_eq in Hi by apply (lookup_lt_Some _ _ _ Hr). injection Hi as <-. discriminate.
    + rewrite list_lookup_insert_ne in Hi by congruence. apply (Iq i q Hi).
  - apply newer_same; reflexivity.
  - exists []. split; [cbn; rewrite app_nil_r; reflexivity |]. intros w Hw. change (posts w []) with 0.
    unfold debt. assert (Hwait : waiting w (s <| mmio_req ::= <[Z.to_nat v := r <| rq_pending := false |>]> |>) =
      waiting w s - one v w).
    { unfold waiting, one. cbn. destruct (Z.eqb_spec w v) as [E|Hne].
      - rewrite E, list_lookup_insert_eq, Hr by apply (lookup_lt_Some _ _ _ Hr). cbn. rewrite Hp. reflexivity.
      - rewrite list_lookup_insert_ne by lia. cbn. lia. }
    rewrite Hwait. unfold busy. cbn. lia.
Qed.

Lemma reset_taken v s s' : 0 <= v -> inv s -> poll_reset cfg v s = Ok s' -> taken none s s'.
Proof.
  intros Hv I. unfold poll_reset. destruct (_ && _); [| intros [= <-]; apply taken_refl, I].
  intros E. apply bind_ok in E as (b & Eb & [= <-]). apply or_fatal_ok in Eb. unfold resetCore, at_ in Eb.
  destruct (states (window_caches s) !! Z.to_nat v) as [st|] eqn:Hst; [| discriminate].
  apply bind_ok in Eb as (u & [= <-] & Eb). apply bind_ok in Eb as (u' & Hg & Eb). apply throw_if_ok in Hg.
  apply orb_false_iff in Hg as [_ Ha]. apply bind_ok in Eb as (c & Ec & [= <-]).
  unfold WindowCache.reset in Ec. rewrite Ha in Ec. injection Ec as <-.
  apply (taken_cache none v st (st <| s_cache := s_cache st <| cacr := 0 |> <| acr := [0; 0; 0; 0] |> |>) s _ []);
    try reflexivity; auto; try (cbn; lia); try exact Hst.
  - cbn. rewrite app_nil_r. reflexivity.
  - intros w Hw. cbn. rewrite Ha. destruct (w =? v); reflexivity.
Qed.

(** A poll of a slot answers or takes over what waits there. *)
Lemma poll_slot_taken Q v s s' : 0 <= v -> inv s -> poll_slot cfg Q v s = Ok s' -> taken none s s'.
Proof.
  intros Hv I. unfold poll_slot. intros E. apply bind_ok in E as (s1 & E1 & E).
  pose proof (reset_taken v s s1 Hv I E1) as T1. pose proof (tk_inv _ _ _ T1) as I1.
  destruct (mmio_req s1 !! Z.to_nat v) as [r|] eqn:Hr.
  - rewrite (list_lookup_total_correct _ _ _ Hr) in E. destruct (rq_pending r) eqn:Hp; [| injection E as <-; exact T1].
    cbv zeta in E. pose proof (release_taken v r s1 Hv I1 Hr Hp) as T2. set (s2 := s1 <| mmio_req ::= _ |>) in *.
    apply bind_ok in E as (k & Ek & E). apply bind_ok in E as ([b s3] & Eh & [= <-]).
    assert (Hg : guest_command (cmd k)).
    { pose proof (iv_guest s1 I1 _ r Hr Hp) as Hg. unfold decode in Ek. apply bind_ok in Ek as (d & _ & [= <-]). exact Hg. }
    pose proof (proj1 (handle_taken Q v k s2 b s3 Hv (tk_inv _ _ _ T2) Hg Eh)) as T3.
    eapply taken_ext; [| exact (taken_trans _ _ _ _ _ T1 (taken_trans _ _ _ _ _ T2 T3))].
    intros w _. unfold none. lia.
  - rewrite list_lookup_total_alt, Hr in E. cbn in E. injection E as <-. exact T1.
Qed.

Lemma poll_taken Q n : forall v s s', 0 <= v -> inv s -> poll_from cfg Q n v s = Ok s' -> taken none s s'.
Proof.
  induction n as [|n IH]; intros v s s' Hv I; cbn [poll_from]; [intros [= <-]; apply taken_refl, I |].
  intros E. apply bind_ok in E as (s1 & E1 & E). pose proof (poll_slot_taken Q v s s1 Hv I E1) as T.
  eapply taken_then; [exact T |]. apply (IH (v + 1) s1 s'); [lia | apply (tk_inv _ _ _ T) | exact E].
Qed.

(** ** Responses *)

Lemma offer_taken Q r : forall n i s b s', inv s -> offer Q r i n s = Ok (b, s') -> taken none s s'.
Proof.
  induction n as [|n IH]; intros i s b s' I; cbn [offer]; [intros [= _ <-]; apply taken_refl, I |].
  destruct (accel_ports s !! i) as [p|] eqn:Hi; [| intros [= _ <-]; apply taken_refl, I].
  intros E. apply bind_ok in E as ([b1 e] & E1 & E).
  destruct (response_law r (host_view Q s) p b1 e) as (H1 & H2 & H3 & H4);
    [apply (Forall_lookup_1 _ _ _ _ (iv_ports s I) Hi) | exact E1 |].
  assert (T : taken none s (port_done i e s)).
  { apply (port_taken none i p); auto. intros w. unfold none. rewrite Z.add_0_r. apply H4. }
  destruct b1; [injection E as _ <-; exact T |]. eapply taken_then; [exact T | apply (IH _ _ _ _ (tk_inv _ _ _ T) E)].
Qed.

(** No port takes a response that is not its own. *)
Lemma offer_foreign Q r s : inv s -> (forall i p, accel_ports s !! i = Some p -> ~ holds p (resp_id r)) ->
  forall n i, offer Q r i n s = Ok (false, s).
Proof.
  intros I Hno. induction n as [|n IH]; intros i; cbn [offer]; [reflexivity |].
  destruct (accel_ports s !! i) as [p|] eqn:Hi; [| reflexivity].
  rewrite (response_foreign r (host_view Q s) p (Forall_lookup_1 _ _ _ _ (iv_ports s I) Hi) (Hno i p Hi)). cbn [mbind result_bind].
  assert (E : port_done i (mkEffect (hv_next (host_view Q s)) [] p) s = s).
  { unfold port_done. cbn. rewrite list_insert_id by exact Hi. rewrite app_nil_r. destruct s; reflexivity. }
  rewrite E. apply IH.
Qed.

Lemma generic_answered id (g : GenericPending) x s : inv s -> generic_pending s !! id = Some g ->
  taken none s (call (PostResponse (gp_vcpu g) x) (s <| generic_pending ::= delete id |>)).
Proof.
  intros [Iq Ip Ig Ic Ia If] Hg. constructor.
  - constructor; cbn; auto.
    + intros j [y Hj]. apply lookup_delete_Some in Hj as [_ Hj]. apply Ig. eauto.
    + intros j [y Hj]. apply lookup_delete_Some in Hj as [_ Hj]. apply Ia. eauto.
    + intros j q y Hj Hq. destruct (If j q y Hj Hq) as [H1 H2]. split; [| exact H2].
      apply lookup_delete_None. right. exact H1.
  - split; [reflexivity |]. unfold waits_for. cbn. intros j [[y Hj]|?]; [| auto].
    apply lookup_delete_Some in Hj as [_ Hj]. left. left. eauto.
  - exists [PostResponse (gp_vcpu g) x]. split; [reflexivity |]. intros w _. unfold debt, busy, waiting. cbn.
    rewrite (mcount_delete _ _ _ _ Hg). rewrite posts_cons. change (posts w []) with 0. cbn [is_post]. unfold none.
    rewrite (Z.eqb_sym w). destruct (gp_vcpu g =? w); lia.
Qed.

Lemma cache_answer_taken hint r f p s s' : inv s -> WindowCacheBank.pending (window_caches s) !! resp_id r = Some p ->
  answered_cache hint r f p s = Ok s' -> taken none s s'.
Proof.
  intros I Hp. unfold answered_cache. intros E. apply bind_ok in E as (u & _ & E). apply or_fatal_ok in E.
  apply bind_ok in E as (b & Eb & E). destruct (iv_cache s I _ p Hp) as [_ Hv].
  unfold WindowCacheBank.complete in Eb. rewrite Hp in Eb. apply bind_ok in Eb as (u' & _ & Eb).
  unfold at_ in Eb. destruct (states (window_caches s) !! Z.to_nat (p_vcpu p)) as [st|] eqn:Hst; [| discriminate].
  cbn [mbind result_bind] in Eb. apply bind_ok in Eb as (c & Ec & [= <-]). destruct (complete_keeps _ _ _ Ec) as [Ha Ha'].
  assert (T : taken none s (s <| window_caches := set_state (p_vcpu p) (mkState c false) (window_caches s)
                                   <| WindowCacheBank.pending ::= delete (resp_id r) |> |>)).
  { apply (taken_cache none (p_vcpu p) st (mkState c false) s _ []); try reflexivity; auto; try (cbn; lia).
    - intros id q Hid. cbn in Hid. apply lookup_delete_Some in Hid as [_ Hid]. left. exact Hid.
    - cbn. rewrite app_nil_r. reflexivity.
    - intros w Hw. cbn [s_cache]. rewrite Ha, Ha'. unfold none. change (posts w []) with 0. destruct (w =? p_vcpu p); cbn; lia. }
  eapply taken_then; [exact T |]. apply (service_taken _ (p_vcpu p) Hv _ _ (tk_inv _ _ _ T) E).
Qed.

Lemma response_taken Q hint r f s b s' : inv s -> completeMmioSyncResponse Q hint r f s = Ok (b, s') -> taken none s s'.
Proof.
  intros I. unfold completeMmioSyncResponse.
  destruct (WindowCacheBank.pending (window_caches s) !! resp_id r) as [p|] eqn:Hp.
  - intros E. apply bind_ok in E as (s1 & E1 & [= _ <-]). apply (cache_answer_taken hint r f p s s1 I Hp E1).
  - intros E. apply bind_ok in E as ([b1 s1] & E1 & E). pose proof (offer_taken Q r _ _ _ _ _ I E1) as T.
    destruct b1; [injection E as _ <-; exact T |].
    destruct (generic_pending s1 !! resp_id r) as [g|] eqn:Hg; injection E as _ <-; [| exact T].
    eapply taken_then; [exact T |]. apply (generic_answered _ g _ s1 (tk_inv _ _ _ T) Hg).
Qed.

(** ** Ticks of the ports *)

Lemma process_taken Q n : forall i s s', inv s -> process_ports Q n i s = Ok s' -> taken none s s'.
Proof.
  induction n as [|n IH]; intros i s s' I; cbn [process_ports]; [intros [= <-]; apply taken_refl, I |].
  destruct (accel_ports s !! i) as [p|] eqn:Hi; [| intros [= <-]; apply taken_refl, I].
  intros E. apply bind_ok in E as (e & E1 & E).
  destruct (process_law (host_view Q s) p e) as (H1 & H2 & H3 & H4);
    [apply (Forall_lookup_1 _ _ _ _ (iv_ports s I) Hi) | exact E1 |].
  assert (T : taken none s (port_done i e s)).
  { apply (port_taken none i p); auto. intros w. unfold none. rewrite Z.add_0_r. apply H4. }
  eapply taken_then; [exact T | apply (IH _ _ _ (tk_inv _ _ _ T) E)].
Qed.

(** ** Any interleaving *)

(** The component and the bridges, with the number of requests each vCPU has
    made.  A bridge publishes its next request only in an empty slot; polls,
    responses, port ticks and resets of guest CPUs come in any order. *)
Inductive sys_step : Cpu A * (Z -> Z) -> Cpu A * (Z -> Z) -> Prop :=
  | sys_ask v r r0 s n : 0 <= v -> mmio_req s !! Z.to_nat v = Some r0 -> rq_pending r0 = false ->
      rq_pending r = true -> guest_command (cmd_of (rq_cmd r)) ->
      sys_step (s, n) (ask v r s, fun w => n w + one v w)
  | sys_poll Q s s' n : pollMmioSyncMailbox cfg Q s = Ok s' -> sys_step (s, n) (s', n)
  | sys_reply Q hint r fail s b s' n : completeMmioSyncResponse Q hint r fail s = Ok (b, s') -> sys_step (s, n) (s', n)
  | sys_process Q s s' n : process_ports Q (length (accel_ports s)) 0 s = Ok s' -> sys_step (s, n) (s', n)
  | sys_reset (v : nat) epoch s n : sys_step (s, n) (s <| cpu_reset_epoch ::= <[v := epoch]> |>, n).

(** Before the first command. *)
Record started s : Prop :=
  { st_out : out s = [];
    st_slots : forall i r, mmio_req s !! i = Some r -> rq_pending r = false;
    st_caches : forall i st, states (window_caches s) !! i = Some st -> WindowCache.active (s_cache st) = false;
    st_pending : WindowCacheBank.pending (window_caches s) = ∅;
    st_generic : generic_pending s = ∅;
    st_ports : Forall (fun p => port_inv (next_id s) p /\ (forall w, owed p w = 0)) (accel_ports s) }.

Lemma started_inv s : started s -> inv s /\ forall w, debt w s = 0.
Proof.
  intros [Ho Hs Hc Hp Hg Hports]. split.
  - constructor; rewrite ?Hp, ?Hg.
    + intros i r Hi Hr. rewrite (Hs i r Hi) in Hr. discriminate.
    + eapply Forall_impl; [exact Hports |]. intros p [? _]. assumption.
    + intros id [x Hx]. discriminate.
    + intros id p Hx. discriminate.
    + reflexivity.
    + split; reflexivity.
  - intros w. unfold debt. rewrite Hg, mcount_empty.
    assert (waiting w s = 0) as -> by (unfold waiting; destruct (_ !! _) eqn:E; [rewrite (Hs _ _ E) |]; reflexivity).
    assert (busy w s = 0) as -> by (unfold busy; destruct (_ !! _) eqn:E; [rewrite (Hc _ _ E) |]; reflexivity).
    unfold owed_ports. induction Hports as [|p l [_ H1] _ IH]; cbn [foldr]; [reflexivity | rewrite H1; exact IH].
Qed.

Lemma ask_taken v r r0 s : 0 <= v -> inv s -> mmio_req s !! Z.to_nat v = Some r0 -> rq_pending r0 = false ->
  rq_pending r = true -> guest_command (cmd_of (rq_cmd r)) -> taken (one v) s (ask v r s).
Proof.
  intros Hv [Iq Ip Ig Ic Ia If] H1 H2 H3 H4. pose proof (lookup_lt_Some _ _ _ H1) as Hl. constructor.
  - constructor; try assumption. cbn. intros i q Hi Hq. destruct (decide (i = Z.to_nat v)) as [->|Hne].
    + rewrite list_lookup_insert_eq in Hi by exact Hl. injection Hi as <-. exact H4.
    + rewrite list_lookup_insert_ne in Hi by congruence. apply (Iq i q Hi Hq).
  - apply newer_same; reflexivity.
  - exists []. split; [cbn; rewrite app_nil_r; reflexivity |]. intros w Hw. change (posts w []) with 0.
    unfold debt. assert (Hwait : waiting w (ask v r s) = waiting w s + one v w).
    { unfold waiting, one. cbn. destruct (Z.eqb_spec w v) as [E|Hne].
      - rewrite E, list_lookup_insert_eq, H1 by exact Hl. rewrite H2, H3. reflexivity.
      - rewrite list_lookup_insert_ne by lia. cbn. lia. }
    rewrite Hwait. unfold busy. cbn. lia.
Qed.

Lemma reset_seen (v : nat) e s : inv s -> taken none s (s <| cpu_reset_epoch ::= <[v := e]> |>).
Proof.
  intros [Iq Ip Ig Ic Ia If]. constructor; [constructor; assumption | apply newer_same; reflexivity |].
  exists []. split; [cbn; rewrite app_nil_r; reflexivity |]. intros w _. change (posts w []) with 0.
  unfold debt, waiting, busy, none. cbn. lia.
Qed.

Lemma sys_step_taken x y : sys_step x y -> inv x.1 ->
  inv y.1 /\ forall w, 0 <= w -> debt w y.1 + posts w (out y.1) - y.2 w = debt w x.1 + posts w (out x.1) - x.2 w.
Proof.
  assert (H1 : forall k s s' (n n' : Z -> Z), taken k s s' -> (forall w, n' w = n w + k w) -> inv s' /\ forall w, 0 <= w ->
    debt w s' + posts w (out s') - n' w = debt w s + posts w (out s) - n w).
  { intros k s s' n n' [I _ (es & E & D)] Hn. split; [exact I |]. intros w Hw. rewrite E, posts_app, Hn. specialize (D w Hw). lia. }
  assert (H2 : forall s s' (n : Z -> Z), taken none s s' -> inv s' /\ forall w, 0 <= w ->
    debt w s' + posts w (out s') - n w = debt w s + posts w (out s) - n w).
  { intros s s' n T. apply (H1 none s s' n n T). intros w. unfold none. lia. }
  intros S I. destruct S as [v r r0 s n Hv Ha Hb Hc Hd | Q s s' n E | Q hint r f s b s' n E | Q s s' n E | v e s n]; cbn [fst snd] in *.
  - apply (H1 (one v) s _ n); [| reflexivity]. apply (ask_taken v r r0 s Hv I Ha Hb Hc Hd).
  - apply H2. apply (poll_taken Q (Z.to_nat (vcpu_count cfg)) 0 s s'); [lia | exact I | exact E].
  - apply H2. apply (response_taken Q hint r f s b s' I E).
  - apply H2. apply (process_taken Q (length (accel_ports s)) 0 s s' I E).
  - apply H2, reset_seen, I.
Qed.

Lemma reachable_taken s0 s n : started s0 -> rtc sys_step (s0, fun _ => 0) (s, n) ->
  inv s /\ forall w, 0 <= w -> posts w (out s) + debt w s = n w.
Proof.
  intros Hs Hr. destruct (started_inv s0 Hs) as [I0 D0].
  assert (G : inv (s, n).1 /\ forall w, 0 <= w -> debt w (s, n).1 + posts w (out (s, n).1) - (s, n).2 w = 0).
  { remember (s0, fun _ : Z => 0) as x eqn:Ex. assert (B : inv x.1 /\ forall w, 0 <= w -> debt w x.1 + posts w (out x.1) - x.2 w = 0).
    { subst x. split; [exact I0 |]. intros w _. cbn. rewrite D0, (st_out s0 Hs). reflexivity. }
    clear Ex. induction Hr as [x|x y z Hxy Hyz IH]; [exact B | apply IH].
    destruct B as [B1 B2]. destruct (sys_step_taken x y Hxy B1) as [C1 C2]. split; [exact C1 |].
    intros w Hw. rewrite (C2 w Hw). apply (B2 w Hw). }
  destruct G as [G1 G2]. split; [exact G1 |]. intros w Hw. specialize (G2 w Hw). cbn in G2. lia.
Qed.

(** C6. In every interleaving of requests, polls, responses, port ticks and resets, the
    answers posted to a vCPU and those still owed to it are together the
    requests it has made: none is answered twice, none without being asked,
    and when nothing is owed every request has been answered. *)
Theorem mailbox_answers_once s0 s n : started s0 -> rtc sys_step (s0, fun _ => 0) (s, n) ->
  forall w, 0 <= w -> posts w (out s) + debt w s = n w /\ 0 <= debt w s.
Proof.
  intros Hs Hr w Hw. split; [apply (proj2 (reachable_taken s0 s n Hs Hr) w Hw) |].
  unfold debt, waiting, busy. pose proof (owed_ports_nonneg w (accel_ports s)).
  pose proof (mcount_nonneg (fun g => gp_vcpu g =? w) (generic_pending s)).
  repeat case_match; unfold b2z; repeat case_match; lia.
Qed.

(** A response to a plain request is never taken by a cache or by a port, and
    is the answer of the vCPU that made the request. *)
Lemma plain_response_routed s0 s n Q hint r fail (g : GenericPending) : started s0 ->
  rtc sys_step (s0, fun _ => 0) (s, n) -> generic_pending s !! resp_id r = Some g ->
  completeMmioSyncResponse Q hint r fail s =
  Ok (true, call (PostResponse (gp_vcpu g) (generic_value g r)) (s <| generic_pending ::= delete (resp_id r) |>)).
Proof.
  intros Hs Hr Hg. destruct (reachable_taken s0 s n Hs Hr) as [I _]. unfold completeMmioSyncResponse.
  rewrite (iv_apart s I (resp_id r)) by eauto. rewrite (offer_foreign Q r s I); [cbn; rewrite Hg; reflexivity |].
  intros i p Hi Hh. destruct (iv_foreign s I i p _ Hi Hh) as [H1 _]. congruence.
Qed.

(** ** A plain request through the mailbox *)

Lemma run_link_step f Q v k s m h r m' : out s !! k = Some h -> answer_link m h = Some (r, m') ->
  run_link (S f) Q v k s m = ('(_, s) ← completeMmioSyncResponse Q v r false s; run_link f Q v (S k) s m').
Proof. intros Hk Ha. cbn [run_link]. rewrite Hk, Ha. reflexivity. Qed.

Lemma run_link_quiet Q v s m : forall es f pre, out s = pre ++ es -> (forall h, In h es -> answer_link m h = None) ->
  (length es < f)%nat -> run_link f Q v (length pre) s m = Ok (s, m).
Proof.
  induction es as [|h es IH]; intros [|f] pre Ho Hn Hf; cbn in Hf; try lia; cbn [run_link]; rewrite Ho.
  - rewrite app_nil_r, lookup_ge_None_2 by lia. reflexivity.
  - rewrite (list_lookup_middle pre es h (length pre) eq_refl), Hn by (left; reflexivity).
    replace (S (length pre)) with (length (pre ++ [h])) by (rewrite length_app; cbn; lia).
    apply IH; [rewrite Ho, <- app_assoc; reflexivity | intros h' Hh'; apply Hn; right; exact Hh' | lia].
Qed.

(** vCPU [v] has no cache, and a link. *)
Record plain v s : Prop :=
  { pl_inv : inv s;
    pl_vcpu : 0 <= v < vcpu_count cfg;
    pl_uncached : sst_window_cache cfg = false;
    pl_mmio : has_mmio cfg v = true }.

(** From [s], slot [v]'s request has been answered with [x] and nothing else
    has changed but the next id. *)
Definition replied v x r s s' : Prop :=
  exists es, out s' = out s ++ es ++ [PostResponse v x] /\ (forall w, posts w es = 0) /\
    s' = released v r s <| next_id := next_id s + 1 |> <| out := out s' |>.

Lemma plain_replied v x r s t : inv s -> mmio_req s !! Z.to_nat v = Some r -> replied v x r s t -> inv t.
Proof.
  intros [Iq Ip Ig Ic Ia If] Hr (es & _ & _ & ->). constructor; cbn; auto.
  - intros i q Hi Hq. destruct (decide (i = Z.to_nat v)) as [->|Hne].
    + rewrite list_lookup_insert_eq in Hi by apply (lookup_lt_Some _ _ _ Hr). injection Hi as <-. discriminate.
    + rewrite list_lookup_insert_ne in Hi by congruence. apply (Iq i q Hi Hq).
  - eapply Forall_impl; [exact Ip |]. intros p Hp. apply (port_inv_mono _ _ _ Hp). lia.
  - intros id Hi. specialize (Ig id Hi). lia.
  - intros id p Hi. destruct (Ic id p Hi). lia.
Qed.

Lemma route_fresh Q v s s0 (g : GenericPending) r : inv s -> resp_id r = next_id s ->
  WindowCacheBank.pending (window_caches s0) = WindowCacheBank.pending (window_caches s) ->
  accel_ports s0 = accel_ports s -> generic_pending s0 = <[next_id s := g]> (generic_pending s) -> next_id s0 = next_id s + 1 ->
  inv s0 ->
  completeMmioSyncResponse Q v r false s0 =
  Ok (true, call (PostResponse (gp_vcpu g) (generic_value g r)) (s0 <| generic_pending ::= delete (next_id s) |>)).
Proof.
  intros I Hid Hb Hp Hg Hn I0. unfold completeMmioSyncResponse. rewrite Hid, Hb.
  assert (WindowCacheBank.pending (window_caches s) !! next_id s = None) as ->.
  { apply eq_None_not_Some. intros [x Hx]. destruct (iv_cache s I _ x Hx). lia. }
  rewrite (offer_foreign Q r s0 I0).
  - cbn [mbind result_bind]. rewrite Hg, lookup_insert_eq. reflexivity.
  - intros i p Hi. rewrite Hp in Hi. rewrite Hid. intros Hh.
    pose proof (holds_old _ p _ (Forall_lookup_1 _ _ _ _ (iv_ports s I) Hi) Hh). lia.
Qed.

(** What a plain request does: [h] is the request, [g] its entry. *)
Lemma plain_request Q v r s m k h (g : GenericPending) resp m' : plain v s -> requested v r s ->
  decode cfg r (released v r s) = Ok k -> guest_command (cmd_of (rq_cmd r)) ->
  handleMmioSyncCommand cfg Q v k (released v r s) = Ok (true, call (RecordSyncRequest v (gp_is_read g)) (call h
     (released v r s <| next_id := next_id s + 1 |> <| generic_pending ::= <[next_id s := g]> |>))) ->
  gp_vcpu g = v -> (forall w, posts w [h] = 0) -> answer_link m h = Some (resp, m') -> resp_id resp = next_id s ->
  exists t, poll_and_link cfg Q v s m = Ok (t, m') /\ replied v (generic_value g resp) r s t.
Proof.
  intros [I Hv Hc Hm] [Hr Hp] Hd Hgc Hh Hg Hpo Ha Hid.
  set (s1 := call (RecordSyncRequest v (gp_is_read g)) (call h _)) in Hh.
  pose proof (release_taken v r s (proj1 Hv) I Hr Hp) as T0. pose proof (tk_inv _ _ _ T0) as I0.
  assert (I1 : inv s1).
  { refine (tk_inv _ _ _ (generic_taken v g (RecordSyncRequest v (gp_is_read g)) h (released v r s) Hg I0 _)).
    intros w. rewrite posts_cons. specialize (Hpo w). rewrite posts_cons in Hpo. change (posts w []) with 0 in *.
    change (posts w [RecordSyncRequest v (gp_is_read g)]) with 0. lia. }
  pose proof (route_fresh Q v s s1 g resp I Hid eq_refl eq_refl eq_refl eq_refl I1) as Er.
  set (t := call _ _) in Er. exists t. split.
  - unfold poll_and_link, poll_slot, poll_reset. rewrite Hc. cbn [andb mbind result_bind].
    rewrite (list_lookup_total_correct _ _ _ Hr), Hp. cbv zeta. change (s <| mmio_req ::= _ |>) with (released v r s).
    rewrite Hd. cbn [mbind result_bind]. rewrite Hh. cbn [mbind result_bind].
    assert (E1 : out s1 !! length (out s) = Some h).
    { change (out s1) with ((out s ++ [h]) ++ [RecordSyncRequest v (gp_is_read g)]). rewrite <- app_assoc.
      apply list_lookup_middle. reflexivity. }
    change link_fuel with (S 39). rewrite (run_link_step 39 Q v (length (out s)) s1 m h resp m' E1 Ha), Er.
    cbn [mbind result_bind]. replace (S (length (out s))) with (length (out s ++ [h])) by (rewrite length_app; cbn; lia).
    apply (run_link_quiet Q v t m' [RecordSyncRequest v (gp_is_read g); PostResponse (gp_vcpu g) (generic_value g resp)] 39).
    + change (out t) with ((((out s ++ [h]) ++ [RecordSyncRequest v (gp_is_read g)]) ++ [PostResponse (gp_vcpu g) (generic_value g resp)])).
      rewrite <- app_assoc. reflexivity.
    + intros x [<-|[<-|[]]]; reflexivity.
    + cbn. lia.
  - exists [h; RecordSyncRequest v (gp_is_read g)]. split; [| split].
    + unfold t. cbn. rewrite Hg, <- !app_assoc. reflexivity.
    + intros w. rewrite posts_cons. specialize (Hpo w). rewrite posts_cons in Hpo. change (posts w []) with 0 in *.
      change (posts w [RecordSyncRequest v (gp_is_read g)]) with 0. lia.
    + unfold t, s1. cbn. assert (Hfr : generic_pending s !! next_id s = None).
      { apply eq_None_not_Some. intros Hs. pose proof (iv_generic s I _ Hs). lia. }
      rewrite delete_insert_id by exact Hfr. destruct s; reflexivity.
Qed.

Lemma plain_handle Q v k s : plain v s -> cmd k = CMD_MMIO_READ_REQ \/ cmd k = CMD_MMIO_WRITE_REQ ->
  portForAddr (addr k) s = None ->
  handleMmioSyncCommand cfg Q v k s =
  match cmd k with
  | CMD_MMIO_READ_REQ =>
      be ← windowBigEndian cfg (addr k) s;
      Ok (true, call (RecordSyncRequest v true) (call (SendRead v (mkRead (next_id s) (addr k) (size k)))
        (s <| next_id := next_id s + 1 |> <| generic_pending ::= <[next_id s := mkGeneric v true be]> |>)))
  | _ =>
      Ok (true, call (RecordSyncRequest v false)
        (call (SendWrite v (mkWrite (next_id s) (addr k) (size k) (take (Z.to_nat (size k)) (data k)) false))
        (s <| next_id := next_id s + 1 |> <| generic_pending ::= <[next_id s := mkGeneric v false false]> |>)))
  end.
Proof.
  intros [I Hv Hc Hm] Hk Hp. unfold handleMmioSyncCommand. rewrite throw_if_false by (apply Z.leb_gt; lia).
  rewrite bool_decide_false by (destruct Hk as [-> | ->]; discriminate). rewrite Hc, Hm, Hp. cbn [mbind result_bind negb].
  destruct Hk as [-> | ->]; reflexivity.
Qed.

Lemma value_payload be n v : 0 <= n <= 8 ->
  (if be : bool then be_value (payload be n v) else dataToU64 (payload be n v)) = v mod 256 ^ n.
Proof.
  intros Hn. unfold dataToU64. destruct be; [rewrite payload_be, be_value_bytes by lia | rewrite payload_le, le_value_bytes by lia];
    rewrite Z2Nat.id by lia; reflexivity.
Qed.

(** Where no port and no cache takes it, a store through the mailbox puts the
    value's bytes into the memory behind the link, in the aperture's byte
    order, and a load of the same size answers the value. *)
Lemma plain_store_load Q v s m (w r : Request) be : plain v s -> requested v w s -> portForAddr (rq_addr w) s = None ->
  cmd_of (rq_cmd w) = CMD_MMIO_WRITE_REQ -> cmd_of (rq_cmd r) = CMD_MMIO_READ_REQ -> rq_pending r = true ->
  rq_addr r = rq_addr w -> rq_size r = rq_size w -> 0 <= rq_size w <= 8 -> windowBigEndian cfg (rq_addr w) s = Ok be ->
  let bs := if be then be_bytes (Z.to_nat (rq_size w)) (rq_val w) else le_bytes (Z.to_nat (rq_size w)) (rq_val w) in
  let m' := mwrite m (rq_addr w) bs in
  exists t t', poll_and_link cfg Q v s m = Ok (t, m') /\ replied v 0 w s t /\
    poll_and_link cfg Q v (ask v r t) m' = Ok (t', m') /\
    replied v (rq_val w mod 256 ^ rq_size w) r (ask v r t) t'.
Proof.
  intros Hpl Hq Hport Hw Hr Hp Ea En Hn Hbe bs m'. pose proof Hpl as [I Hv Hc Hm].
  assert (Hbs : bs = payload be (rq_size w) (rq_val w)) by (unfold bs; destruct be; [rewrite payload_be | rewrite payload_le]; auto; lia).
  pose proof (length_payload be (rq_size w) (rq_val w) ltac:(lia)) as Hlen.
  assert (Hpl0 : plain v (released v w s)).
  { constructor; try assumption. exact (tk_inv _ _ _ (release_taken v w s (proj1 Hv) I (proj1 Hq) (proj2 Hq))). }
  set (kw := mkCommand CMD_MMIO_WRITE_REQ (rq_size w) 0 (rq_addr w) 0 (padded bs)).
  destruct (plain_request Q v w s m kw (SendWrite v (mkWrite (next_id s) (rq_addr w) (rq_size w) bs false))
    (mkGeneric v false false) (WriteR (next_id s)) m' Hpl Hq) as (t & E1 & R1); try reflexivity.
  { unfold decode. rewrite Hw. change (windowBigEndian cfg (rq_addr w) (released v w s)) with (windowBigEndian cfg (rq_addr w) s).
    rewrite Hbe. cbn [mbind result_bind]. rewrite (proj2 (Z.leb_le _ _)), andb_true_r, <- Hbs by lia. reflexivity. }
  { right; left. exact Hw. }
  { rewrite (plain_handle Q v kw _ Hpl0 (or_intror eq_refl) Hport). cbn [kw cmd]. cbn [size data kw].
    rewrite take_padded by (rewrite Hbs, Hlen; reflexivity). reflexivity. }
  pose proof R1 as (es & Ho & _ & Et).
  assert (It : inv t) by apply (plain_replied v 0 w s t I (proj1 Hq) R1).
  assert (Hslot : mmio_req t !! Z.to_nat v = Some (w <| rq_pending := false |>)).
  { rewrite Et. cbn. apply list_lookup_insert_eq, (lookup_lt_Some _ _ _ (proj1 Hq)). }
  assert (Hq2 : requested v r (ask v r t)).
  { split; [| exact Hp]. cbn. apply list_lookup_insert_eq, (lookup_lt_Some _ _ _ Hslot). }
  assert (Ia : inv (ask v r t)).
  { apply (tk_inv _ _ _ (ask_taken v r _ t (proj1 Hv) It Hslot eq_refl Hp (or_introl Hr))). }
  assert (Hpl2 : plain v (ask v r t)) by (constructor; assumption).
  assert (Hpl3 : plain v (released v r (ask v r t))).
  { constructor; try assumption. exact (tk_inv _ _ _ (release_taken v r _ (proj1 Hv) Ia (proj1 Hq2) (proj2 Hq2))). }
  set (kr := mkCommand CMD_MMIO_READ_REQ (rq_size w) 0 (rq_addr w) 0 (padded [])).
  assert (Hbe2 : windowBigEndian cfg (rq_addr w) (released v r (ask v r t)) = Ok be) by (rewrite Et; exact Hbe).
  destruct (plain_request Q v r (ask v r t) m' kr (SendRead v (mkRead (next_id t) (rq_addr w) (rq_size w)))
    (mkGeneric v true be) (ReadR (next_id t) (mread m' (rq_addr w) (rq_size w))) m' Hpl2 Hq2) as (t' & E2 & R2); try reflexivity.
  { unfold decode. rewrite Hr, Ea, En. reflexivity. }
  { left. exact Hr. }
  { rewrite (plain_handle Q v kr _ Hpl3 (or_introl eq_refl)); [| rewrite Et; exact Hport].
    cbn [kr cmd addr]. rewrite Hbe2. reflexivity. }
  exists t, t'. split; [exact E1 | split; [exact R1 | split; [exact E2 |]]].
  assert (Hread : mread m' (rq_addr w) (rq_size w) = bs).
  { unfold m'. replace (rq_size w) with (Z.of_nat (length bs)) at 1 by (rewrite Hbs, Hlen; lia). apply mread_mwrite. }
  unfold generic_value in R2. cbn [gp_is_read gp_win_be] in R2. rewrite Hread, Hbs, (value_payload be) in R2 by lia. exact R2.
Qed.
End Answers.

(** ** The theorems at concrete inputs: one vCPU, one Balar port *)

Definition demo_balar : AcceleratorPort BalarPort.Port :=
  BalarAnswers.balar_port (BalarPort.mkParams 0x9000 8 64 true true 0xA000 0x40 1) (fun _ => true) 64.
#[local] Existing Instance demo_balar.
Definition demo_laws : AcceleratorLaws BalarPort.Port :=
  BalarAnswers.balar_laws (BalarPort.mkParams 0x9000 8 64 true true 0xA000 0x40 1) (fun _ => true) 64.
#[local] Existing Instance demo_laws.

Definition plain_config : Config := mkConfig 1 false false 0 0 (fun _ => true).
Definition plain_cpu (r : Request) : Cpu BalarPort.Port :=
  mkCpu bank0 [] ∅ [BalarPort.port0] (mkShared 0 0 [region0; region0] (fun _ => 0)) [r] [0] 3 [].
Definition empty_slot : Request := mkRequest false 0 0 0 0.
Definition plain_store : Request := mkRequest true 5 4 0x1000 0x11223344.
Definition plain_load : Request := mkRequest true 4 4 0x1000 0.
Definition plain_polled : Cpu BalarPort.Port :=
  match pollMmioSyncMailbox plain_config demo_host (plain_cpu plain_store) with Ok s => s | Throw _ _ => plain_cpu plain_store end.

Lemma plain_started : started (plain_cpu empty_slot).
Proof.
  constructor; try reflexivity.
  - intros [|[|i]] r; try discriminate. intros [= <-]. reflexivity.
  - intros i st Hi. discriminate.
  - constructor; [| constructor]. destruct (BalarAnswers.balar_start 3). split; assumption.
Qed.

Lemma plain_reached : rtc (sys_step plain_config) (plain_cpu empty_slot, fun _ => 0) (plain_polled, fun w => 0 + one 0 w).
Proof.
  eapply rtc_l; [apply (sys_ask plain_config 0 plain_store empty_slot) |].
  - lia.
  - reflexivity.
  - reflexivity.
  - reflexivity.
  - right; left; reflexivity.
  - apply rtc_once. apply (sys_poll plain_config demo_host). vm_compute. reflexivity.
Qed.

Lemma mailbox_answers_once_witness : posts 0 (out plain_polled) + debt 0 plain_polled = 1 /\ 0 <= debt 0 plain_polled.
Proof. apply (mailbox_answers_once plain_config _ plain_polled _ plain_started plain_reached 0). lia. Defined.

Lemma plain_response_routed_witness :
  completeMmioSyncResponse demo_host 0 (WriteR 3) false plain_polled =
  Ok (true, call (PostResponse 0 0) (plain_polled <| generic_pending ::= delete 3 |>)).
Proof.
  apply (plain_response_routed plain_config _ plain_polled _ demo_host 0 (WriteR 3) false (mkGeneric 0 false false) plain_started plain_reached).
  vm_compute. reflexivity.
Defined.

Lemma plain_store_load_witness : exists t t',
  poll_and_link plain_config demo_host 0 (plain_cpu plain_store) (fun _ => 0) = Ok (t, mwrite (fun _ => 0) 0x1000 (le_bytes 4 0x11223344)) /\
  replied 0 0 plain_store (plain_cpu plain_store) t /\
  poll_and_link plain_config demo_host 0 (ask 0 plain_load t) (mwrite (fun _ => 0) 0x1000 (le_bytes 4 0x11223344)) =
    Ok (t', mwrite (fun _ => 0) 0x1000 (le_bytes 4 0x11223344)) /\
  replied 0 0x11223344 plain_load (ask 0 plain_load t) t'.
Proof.
  apply (plain_store_load plain_config demo_host 0 (plain_cpu plain_store) (fun _ => 0) plain_store plain_load false); try reflexivity.
  - constructor; [| cbn; lia | reflexivity | reflexivity].
    pose proof (proj1 (started_inv _ plain_started)) as I.
    apply (tk_inv _ _ _ (ask_taken 0 plain_store empty_slot (plain_cpu empty_slot) ltac:(lia) I eq_refl eq_refl eq_refl (or_intror (or_introl eq_refl)))).
  - split; reflexivity.
  - cbn. lia.
Defined.
