(* ===== verification/CpuThm.v ===== *)
(** * The CPU component: cores, mailbox and ports together

    The component of Cpu.v for any accelerator ports that satisfy their laws,
    with the guests' commands, the bridges' requests, memory's responses and
    device interrupts arriving in any order between the clock ticks. *)
From S2P Require Import Prelude.
From S2P Require Import WindowCache.
From S2P Require Import WindowCacheBank.
From S2P Require Import StdMem.
From S2P Require Import AcceleratorPort.
From S2P Require Import Command.
From S2P Require Import Regions.
From S2P Require Import MemIssue.
From S2P Require Import CpuSync.
From S2P Require Import CpuAnswers.
From S2P Require Import Pipeline.
From S2P Require Import PipelineThm.
From S2P Require Import PipelineDrain.
From S2P Require Import PipelineCore.
From S2P Require Import Cpu.

Section Component.
Context {A : Type} `{AcceleratorLaws A}.
Variables (cfg : Config) (system_mode : bool) (ctx : QuetzCoreContext) (t0 : list MemRegionHandler).
Context (Hcount : 0 <= vcpu_count cfg < 2 ^ 32).
(** Every vCPU has both links. *)
Context (Hctx : forall i, ctx_ok (core_ctx cfg ctx i)).
Implicit Types (s : QuetzCPU A) (g : list (list QuetzCommand)) (n : Z -> Z).

(** ** The invariant *)

Definition halted_cores s : Z := Z.of_nat (length (List.filter halted (cores s))).
Definition is_end (e : CpuEvent) : bool := match e with OKToEndSim => true | _ => false end.
Definition ends s : Z := Z.of_nat (length (List.filter is_end (events s))).

(** [g]: the commands each guest CPU has published; [n]: the requests each has
    made at its mailbox. *)
Record good s g n : Prop :=
  { gd_sync : CpuAnswers.inv (sync s);
    gd_debt : forall w, 0 <= w -> posts w (out (sync s)) + debt w (sync s) = n w;
    gd_cores : length (cores s) = Z.to_nat (vcpu_count cfg);
    gd_guests : length g = Z.to_nat (vcpu_count cfg);
    gd_valid : Forall (Forall valid) g;
    gd_table : forall c, action_of (filter_unmatched_regions ctx) (region_table s) c =
                         action_of (filter_unmatched_regions ctx) t0 c;
    gd_core : forall i p cs, cores s !! i = Some p -> g !! i = Some cs -> core_ok (core_ctx cfg ctx i) t0 cs p;
    gd_apart : forall i p id, cores s !! i = Some p -> is_Some (pending_txns (emitter p) !! id) ->
      id < CpuSync.next_id (sync s) /\ ~ waits_for (sync s) id /\
      forall j q, cores s !! j = Some q -> i <> j -> pending_txns (emitter q) !! id = None;
    gd_halted : halted_count s = halted_cores s;
    gd_ends : ends s = b2z (stop_ticking s) }.

(** ** The mailbox side *)

Lemma good_sync s g n k c : good s g n -> taken k (sync s) c -> good (s <| sync := c |>) g (fun w => n w + k w).
Proof.
  intros [G1 G2 G3 G4 G5 G6 G7 G8 G9 G10] [I [N1 N2] (es & E & D)]. split; auto.
  - intros w Hw. cbn. rewrite E, posts_app. specialize (D w Hw). specialize (G2 w Hw). lia.
  - intros i p id Hi Hid. destruct (G8 i p id Hi Hid) as (L & W & O). cbn. split; [lia | split; [| exact O]].
    intros Hw. destruct (N2 id Hw); [auto | lia].
Qed.

Lemma good_ext s g n n' : good s g n -> (forall w, 0 <= w -> n w = n' w) -> good s g n'.
Proof. intros [] Hn. split; auto. intros w Hw. rewrite <- Hn by exact Hw. auto. Qed.

Lemma good_sync_none s g n c : good s g n -> taken none (sync s) c -> good (s <| sync := c |>) g n.
Proof. intros G T. eapply good_ext; [apply (good_sync s g n none c G T) |]. intros w _. unfold none. lia. Qed.

(** Only the log, the time and the poll counter. *)
Lemma good_same s s' g n : good s g n -> sync s' = sync s -> cores s' = cores s -> region_table s' = region_table s ->
  halted_count s' = halted_count s -> ends s' = b2z (stop_ticking s') -> good s' g n.
Proof.
  intros [G1 G2 G3 G4 G5 G6 G7 G8 G9 G10] E1 E2 E3 E4 E5. unfold halted_cores in *. split; rewrite ?E1, ?E2, ?E3, ?E4; auto.
  unfold halted_cores. rewrite E2. exact G9.
Qed.

Lemma ends_note e s : ends (note e s) = ends s + b2z (is_end e).
Proof. unfold ends, note. cbn. rewrite List.filter_app, length_app. destruct e; cbn; lia. Qed.

(** ** A core's turn *)

(** The core as a turn finds it. *)
Lemma enter_ok E s g n i p cs : good s g n -> cores s !! i = Some p -> g !! i = Some cs ->
  core_ok (core_ctx cfg ctx i) t0 cs (enter E s p) /\ emitter (enter E s p) =
    emitter p <| MemIssue.next_id := CpuSync.next_id (sync s) |> <| now := e_now E |>.
Proof.
  intros G Hp Hg. split; [| reflexivity]. pose proof (gd_core _ _ _ G i p cs Hp Hg) as K.
  apply (core_emitter _ _ cs (p <| table := region_table s |>)); [apply core_table; [exact K | exact (gd_table _ _ _ G)] | | reflexivity |].
  - pose proof (iv_em _ _ _ _ (ck_inv _ _ _ _ K)) as [Q1 Q2 Q3]. split; [exact Q1 | exact Q2 |].
    intros id q Hid. apply (gd_apart _ _ _ G i p id Hp). eexists. exact Hid.
  - apply (iv_pending _ _ _ _ (ck_inv _ _ _ _ K)).
Qed.
(** A core that was left drained by its last cycle has done all its guest
    published, and the exit was not part of it. *)
Definition served (i : nat) (cs : list QuetzCommand) (p : Pipeline) : Prop :=
  Pipeline.isDrained p = true -> halted p = false ->
  snd <$> sent (emitter p) = flat_map (effects (core_ctx cfg ctx i) t0) (flat_map expand cs) /\
  pending_txns (emitter p) = ∅ /\ (CMD_EXIT ∉ cmd <$> cs).

Lemma filter_insert (f : Pipeline -> bool) (l : list Pipeline) i p p' : l !! i = Some p ->
  Z.of_nat (length (List.filter f (<[i := p']> l))) = Z.of_nat (length (List.filter f l)) - b2z (f p) + b2z (f p').
Proof.
  revert i. induction l as [|q l IH]; intros [|i]; try discriminate.
  - intros [= ->]. change (<[0%nat := p']> (p :: l)) with (p' :: l). cbn [List.filter]. destruct (f p), (f p'); cbn [length b2z]; lia.
  - intros Hi. change (<[S i := p']> (q :: l)) with (q :: <[i := p']> l). specialize (IH i Hi). cbn [List.filter].
    destruct (f q); cbn [length]; lia.
Qed.

Lemma filter_length (f : Pipeline -> bool) (l : list Pipeline) : Z.of_nat (length (List.filter f l)) <= Z.of_nat (length l).
Proof. induction l as [|q l IH]; cbn; [lia |]. destruct (f q); cbn [length]; lia. Qed.

(** A core left with new requests: the invariant of the others. *)
Lemma good_leave E s g n i p cs p' : good s g n -> cores s !! i = Some p -> g !! i = Some cs ->
  core_ok (core_ctx cfg ctx i) t0 cs p' -> fresh_step (enter E s p) p' ->
  good (leave i p' s <| halted_count := halted_cores (leave i p' s) |>) g n.
Proof.
  intros G Hp Hg K [F1 F2]. pose proof (lookup_lt_Some _ _ _ Hp) as Hl. cbn in F1.
  assert (Hids : forall id, is_Some (pending_txns (emitter p') !! id) ->
    is_Some (pending_txns (emitter p) !! id) \/ CpuSync.next_id (sync s) <= id < MemIssue.next_id (emitter p')) by exact F2.
  destruct G as [G1 G2 G3 G4 G5 G6 G7 G8 G9 G10]. split; cbn; auto.
  - destruct G1 as [Iq Ip Ig Ic Ia If]. constructor; cbn; auto.
    + eapply Forall_impl; [exact Ip |]. intros q Hq. apply (port_inv_mono _ _ _ Hq F1).
    + intros id Hid. specialize (Ig id Hid). lia.
    + intros id q Hq. destruct (Ic id q Hq). lia.
  - rewrite length_insert. exact G3.
  - apply (iv_table _ _ _ _ (ck_inv _ _ _ _ K)).
  - intros j q cs' Hj Hcs. apply list_lookup_insert_Some in Hj as [(<- & <- & _)|[Hne Hj]]; [| apply G7; assumption].
    assert (cs' = cs) as -> by congruence. exact K.
  - intros j q id Hj Hid. change (waits_for (sync (leave i p' s)) id) with (waits_for (sync s) id).
    apply list_lookup_insert_Some in Hj as [(<- & <- & _)|[Hne Hj]].
    + destruct (Hids id Hid) as [Hold|Hnew].
      * destruct (G8 i p id Hp Hold) as (L & W & O). split; [lia | split; [exact W |]].
        intros j q Hj Hne. rewrite list_lookup_insert_ne in Hj by exact Hne. apply (O j q Hj Hne).
      * split; [lia | split].
        -- intros Hw. pose proof (waits_old _ id G1 Hw). lia.
        -- intros j q Hj Hne. rewrite list_lookup_insert_ne in Hj by exact Hne. apply eq_None_not_Some. intros Hs.
           destruct (G8 j q id Hj Hs). lia.
    + destruct (G8 j q id Hj Hid) as (L & W & O). split; [lia | split; [exact W |]].
      intros k r Hk Hjk. apply list_lookup_insert_Some in Hk as [(<- & <- & _)|[Hne' Hk]]; [| apply (O k r Hk Hjk)].
      apply eq_None_not_Some. intros Hs. destruct (Hids id Hs) as [Hold|Hnew]; [| lia].
      rewrite (O i p Hp Hjk) in Hold. destruct Hold. discriminate.
Qed.

Lemma leave_count s g n i p p' : good s g n -> cores s !! i = Some p -> (halted p = true -> halted p' = true) ->
  (let s := leave i p' s in if negb (halted p) && halted p' then s <| halted_count ::= fun k => u32 (k + 1) |> else s) =
  leave i p' s <| halted_count := halted_cores (leave i p' s) |>.
Proof.
  intros G Hp Hm. cbv zeta.
  assert (E1 : halted_cores (leave i p' s) = halted_count s - b2z (halted p) + b2z (halted p'))
    by (rewrite (gd_halted _ _ _ G); apply (filter_insert halted); exact Hp).
  assert (Hle : 0 <= halted_cores (leave i p' s) <= vcpu_count cfg).
  { unfold halted_cores. pose proof (filter_length halted (cores (leave i p' s))) as Hf.
    assert (El : length (cores (leave i p' s)) = Z.to_nat (vcpu_count cfg)) by (cbn; rewrite length_insert; apply (gd_cores _ _ _ G)).
    rewrite El in Hf. lia. }
  rewrite E1 in *. unfold leave. destruct s; cbn in *. destruct (halted p), (halted p'); cbn in *;
    try (specialize (Hm eq_refl); discriminate); f_equal; rewrite ?wrap_small by word; lia.
Qed.
Lemma core_turn E s g n i p cs : good s g n -> cores s !! i = Some p -> g !! i = Some cs ->
  exists p' s', tick_core cfg ctx E i s = Ok s' /\ good s' g n /\ cores s' = <[i := p']> (cores s) /\ served i cs p' /\
    stop_ticking s' = stop_ticking s /\ child_running s' = child_running s.
Proof.
  intros G Hp Hg. unfold tick_core. rewrite Hp. cbv zeta.
  set (s1 := if negb (halted p) && _ then _ else s).
  assert (E1 : sync s1 = sync s /\ cores s1 = cores s /\ region_table s1 = region_table s /\ halted_count s1 = halted_count s /\
    stop_ticking s1 = stop_ticking s /\ child_running s1 = child_running s /\ ends s1 = ends s).
  { unfold s1. destruct (_ && _); [| auto 8]. repeat split. rewrite ends_note. cbn. lia. }
  destruct E1 as (Y1 & Y2 & Y3 & Y4 & Y5 & Y6 & Y7).
  assert (G1 : good s1 g n) by (apply (good_same s); auto; rewrite Y7, Y5; apply (gd_ends _ _ _ G)).
  rewrite <- Y2 in Hp. destruct (enter_ok E s1 g n i p cs G1 Hp Hg) as [K1 Ke].
  pose proof (Forall_lookup_1 _ _ _ _ (gd_valid _ _ _ G1) Hg) as Hv.
  destruct (core_tick _ t0 (Hctx i) cs _ Hv K1) as (p' & Et & K2 & F & Hm & Hd). rewrite Et. cbn [mbind result_bind].
  assert (Hm' : halted p = true -> halted p' = true) by (intros Ht; rewrite (Hm Ht); exact Ht).
  pose proof (good_leave E s1 g n i p cs p' G1 Hp Hg K2 F) as G2. pose proof (leave_count s1 g n i p p' G1 Hp Hm') as El.
  cbv zeta in El. rewrite El. eexists p', _. split; [reflexivity |]. split; [exact G2 |].
  split; [cbn; rewrite Y2; reflexivity | split; [exact Hd | split; [exact Y5 | exact Y6]]].
Qed.

Lemma cores_turn E g n k : forall i s, good s g n -> (i + k = Z.to_nat (vcpu_count cfg))%nat ->
  exists s', tick_cores cfg ctx E k i s = Ok s' /\ good s' g n /\
    (forall j p cs, cores s' !! j = Some p -> g !! j = Some cs ->
       ((i <= j)%nat -> served j cs p) /\ ((j < i)%nat -> cores s !! j = Some p)) /\
    stop_ticking s' = stop_ticking s /\ child_running s' = child_running s.
Proof.
  induction k as [|k IH]; intros i s G Hk; cbn [tick_cores].
  { exists s. split; [reflexivity | split; [exact G | split; [| auto]]]. intros j p cs Hp Hg. split; [| auto].
    apply lookup_lt_Some in Hp. rewrite (gd_cores _ _ _ G) in Hp. lia. }
  destruct (lookup_lt_is_Some_2 (cores s) i) as [p Hp]; [rewrite (gd_cores _ _ _ G); lia |].
  destruct (lookup_lt_is_Some_2 g i) as [cs Hg]; [rewrite (gd_guests _ _ _ G); lia |].
  destruct (core_turn E s g n i p cs G Hp Hg) as (p' & s1 & E1 & G1 & Ec & Hs & St1 & Cr1).
  destruct (IH (S i) s1 G1 ltac:(lia)) as (s' & E2 & G2 & Hall & St2 & Cr2).
  exists s'. rewrite E1. split; [exact E2 | split; [exact G2 | split; [| split; congruence]]].
  pose proof (lookup_lt_Some _ _ _ Hp) as Hl. intros j q qs Hq Hqs. destruct (Hall j q qs Hq Hqs) as [H1 H2]. split; intros Hj.
  - destruct (decide (j = i)) as [->|Hne]; [| apply H1; lia].
    specialize (H2 ltac:(lia)). rewrite Ec, list_lookup_insert_eq in H2 by exact Hl.
    assert (qs = cs) as -> by congruence. assert (q = p') as -> by congruence. exact Hs.
  - specialize (H2 ltac:(lia)). rewrite Ec, list_lookup_insert_ne in H2 by lia. exact H2.
Qed.

(** ** The tick *)

(** What is left when a tick comes to its end: every core has had its turn. *)
Lemma body_ok E s g n w s' : good s g n -> tick_body cfg ctx E s = Ok (w, s') ->
  good s' g n /\ (forall i p cs, cores s' !! i = Some p -> g !! i = Some cs -> served i cs p) /\
  stop_ticking s' = stop_ticking s /\ w = child_running s /\
  (child_running s' = false -> w = false \/ e_child E = Ok false).
Proof.
  intros G. unfold tick_body, advance. set (s0 := s <| sim_time := _ |> <| sim_cycles ::= _ |>).
  assert (G0 : good s0 g n) by (apply (good_same s); auto; apply (gd_ends _ _ _ G)). intros E1.
  apply bind_ok in E1 as (s3 & Eq & E1). apply bind_ok in Eq as (s1 & Ep & Eq). apply bind_ok in Eq as (s2 & Ec & Eq).
  cbv zeta in E1. apply bind_ok in E1 as (s4 & Ek & [= <- <-]).
  unfold poll in Ep. apply bind_ok in Ep as (c & Ep & [= <-]).
  pose proof (good_sync_none _ g n c G0 (poll_taken cfg _ _ 0 _ _ ltac:(lia) (gd_sync _ _ _ G0) Ep)) as G1.
  destruct (cores_turn E g n _ 0 _ G1 eq_refl) as (s2' & Ec' & G2 & Hall & St & Cr).
  injection (eq_trans (eq_sym Ec') Ec) as ->.
  unfold process_all in Eq. apply bind_ok in Eq as (c3 & Eq & [= <-]).
  pose proof (good_sync_none _ g n c3 G2 (process_taken _ _ _ _ _ (gd_sync _ _ _ G2) Eq)) as G3.
  set (s3 := s2 <| sync := c3 |>) in *.
  assert (Hs3 : forall i p cs, cores s3 !! i = Some p -> g !! i = Some cs -> served i cs p)
    by (intros i p cs Hp Hg; apply (Hall i p cs Hp Hg); lia).
  assert (K : sync s4 = sync s3 /\ cores s4 = cores s3 /\ region_table s4 = region_table s3 /\ halted_count s4 = halted_count s3 /\
    stop_ticking s4 = stop_ticking s3 /\ ends s4 = ends s3 /\
    (child_running s4 = false -> child_running s3 = false \/ e_child E = Ok false)).
  { unfold poll_child in Ek. cbv zeta in Ek. destruct (asks_child _ _); [| injection Ek as <-; cbn; auto 8].
    apply bind_ok in Ek as (b & Eb & [= <-]). cbn. repeat split. intros ->. auto. }
  destruct K as (K1 & K2 & K3 & K4 & K5 & K6 & K7). split; [apply (good_same s3); auto; rewrite K6, K5; apply (gd_ends _ _ _ G3) |].
  split; [rewrite K2; exact Hs3 |]. cbn in St, Cr. split; [rewrite K5; exact St |]. split; [exact Cr |].
  intros Hf. exact (K7 Hf).
Qed.
(** Nothing of any guest CPU is left to do. *)
Record finished s : Prop :=
  { fn_halted : Forall (fun p => halted p = true) (cores s);
    fn_cores : Forall (fun p => pending_txns (emitter p) = ∅) (cores s);
    fn_caches : forall i st, states (window_caches (sync s)) !! i = Some st -> WindowCache.active (s_cache st) = false;
    fn_pending : WindowCacheBank.pending (window_caches (sync s)) = ∅;
    fn_generic : generic_pending (sync s) = ∅;
    fn_ports : Forall (fun p => hasOutstanding p = false) (accel_ports (sync s)) }.

Lemma existsb_false {X} (f : X -> bool) l : existsb f l = false <-> Forall (fun x => f x = false) l.
Proof.
  induction l as [|x l IH]; cbn; [split; auto |]. rewrite orb_false_iff, Forall_cons, IH. tauto.
Qed.

Lemma active_spec b : active b = false <-> pending b = ∅ /\
  forall i st, states b !! i = Some st -> WindowCache.active (s_cache st) = false.
Proof.
  unfold active. rewrite orb_false_iff, negb_false_iff, bool_decide_eq_true, existsb_false.
  rewrite Forall_lookup. tauto.
Qed.

Lemma core_books s g n i p : good s g n -> cores s !! i = Some p -> em_ok (emitter p).
Proof.
  intros G Hp. destruct (lookup_lt_is_Some_2 g i) as [cs Hg].
  { rewrite (gd_guests _ _ _ G), <- (gd_cores _ _ _ G). apply (lookup_lt_Some _ _ _ Hp). }
  apply (iv_em _ _ _ _ (ck_inv _ _ _ _ (gd_core _ _ _ G i p cs Hp Hg))).
Qed.

Lemma all_halted s g n : good s g n -> (halted_count s <? vcpu_count cfg) = false <-> Forall (fun p => halted p = true) (cores s).
Proof.
  intros G. rewrite Z.ltb_ge, (gd_halted _ _ _ G). unfold halted_cores.
  assert (Hl : vcpu_count cfg = Z.of_nat (length (cores s))) by (rewrite (gd_cores _ _ _ G); lia). rewrite Hl.
  generalize (cores s). induction l as [|p l IH]; cbn [List.filter length]; [split; auto; lia |].
  rewrite Forall_cons, <- IH. pose proof (filter_length halted l). destruct (halted p); cbn [length]; intuition lia.
Qed.

Lemma outstanding_spec s g n : good s g n -> outstanding s = false <->
  Forall (fun p => pending_txns (emitter p) = ∅) (cores s) /\
  (forall i st, states (window_caches (sync s)) !! i = Some st -> WindowCache.active (s_cache st) = false) /\
  pending (window_caches (sync s)) = ∅ /\ generic_pending (sync s) = ∅ /\
  Forall (fun p => hasOutstanding p = false) (accel_ports (sync s)).
Proof.
  intros G. unfold outstanding, hasAsyncInFlight. rewrite !orb_false_iff, negb_false_iff, bool_decide_eq_true, active_spec, !existsb_false.
  assert (E : Forall (fun p => (0 <? pending_count (emitter p)) = false) (cores s) <->
              Forall (fun p => pending_txns (emitter p) = ∅) (cores s)).
  { rewrite !Forall_lookup. apply forall_proper. intros i. apply forall_proper. intros p. split; intros Hi Hp; specialize (Hi Hp);
      pose proof (em_count _ (core_books _ _ _ _ _ G Hp)) as Hc.
    - apply Z.ltb_ge in Hi. apply map_size_empty_iff. lia.
    - rewrite Hc, Hi, map_size_empty. reflexivity. }
  rewrite E. tauto.
Qed.

Lemma end_ok w s g n b s' : good s g n -> end_of_tick cfg w s = Ok (b, s') ->
  good s' g n /\ (b = true <-> finished s') /\ ends s' = (if b then 1 else ends s).
Proof.
  intros G. unfold end_of_tick. pose proof (all_halted s g n G) as Ha. pose proof (outstanding_spec s g n G) as Ho.
  destruct (_ <? _).
  { intros E. apply bind_ok in E as (u & _ & [= <- <-]). split; [exact G | split; [| reflexivity]].
    split; [discriminate |]. intros [F _]. apply Ha in F. discriminate. }
  destruct (outstanding s).
  { intros [= <- <-]. split; [exact G | split; [| reflexivity]]. split; [discriminate |]. intros [].
    assert (true = false) by (apply Ho; auto). discriminate. }
  intros [= <- <-].
  assert (F : finished s) by (destruct (proj1 Ho eq_refl) as (? & ? & ? & ? & ?); constructor; auto; apply Ha; reflexivity).
  pose proof (gd_ends _ _ _ G) as En. destruct (stop_ticking s) eqn:Es; cbn in En.
  - split; [exact G | split; [split; auto | exact En]].
  - assert (E1 : ends (note OKToEndSim s <| stop_ticking := true |>) = 1)
      by (change (ends (note OKToEndSim s) = 1); rewrite ends_note, En; reflexivity).
    split; [apply (good_same s); auto | split; [| exact E1]]. split; [intros _ | reflexivity]. destruct F; constructor; assumption.
Qed.

Lemma tick_good E s g n b s' : good s g n -> tick cfg ctx E s = Ok (b, s') ->
  good s' g n /\ (b = true <-> finished s') /\ ends s' = (if b then 1 else ends s).
Proof.
  intros G. unfold tick. intros Et. apply bind_ok in Et as ([w s1] & E1 & Et).
  destruct (body_ok E s g n w s1 G E1) as (G1 & _ & St & _).
  destruct (end_ok w s1 g n b s' G1 Et) as (G2 & F & En). split; [exact G2 | split; [exact F |]].
  rewrite En, (gd_ends _ _ _ G1), St, (gd_ends _ _ _ G). reflexivity.
Qed.
(** ** Responses *)

Lemma mmio_everywhere i : has_mmio cfg (Z.of_nat i) = true.
Proof. exact (ok_mmio _ (Hctx i)). Qed.

(** Nothing on the mailbox side takes a response to someone else's request. *)
Lemma sync_declines Q hint r fail (c : Cpu A) : CpuAnswers.inv c -> ~ waits_for c (resp_id r) ->
  completeMmioSyncResponse Q hint r fail c = Ok (false, c).
Proof.
  intros I Hn. unfold completeMmioSyncResponse.
  destruct (pending (window_caches c) !! resp_id r) as [p|] eqn:Hp; [destruct Hn; right; left; eauto |].
  rewrite (offer_foreign Q r c I); [| intros i p Hi Hh; apply Hn; right; right; eauto]. cbn [mbind result_bind].
  destruct (generic_pending c !! resp_id r) as [x|] eqn:Hg; [destruct Hn; left; eauto | reflexivity].
Qed.

(** What becomes of a core that is offered a response. *)
Lemma offered_ok E s g n i p r : good s g n -> cores s !! i = Some p ->
  let (lat, e) := handleResponse (resp_id r) (emitter (enter E s p)) in
  good (s <| cores ::= <[i := p <| emitter := e |>]> |>) g n /\
  pending_txns e = delete (resp_id r) (pending_txns (emitter p)) /\ sent e = sent (emitter p) /\
  match pending_txns (emitter p) !! resp_id r with
  | None => lat = None
  | Some q => lat = Some (if issue_cycle q <=? e_now E then e_now E - issue_cycle q else 0, is_mmio q)
  end.
Proof.
  intros G Hp. destruct (lookup_lt_is_Some_2 g i) as [cs Hg].
  { rewrite (gd_guests _ _ _ G), <- (gd_cores _ _ _ G). apply (lookup_lt_Some _ _ _ Hp). }
  destruct (enter_ok E s g n i p cs G Hp Hg) as [K Ke]. pose proof (gd_core _ _ _ G i p cs Hp Hg) as K0.
  set (e0 := emitter (enter E s p)) in *. pose proof (iv_em _ _ _ _ (ck_inv _ _ _ _ K)) as He0. change (emitter (enter E s p)) with e0 in He0.
  pose proof (response_ok (resp_id r) e0 He0) as Hr.
  assert (Es : pending_txns e0 = pending_txns (emitter p) /\ sent e0 = sent (emitter p) /\ now e0 = e_now E /\
    pending_count e0 = pending_count (emitter p)) by (rewrite Ke; auto). destruct Es as (S1 & S2 & S3 & S4).
  assert (Hd : pending_txns (snd (handleResponse (resp_id r) e0)) = delete (resp_id r) (pending_txns (emitter p)) /\
    match pending_txns (emitter p) !! resp_id r with
    | None => fst (handleResponse (resp_id r) e0) = None
    | Some q => fst (handleResponse (resp_id r) e0) =
        Some (if issue_cycle q <=? e_now E then e_now E - issue_cycle q else 0, is_mmio q)
    end).
  { unfold handleResponse. rewrite S1, S3. destruct (pending_txns (emitter p) !! resp_id r) as [q|] eqn:Eq; cbn.
    - split; reflexivity.
    - split; [rewrite delete_id by exact Eq; reflexivity | reflexivity]. }
  destruct (handleResponse (resp_id r) e0) as [lat e]. cbn [fst snd] in Hd. destruct Hd as [D1 D2].
  destruct Hr as (Hem & _ & Hc & _ & Hsent). split; [| split; [exact D1 | split; [rewrite Hsent; exact S2 | exact D2]]].
  destruct G as [G1 G2 G3 G4 G5 G6 G7 G8 G9 G10].
  assert (Hsub : forall id, is_Some (pending_txns e !! id) -> is_Some (pending_txns (emitter p) !! id)).
  { intros id [x Hx]. rewrite D1 in Hx. apply lookup_delete_Some in Hx as [_ Hx]. eauto. }
  split; cbn; auto.
  - rewrite length_insert. exact G3.
  - intros j q cs' Hj Hcs. apply list_lookup_insert_Some in Hj as [(<- & <- & _)|[Hne Hj]]; [| apply (G7 j q cs' Hj Hcs)].
    assert (cs' = cs) as -> by congruence. apply core_emitter; [exact K0 | exact Hem | rewrite Hsent; exact S2 |].
    pose proof (iv_pending _ _ _ _ (ck_inv _ _ _ _ K0)). rewrite Hc, S4. destruct lat; lia.
  - intros j q id Hj Hid. apply list_lookup_insert_Some in Hj as [(<- & <- & _)|[Hne Hj]].
    + destruct (G8 i p id Hp (Hsub id Hid)) as (L & W & O). split; [exact L | split; [exact W |]].
      intros k x Hk Hik. rewrite list_lookup_insert_ne in Hk by exact Hik. apply (O k x Hk Hik).
    + destruct (G8 j q id Hj Hid) as (L & W & O). split; [exact L | split; [exact W |]].
      intros k x Hk Hjk. apply list_lookup_insert_Some in Hk as [(<- & <- & _)|[Hne' Hk]]; [| apply (O k x Hk Hjk)].
      apply eq_None_not_Some. intros Hs. pose proof (Hsub id Hs) as Hs'. rewrite (O i p Hp Hjk) in Hs'. destruct Hs'. discriminate.
  - rewrite G9. unfold halted_cores. cbn. rewrite (filter_insert _ _ _ _ _ Hp). cbn. lia.
Qed.

Lemma response_good E i r fail s g n s' : good s g n -> handleMemResponse cfg E i r fail s = Ok s' -> good s' g n.
Proof.
  intros G. unfold handleMemResponse. rewrite mmio_everywhere. intros E1. apply bind_ok in E1 as ([taken c] & Ec & E1).
  pose proof (good_sync_none s g n c G (response_taken _ _ _ _ _ _ _ (gd_sync _ _ _ G) Ec)) as G1.
  destruct taken; [injection E1 as <-; exact G1 |]. cbv zeta in E1. set (s1 := s <| sync := c |>) in *.
  destruct (cores s1 !! i) as [p|] eqn:Hp; [| discriminate].
  pose proof (offered_ok E s1 g n i p r G1 Hp) as Ho. destruct (handleResponse _ _) as [lat e]. destruct Ho as [G2 _].
  injection E1 as <-. destruct lat as [[l m]|]; [| exact G2].
  apply (good_same (s1 <| cores ::= <[i := p <| emitter := e |>]> |>)); auto. rewrite ends_note. cbn [is_end b2z].
  rewrite Z.add_0_r. exact (gd_ends _ _ _ G2).
Qed.

(** ** Any interleaving *)

(** A command published by guest CPU [i], a request or a reset of vCPU [v], a
    response of memory to core [i], a device interrupt; and the clock. *)
Inductive cpu_input : QuetzCPU A * list (list QuetzCommand) * (Z -> Z) -> QuetzCPU A * list (list QuetzCommand) * (Z -> Z) -> Prop :=
  | cpu_publish i c p cs s g n : cores s !! i = Some p -> g !! i = Some cs -> valid c ->
      cpu_input (s, g, n) (s <| cores ::= <[i := p <| backend ::= fun l => l ++ [c] |>]> |>, <[i := cs ++ [c]]> g, n)
  | cpu_ask v r r0 s g n : 0 <= v -> mmio_req (sync s) !! Z.to_nat v = Some r0 -> rq_pending r0 = false ->
      rq_pending r = true -> guest_command (cmd_of (rq_cmd r)) ->
      cpu_input (s, g, n) (s <| sync ::= ask v r |>, g, fun w => n w + one v w)
  | cpu_reset (v : nat) epoch s g n :
      cpu_input (s, g, n) (s <| sync ::= fun c => c <| cpu_reset_epoch ::= <[v := epoch]> |> |>, g, n)
  | cpu_response E i r fail s s' g n : handleMemResponse cfg E i r fail s = Ok s' -> cpu_input (s, g, n) (s', g, n)
  | cpu_irq v line level s s' g n : handleIrqEvent system_mode v line level s = Ok s' -> cpu_input (s, g, n) (s', g, n).
Inductive cpu_step : QuetzCPU A * list (list QuetzCommand) * (Z -> Z) -> QuetzCPU A * list (list QuetzCommand) * (Z -> Z) -> Prop :=
  | cpu_tick E b s s' g n : tick cfg ctx E s = Ok (b, s') -> cpu_step (s, g, n) (s', g, n)
  | cpu_other x y : cpu_input x y -> cpu_step x y.

(** The component after [init]. *)
Record cpu_started s : Prop :=
  { cs_sync : CpuAnswers.started (sync s);
    cs_cores : cores s = replicate (Z.to_nat (vcpu_count cfg)) (pipeline0 t0);
    cs_table : region_table s = t0;
    cs_counts : halted_count s = 0 /\ stop_ticking s = false /\ events s = [];
    cs_child : child_poll_ticks s = 0 /\ child_running s = true }.

Lemma started_good s : cpu_started s -> good s (replicate (Z.to_nat (vcpu_count cfg)) []) (fun _ => 0).
Proof.
  intros [Hs Hc Ht (H1 & H2 & H3) _]. destruct (CpuAnswers.started_inv _ Hs) as [I D].
  assert (Hcore : forall i p, cores s !! i = Some p -> p = pipeline0 t0) by (intros i p Hp; rewrite Hc in Hp; apply lookup_replicate in Hp; tauto).
  split; auto.
  - intros w Hw. rewrite D, (st_out _ Hs). reflexivity.
  - rewrite Hc, length_replicate. reflexivity.
  - rewrite length_replicate. reflexivity.
  - apply Forall_replicate, Forall_nil_2.
  - rewrite Ht. reflexivity.
  - intros i p cs Hp Hg. rewrite (Hcore i p Hp). apply lookup_replicate in Hg as [-> _]. apply core_start, Hctx.
  - intros i p id Hp [x Hx]. rewrite (Hcore i p Hp) in Hx. cbn in Hx. rewrite lookup_empty in Hx. discriminate.
  - rewrite H1. unfold halted_cores. rewrite Hc. generalize (Z.to_nat (vcpu_count cfg)). intros k. induction k as [|k IH]; [reflexivity | exact IH].
  - unfold ends. rewrite H3, H2. reflexivity.
Qed.
Lemma publish_good i c p cs s g n : good s g n -> cores s !! i = Some p -> g !! i = Some cs -> valid c ->
  good (s <| cores ::= <[i := p <| backend ::= fun l => l ++ [c] |>]> |>) (<[i := cs ++ [c]]> g) n.
Proof.
  intros G Hp Hg Hv. pose proof (gd_core _ _ _ G i p cs Hp Hg) as K. pose proof (lookup_lt_Some _ _ _ Hg) as Hl.
  pose proof (Forall_lookup_1 _ _ _ _ (gd_valid _ _ _ G) Hg) as Hcs. destruct G as [G1 G2 G3 G4 G5 G6 G7 G8 G9 G10]. split; cbn; auto.
  - rewrite length_insert. exact G3.
  - rewrite length_insert. exact G4.
  - apply Forall_insert; [exact G5 | apply Forall_app; auto].
  - intros j q qs Hj Hq. apply list_lookup_insert_Some in Hj as [(<- & <- & _)|[Hne Hj]].
    + rewrite list_lookup_insert_eq in Hq by exact Hl. injection Hq as <-. apply core_publish, K.
    + rewrite list_lookup_insert_ne in Hq by exact Hne. apply (G7 j q qs Hj Hq).
  - assert (Hb : forall j q, <[i := p <| backend ::= fun l => l ++ [c] |>]> (cores s) !! j = Some q ->
      exists q', cores s !! j = Some q' /\ pending_txns (emitter q) = pending_txns (emitter q')).
    { intros j q Hj. apply list_lookup_insert_Some in Hj as [(<- & <- & _)|[_ Hj]]; eauto. }
    intros j q id Hj Hid. destruct (Hb j q Hj) as (q' & Hq' & Eq). rewrite Eq in Hid. destruct (G8 j q' id Hq' Hid) as (L & W & O).
    split; [exact L | split; [exact W |]]. intros k x Hk Hjk. destruct (Hb k x Hk) as (x' & Hx' & Ex). rewrite Ex. apply (O k x' Hx' Hjk).
  - rewrite G9. unfold halted_cores. cbn. rewrite (filter_insert _ _ _ _ _ Hp). cbn. lia.
Qed.

Lemma cpu_step_good x y : cpu_step x y -> good x.1.1 x.1.2 x.2 -> good y.1.1 y.1.2 y.2.
Proof.
  intros St G. destruct St as [E b s s' g n Et | x y St]; [apply (tick_good E s g n b s' G Et) |].
  destruct St as [i c p cs s g n Hp Hg Hv | v r r0 s g n Hv H1 H2 H3 H4 | v e s g n |
    E i r fail s s' g n Er | v line level s s' g n Ei]; cbn [fst snd] in *.
  - apply publish_good; assumption.
  - apply (good_sync s g n _ _ G), (ask_taken v r r0); [exact Hv | apply (gd_sync _ _ _ G) | assumption ..].
  - apply (good_sync_none s g n _ G), reset_seen, (gd_sync _ _ _ G).
  - apply (response_good E i r fail s g n s' G Er).
  - unfold handleIrqEvent in Ei. apply bind_ok in Ei as (u & _ & [= <-]).
    apply (good_same s); auto. rewrite ends_note. cbn [is_end b2z]. rewrite Z.add_0_r. exact (gd_ends _ _ _ G).
Qed.

(** A state of the component, with what its guests have published and asked. *)
Definition cpu_reachable s g n : Prop := exists s0, cpu_started s0 /\
  rtc cpu_step (s0, replicate (Z.to_nat (vcpu_count cfg)) [], fun _ => 0) (s, g, n).

Lemma cpu_good s g n : cpu_reachable s g n -> good s g n.
Proof.
  intros (s0 & Hs & Hr). pose proof (started_good s0 Hs) as G.
  change (good (s, g, n).1.1 (s, g, n).1.2 (s, g, n).2).
  remember (s0, _, _) as x eqn:Ex. assert (B : good x.1.1 x.1.2 x.2) by (subst x; exact G). clear Ex G Hs.
  revert B. induction Hr as [x|x y z Hxy Hyz IH]; [auto | intros B; apply IH, (cpu_step_good x y Hxy B)].
Qed.

(** Any number of ticks. *)
Fixpoint ticks (E : Env) (k : nat) s : result (QuetzCPU A) :=
  match k with
  | O => Ok s
  | S k => '(_, s) ← tick cfg ctx E s; ticks E k s
  end.
Lemma ticks_steps E k g n : forall s s', ticks E k s = Ok s' -> rtc cpu_step (s, g, n) (s', g, n).
Proof.
  induction k as [|k IH]; intros s s'; cbn [ticks]; [intros [= <-]; constructor |].
  intros E1. apply bind_ok in E1 as ([b s1] & E1 & E2). eapply rtc_l; [eapply cpu_tick; exact E1 | apply IH, E2].
Qed.


(** The handler gives QEMU up for dead only when its process was seen gone on
    an earlier tick, and some running core's guest has never published its
    exit although everything it did publish has been executed. *)
Lemma exit_expected E s g n w s1 k m : cpu_reachable s g n -> tick_body cfg ctx E s = Ok (w, s1) ->
  end_of_tick cfg w s1 = Throw k m ->
  child_running s = false /\
  exists i p cs, cores s1 !! i = Some p /\ g !! i = Some cs /\ halted p = false /\ (CMD_EXIT ∉ cmd <$> cs) /\
    snd <$> sent (emitter p) = flat_map (effects (core_ctx cfg ctx i) t0) (flat_map expand cs) /\
    pending_txns (emitter p) = ∅.
Proof.
  intros Hr Eb. pose proof (cpu_good _ _ _ Hr) as G. destruct (body_ok E s g n w s1 G Eb) as (G1 & Hs & _ & Hw & _).
  unfold end_of_tick. pose proof (all_halted s1 g n G1) as Ha. destruct (_ <? _); [| destruct (outstanding s1); discriminate].
  destruct (_ && _ && _) eqn:Ed; [| discriminate]. intros _.
  apply andb_true_iff in Ed as [Ed Hd]. apply andb_true_iff in Ed as [_ Hd2]. apply negb_true_iff in Hd2. split; [congruence |].
  assert (Hn : ~ Forall (fun p => halted p = true) (cores s1)) by (intros F; apply Ha in F; discriminate).
  apply not_Forall_Exists, Exists_exists in Hn; [| intros p; apply _]. destruct Hn as (p & Hp & Hh). apply list_elem_of_lookup in Hp as (i & Hp).
  destruct (lookup_lt_is_Some_2 g i) as [cs Hg].
  { rewrite (gd_guests _ _ _ G1), <- (gd_cores _ _ _ G1). apply (lookup_lt_Some _ _ _ Hp). }
  apply not_true_is_false in Hh. exists i, p, cs. rewrite forallb_forall in Hd.
  destruct (Hs i p cs Hp Hg (Hd p (proj1 (list_elem_of_In _ _) (list_elem_of_lookup_2 _ _ _ Hp))) Hh) as (S1 & S2 & S3). auto 7.
Qed.

(** A response of memory goes to whoever made the request: one for a request
    of core [i] retires it there, with its latency, and touches nothing else;
    one for a request of the mailbox side reaches no core. *)
Lemma response_routed E i r fail s g n : cpu_reachable s g n ->
  (forall p q, cores s !! i = Some p -> pending_txns (emitter p) !! resp_id r = Some q -> exists e,
     handleMemResponse cfg E i r fail s =
       Ok (note (Latency (Z.of_nat i) (is_mmio q) (match r with ReadR _ _ => true | _ => false end)
                   (Z.max 0 (e_now E - issue_cycle q)))
             (s <| cores ::= <[i := p <| emitter := e |>]> |>)) /\
     pending_txns e = delete (resp_id r) (pending_txns (emitter p)) /\ sent e = sent (emitter p)) /\
  (forall s', waits_for (sync s) (resp_id r) -> handleMemResponse cfg E i r fail s = Ok s' -> events s' = events s /\
     forall j p, cores s !! j = Some p -> exists p', cores s' !! j = Some p' /\ pending_txns (emitter p') = pending_txns (emitter p)).
Proof.
  intros Hr. pose proof (cpu_good _ _ _ Hr) as G. unfold handleMemResponse. rewrite mmio_everywhere. split.
  - intros p q Hp Hq. destruct (gd_apart _ _ _ G i p (resp_id r) Hp ltac:(eauto)) as (_ & W & _).
    rewrite (sync_declines _ _ r fail _ (gd_sync _ _ _ G) W). cbn [mbind result_bind]. cbv zeta.
    replace (s <| sync := sync s |>) with s by (destruct s; reflexivity). rewrite Hp.
    pose proof (offered_ok E s g n i p r G Hp) as Ho. destruct (handleResponse _ _) as [lat e]. destruct Ho as (_ & D1 & D2 & D3).
    rewrite Hq in D3. subst lat. exists e. split; [| auto]. do 2 f_equal. f_equal. destruct (Z.leb_spec (issue_cycle q) (e_now E)); lia.
  - intros s' Hw E1. apply bind_ok in E1 as ([taken c] & Ec & E1). cbv zeta in E1.
    destruct taken; [injection E1 as <-; split; [reflexivity |]; eauto |].
    pose proof (good_sync_none s g n c G (response_taken _ _ _ _ _ _ _ (gd_sync _ _ _ G) Ec)) as G1.
    destruct (cores (s <| sync := c |>) !! i) as [p|] eqn:Hp; [| discriminate].
    pose proof (offered_ok E _ g n i p r G1 Hp) as Ho. destruct (handleResponse _ _) as [lat e]. destruct Ho as (_ & D1 & _ & D3).
    assert (Hno : pending_txns (emitter p) !! resp_id r = None).
    { apply eq_None_not_Some. intros Hs. destruct (gd_apart _ _ _ G i p (resp_id r) Hp Hs) as (_ & W & _). contradiction. }
    rewrite Hno in D3. subst lat. injection E1 as <-. split; [reflexivity |]. intros j x Hj. cbn in Hp |- *.
    destruct (decide (i = j)) as [<-|Hne].
    + rewrite list_lookup_insert_eq by apply (lookup_lt_Some _ _ _ Hp). eexists. split; [reflexivity |].
      assert (x = p) as -> by congruence. cbn. rewrite D1, delete_id by exact Hno. reflexivity.
    + rewrite list_lookup_insert_ne by exact Hne. eauto.
Qed.
End Component.

(** ** The theorems at concrete inputs

    One guest CPU, the plain configuration, one Balar port: the guest stores a
    word and exits, or dies without an exit. *)

#[local] Existing Instance demo_balar.
#[local] Existing Instance demo_laws.
Definition demo_env (alive : bool) : Env := mkEnv 0 5 (Ok alive) [].
Definition demo_cpu : QuetzCPU BalarPort.Port :=
  mkQuetzCPU (plain_cpu empty_slot) [pipeline0 []] [] 0 0 0 0 true false [].
Definition demo_store : QuetzCommand := mkCommand CMD_WRITE 4 0 0x100 0 (replicate 64 7).
Definition demo_exit : QuetzCommand := mkCommand CMD_EXIT 0 0 0 0 (replicate 64 0).
Definition publish (c : QuetzCommand) (s : QuetzCPU BalarPort.Port) : QuetzCPU BalarPort.Port :=
  s <| cores ::= fmap (fun p => p <| backend ::= fun l => l ++ [c] |>) |>.
Definition or_demo (r : result (QuetzCPU BalarPort.Port)) : QuetzCPU BalarPort.Port :=
  match r with Ok s => s | Throw _ _ => demo_cpu end.
Definition demo_sent : QuetzCPU BalarPort.Port := or_demo (ticks plain_config demo_ctx (demo_env true) 1 (publish demo_store demo_cpu)).
Definition demo_done : QuetzCPU BalarPort.Port :=
  publish demo_exit (or_demo (handleMemResponse plain_config (demo_env true) 0 (WriteR 3) false demo_sent)).
Definition demo_lost : QuetzCPU BalarPort.Port := or_demo (ticks plain_config demo_ctx (demo_env false) 1024 demo_cpu).

Lemma demo_ctx_all i : ctx_ok (core_ctx plain_config demo_ctx i).
Proof. split; try reflexivity; cbn; lia. Qed.
Lemma demo_count : 0 <= vcpu_count plain_config < 2 ^ 32.
Proof. cbn. lia. Qed.

Lemma demo_started : cpu_started plain_config [] demo_cpu.
Proof. split; try (repeat split; reflexivity). apply plain_started. Qed.

Lemma or_demo_ok r : is_ok r = true -> r = Ok (or_demo r).
Proof. destruct r; [reflexivity | discriminate]. Qed.

Lemma demo_sent_reached : cpu_reachable plain_config false demo_ctx [] demo_sent [[demo_store]] (fun _ => 0).
Proof.
  exists demo_cpu. split; [exact demo_started |].
  eapply rtc_l; [apply cpu_other, (cpu_publish plain_config false 0 demo_store (pipeline0 []) []); [reflexivity | reflexivity |] |].
  - split; [| cbn; lia]. repeat constructor; cbn; lia.
  - apply (ticks_steps plain_config false demo_ctx (demo_env true) 1), or_demo_ok. vm_compute. reflexivity.
Qed.
Lemma demo_done_reached : cpu_reachable plain_config false demo_ctx [] demo_done [[demo_store; demo_exit]] (fun _ => 0).
Proof.
  destruct demo_sent_reached as (s0 & Hs & Hr). exists s0. split; [exact Hs |]. etransitivity; [exact Hr |].
  eapply rtc_l; [apply cpu_other, (cpu_response plain_config false (demo_env true) 0 (WriteR 3) false), or_demo_ok; vm_compute; reflexivity |].
  apply rtc_once. unfold demo_done.
  destruct (cores (or_demo (handleMemResponse plain_config (demo_env true) 0 (WriteR 3) false demo_sent))) as [|p [|q l]] eqn:Ec;
    [vm_compute in Ec; discriminate | | vm_compute in Ec; discriminate].
  replace (publish demo_exit _) with (or_demo (handleMemResponse plain_config (demo_env true) 0 (WriteR 3) false demo_sent)
    <| cores ::= <[0%nat := p <| backend ::= fun l => l ++ [demo_exit] |>]> |>).
  - apply cpu_other, (cpu_publish plain_config false 0 demo_exit p [demo_store]); [rewrite Ec; reflexivity | reflexivity |].
    split; [| cbn; lia]. repeat constructor; cbn; lia.
  - unfold publish. generalize dependent (or_demo (handleMemResponse plain_config (demo_env true) 0 (WriteR 3) false demo_sent)).
    intros [] Ec. cbn in Ec. rewrite Ec. reflexivity.
Qed.
Lemma demo_lost_reached : cpu_reachable plain_config false demo_ctx [] demo_lost [[]] (fun _ => 0).
Proof.
  exists demo_cpu. split; [exact demo_started |]. apply (ticks_steps plain_config false demo_ctx (demo_env false) 1024), or_demo_ok.
  vm_compute. reflexivity.
Qed.


Lemma demo_lost_fails : match tick_body plain_config demo_ctx (demo_env false) demo_lost with
  | Ok (w, s1) => is_ok (end_of_tick plain_config w s1) | Throw _ _ => true end = false.
Proof. vm_compute. reflexivity. Qed.
#[local] Strategy opaque [demo_lost tick_body end_of_tick].

Lemma exit_expected_witness : exists w s1 k m, tick_body plain_config demo_ctx (demo_env false) demo_lost = Ok (w, s1) /\
  end_of_tick plain_config w s1 = Throw k m /\ child_running demo_lost = false.
Proof.
  pose proof demo_lost_fails as H. destruct (tick_body plain_config demo_ctx (demo_env false) demo_lost) as [[w s1]|] eqn:E; [| discriminate H].
  destruct (end_of_tick plain_config w s1) as [|k m] eqn:E1; [discriminate H |].
  exists w, s1, k, m. split; [reflexivity | split; [exact E1 |]].
  apply (exit_expected plain_config false demo_ctx [] demo_count demo_ctx_all (demo_env false) demo_lost _ _ w s1 k m demo_lost_reached E E1).
Defined.

Lemma response_routed_witness : exists e,
  handleMemResponse plain_config (demo_env true) 0 (WriteR 3) false demo_sent =
  Ok (note (Latency 0 false false 0) (demo_sent <| cores := [e] |>)).
Proof.
  destruct (cores demo_sent) as [|p [|q l]] eqn:Ec; [vm_compute in Ec; discriminate | | vm_compute in Ec; discriminate].
  destruct (pending_txns (emitter p) !! 3) as [q|] eqn:Eq.
  2: { exfalso. assert (H : match cores demo_sent with p :: _ => bool_decide (is_Some (pending_txns (emitter p) !! 3)) | [] => true end = true)
         by (vm_compute; reflexivity). rewrite Ec, Eq in H. discriminate. }
  assert (Hp : cores demo_sent !! 0%nat = Some p) by (rewrite Ec; reflexivity).
  destruct (proj1 (response_routed plain_config false demo_ctx [] demo_count demo_ctx_all (demo_env true) 0 (WriteR 3) false
    demo_sent _ _ demo_sent_reached) p q Hp Eq) as (e & E & _).
  exists (p <| emitter := e |>). rewrite E.
  assert (Hq : is_mmio q = false /\ Z.max 0 (5 - issue_cycle q) = 0).
  { assert (H : match cores demo_sent with p :: _ => match pending_txns (emitter p) !! 3 with
        Some q => bool_decide (is_mmio q = false /\ Z.max 0 (5 - issue_cycle q) = 0) | None => false end | [] => false end = true)
      by (vm_compute; reflexivity). rewrite Ec, Eq in H. apply bool_decide_eq_true in H. exact H. }
  destruct Hq as [-> H2]. change (e_now (demo_env true)) with 5. rewrite H2. clear - Ec. revert Ec. generalize demo_sent. intros [] Ec.
  cbn in Ec. subst. reflexivity.
Defined.
