(* ===== verification/CoreStats.v ===== *)
(** * The statistics of a core

    [src/src/quetzcore.cc] and the records of [quetzcpu_mmio_sync.cc]: what the
    component's handlers record becomes samples of the counters of the core's
    [QuetzCoreStats], which the pipeline of the core counts in as well.  [Cpu]
    and [CpuSync] keep the records as lists of calls and events; here they are
    added up. *)
From S2P Require Import Prelude.
From S2P Require Import StdMem.
From S2P Require Import AcceleratorPort.
From S2P Require Import Command.
From S2P Require Import MemIssue.
From S2P Require Import CpuSync.
From S2P Require Import Pipeline.
From S2P Require Import Cpu.

(** [recordMmioSyncRequest] and the other records of a core. *)
Definition record_call (h : HostCall) : option (Z * Stat * Z) :=
  match h with
  | RecordSyncRequest v is_read => Some (v, if is_read : bool then mmio_read_reqs else mmio_write_reqs, 1)
  | RecordDoorbellFlush v => Some (v, mmio_doorbell_flushes, 1)
  | RecordDoorbellFlushCycles v n => Some (v, mmio_doorbell_flush_cycles, n)
  | RecordAsyncSubmit v => Some (v, async_submits, 1)
  | RecordAsyncCompletion v => Some (v, async_completions, 1)
  | PostResponse _ _ | SendFlush _ _ _ _ | SendRead _ _ | SendWrite _ _ => None
  end.
(** [handleMemResponse]'s latencies, and the overlap of posted offloads. *)
Definition record_event (e : CpuEvent) : option (Z * Stat * Z) :=
  match e with
  | Latency v mmio read lat =>
      Some (v, if mmio : bool then (if read : bool then mmio_read_lat else mmio_write_lat) else (if read then read_lat else write_lat), lat)
  | AsyncOverlapCycle v => Some (v, async_overlap_cycles, 1)
  | OKToEndSim | PostIrq _ _ _ => None
  end.

Definition add_sample (v : Z) (f : QuetzCoreStats) (sample : Z * Stat * Z) : QuetzCoreStats :=
  let '(w, st, n) := sample in if w =? v then addData st n f else f.

(** The counters of core [v]: its pipeline's, and what was recorded for it. *)
Definition core_stats {A} (v : Z) (s : QuetzCPU A) : QuetzCoreStats :=
  let own := match cores s !! Z.to_nat v with Some p => stats (emitter p) | None => stats0 end in
  foldl (add_sample v) own (omap record_call (out (sync s)) ++ omap record_event (events s)).

(** ** What a counter holds *)

Definition total (v : Z) (st : Stat) (l : list (Z * Stat * Z)) : Z :=
  foldr Z.add 0 ((fun x => x.2) <$> filter (fun x => x.1.1 = v /\ x.1.2 = st) l).

Lemma samples_total v st l : forall f, foldl (add_sample v) f l st = f st + total v st l.
Proof.
  unfold total. induction l as [|[[w st'] n] l IH]; intros f; cbn [foldl]; [cbn; lia |]. rewrite IH, filter_cons. unfold add_sample. cbn [fst snd].
  destruct (Z.eqb_spec w v) as [->|Hw].
  - unfold addData. destruct (decide (st = st')) as [->|Hs].
    + rewrite decide_True by auto. rewrite fmap_cons. cbn. lia.
    + rewrite decide_False by (intros [_ E]; congruence). reflexivity.
  - rewrite decide_False by tauto. reflexivity.
Qed.

(** Each counter is what the core's pipeline counted and the sum of the samples
    recorded for that core and counter, whatever the order they came in. *)
Lemma core_stats_total {A} v (s : QuetzCPU A) st p : cores s !! Z.to_nat v = Some p ->
  core_stats v s st = stats (emitter p) st + total v st (omap record_call (out (sync s))) + total v st (omap record_event (events s)).
Proof.
  intros Hp. unfold core_stats. rewrite Hp, samples_total. unfold total. rewrite filter_app, fmap_app, foldr_app.
  assert (E : forall (l : list Z) b, foldr Z.add b l = foldr Z.add 0 l + b) by (intros l b; induction l as [|x m IHm]; cbn; lia).
  rewrite E. lia.
Qed.
