(* ===== verification/Shmem.v ===== *)
(** * The shared memory

    [QuetzSharedData] of [include/quetz/quetz_ipc_types.h] as the two processes
    see it, and its initialisation by the simulator:
    [QuetzTunnel::initialize] of [src/src/quetz_shmem.h] with
    [QuetzSyncManager], [QuetzStatisticsCollector::initMaster] and the clearing
    operations of [QuetzMmioSync].

    The tunnel of SST that holds it - its rings, its reference counts - is not
    part of this repository. *)
From S2P Require Import Prelude.
From S2P Require Import NativeRam.
From S2P Require Mailbox.
From S2P Require IrqMailbox.

Definition QUETZ_SHM_MAGIC : Z := 0x515A4D06.
Definition QUETZ_MAX_IRQ_LINES : Z := 64.

(** The requests of the mailbox are its producers' ([Mailbox]); the bytes of
    the native regions are [ram]. *)
Record SharedData := mkSharedData
  { numCores : Z; simTime : Z; simCycles : Z; child_attached : Z;
    slot_ready : Z -> Z; slot_value : Z -> Z;
    irq_slot : Z -> Z -> IrqMailbox.QuetzIrqSlot;
    irq_generation : Z; cpu_reset_epoch : Z -> Z;
    region_count : Z; regions : list NativeRegion; ram : Z -> Z;
    magic : Z }.
#[export] Instance SharedData_settable : Settable SharedData := fun d =>
  mkSharedData (numCores d) (simTime d) (simCycles d) (child_attached d) (slot_ready d) (slot_value d) (irq_slot d) (irq_generation d)
    (cpu_reset_epoch d) (region_count d) (regions d) (ram d) (magic d).

(** [sizeof(QuetzSharedData)], of eight-byte alignment: the storage, the magic
    on the next multiple of four, and a pad. *)
Definition align (n x : Z) : Z := (x + (n - 1)) / n * n.
Definition magic_offset : Z := align 4 (storage_begin + storage_bytes).
Definition sizeof_SharedData : Z := align 8 (magic_offset + 4 + 4).

Definition set_at {A} (k : Z) (a : A) (f : Z -> A) : Z -> A := fun j => if j =? k then a else f j.

(** ** [QuetzMmioSync] *)

Definition clearSlot (v : Z) (d : SharedData) : SharedData :=
  if QUETZ_MAX_MMIO_VCORES <=? v then d
  else d <| slot_ready ::= set_at v 0 |> <| slot_value ::= set_at v 0 |>.
Definition clearIrqSlots (v : Z) (d : SharedData) : SharedData :=
  if QUETZ_MAX_MMIO_VCORES <=? v then d
  else d <| irq_slot ::= set_at v (foldl (fun f l => set_at l (IrqMailbox.mkSlot 0 0) f) (irq_slot d v) (seqZ 0 QUETZ_MAX_IRQ_LINES)) |>.

(** ** [QuetzSyncManager], [QuetzStatisticsCollector] *)

Definition sync_initMaster (num_cores : Z) (d : SharedData) : SharedData := d <| numCores := num_cores |> <| child_attached := 0 |>.
Definition announceAttach (d : SharedData) : SharedData := d <| child_attached ::= fun n => u32 (n + 1) |>.
Definition childAttached (d : SharedData) : bool := negb (child_attached d =? 0).
Definition statistics_initMaster (d : SharedData) : SharedData := d <| simTime := 0 |> <| simCycles := 0 |>.

(** ** [QuetzTunnel::initialize], after the tunnel's own *)

Definition clear_vcpu (d : SharedData) (v : Z) : SharedData :=
  clearIrqSlots v (clearSlot v d) <| cpu_reset_epoch ::= set_at v 0 |>.
Definition clear_slots (d : SharedData) : SharedData := foldl clear_vcpu d (seqZ 0 QUETZ_MAX_MMIO_VCORES).
Definition initialize (isMaster : bool) (getNumBuffers : Z) (d : SharedData) : SharedData :=
  if isMaster then
    let d := statistics_initMaster (sync_initMaster getNumBuffers d) in
    let d := clear_slots d in
    d <| irq_generation := 0 |> <| region_count := 0 |>
      <| ram := fun i => if (0 <=? i) && (i <? storage_bytes) then 0 else ram d i |>
      <| magic := QUETZ_SHM_MAGIC |>
  else d.

(** The regions as [NativeRam] has them, of a segment mapped at [address]. *)
Definition native_view (address : Z) (d : SharedData) : Shared := mkShared address (region_count d) (regions d) (fun _ => 0).

(** ** What it leaves *)

Lemma set_all {A} (a : A) (f : Z -> A) n k : 0 <= n ->
  foldl (fun f l => set_at l a f) f (seqZ 0 n) k = if bool_decide (0 <= k < n) then a else f k.
Proof.
  intros Hn. revert n Hn. apply natlike_ind.
  - rewrite bool_decide_false by lia. reflexivity.
  - intros n Hn IH. unfold Z.succ. rewrite seqZ_app, foldl_app by lia. change (seqZ (0 + n) 1) with [0 + n]. cbn [foldl]. unfold set_at at 1.
    rewrite IH, Z.add_0_l. destruct (Z.eqb_spec k n); repeat case_bool_decide; (reflexivity || lia).
Qed.

Lemma clear_vcpus d n : 0 <= n <= QUETZ_MAX_MMIO_VCORES -> forall d', d' = foldl clear_vcpu d (seqZ 0 n) ->
  (forall v, slot_ready d' v = (if bool_decide (0 <= v < n) then 0 else slot_ready d v) /\
             slot_value d' v = (if bool_decide (0 <= v < n) then 0 else slot_value d v) /\
             cpu_reset_epoch d' v = if bool_decide (0 <= v < n) then 0 else cpu_reset_epoch d v) /\
  (forall v l, 0 <= l < QUETZ_MAX_IRQ_LINES -> irq_slot d' v l = if bool_decide (0 <= v < n) then IrqMailbox.mkSlot 0 0 else irq_slot d v l) /\
  (numCores d', simTime d', simCycles d', child_attached d', region_count d', regions d', ram d', magic d') =
  (numCores d, simTime d, simCycles d, child_attached d, region_count d, regions d, ram d, magic d).
Proof.
  intros [Hn Hm] d' ->. revert Hm. revert n Hn. apply (natlike_ind (fun n => n <= QUETZ_MAX_MMIO_VCORES -> _)).
  - intros _. cbn [seqZ foldl]. change (seqZ 0 0) with (@nil Z). cbn [foldl].
    repeat split; intros; rewrite bool_decide_false by lia; reflexivity.
  - intros n Hn IH Hm. specialize (IH ltac:(lia)). destruct IH as (IH1 & IH2 & IH3).
    unfold Z.succ. rewrite seqZ_app, foldl_app by lia. change (seqZ (0 + n) 1) with [0 + n]. cbn [foldl]. rewrite Z.add_0_l.
    set (e := foldl clear_vcpu d (seqZ 0 n)) in *. unfold clear_vcpu, clearIrqSlots, clearSlot.
    rewrite !(proj2 (Z.leb_gt QUETZ_MAX_MMIO_VCORES n)) by lia. split; [| split; [| exact IH3]].
    + intros v. destruct (IH1 v) as (E1 & E2 & E3). cbn. unfold set_at.
      destruct (Z.eqb_spec v n) as [->|N]; [rewrite bool_decide_true by lia; auto |].
      rewrite E1, E2, E3. repeat case_bool_decide; (lia || auto).
    + intros v l Hl. cbn. unfold set_at at 1.
      destruct (Z.eqb_spec v n) as [->|N]; [rewrite set_all by (unfold QUETZ_MAX_IRQ_LINES; lia); rewrite !bool_decide_true by lia; reflexivity |].
      rewrite IH2 by exact Hl. repeat case_bool_decide; (lia || reflexivity).
Qed.

(** The state the two mailbox protocols start from, for every vCPU and line, a
    clean set of native regions and the stamp the other side looks for. *)
Lemma initialize_spec n d : let d' := initialize true n d in
  (forall v, 0 <= v < QUETZ_MAX_MMIO_VCORES -> slot_ready d' v = Mailbox.ready Mailbox.init /\ slot_value d' v = Mailbox.value Mailbox.init /\ cpu_reset_epoch d' v = 0) /\
  (forall v l, 0 <= v < QUETZ_MAX_MMIO_VCORES -> 0 <= l < QUETZ_MAX_IRQ_LINES ->
     irq_slot d' v l = IrqMailbox.slot IrqMailbox.init (Z.to_nat v, Z.to_nat l)) /\
  irq_generation d' = IrqMailbox.irq_generation IrqMailbox.init /\
  numCores d' = n /\ childAttached d' = false /\ simTime d' = 0 /\ simCycles d' = 0 /\ region_count d' = 0 /\ regions d' = regions d /\
  (forall i, 0 <= i < storage_bytes -> ram d' i = 0) /\ magic d' = QUETZ_SHM_MAGIC.
Proof.
  cbv zeta. unfold initialize. set (d0 := statistics_initMaster (sync_initMaster n d)).
  destruct (clear_vcpus d0 QUETZ_MAX_MMIO_VCORES ltac:(unfold QUETZ_MAX_MMIO_VCORES; lia) (clear_slots d0) eq_refl) as (H1 & H2 & H3).
  generalize dependent (clear_slots d0). intros e H1 H2 H3. injection H3 as E1 E2 E3 E4 E5 E6 E7 E8.
  unfold childAttached. cbn. rewrite E1, E2, E3, E4, E6.
  split; [| split; [| repeat split]].
  - intros v Hv. destruct (H1 v) as (-> & -> & ->). rewrite bool_decide_true by exact Hv. auto.
  - intros v l Hv Hl. rewrite H2 by exact Hl. rewrite bool_decide_true by exact Hv. reflexivity.
  - intros i Hi. rewrite (proj2 (Z.leb_le 0 i)), (proj2 (Z.ltb_lt i _)) by lia. reflexivity.
Qed.
