(* ===== verification/CacheRegs.v ===== *)
(** * The plugin's reading of ColdFire registers

    [src/src/qemu_plugin/instrument.cpp], [init_cache_registers],
    [read_cache_register] and the whole of [cb_cache_op]: a vCPU's register
    handles are found once among QEMU's descriptors and read at every cache
    instruction.  [Plugin.cb_cache_op] is the same callback over the registers
    themselves.  QEMU's descriptors and its reading of a handle are arguments;
    a handle is a [Z], 0 the null pointer. *)
From S2P Require Import Prelude.
From S2P Require Import Shmem.
From S2P Require Import InsnClass.
From S2P Require Import CpuSync.
From S2P Require Import Plugin.

(** [qemu_plugin_reg_descriptor]. *)
Record Descriptor := mkDescriptor { d_handle : Z; d_name : option string; d_feature : option string }.

(** [cache_registers], [cache_status] and [cache_register_bytes], by vCPU. *)
Record CacheGlobals := mkGlobals
  { cache_registers : Z -> Z -> Z; cache_status : Z -> Z; cache_register_bytes : Z -> option (list Z) }.
#[export] Instance CacheGlobals_settable : Settable CacheGlobals := fun g =>
  mkGlobals (cache_registers g) (cache_status g) (cache_register_bytes g).
Definition globals0 : CacheGlobals := mkGlobals (fun _ _ => 0) (fun _ => 0) (fun _ => None).

Definition store {X} (i : Z) (x : X) (f : Z -> X) : Z -> X := fun j => if j =? i then x else f j.

(** A character of a C string, its terminator included. *)
Definition char_at (s : string) (i : nat) : Z :=
  match String.get i s with Some c => Z.of_nat (Ascii.nat_of_ascii c) | None => 0 end.
(** A letter and a digit from 0 to 7. *)
Definition numbered (letter : Z) (s : string) : bool :=
  (char_at s 0 =? letter) && (48 <=? char_at s 1) && (char_at s 1 <=? 55) && (char_at s 2 =? 0).

Inductive Slot : Set := DataAddress (i : Z) | StatusRegister.
#[export] Instance Slot_eq_dec : EqDecision Slot.
Proof. solve_decision. Defined.

Definition slot_of (name : string) : option Slot :=
  if numbered 100 name then Some (DataAddress (char_at name 1 - 48))
  else if numbered 97 name then Some (DataAddress (8 + char_at name 1 - 48))
  else if String.eqb name "fp" then Some (DataAddress 14)
  else if String.eqb name "sp" then Some (DataAddress 15)
  else if String.eqb name "ps" || String.eqb name "sr" then Some StatusRegister
  else None.

Definition is_coldfire (d : Descriptor) : bool :=
  match d_feature d with Some f => String.eqb f "org.gnu.gdb.coldfire.core" | None => false end.

Section Registers.
Variable P : PluginConfig.

Definition set_slot (v : Z) (sl : Slot) (h : Z) (g : CacheGlobals) : CacheGlobals :=
  match sl with
  | DataAddress i => g <| cache_registers ::= fun f => store v (store i h (f v)) f |>
  | StatusRegister => g <| cache_status ::= store v h |>
  end.

(** A pass of the loop over the descriptors. *)
Definition note_descriptor (v : Z) (st : bool * CacheGlobals) (d : Descriptor) : bool * CacheGlobals :=
  let (coldfire, g) := st in
  (coldfire || is_coldfire d,
   match d_name d with
   | Some name => match slot_of name with Some sl => set_slot v sl (d_handle d) g | None => g end
   | None => g
   end).

Definition init_cache_registers (v : Z) (regs : option (list Descriptor)) (g : CacheGlobals) : result CacheGlobals :=
  if negb (cache_ops P) then Ok g
  else
    throw_if (PLUGIN_MAX_VCPUS <=? v) Fatal "vCPU index exceeds mailbox capacity" ≫= fun _ =>
    match regs with
    | None => Throw Fatal "ColdFire register descriptors unavailable"
    | Some regs =>
        let (coldfire, g) := foldl (note_descriptor v) (false, g) regs in
        throw_if (negb coldfire || (cache_status g v =? 0)) Fatal
          "ColdFire register descriptors (including SR) unavailable" ≫= fun _ =>
        throw_if (existsb (fun i => cache_registers g v i =? 0) (seqZ 0 16)) Fatal
          "ColdFire D/A register descriptor unavailable" ≫= fun _ =>
        Ok (g <| cache_register_bytes ::= store v (Some []) |>)
    end.

(** [qemu_plugin_read_register]: what it returns, and the bytes it appends. *)
Variable read_register : Z -> Z * list Z.

Definition read_cache_register (v reg : Z) (g : CacheGlobals) : result (Z * CacheGlobals) :=
  match cache_register_bytes g v with
  | None => Throw Fatal "null byte array"
  | Some _ =>
      let (n, data) := read_register reg in
      throw_if (negb (n =? 4) || negb (Z.of_nat (length data) =? 4)) Fatal
        "could not read a ColdFire 32-bit register" ≫= fun _ =>
      Ok (Z.lor (Z.lor (Z.lor (u32 (Z.shiftl (data !!! 0%nat) 24)) (Z.shiftl (data !!! 1%nat) 16))
                       (Z.shiftl (data !!! 2%nat) 8)) (data !!! 3%nat),
          g <| cache_register_bytes ::= store v (Some data) |>)
  end.

(** What the callback sees of the shared memory and its mailbox. *)
Variable (magic : option Z) (pending ready : bool).

(** The callback up to the release of the request; the wait for its answer is
    Mailbox.v's. *)
Definition cb_cache_op (v encoding : Z) (g : CacheGlobals) (s : PluginState) : result (PluginState * CacheGlobals) :=
  let op := decodeColdFireCacheOp (be_bytes 4 encoding) 4 in
  throw_if ((PLUGIN_MAX_VCPUS <=? v) || negb (op_valid op)) Fatal "invalid cache-op callback" ≫= fun _ =>
  '(sr, g) ← read_cache_register v (cache_status g v) g;
  throw_if (Z.land sr 0x2000 =? 0) Fatal "cache instructions require supervisor firmware" ≫= fun _ =>
  '(value, g) ← (if op_kind op =? 0 then read_cache_register v (cache_registers g v (op_source op)) g
                 else Ok (op_instruction op, g));
  s ← flush_run P v s;
  throw_if (match magic with Some m => negb (m =? QUETZ_SHM_MAGIC) | None => true end) Fatal
    "invalid shared-memory cache mailbox" ≫= fun _ =>
  throw_if (pending || ready) Fatal "synchronous cache mailbox already in use" ≫= fun _ =>
  '(addr, g) ← (if op_kind op =? 0 then Ok (op_control op, g)
                else read_cache_register v (cache_registers g v (op_source op)) g);
  Ok (s <| requests ::= fun l => l ++ [(v, mkRequest true 7 (op_kind op) addr value)] |>, g).
End Registers.
