(* ===== verification/CacheRegsThm.v ===== *)
(** * Register handles: what a cache instruction asks for

    Initialisation succeeds exactly when the descriptors name every register
    the callback may read, and the callback then is [Plugin.cb_cache_op] on the
    values of those registers. *)
From S2P Require Import Prelude.
From S2P Require Import InsnClass.
From S2P Require Import CpuSync.
From S2P Require Import Plugin.
From S2P Require Import CacheRegs.

(** The registers by name. *)
Definition register_names : list (string * Slot) :=
  zip ["d0"; "d1"; "d2"; "d3"; "d4"; "d5"; "d6"; "d7"; "a0"; "a1"; "a2"; "a3"; "a4"; "a5"; "a6"; "a7"] (map DataAddress [0; 1; 2; 3; 4; 5; 6; 7; 8; 9; 10; 11; 12; 13; 14; 15]) ++
  [("fp", DataAddress 14); ("sp", DataAddress 15); ("ps", StatusRegister); ("sr", StatusRegister)].
Definition named (n : string) : option Slot := snd <$> find (fun p => String.eqb n (fst p)) register_names.

Definition c_string (n : string) : bool := forallb (fun c => negb (Ascii.eqb c Ascii.zero)) (list_ascii_of_string n).

Lemma numbered_name letter n : c_string n = true -> numbered letter n = true ->
  exists c i, Z.of_nat (Ascii.nat_of_ascii c) = letter /\ (i < 8)%nat /\ n = String c (String (Ascii.ascii_of_nat (48 + i)) EmptyString).
Proof.
  unfold numbered. rewrite !andb_true_iff, !Z.eqb_eq, !Z.leb_le. intros Hc (((H0 & Hl) & Hu) & H2).
  unfold char_at in *.
  destruct n as [|c n]; cbn [String.get] in *; [lia |]. destruct n as [|c1 n]; cbn [String.get] in *; [lia |].
  exists c, (Ascii.nat_of_ascii c1 - 48)%nat. split; [exact H0 |]. split; [lia |].
  replace (48 + (Ascii.nat_of_ascii c1 - 48))%nat with (Ascii.nat_of_ascii c1) by lia. rewrite Ascii.ascii_nat_embedding.
  destruct n as [|c2 n]; [reflexivity |]. cbn [String.get] in *. cbn [c_string list_ascii_of_string forallb] in Hc. unfold c_string in Hc. cbn [list_ascii_of_string forallb] in Hc.
  destruct (Ascii.eqb_spec c2 Ascii.zero) as [->|N]; [rewrite !andb_false_r in Hc; discriminate Hc |]. exfalso. apply N.
  rewrite <- (Ascii.ascii_nat_embedding c2). replace (Ascii.nat_of_ascii c2) with 0%nat by lia. reflexivity.
Qed.

Lemma slot_of_named n : c_string n = true -> slot_of n = named n.
Proof.
  intros Hc. unfold slot_of.
  assert (Hn : forall k letter, Z.of_nat (Ascii.nat_of_ascii letter) = k -> numbered k n = true ->
    exists i, (i < 8)%nat /\ n = String letter (String (Ascii.ascii_of_nat (48 + i)) EmptyString)).
  { intros k letter Hk H. destruct (numbered_name k n Hc H) as (c & i & Hi & Hlt & ->). exists i. split; [exact Hlt |].
    f_equal. rewrite <- (Ascii.ascii_nat_embedding c), <- (Ascii.ascii_nat_embedding letter). f_equal. lia. }
  destruct (numbered 100 n) eqn:Ed; [destruct (Hn 100 (Ascii.ascii_of_nat 100) eq_refl Ed) as (i & Hi & ->); do 8 (destruct i as [|i]; [reflexivity |]); lia |].
  destruct (numbered 97 n) eqn:Ea; [destruct (Hn 97 (Ascii.ascii_of_nat 97) eq_refl Ea) as (i & Hi & ->); do 8 (destruct i as [|i]; [reflexivity |]); lia |].
  unfold named, register_names. cbn [map zip zip_with app].
  repeat (cbn [find fst]; match goal with
  | |- context [String.eqb n ?m] => destruct (String.eqb_spec n m) as [->|?]; [first [discriminate Ed | discriminate Ea | reflexivity] |]
  end).
  reflexivity.
Qed.

(** The handle QEMU's descriptors give a slot: the last one that names it. *)
Definition names (sl : Slot) (d : Descriptor) : bool := bool_decide ((d_name d ≫= named) = Some sl).
Fixpoint handle_in (l : list Descriptor) (sl : Slot) : Z :=
  match l with
  | [] => 0
  | d :: l => if existsb (names sl) l then handle_in l sl else if names sl d then d_handle d else 0
  end.
Definition handle_of (g : CacheGlobals) (v : Z) (sl : Slot) : Z :=
  match sl with DataAddress i => cache_registers g v i | StatusRegister => cache_status g v end.

(** Every register a cache instruction may need is there. *)
Definition complete (l : list Descriptor) : bool :=
  existsb is_coldfire l && negb (handle_in l StatusRegister =? 0) &&
  forallb (fun i => negb (handle_in l (DataAddress i) =? 0)) (seqZ 0 16).

Lemma set_slot_same v sl h g : handle_of (set_slot v sl h g) v sl = h.
Proof. destruct sl; cbn; unfold store; rewrite ?Z.eqb_refl; reflexivity. Qed.
Lemma set_slot_other v sl h g w sl' : w <> v \/ sl' <> sl -> handle_of (set_slot v sl h g) w sl' = handle_of g w sl'.
Proof.
  intros H. destruct sl as [i|], sl' as [j|]; cbn; unfold store; destruct (Z.eqb_spec w v) as [->|]; try reflexivity;
    [destruct (Z.eqb_spec j i) as [->|]; [| reflexivity] |]; destruct H; congruence.
Qed.

(** Names are C strings: they hold no null character. *)
Definition name_ok (d : Descriptor) : Prop := match d_name d with Some n => c_string n = true | None => True end.

Lemma note_handle v c g d w sl : name_ok d ->
  handle_of (snd (note_descriptor v (c, g) d)) w sl = if (w =? v) && names sl d then d_handle d else handle_of g w sl.
Proof.
  unfold name_ok. cbn [note_descriptor snd]. unfold names. destruct (d_name d) as [n|]; cbn [mbind option_bind];
    [| intros _; rewrite andb_false_r; reflexivity].
  intros Hn. rewrite (slot_of_named _ Hn). destruct (named n) as [sl'|]; [| rewrite andb_false_r; reflexivity].
  destruct (Z.eqb_spec w v) as [->|W]; cbn [andb]; [| apply set_slot_other; auto].
  case_bool_decide as E; [injection E as ->; apply set_slot_same | apply set_slot_other; naive_solver].
Qed.

Lemma scan v l : Forall name_ok l -> forall c g, let r := foldl (note_descriptor v) (c, g) l in
  fst r = c || existsb is_coldfire l /\
  (forall w sl, handle_of (snd r) w sl = if (w =? v) && existsb (names sl) l then handle_in l sl else handle_of g w sl).
Proof.
  induction 1 as [|d l Hd _ IH]; intros c g; cbn [foldl existsb].
  { split; [rewrite orb_false_r; reflexivity | intros; rewrite andb_false_r; reflexivity]. }
  destruct (note_descriptor v (c, g) d) as [c1 g1] eqn:E.
  assert (Ec : c1 = c || is_coldfire d) by (cbn in E; injection E as <- _; reflexivity).
  destruct (IH c1 g1) as [I1 I2]. split; [rewrite I1, Ec, orb_assoc; reflexivity |]. intros w sl. rewrite I2. cbn [handle_in].
  pose proof (note_handle v c g d w sl Hd) as N. rewrite E in N. cbn [snd] in N. rewrite N.
  destruct (w =? v), (existsb (names sl) l), (names sl d); reflexivity.
Qed.

Lemma unnamed l sl : existsb (names sl) l = false -> handle_in l sl = 0.
Proof. induction l as [|d l IH]; cbn; [reflexivity |]. intros H. apply orb_false_iff in H as [-> ->]. reflexivity. Qed.

Lemma existsb_forallb {X} (f : X -> bool) l : existsb f l = negb (forallb (fun x => negb (f x)) l).
Proof. induction l as [|x l IH]; cbn; [reflexivity |]. rewrite IH. destruct (f x); reflexivity. Qed.

Lemma forallb_same {X} (f g : X -> bool) l : (forall x, f x = g x) -> forallb f l = forallb g l.
Proof. intros H. induction l as [|x l IH]; cbn; [reflexivity | rewrite H, IH; reflexivity]. Qed.

Section Registers.
Variable P : PluginConfig.

(** A vCPU that has not been initialised. *)
Definition fresh (v : Z) (g : CacheGlobals) : Prop := forall sl, handle_of g v sl = 0.

Lemma init_result v l g : cache_ops P = true -> Forall name_ok l -> fresh v g ->
  match init_cache_registers P v (Some l) g with
  | Ok g' => v < PLUGIN_MAX_VCPUS /\ complete l = true /\
      (forall w sl, handle_of g' w sl = if w =? v then handle_in l sl else handle_of g w sl) /\
      cache_register_bytes g' v = Some []
  | Throw e _ => e = Fatal /\ (PLUGIN_MAX_VCPUS <= v \/ complete l = false)
  end.
Proof.
  intros Hc Hn Hf. unfold init_cache_registers. rewrite Hc. cbn [negb].
  destruct (Z.leb_spec PLUGIN_MAX_VCPUS v); cbn [throw_if mbind result_bind]; [auto |].
  pose proof (scan v l Hn false g) as S. destruct (foldl _ _ l) as [c g1]. cbn [fst snd orb] in S. destruct S as [-> S].
  assert (Hs : forall w sl, handle_of g1 w sl = if w =? v then handle_in l sl else handle_of g w sl).
  { intros w sl. rewrite S. destruct (Z.eqb_spec w v) as [->|]; [| reflexivity]. cbn [andb].
    destruct (existsb (names sl) l) eqn:E; [reflexivity |]. rewrite Hf, (unnamed _ _ E). reflexivity. }
  assert (Hv : forall sl, handle_of g1 v sl = handle_in l sl) by (intros sl; rewrite Hs, Z.eqb_refl; reflexivity).
  change (cache_status g1 v) with (handle_of g1 v StatusRegister). rewrite Hv, existsb_forallb.
  rewrite (forallb_same _ (fun i => negb (handle_in l (DataAddress i) =? 0))) by (intros i; rewrite <- Hv; reflexivity).
  unfold complete. destruct (existsb is_coldfire l); cbn [negb orb andb]; [| cbn; auto].
  destruct (handle_in l StatusRegister =? 0); cbn [negb andb]; [cbn; auto |].
  destruct (forallb _ (seqZ 0 16)); [| cbn; auto]. cbn [negb throw_if mbind result_bind].
  split; [lia |]. split; [reflexivity |]. split; [| cbn; unfold store; rewrite Z.eqb_refl; reflexivity].
  intros w sl. rewrite <- Hs. destruct sl; reflexivity.
Qed.
End Registers.

(** ** Reading *)

(** The registers as the guest has them: what a reader gives for each handle. *)
Definition honest (l : list Descriptor) (rd : Z -> Z * list Z) (value : Slot -> Z) : Prop :=
  forall sl, is_u32 (value sl) /\ (handle_in l sl <> 0 -> rd (handle_in l sl) = (4, be_bytes 4 (value sl))).

Definition initialised (v : Z) (l : list Descriptor) (g : CacheGlobals) : Prop :=
  (forall sl, handle_of g v sl = handle_in l sl) /\ exists b, cache_register_bytes g v = Some b.

Lemma word_of a b c d : is_u8 a -> is_u8 b -> is_u8 c -> is_u8 d ->
  Z.lor (Z.lor (Z.lor (u32 (Z.shiftl a 24)) (Z.shiftl b 16)) (Z.shiftl c 8)) d = ((a * 256 + b) * 256 + c) * 256 + d.
Proof.
  unfold is_word. intros. rewrite !Z.shiftl_mul_pow2 by lia. rewrite wrap_small by word.
  rewrite (lor_add_low a (b * 2 ^ 16) 24) by lia.
  replace (a * 2 ^ 24 + b * 2 ^ 16) with ((a * 256 + b) * 2 ^ 16) by lia.
  rewrite (lor_add_low (a * 256 + b) (c * 2 ^ 8) 16) by lia.
  replace ((a * 256 + b) * 2 ^ 16 + c * 2 ^ 8) with (((a * 256 + b) * 256 + c) * 2 ^ 8) by lia.
  rewrite lor_add_low by lia. lia.
Qed.

Lemma be_word (x : Z) : is_u32 x -> let b := be_bytes 4 x in
  Z.lor (Z.lor (Z.lor (u32 (Z.shiftl (b !!! 0%nat) 24)) (Z.shiftl (b !!! 1%nat) 16)) (Z.shiftl (b !!! 2%nat) 8)) (b !!! 3%nat) = x.
Proof.
  intros Hx b. pose proof (be_bytes_ok 4 x) as Hb. subst b. unfold bytes_ok in Hb. cbn in Hb |- *.
  repeat match goal with H : Forall _ (_ :: _) |- _ => apply Forall_cons in H as [? H] end.
  rewrite word_of by assumption. rewrite !land_255, !shiftr_8. unfold is_word in Hx. pow2. dlia.
Qed.

Lemma read_handle rd l value v sl g : honest l rd value -> initialised v l g -> handle_in l sl <> 0 ->
  exists g', read_cache_register rd v (handle_of g v sl) g = Ok (value sl, g') /\ initialised v l g'.
Proof.
  intros Hr [Hh [b Hb]] Hn. destruct (Hr sl) as [Hw Hv]. unfold read_cache_register. rewrite Hb, Hh, (Hv Hn).
  pose proof (be_word _ Hw) as Hx. cbv zeta in Hx. rewrite Hx. eexists. split; [reflexivity |].
  split; [intros sl'; rewrite <- Hh; destruct sl'; reflexivity |]. cbn. unfold store. rewrite Z.eqb_refl. eauto.
Qed.

Lemma source_range bytes n : bytes_ok bytes -> op_valid (decodeColdFireCacheOp bytes n) = true ->
  0 <= op_source (decodeColdFireCacheOp bytes n) < 16.
Proof.
  intros Hb. assert (Hh : forall i, 0 <= half bytes i < 2 ^ 16).
  { intros i. assert (B : forall i, 0 <= bytes !!! i < 256).
    { intros j. rewrite list_lookup_total_alt. destruct (bytes !! j) as [x|] eqn:E; cbn; [| lia].
      apply (Forall_lookup_1 _ _ _ _ Hb) in E. word. }
    pose proof (B i). pose proof (B (S i)). unfold half. rewrite Z.shiftl_mul_pow2 by lia. rewrite lor_add_low by lia. lia. }
  unfold decodeColdFireCacheOp. destruct (n <? 2); [discriminate |]. cbv zeta.
  destruct (_ && _); cbn [op_valid op_source].
  - intros _. pose proof (Hh 2%nat). rewrite Z.shiftr_div_pow2 by lia. dlia.
  - destruct (_ =? _); cbn [op_valid op_source]; [| discriminate]. intros _.
    change 7 with (Z.ones 3). rewrite Z.land_ones by lia. dlia.
Qed.

(** ** The callback *)

Section Callback.
Variable P : PluginConfig.

Lemma complete_handles l : complete l = true ->
  handle_in l StatusRegister <> 0 /\ (forall i, 0 <= i < 16 -> handle_in l (DataAddress i) <> 0).
Proof.
  unfold complete. rewrite !andb_true_iff, negb_true_iff, Z.eqb_neq, forallb_forall. intros [[_ Hs] Hd].
  split; [exact Hs |]. intros i Hi. apply Z.eqb_neq, negb_true_iff, Hd.
  apply list_elem_of_In, elem_of_seqZ. lia.
Qed.

(** The cache instructions a vCPU executes one after the other, each with the
    registers as they are then: by handles and by value. *)
Record Use := mkUse { u_encoding : Z; u_reader : Z -> Z * list Z; u_value : Slot -> Z }.
Fixpoint by_handle (v : Z) (l : list Use) (g : CacheGlobals) (s : PluginState) : result PluginState :=
  match l with
  | [] => Ok s
  | u :: l =>
      '(s, g) ← CacheRegs.cb_cache_op P (u_reader u) (Some Shmem.QUETZ_SHM_MAGIC) false false v (u_encoding u) g s;
      by_handle v l g s
  end.
Definition by_value (v : Z) : list Use -> PluginState -> result PluginState :=
  each (fun u => Plugin.cb_cache_op P v (u_encoding u) (fun i => u_value u (DataAddress i)) (u_value u StatusRegister)).

Lemma callback_step v l u g s : complete l = true -> honest l (u_reader u) (u_value u) -> initialised v l g ->
  match CacheRegs.cb_cache_op P (u_reader u) (Some Shmem.QUETZ_SHM_MAGIC) false false v (u_encoding u) g s with
  | Ok (s', g') => initialised v l g' /\
      Plugin.cb_cache_op P v (u_encoding u) (fun i => u_value u (DataAddress i)) (u_value u StatusRegister) s = Ok s'
  | Throw e m =>
      Plugin.cb_cache_op P v (u_encoding u) (fun i => u_value u (DataAddress i)) (u_value u StatusRegister) s = Throw e m
  end.
Proof.
  intros Hc Hr Hi. destruct (complete_handles _ Hc) as [Hs Hd]. unfold CacheRegs.cb_cache_op, Plugin.cb_cache_op. cbv zeta.
  set (op := decodeColdFireCacheOp _ 4). destruct ((PLUGIN_MAX_VCPUS <=? v) || negb (op_valid op)) eqn:Ev; [reflexivity |].
  apply orb_false_iff in Ev as [_ Ev]. apply negb_false_iff in Ev.
  pose proof (Hd _ (source_range _ _ (be_bytes_ok 4 (u_encoding u)) Ev)) as Ho. fold op in Ho.
  cbn [throw_if mbind result_bind].
  destruct (read_handle _ _ _ v StatusRegister g Hr Hi Hs) as (g1 & E1 & H1). cbn [handle_of] in E1. rewrite E1. cbn [mbind result_bind].
  destruct (Z.land _ 0x2000 =? 0); [reflexivity |]. cbn [throw_if mbind result_bind].
  destruct (read_handle _ _ _ v (DataAddress (op_source op)) g1 Hr H1 Ho) as (g2 & E2 & H2). cbn [handle_of] in E2.
  destruct (op_kind op =? 0); rewrite ?E2; cbn [mbind result_bind]; destruct (flush_run P v s); cbn [mbind result_bind throw_if];
    rewrite ?E2; cbn [mbind result_bind throw_if orb negb]; try reflexivity; (split; [assumption | reflexivity]).
Qed.

Lemma callbacks_agree v l us : complete l = true -> Forall (fun u => honest l (u_reader u) (u_value u)) us ->
  forall g s, initialised v l g -> by_handle v us g s = by_value v us s.
Proof.
  intros Hc Hu. induction Hu as [|u us Hr _ IH]; intros g s Hi; [reflexivity |]. cbn [by_handle by_value each].
  pose proof (callback_step v l u g s Hc Hr Hi) as K.
  destruct (CacheRegs.cb_cache_op _ _ _ _ _ _ _ _ _) as [[s' g']|e m].
  - destruct K as [Hi' ->]. cbn [mbind result_bind]. apply IH, Hi'.
  - rewrite K. reflexivity.
Qed.

(** C22. Finding the registers of a new vCPU succeeds exactly when QEMU's
    descriptors are ColdFire's and name every data, address and status
    register; the cache instructions it then executes ask for what they would
    with the registers at hand, through any number of readings. *)
Theorem registers_found v l g us s :
  cache_ops P = true -> Forall name_ok l -> fresh v g -> Forall (fun u => honest l (u_reader u) (u_value u)) us ->
  match init_cache_registers P v (Some l) g with
  | Ok g' => v < PLUGIN_MAX_VCPUS /\ complete l = true /\ by_handle v us g' s = by_value v us s /\
      (forall w, w <> v -> cache_status g' w = cache_status g w /\ forall i, cache_registers g' w i = cache_registers g w i)
  | Throw e _ => e = Fatal /\ (PLUGIN_MAX_VCPUS <= v \/ complete l = false)
  end.
Proof.
  intros Hc Hn Hf Hu. pose proof (init_result P v l g Hc Hn Hf) as I.
  destruct (init_cache_registers P v (Some l) g) as [g'|e m]; [| exact I].
  destruct I as (Hv & Hl & Hh & Hb). split; [exact Hv |]. split; [exact Hl |]. split.
  - apply (callbacks_agree v l us Hl Hu). split; [| eauto]. intros sl. rewrite Hh, Z.eqb_refl. reflexivity.
  - intros w Hw. apply Z.eqb_neq in Hw. split; [| intros i]; [pose proof (Hh w StatusRegister) as K | pose proof (Hh w (DataAddress i)) as K];
      rewrite Hw in K; exact K.
Qed.
End Callback.

(** QEMU's descriptors of a ColdFire: [a6] and [a7] are called [fp] and [sp]. *)
Definition demo_descriptors : list Descriptor :=
  let f := Some "org.gnu.gdb.coldfire.core" in
  zip_with (fun h n => mkDescriptor h (Some n) f) (seqZ 1 18)
    ["d0"; "d1"; "d2"; "d3"; "d4"; "d5"; "d6"; "d7"; "a0"; "a1"; "a2"; "a3"; "a4"; "a5"; "fp"; "sp"; "ps"; "pc"].
Definition demo_value (sl : Slot) : Z := match sl with DataAddress i => u32 (0x1000 * i) | StatusRegister => 0x2700 end.
Definition demo_reader (h : Z) : Z * list Z :=
  (4, be_bytes 4 (if h =? 17 then 0x2700 else u32 (0x1000 * (h - 1)))).
Definition demo_config : PluginConfig := mkPluginConfig GenericInsnClassifier true 1 0 0 0 0.
Definition demo_plugin : PluginState := mkPlugin (fun _ => mkVcpu false 0 0 0 0 []) [].
Definition demo_use : Use := mkUse 0x4e7b2002 demo_reader demo_value.    (* movec d2, cacr *)

Lemma demo_handle sl : handle_in demo_descriptors sl =
  match sl with StatusRegister => 17 | DataAddress i => if (0 <=? i) && (i <? 16) then i + 1 else 0 end.
Proof.
  destruct sl as [i|]; [| reflexivity]. destruct (decide (0 <= i < 16)) as [Hi|Hi].
  - assert (H : i ∈ seqZ 0 16) by (apply elem_of_seqZ; lia). change (seqZ 0 16) with [0;1;2;3;4;5;6;7;8;9;10;11;12;13;14;15] in H.
    repeat (apply elem_of_cons in H as [->|H]; [reflexivity |]). apply elem_of_nil in H. destruct H.
  - rewrite unnamed.
    + destruct (Z.leb_spec 0 i), (Z.ltb_spec i 16); try reflexivity; lia.
    + apply not_true_iff_false. intros H. apply existsb_exists in H as (d & Hd & H). unfold names in H. apply bool_decide_eq_true in H.
      cbn in Hd. repeat (destruct Hd as [<-|Hd]; [cbv in H; try discriminate H; injection H as <-; lia |]). destruct Hd.
Qed.

Lemma demo_honest : honest demo_descriptors demo_reader demo_value.
Proof.
  intros sl. split; [destruct sl; [apply is_word_wrap; lia | vm_compute; split; congruence] |]. rewrite demo_handle.
  destruct sl as [i|]; [| reflexivity]. destruct (Z.leb_spec 0 i), (Z.ltb_spec i 16); cbn [andb]; try congruence. intros _.
  unfold demo_reader. destruct (Z.eqb_spec (i + 1) 17); [lia |]. cbn [demo_value]. repeat f_equal; lia.
Qed.

Lemma registers_found_witness :
  match init_cache_registers demo_config 0 (Some demo_descriptors) globals0 with
  | Ok g' => exists s, by_handle demo_config 0 [demo_use; demo_use] g' demo_plugin = Ok s /\
      by_value demo_config 0 [demo_use; demo_use] demo_plugin = Ok s /\ length (requests s) = 2%nat
  | Throw _ _ => False
  end.
Proof.
  pose proof (registers_found demo_config 0 demo_descriptors globals0 [demo_use; demo_use] demo_plugin eq_refl ltac:(repeat constructor)
    (fun sl => match sl with DataAddress _ => eq_refl | StatusRegister => eq_refl end)
    ltac:(apply Forall_cons; split; [exact demo_honest | apply Forall_cons; split; [exact demo_honest | apply Forall_nil; exact I]])) as H.
  destruct (init_cache_registers _ _ _ _) as [g'|e m].
  - destruct H as (_ & _ & E & _). rewrite E. eexists. split; [vm_compute; reflexivity |]. split; vm_compute; reflexivity.
  - destruct H as [_ [H|H]]; vm_compute in H; congruence.
Defined.
