(* ===== verification/Stages.v ===== *)
(** * Output stages of the pipeline

    [src/src/quetz_pipeline_api.h], class [PipelineOutput]: the interface the
    pipeline issues through, with its default for stages that cannot split an
    access; [quetz_pipeline_output.cc], the default stage, as an instance;
    [quetz_logging_pipeline_output.cc], which traces over another stage; and
    [quetz_core_backend.cc], where the input stage gets its commands.

    [Pipeline] has the default stage built in: its state is the emitter and the
    offset of the pipeline's.  [issue_head] is what the pipeline does with any
    stage. *)
From S2P Require Import Prelude.
From S2P Require Import NativeRam.
From S2P Require Import Command.
From S2P Require Import Shmem.
From S2P Require Import MemIssue.
From S2P Require Import Pipeline.

(** ** The interface *)

Class PipelineOutput (S : Type) := {
  slotsNeeded : MemOp -> S -> Z;
  issue : MemOp -> S -> result S;
  issueAvailable : MemOp -> Z -> S -> result (Z * bool * S);
  pendingCount : S -> Z;
  handleResponse : Z -> S -> option (Z * bool) * S }.

(** [issueAvailable] of the base class: all or nothing. *)
Definition issueAvailable_base {S} (slotsNeeded : MemOp -> S -> Z) (issue : MemOp -> S -> result S)
    (op : MemOp) (budget : Z) (s : S) : result (Z * bool * S) :=
  let slots := slotsNeeded op s in
  if negb (slots <=? budget) then Ok (0, false, s) else s ← issue op s; Ok (slots, true, s).

(** What [issueMemOp] does with the operation at the head of the queue: the
    budget and the checks of what the stage answers. *)
Definition issue_head {S} `{PipelineOutput S} (ctx : QuetzCoreContext) (op : MemOp) (issued : Z) (s : S) : result (bool * Z * S) :=
  let pending := pendingCount s in
  let budget := Z.min (if issued <? max_issue_per_cycle ctx then max_issue_per_cycle ctx - issued else 0)
                      (if pending <? max_pending ctx then max_pending ctx - pending else 0) in
  if budget =? 0 then Ok (false, issued, s)
  else
    '(count, complete, s) ← issueAvailable op budget s;
    throw_if (budget <? count) Fatal "Pipeline output exceeded its issue budget." ≫= fun _ =>
    throw_if (negb complete && (count =? 0) && (issued =? 0) && (pending =? 0)) Fatal
      "Pipeline output cannot split an access to fit maxissuepercycle/maxtranscore." ≫= fun _ =>
    Ok (complete, u32 (issued + count), s).

(** ** The default stage *)

Section Default.
Variable ctx : QuetzCoreContext.

Definition default_slotsNeeded (op : MemOp) (s : Pipeline) : Z :=
  MemIssue.slotsNeeded (cache_line_size ctx) (op_addr op) (op_size op) (path_of op).
Definition default_issue (op : MemOp) (s : Pipeline) : result Pipeline :=
  e ← (if op_is_read op
       then issueRead (cache_line_size ctx) (mem_linked ctx) (mmio_linked ctx) (op_addr op) (op_size op) (path_of op) (emitter s)
       else issueWrite (cache_line_size ctx) (mem_linked ctx) (mmio_linked ctx) (op_addr op) (op_size op) (op_data op) (path_of op) (emitter s));
  Ok (s <| emitter := e |>).
Definition default_handleResponse (id : Z) (s : Pipeline) : option (Z * bool) * Pipeline :=
  let (r, e) := MemIssue.handleResponse id (emitter s) in (r, s <| emitter := e |>).

Definition DefaultPipelineOutput : PipelineOutput Pipeline := {|
  slotsNeeded := default_slotsNeeded; issue := default_issue; issueAvailable := Pipeline.issueAvailable ctx;
  pendingCount := fun s => pending_count (emitter s); handleResponse := default_handleResponse |}.

(** The same stage without its own [issueAvailable]. *)
Definition UnsplitPipelineOutput : PipelineOutput Pipeline := {|
  slotsNeeded := default_slotsNeeded; issue := default_issue;
  issueAvailable := issueAvailable_base default_slotsNeeded default_issue;
  pendingCount := fun s => pending_count (emitter s); handleResponse := default_handleResponse |}.
End Default.

(** ** The logging stage *)

(** A line of the trace: core, READ or WRITE, address and size. *)
Record Line := mkLine { ln_core : Z; ln_is_read : bool; ln_addr : Z; ln_size : Z }.
Record Logging (S : Type) := mkLogging { core_id : Z; delegate : S; stderr : list Line }.
Arguments mkLogging {S}.
Arguments core_id {S} _.
Arguments delegate {S} _.
Arguments stderr {S} _.

Definition line (core : Z) (op : MemOp) : Line := mkLine core (op_is_read op) (op_addr op) (op_size op).

Section Logging.
Context {S : Type} `{PipelineOutput S}.

(** The line is printed before the delegate issues. *)
Definition logging_issue (op : MemOp) (s : Logging S) : result (Logging S) :=
  d ← issue op (delegate s); Ok (mkLogging (core_id s) d (stderr s ++ [line (core_id s) op])).
Definition logging_issueAvailable (op : MemOp) (budget : Z) (s : Logging S) : result (Z * bool * Logging S) :=
  '(issued, complete, d) ← issueAvailable op budget (delegate s);
  Ok (issued, complete, mkLogging (core_id s) d (stderr s ++ if complete : bool then [line (core_id s) op] else [])).
Definition logging_handleResponse (id : Z) (s : Logging S) : option (Z * bool) * Logging S :=
  let (r, d) := handleResponse id (delegate s) in (r, mkLogging (core_id s) d (stderr s)).

#[export] Instance LoggingPipelineOutput : PipelineOutput (Logging S) := {|
  slotsNeeded := fun op s => slotsNeeded op (delegate s); issue := logging_issue; issueAvailable := logging_issueAvailable;
  pendingCount := fun s => pendingCount (delegate s); handleResponse := logging_handleResponse |}.
End Logging.

(** ** The backend *)

(** [QuetzTunnelBackend]: the tunnel's rings, and commands put back. *)
Record Backend := mkBackend { rings : Z -> list QuetzCommand; deferred : Z -> list QuetzCommand; shared_data : SharedData }.
#[export] Instance Backend_settable : Settable Backend := fun b => mkBackend (rings b) (deferred b) (shared_data b).

Definition set_at {X} (i : Z) (x : X) (f : Z -> X) : Z -> X := fun j => if j =? i then x else f j.

Definition readCommandNB (core : Z) (b : Backend) : option QuetzCommand * Backend :=
  if QUETZ_MAX_MMIO_VCORES <=? core then (None, b)
  else
    match deferred b core with
    | c :: rest => (Some c, b <| deferred ::= set_at core rest |>)
    | [] =>
        match rings b core with
        | c :: rest => (Some c, b <| rings ::= set_at core rest |>)
        | [] => (None, b)
        end
    end.
Definition updateSimTime (ns : Z) (b : Backend) : Backend := b <| shared_data ::= fun d => d <| simTime := ns |> |>.
Definition incrementCycles (b : Backend) : Backend := b <| shared_data ::= fun d => d <| simCycles ::= fun n => u64 (n + 1) |> |>.
