(* ===== verification/StagesThm.v ===== *)
(** * Output stages: tracing changes nothing, and what a stage that cannot split does *)
From S2P Require Import Prelude.
From S2P Require Import MemSpan.
From S2P Require Import NativeRam.
From S2P Require Import Command.
From S2P Require Import Shmem.
From S2P Require Import MemIssue.
From S2P Require Import Pipeline.
From S2P Require Import Stages.

(** ** The pipeline and its stage *)

Lemma issueMemOp_head ctx op issued s :
  Pipeline.issueMemOp ctx op issued s =
  ('(complete, issued, s) ← issue_head (H := DefaultPipelineOutput ctx) ctx op issued s;
   if (complete : bool) then
     Ok (true, issued, snd (checkMaxInsts ctx (count_inst (record insn_count (pop (s <| pending_op := None |>))))))
   else Ok (false, issued, s)).
Proof.
  unfold Pipeline.issueMemOp, issue_head. cbn [pendingCount issueAvailable DefaultPipelineOutput]. cbv zeta.
  destruct (_ =? 0); [reflexivity |].
  destruct (Pipeline.issueAvailable _ _ _ _) as [[[count complete] s1]|]; cbn [mbind result_bind]; [| reflexivity].
  destruct (_ <? count); [reflexivity |]. cbn [throw_if mbind result_bind].
  destruct complete; [reflexivity |]. cbn [negb andb]. destruct (_ && _); reflexivity.
Qed.

(** ** Tracing *)

Inductive Call := Issue (op : MemOp) | IssueAvailable (op : MemOp) (budget : Z) | Response (id : Z).
Inductive Answer := Issued (count : Z) (complete : bool) | Latency (r : option (Z * bool)).

Section Calls.
Context {S : Type} `{PipelineOutput S}.

Definition call (c : Call) (s : S) : result (Answer * S) :=
  match c with
  | Issue op => s ← issue op s; Ok (Issued (slotsNeeded op s) true, s)
  | IssueAvailable op budget => '(n, b, s) ← issueAvailable op budget s; Ok (Issued n b, s)
  | Response id => let (r, s) := handleResponse id s in Ok (Latency r, s)
  end.
Fixpoint calls (l : list Call) (s : S) : result (list Answer * S) :=
  match l with
  | [] => Ok ([], s)
  | c :: l => '(a, s) ← call c s; '(al, s) ← calls l s; Ok (a :: al, s)
  end.
End Calls.

(** The accesses that were completed. *)
Definition completed (c : Call) (a : Answer) : list MemOp :=
  match c, a with
  | Issue op, _ => [op]
  | IssueAvailable op _, Issued _ true => [op]
  | _, _ => []
  end.

Section Tracing.
Context {S : Type} `{PipelineOutput S}.

Lemma logging_call c (s : Logging S) :
  call c s = ('(a, d) ← call c (delegate s); Ok (a, mkLogging (core_id s) d (stderr s ++ map (line (core_id s)) (completed c a)))).
Proof.
  destruct c as [op|op budget|id]; cbn.
  - unfold logging_issue. destruct (issue op (delegate s)) as [d|]; reflexivity.
  - unfold logging_issueAvailable. destruct (issueAvailable op budget (delegate s)) as [[[n b] d]|]; [| reflexivity]. cbn. destruct b; reflexivity.
  - unfold logging_handleResponse. destruct (handleResponse id (delegate s)). cbn. rewrite app_nil_r. destruct s; reflexivity.
Qed.

(** The tracing stage answers every call as the stage behind it does, errors
    included, leaves that stage as it would be without the trace, and has one
    line for each completed access, in order. *)
Lemma logging_transparent (l : list Call) : forall (s : Logging S),
  calls l s =
  ('(al, d) ← calls l (delegate s);
   Ok (al, mkLogging (core_id s) d (stderr s ++ map (line (core_id s)) (concat (zip_with completed l al))))).
Proof.
  induction l as [|c l IH]; intros s; cbn [calls].
  { cbn. rewrite app_nil_r. destruct s; reflexivity. }
  rewrite logging_call. destruct (call c (delegate s)) as [[a d]|]; cbn [mbind result_bind]; [| reflexivity].
  rewrite IH. cbn [delegate core_id stderr]. destruct (calls l d) as [[al d']|]; cbn [mbind result_bind]; [| reflexivity].
  cbn [zip_with concat]. rewrite map_app, app_assoc. reflexivity.
Qed.
End Tracing.

(** ** A stage that cannot split *)

Section Unsplit.
Variable ctx : QuetzCoreContext.
#[local] Abbreviation line_size := (cache_line_size ctx).
Hypothesis line_pos : 0 < line_size <= 2 ^ 63.

(** The lines of an access, counted and listed. *)
Lemma chunks_slots n : forall a, 0 <= a -> 0 <= n ->
  Z.of_nat (length (chunks line_size a n)) = if n =? 0 then 0 else (a + n - 1) / line_size - a / line_size + 1.
Proof.
  intros a Ha Hn. pose proof Hn as Hn'. revert Hn a Ha. pattern n. apply (Z_lt_induction _); [| exact Hn']. clear n Hn'. intros n IH Hn a Ha.
  destruct (Z.eqb_spec n 0) as [->|Hz]; [rewrite chunks_nil; reflexivity |].
  destruct (chunks_cons line_size ltac:(lia) a n Ha ltac:(lia)) as [Hk ->]. set (k := memoryChunkSize a n line_size n) in *.
  cbn [length]. rewrite Nat2Z.inj_succ, IH by lia.
  pose proof (Z.mod_pos_bound a line_size ltac:(lia)). pose proof (Z.div_mod a line_size ltac:(lia)).
  assert (Hc : k = Z.min n (line_size - a mod line_size)) by (unfold k, memoryChunkSize; rewrite (proj2 (Z.eqb_neq line_size 0)), Z.min_id by lia; reflexivity).
  clearbody k. set (m := a mod line_size) in *. set (d := a / line_size) in *. clearbody m d.
  destruct (Z.eqb_spec (n - k) 0) as [Hl|Hl].
  - replace (a + n - 1) with (m + n - 1 + d * line_size) by lia.
    rewrite Z.div_add by lia. rewrite (Z.div_small (m + n - 1)) by lia. lia.
  - replace (a + k + (n - k) - 1) with (a + n - 1) by lia.
    replace (a + k) with (0 + (d + 1) * line_size) by lia. rewrite Z.div_add by lia. rewrite Z.div_0_l by lia. lia.
Qed.

(** An access of the pipeline whose payload the command carries whole. *)
Definition carried (op : MemOp) : Prop :=
  span_ok (op_is_read op) (op_addr op) (op_size op) /\ length (op_data op) = 64%nat /\ 0 < op_size op /\
  (op_is_read op = false -> op_size op <= kDataCap) /\
  MemIssue.linkFor (mem_linked ctx) (mmio_linked ctx) (path_of op) = true.
Definition requests (op : MemOp) : list Req :=
  requests_from line_size (path_of op) (op_is_read op) (op_addr op) (op_size op) (op_data op) 0.

Lemma slots_requests op s : carried op ->
  default_slotsNeeded ctx op s = Z.of_nat (length (requests op)) /\ 0 < default_slotsNeeded ctx op s < 2 ^ 32.
Proof.
  intros (Hok & Hraw & Hs & Hw & Hl). pose proof Hok as (Ha & Hu & Hsp). unfold default_slotsNeeded, MemIssue.slotsNeeded, requests, requests_from.
  assert (Hn : issue_size (op_is_read op) (op_size op) = op_size op) by (unfold issue_size; destruct (op_is_read op); [reflexivity | specialize (Hw eq_refl); lia]).
  destruct (path_of op).
  - cbv zeta. rewrite length_map, Z.sub_0_r, Z.add_0_r, Hn, memorySlots_spec by assumption.
    rewrite (chunks_slots (op_size op) (op_addr op)) by word. destruct (Z.eqb_spec (op_size op) 0); [lia |]. split; [reflexivity |].
    assert (op_addr op / line_size <= (op_addr op + op_size op - 1) / line_size) by (apply Z.div_le_mono; lia).
    assert ((op_addr op + op_size op - 1) / line_size - op_addr op / line_size <= op_size op - 1); [| word].
    apply Z.le_trans with ((op_addr op + (op_size op - 1) * line_size) / line_size - op_addr op / line_size).
    + apply Z.sub_le_mono_r, Z.div_le_mono; [lia |]. nia.
    + rewrite Z.div_add by lia. lia.
  - rewrite (proj2 (Z.eqb_neq (op_size op) 0)) by lia. split; [reflexivity | lia].
Qed.

Lemma whole_issue op s : carried op ->
  exists s', default_issue ctx op s = Ok s' /\ emitted (emitter s) (emitter s') (requests op).
Proof.
  intros Hc. destruct (slots_requests op s Hc) as [Hlen Hr]. pose proof Hc as (Hok & Hraw & Hs & Hw & Hl).
  destruct (window_ok line_size (mem_linked ctx) (mmio_linked ctx) ltac:(lia) (op_is_read op) (op_addr op) (op_size op) (op_data op) (path_of op) 0 max_u32 (emitter s))
    as (parts & o' & e' & E & W & _); try assumption; try word.
  { intros _. unfold issue_size. destruct (op_is_read op); [lia |]. unfold kDataCap, QUETZ_CMD_DATA_BYTES. lia. }
  exists (s <| emitter := e' |>). split.
  - unfold default_issue. unfold issueWindow in E. destruct (op_is_read op); cbn in E |- *; unfold issueRead, issueWrite; rewrite E; reflexivity.
  - destruct W as [_ Hs' _ _ _]. rewrite take_ge in Hs' by (fold (requests op); word). exact Hs'.
Qed.

(** A stage that cannot split sends an access whole, or not at all: whole when
    all of its requests fit in what the cycle and the outstanding requests
    leave; not yet while something else is under way; and the pipeline stops
    with an error exactly when nothing is and the access needs more than the
    limits ever allow. *)
Lemma unsplit_stage op issued (s : Pipeline) :
  carried op -> is_u32 (max_issue_per_cycle ctx) -> is_u32 (max_pending ctx) -> 0 < max_issue_per_cycle ctx -> 0 < max_pending ctx ->
  0 <= issued -> 0 <= pending_count (emitter s) ->
  let slots := Z.of_nat (length (requests op)) in
  let left := Z.min (max_issue_per_cycle ctx - issued) (max_pending ctx - pending_count (emitter s)) in
  let idle := issued = 0 /\ pending_count (emitter s) = 0 in
  match issue_head (H := UnsplitPipelineOutput ctx) ctx op issued s with
  | Ok (true, issued', s') => slots <= left /\ issued' = issued + slots /\
      snd <$> sent (emitter s') = (snd <$> sent (emitter s)) ++ requests op
  | Ok (false, issued', s') => left < slots /\ issued' = issued /\ s' = s /\ ~ idle
  | Throw e _ => e = Fatal /\ idle /\ Z.min (max_issue_per_cycle ctx) (max_pending ctx) < slots
  end.
Proof.
  intros Hc Hi Hp Hi0 Hp0 Hu Hq slots left idle. destruct (slots_requests op s Hc) as [Hlen Hr]. rewrite Hlen in Hr. fold slots in Hlen, Hr.
  unfold issue_head. cbn [pendingCount issueAvailable UnsplitPipelineOutput]. cbv zeta.
  set (budget := Z.min _ _).
  assert (Hb : budget = Z.max 0 left) by (unfold budget, left; destruct (Z.ltb_spec issued (max_issue_per_cycle ctx)), (Z.ltb_spec (pending_count (emitter s)) (max_pending ctx)); lia).
  destruct (Z.eqb_spec budget 0) as [Eb|Eb]; [split; [lia | split; [reflexivity | split; [reflexivity | unfold idle; lia]]] |].
  unfold issueAvailable_base. rewrite Hlen. destruct (Z.leb_spec slots budget) as [Hs|Hs]; cbn [negb].
  - destruct (whole_issue op s Hc) as (s' & -> & [Es _ _]). cbn [mbind result_bind]. rewrite (proj2 (Z.ltb_ge _ _)) by lia.
    cbn [throw_if mbind result_bind negb andb]. rewrite wrap_small by word. split; [lia |]. split; [reflexivity | exact Es].
  - cbn [mbind result_bind]. rewrite (proj2 (Z.ltb_ge _ _)) by lia. cbn [throw_if mbind result_bind negb andb].
    rewrite Z.eqb_refl. cbn [andb].
    destruct (Z.eqb_spec issued 0), (Z.eqb_spec (pending_count (emitter s)) 0); cbn [throw_if mbind result_bind andb];
      [split; [reflexivity |]; unfold idle; split; [auto | lia] | ..];
      rewrite Z.add_0_r, wrap_small by word; (split; [lia |]); (split; [reflexivity |]); (split; [reflexivity |]); unfold idle; lia.
Qed.
End Unsplit.

(** ** The backend *)

Fixpoint reads (n : nat) (core : Z) (b : Backend) : list QuetzCommand * Backend :=
  match n with
  | O => ([], b)
  | S n => match readCommandNB core b with
           | (Some c, b) => let (l, b) := reads n core b in (c :: l, b)
           | (None, b) => ([], b)
           end
  end.
Definition waiting (core : Z) (b : Backend) : list QuetzCommand := deferred b core ++ rings b core.

(** A core reads its commands in order, those put back first, and no other
    core's. *)
Lemma backend_fifo n core : core < QUETZ_MAX_MMIO_VCORES -> forall b,
  fst (reads n core b) = take n (waiting core b) /\
  waiting core (snd (reads n core b)) = drop n (waiting core b) /\
  (forall other, other <> core -> waiting other (snd (reads n core b)) = waiting other b).
Proof.
  intros Hc. induction n as [|n IH]; intros b; [repeat split; reflexivity |]. cbn [reads]. unfold readCommandNB.
  rewrite (proj2 (Z.leb_gt _ _)) by exact Hc.
  assert (Step : forall b', (forall other, other <> core -> waiting other b' = waiting other b) -> forall c, waiting core b = c :: waiting core b' ->
    let r := (let (l, b) := reads n core b' in (c :: l, b)) in
    fst r = take (S n) (waiting core b) /\ waiting core (snd r) = drop (S n) (waiting core b) /\
    (forall other, other <> core -> waiting other (snd r) = waiting other b)).
  { intros b' Ho c Hw. destruct (IH b') as (I1 & I2 & I3). destruct (reads n core b') as [l b'']. cbn [fst snd] in *. rewrite Hw.
    cbn [take drop]. split; [f_equal; exact I1 |]. split; [exact I2 |]. intros o Hd. rewrite I3, Ho by assumption. reflexivity. }
  destruct (deferred b core) as [|c rest] eqn:Ed.
  - destruct (rings b core) as [|c rest] eqn:Er.
    + cbn [fst snd]. unfold waiting. rewrite Ed, Er. auto.
    + apply Step.
      * intros o Hd. unfold waiting. cbn. unfold set_at. apply Z.eqb_neq in Hd. rewrite Hd. reflexivity.
      * unfold waiting. cbn. unfold set_at. rewrite Z.eqb_refl, Ed, Er. reflexivity.
  - apply Step.
    + intros o Hd. unfold waiting. cbn. unfold set_at. apply Z.eqb_neq in Hd. rewrite Hd. reflexivity.
    + unfold waiting. cbn. unfold set_at. rewrite Z.eqb_refl, Ed. reflexivity.
Qed.

(** A read over two lines, with room for one request a cycle. *)
Definition demo_ctx : QuetzCoreContext := mkContext 8 1 4 0 64 false false false [] [] true true.
Definition demo_op : MemOp := mkMemOp true false 0x103c 8 (replicate 64 0).
Lemma demo_carried : carried demo_ctx demo_op.
Proof. split; [split; [cbn; word | split; [cbn; word | cbn; lia]] |]. repeat split. discriminate. Qed.

Lemma unsplit_stage_witness :
  length (requests demo_ctx demo_op) = 2%nat /\
  issue_head (H := UnsplitPipelineOutput demo_ctx) demo_ctx demo_op 0 (pipeline0 []) =
    Throw Fatal "Pipeline output cannot split an access to fit maxissuepercycle/maxtranscore." /\
  Z.min 1 4 < Z.of_nat (length (requests demo_ctx demo_op)).
Proof.
  pose proof (unsplit_stage demo_ctx ltac:(cbn; lia) demo_op 0 (pipeline0 []) demo_carried ltac:(cbn; word) ltac:(cbn; word)
    ltac:(cbn; lia) ltac:(cbn; lia) ltac:(lia) ltac:(cbn; lia)) as H.
  assert (E : issue_head (H := UnsplitPipelineOutput demo_ctx) demo_ctx demo_op 0 (pipeline0 []) =
    Throw Fatal "Pipeline output cannot split an access to fit maxissuepercycle/maxtranscore.") by (vm_compute; reflexivity).
  rewrite E in H. destruct H as (_ & _ & H). split; [vm_compute; reflexivity |]. split; [exact E | exact H].
Defined.
