(* ===== verification/Collector.v ===== *)
(** * The statistics collector

    [QuetzStatisticsCollector]: the shared time and cycle count of
    [src/src/quetz_statistics_collector.h], and the recorders of
    [quetz_statistics_collector.cc], which count for a core whose counters are
    bound.  The pointers of the collector are to objects it does not own: the
    shared data, and the counters with their SST statistics, of which those
    not registered are null. *)
From S2P Require Import Prelude.
From S2P Require Import Shmem.
From S2P Require Import Command.
From S2P Require Import Stages.
From S2P Require Import CoreStats.

(** The pointer to the counters says whose they are; what it points to is in
    the state. *)
Record Collector := mkCollector { shared_ : bool; core_stats_ : option Z }.
#[export] Instance Collector_settable : Settable Collector := fun c => mkCollector (shared_ c) (core_stats_ c).
Definition collector0 : Collector := mkCollector false None.
Definition bindShared (c : Collector) : Collector := c <| shared_ := true |>.
Definition bindCoreStats (v : option Z) (c : Collector) : Collector := c <| core_stats_ := v |>.

(** ** The shared time *)

Section Shared.
Variable c : Collector.

(** A dereference of [shared_]. *)
Definition shared {X} (f : SharedData -> X) (d : SharedData) : result X :=
  if shared_ c then Ok (f d) else Throw Fatal "null pointer".
Definition initMaster : SharedData -> result SharedData := shared statistics_initMaster.
Definition updateSimTime (ns : Z) : SharedData -> result SharedData := shared (fun d => d <| simTime := ns |>).
Definition incrementSimCycles : SharedData -> result SharedData := shared (fun d => d <| simCycles ::= fun n => u64 (n + 1) |>).
Definition getSimCycles : SharedData -> result Z := shared simCycles.
End Shared.

(** What the backend of a core does is the bound collector's. *)
Lemma backend_time b ns d : d = shared_data b ->
  updateSimTime (bindShared collector0) ns d = Ok (shared_data (Stages.updateSimTime ns b)) /\
  incrementSimCycles (bindShared collector0) d = Ok (shared_data (Stages.incrementCycles b)).
Proof. intros ->. split; reflexivity. Qed.

(** ** The recorders *)

Inductive Recorder : Set :=
  | recordCycle | recordActiveCycle | recordInsnCount | recordNoop
  | recordReadLatency (lat : Z) | recordWriteLatency (lat : Z)
  | recordStallCycle | recordComputeStallCycle
  | recordIntCompute | recordFpCompute | recordVecCompute | recordBranch.

Definition statistic (r : Recorder) : Stat :=
  match r with
  | recordCycle => cycles | recordActiveCycle => active_cycles
  | recordInsnCount => insn_count | recordNoop => noop_count
  | recordReadLatency _ => read_lat | recordWriteLatency _ => write_lat
  | recordStallCycle => stall_cycles | recordComputeStallCycle => compute_stall_cycles
  | recordIntCompute => int_compute | recordFpCompute => fp_compute
  | recordVecCompute => vec_compute | recordBranch => branch
  end.
Definition sample (r : Recorder) : Z :=
  match r with recordReadLatency lat | recordWriteLatency lat => lat | _ => 1 end.

(** The counters of each core and which of them are registered. *)
Record Counters := mkCounters { registered : Z -> Stat -> bool; counts : Z -> QuetzCoreStats }.

(** [if (core_stats_ && core_stats_->counter) counter->addData(sample)] *)
Definition record_stat (c : Collector) (s : Counters) (r : Recorder) : Counters :=
  match core_stats_ c with
  | Some v =>
      if registered s v (statistic r)
      then mkCounters (registered s) (fun w => if w =? v then addData (statistic r) (sample r) (counts s w) else counts s w)
      else s
  | None => s
  end.

(** The samples that count. *)
Definition samples (c : Collector) (s : Counters) (rs : list Recorder) : list (Z * Stat * Z) :=
  match core_stats_ c with
  | Some v => (fun r => (v, statistic r, sample r)) <$> filter (fun r => registered s v (statistic r) = true) rs
  | None => []
  end.

(** Whatever is recorded, a counter grows by the samples recorded for it while
    its core is bound, if it is registered; nothing else changes. *)
Lemma recorded_total c rs : forall s, let s' := foldl (record_stat c) s rs in
  registered s' = registered s /\ forall v st, counts s' v st = counts s v st + total v st (samples c s rs).
Proof.
  cbv zeta. induction rs as [|r rs IH]; intros s; cbn [foldl].
  - split; [reflexivity |]. intros v st. unfold samples. destruct (core_stats_ c); cbn; lia.
  - destruct (IH (record_stat c s r)) as [Er Ec]. assert (R : registered (record_stat c s r) = registered s).
    { unfold record_stat. destruct (core_stats_ c); [destruct (registered s _ _) |]; reflexivity. }
    split; [congruence |]. intros v st. rewrite Ec. unfold samples. rewrite R. unfold record_stat.
    destruct (core_stats_ c) as [w|]; [| lia]. rewrite filter_cons. destruct (registered s w (statistic r)) eqn:E.
    + rewrite decide_True by reflexivity. cbn [counts]. rewrite fmap_cons. rewrite (Z.eqb_sym v w).
      change ((w, statistic r, sample r) :: ?l) with ([(w, statistic r, sample r)] ++ l).
      pose proof (samples_total v st [(w, statistic r, sample r)] (counts s v)) as K. cbn [foldl add_sample] in K. rewrite K.
      unfold total at 3. rewrite filter_app, fmap_app, foldr_app. fold (total v st ((fun r => (w, statistic r, sample r)) <$> filter (fun r => registered s w (statistic r) = true) rs)).
      unfold total. induction (filter _ [(w, statistic r, sample r)]) as [|x l IHl]; cbn; lia.
    + rewrite decide_False by congruence. reflexivity.
Qed.
