(* ===== verification/Ipc.v ===== *)
(** * The IPC client

    [qemu-overlay/quetz_ipc_client.c] outside the mailbox protocols: attaching
    a shared-memory segment whose header is not to be trusted, the accessors,
    the reset epochs, and detaching.

    The operating system's answers to the calls of one attach are a record; the
    client's pointer is the number [calloc] gives it. *)
From S2P Require Import Prelude.
From S2P Require Import NativeRam.
From S2P Require Import Text.
From S2P Require Import Shmem.

(** A segment: its size as [fstat] tells it, the two fields of the tunnel's
    header the client reads, and the data found at an offset. *)
Record Segment := mkSegment { st_size : Z; shmSegSize : Z; offsets0 : Z; at_offset : Z -> SharedData }.
#[export] Instance Segment_settable : Settable Segment := fun g => mkSegment (st_size g) (shmSegSize g) (offsets0 g) (at_offset g).

Definition sizeof_header : Z := 32.

Record QuetzIpcClient := mkClient { ptr : Z; fd : Z; map : Z; map_size : Z; segment : text; shared_off : Z }.

Record Ipc := mkIpc
  { segments : text -> Segment;
    fds : gset Z; maps : gset Z;                  (* open descriptors, mapped addresses *)
    reset_clients : list QuetzIpcClient; reset_epochs : Z -> Z }.
#[export] Instance Ipc_settable : Settable Ipc := fun s => mkIpc (segments s) (fds s) (maps s) (reset_clients s) (reset_epochs s).

(** What [calloc], [shm_open], [fstat] and the two [mmap]s return. *)
Record Attach := mkAttach { e_calloc : option Z; e_open : option Z; e_fstat : bool; e_header : bool; e_map : option Z }.

(** [c->shared]: its address and its data. *)
Definition shared_of (s : Ipc) (c : QuetzIpcClient) : SharedData := at_offset (segments s (segment c)) (shared_off c).
Definition shared_address (c : QuetzIpcClient) : Z := u64 (map c + shared_off c).

Definition close (n : Z) (s : Ipc) : Ipc := s <| fds ::= fun f => f ∖ {[n]} |>.
Definition munmap (a : Z) (s : Ipc) : Ipc := s <| maps ::= fun m => m ∖ {[a]} |>.

Definition header_bad (g : Segment) : bool :=
  (shmSegSize g <? sizeof_header) || (st_size g <? shmSegSize g) || (shmSegSize g <? offsets0 g) ||
  (u64 (shmSegSize g - offsets0 g) <? sizeof_SharedData).

Definition map_shmem (E : Attach) (p : Z) (shmname : text) (s : Ipc) : option QuetzIpcClient * Ipc :=
  match e_open E with
  | None => (None, s)
  | Some n =>
      let s := s <| fds ::= fun f => f ∪ {[n]} |> in
      let g := segments s shmname in
      if negb (e_fstat E) || (st_size g <=? 0) then (None, close n s)
      else if negb (e_header E) then (None, close n s)
      else if header_bad g then (None, close n s)
      else
        match e_map E with
        | None => (None, close n s)
        | Some a =>
            let s := s <| maps ::= fun m => m ∪ {[a]} |> in
            let c := mkClient p n a (shmSegSize g) shmname (offsets0 g) in
            if negb (magic (shared_of s c) =? QUETZ_SHM_MAGIC) then (None, close n (munmap a s))
            else if negb (quetz_native_regions_valid (native_view (shared_address c) (shared_of s c))) then (None, close n (munmap a s))
            else (Some c, s)
        end
  end.

(** The release stores to [cpu_reset_epoch] through a client. *)
Definition store_epoch (v epoch : Z) (s : Ipc) (c : QuetzIpcClient) : Ipc :=
  let d := shared_of s c <| cpu_reset_epoch ::= set_at v epoch |> in
  s <| segments ::= fun f n => if bool_decide (n = segment c) then f n <| at_offset ::= set_at (shared_off c) d |> else f n |>.

Definition quetz_ipc_cpu_reset (v : Z) (s : Ipc) : result Ipc :=
  throw_if (QUETZ_MAX_MMIO_VCORES <=? v) Fatal "quetz-ipc: reset CPU index out of range" ≫= fun _ =>
  let epoch := u32 (reset_epochs s v + 1) in
  let s := s <| reset_epochs ::= set_at v epoch |> in
  Ok (foldl (store_epoch v epoch) s (reset_clients s)).

(** The loop over the vCPUs. *)
Definition store_epochs (c : QuetzIpcClient) (s : Ipc) : Ipc :=
  foldl (fun s v => store_epoch v (reset_epochs s v) s c) s (seqZ 0 QUETZ_MAX_MMIO_VCORES).

Definition quetz_ipc_attach (E : Attach) (shmname : text) (s : Ipc) : option QuetzIpcClient * Ipc :=
  match e_calloc E with
  | None => (None, s)
  | Some p =>
      match map_shmem E p shmname s with
      | (None, s) => (None, s)
      | (Some c, s) =>
          (Some c, store_epochs c s <| reset_clients ::= cons c |>)
      end
  end.

(** Unlinked by its pointer, then unmapped and closed. *)
Fixpoint unlink (p : Z) (l : list QuetzIpcClient) : list QuetzIpcClient :=
  match l with [] => [] | c :: l => if ptr c =? p then l else c :: unlink p l end.
Definition quetz_ipc_detach (client : option QuetzIpcClient) (s : Ipc) : Ipc :=
  match client with
  | None => s
  | Some c => close (fd c) (munmap (map c) (s <| reset_clients ::= unlink (ptr c) |>))
  end.

(** ** Accessors *)

Definition quetz_ipc_vcpu_count (client : option QuetzIpcClient) (s : Ipc) : Z :=
  match client with Some c => u32 (numCores (shared_of s c)) | None => 0 end.
Definition quetz_ipc_native_region_count (client : option QuetzIpcClient) (s : Ipc) : Z :=
  match client with Some c => region_count (shared_of s c) | None => 0 end.
Definition quetz_ipc_native_region (client : option QuetzIpcClient) (index : Z) (s : Ipc) : option (Z * Z) :=
  match client with
  | Some c => if region_count (shared_of s c) <=? index then None
              else let r := regions (shared_of s c) !!! Z.to_nat index in Some (NativeRam.base r, NativeRam.size r)
  | None => None
  end.
Fixpoint find_native (base size : Z) (d : SharedData) (i : nat) (l : list NativeRegion) : option nat :=
  match l with
  | [] => None
  | r :: l => if (NativeRam.base r =? base) && (NativeRam.size r =? size) then Some i else find_native base size d (S i) l
  end.
(** The address of the region's bytes. *)
Definition quetz_ipc_native_ram (client : option QuetzIpcClient) (base size : Z) (s : Ipc) : option Z :=
  match client with
  | Some c =>
      let d := shared_of s c in
      match find_native base size d 0 (take (Z.to_nat (region_count d)) (regions d)) with
      | Some i => o ← quetz_native_ram (native_view (shared_address c) d) (Z.of_nat i); Some (u64 (shared_address c + o))
      | None => None
      end
  | None => None
  end.
