(* ===== verification/IpcThm.v ===== *)
(** * The IPC client: theorems

    A segment is used only if every byte the client may touch lies in it; the
    reset epochs of all attached segments agree; nothing leaks. *)
From S2P Require Import Prelude.
From S2P Require Import Backing.
From S2P Require Import NativeRam.
From S2P Require Import Text.
From S2P Require Import Shmem.
From S2P Require Import Ipc.

(** ** Stores *)

(** Two clients that see the same data. *)
Definition same_place (c c' : QuetzIpcClient) : Prop := segment c = segment c' /\ shared_off c = shared_off c'.
#[export] Instance same_place_dec c c' : Decision (same_place c c') := _.

Lemma store_epoch_spec v e s c c' : let d := shared_of s c' in let d' := shared_of (store_epoch v e s c) c' in
  (forall v', cpu_reset_epoch d' v' = if bool_decide (same_place c c' /\ v' = v) then e else cpu_reset_epoch d v') /\
  (magic d', region_count d', regions d', numCores d') = (magic d, region_count d, regions d, numCores d).
Proof.
  destruct c as [p n a z g o], c' as [p' n' a' z' g' o']. cbv zeta. unfold shared_of, store_epoch, same_place. cbn.
  destruct (decide (g' = g)) as [->|N].
  - rewrite (bool_decide_true (g = g)) by reflexivity. cbn. unfold set_at. destruct (Z.eqb_spec o' o) as [->|N2].
    + cbn. split; [| reflexivity]. intros v'. destruct (Z.eqb_spec v' v); case_bool_decide; (reflexivity || tauto).
    + split; [| reflexivity]. intros v'. rewrite bool_decide_false; [reflexivity |]. intros [[_ ?] _]. congruence.
  - rewrite (bool_decide_false (g' = g)) by exact N. split; [| reflexivity]. intros v'. rewrite bool_decide_false; [reflexivity |]. intros [[? _] _]. congruence.
Qed.
Lemma store_epoch_frame v e s c : fds (store_epoch v e s c) = fds s /\ maps (store_epoch v e s c) = maps s /\
  reset_clients (store_epoch v e s c) = reset_clients s /\ reset_epochs (store_epoch v e s c) = reset_epochs s /\
  forall n, st_size (segments (store_epoch v e s c) n) = st_size (segments s n).
Proof. repeat split. intros n. cbn. case_bool_decide; reflexivity. Qed.

(** What any stores of epochs leave as it was. *)
Definition epochs_only (s s' : Ipc) : Prop :=
  fds s' = fds s /\ maps s' = maps s /\ reset_clients s' = reset_clients s /\ reset_epochs s' = reset_epochs s /\
  (forall n, st_size (segments s' n) = st_size (segments s n)) /\
  forall c, let d := shared_of s c in let d' := shared_of s' c in
    (magic d', region_count d', regions d', numCores d') = (magic d, region_count d, regions d, numCores d).
Lemma epochs_only_refl s : epochs_only s s.
Proof. repeat split. Qed.
Lemma epochs_only_store s s' v e c : epochs_only s s' -> epochs_only s (store_epoch v e s' c).
Proof.
  intros (F & M & C & R & Z & D). destruct (store_epoch_frame v e s' c) as (F' & M' & C' & R' & Z').
  split; [congruence | split; [congruence | split; [congruence | split; [congruence | split]]]]; [intros n; rewrite Z'; apply Z |].
  intros c'. cbv zeta. rewrite <- D. apply store_epoch_spec.
Qed.

(** A reset: one epoch, through every client. *)
Lemma stores_clients v e l : forall s0 s, epochs_only s0 s -> let s' := foldl (store_epoch v e) s l in
  epochs_only s0 s' /\ forall c v', cpu_reset_epoch (shared_of s' c) v' =
    if bool_decide (v' = v /\ Exists (fun c0 => same_place c0 c) l) then e else cpu_reset_epoch (shared_of s c) v'.
Proof.
  induction l as [|c0 l IH]; intros s0 s Hs; cbn [foldl].
  - split; [exact Hs |]. intros c v'. rewrite bool_decide_false; [reflexivity |]. intros [_ H]. inversion H.
  - destruct (IH s0 (store_epoch v e s c0)) as [I1 I2]; [apply epochs_only_store, Hs |]. split; [exact I1 |]. intros c v'. rewrite I2.
    destruct (store_epoch_spec v e s c0 c) as [E _]. rewrite E. repeat case_bool_decide; rewrite ?Exists_cons in *; (reflexivity || tauto).
Qed.

(** An attach: every epoch, through one client. *)
Lemma stores_vcpus c (f : Z -> Z) s n : 0 <= n -> let s' := foldl (fun s v => store_epoch v (f v) s c) s (seqZ 0 n) in
  epochs_only s s' /\ forall c' v', cpu_reset_epoch (shared_of s' c') v' =
    if bool_decide (same_place c c' /\ 0 <= v' < n) then f v' else cpu_reset_epoch (shared_of s c') v'.
Proof.
  revert n. apply natlike_ind.
  - change (seqZ 0 0) with (@nil Z). cbn [foldl]. split; [apply epochs_only_refl |]. intros c' v'. rewrite bool_decide_false; [reflexivity | lia].
  - intros n Hn [I1 I2]. unfold Z.succ. rewrite seqZ_app, foldl_app by lia. change (seqZ (0 + n) 1) with [0 + n]. cbn [foldl]. rewrite Z.add_0_l.
    split; [apply epochs_only_store, I1 |]. intros c' v'. destruct (store_epoch_spec n (f n) (foldl (fun s v => store_epoch v (f v) s c) s (seqZ 0 n)) c c') as [E _].
    rewrite E, I2. destruct (decide (same_place c c')), (decide (v' = n)) as [->|]; repeat case_bool_decide; first [reflexivity | exfalso; intuition lia].
Qed.

Lemma store_epochs_spec c s : epochs_only s (store_epochs c s) /\ forall c' v', cpu_reset_epoch (shared_of (store_epochs c s) c') v' =
    if bool_decide (same_place c c' /\ 0 <= v' < QUETZ_MAX_MMIO_VCORES) then reset_epochs s v' else cpu_reset_epoch (shared_of s c') v'.
Proof.
  assert (E : forall l s0, reset_epochs s0 = reset_epochs s ->
    foldl (fun s v => store_epoch v (reset_epochs s v) s c) s0 l = foldl (fun s0 v => store_epoch v (reset_epochs s v) s0 c) s0 l).
  { induction l as [|v l IH]; intros s0 E0; [reflexivity |]. cbn [foldl]. rewrite E0. apply IH. exact E0. }
  unfold store_epochs. rewrite E by reflexivity. apply stores_vcpus. unfold QUETZ_MAX_MMIO_VCORES. lia.
Qed.

(** ** The invariant *)

Definition epochs_agree (s : Ipc) (c : QuetzIpcClient) : Prop :=
  forall v, 0 <= v < QUETZ_MAX_MMIO_VCORES -> cpu_reset_epoch (shared_of s c) v = reset_epochs s v.

(** The client's segment is mapped, holds the whole of the shared data, and was
    stamped by a simulator of the same layout. *)
Record client_ok (s : Ipc) (c : QuetzIpcClient) : Prop := {
  ok_fd : fd c ∈ fds s;
  ok_map : map c ∈ maps s;
  ok_size : map_size c <= st_size (segments s (segment c));
  ok_data : 0 <= shared_off c /\ shared_off c + sizeof_SharedData <= map_size c;
  ok_magic : magic (shared_of s c) = QUETZ_SHM_MAGIC;
  ok_native : quetz_native_regions_valid (native_view (shared_address c) (shared_of s c)) = true }.

Record ipc_ok (s : Ipc) : Prop := {
  ok_clients : Forall (client_ok s) (reset_clients s);
  ok_epochs : Forall (epochs_agree s) (reset_clients s);
  ok_ptrs : NoDup (ptr <$> reset_clients s);
  ok_fds : NoDup (fd <$> reset_clients s);
  ok_maps : NoDup (map <$> reset_clients s) }.

(** A header's fields are [size_t]. *)
Definition segment_ok (g : Segment) : Prop := is_u64 (shmSegSize g) /\ is_u64 (offsets0 g).
(** The operating system hands out what is not in use. *)
Definition fresh (E : Attach) (s : Ipc) : Prop :=
  (forall p, e_calloc E = Some p -> p ∉ ptr <$> reset_clients s) /\
  (forall n, e_open E = Some n -> n ∉ fds s) /\ (forall a, e_map E = Some a -> a ∉ maps s).

Lemma header_good g : segment_ok g -> header_bad g = false ->
  sizeof_header <= shmSegSize g /\ shmSegSize g <= st_size g /\ offsets0 g + sizeof_SharedData <= shmSegSize g.
Proof.
  intros [H1 H2] H. unfold header_bad in H. rewrite !orb_false_iff, !Z.ltb_ge in H. destruct H as [[[? ?] ?] H].
  unfold is_word in *. rewrite wrap_small in H by (unfold is_word; lia). lia.
Qed.

Lemma client_ok_frame s s' c : epochs_only s s' -> client_ok s c -> client_ok s' c.
Proof.
  intros (F & M & _ & _ & Z & D) [H1 H2 H3 H4 H5 H6]. specialize (D c). injection D as D1 D2 D3 D4. split; rewrite ?F, ?M, ?Z, ?D1; auto.
  unfold native_view in *. rewrite D2, D3. exact H6.
Qed.

(** ** Attaching *)

(** The conditions of a successful attach. *)
Definition accepted (E : Attach) (shmname : text) (s : Ipc) (p n a : Z) : Prop :=
  let g := segments s shmname in let d := at_offset g (offsets0 g) in
  e_calloc E = Some p /\ e_open E = Some n /\ e_fstat E = true /\ 0 < st_size g /\ e_header E = true /\ e_map E = Some a /\
  header_bad g = false /\ magic d = QUETZ_SHM_MAGIC /\
  quetz_native_regions_valid (native_view (u64 (a + offsets0 g)) d) = true.
Definition new_client (p n a : Z) (shmname : text) (s : Ipc) : QuetzIpcClient :=
  mkClient p n a (shmSegSize (segments s shmname)) shmname (offsets0 (segments s shmname)).

Lemma close_added n s : n ∉ fds s -> close n (s <| fds ::= fun f => f ∪ {[n]} |>) = s <| fds := (fds s ∪ {[n]}) ∖ {[n]} |>.
Proof. reflexivity. Qed.
Lemma add_remove (n : Z) (X : gset Z) : n ∉ X -> (X ∪ {[n]}) ∖ {[n]} = X.
Proof. intros. rewrite difference_union_distr_l_L, difference_diag_L, union_empty_r_L. apply difference_disjoint_L, disjoint_singleton_r. assumption. Qed.

(** The outcome of an attach, before the epochs are stored: a client under the
    conditions, and otherwise nothing has changed. *)
Lemma map_shmem_spec E p shmname s : e_calloc E = Some p -> fresh E s ->
  (exists n a, accepted E shmname s p n a /\
     map_shmem E p shmname s = (Some (new_client p n a shmname s), s <| fds ::= fun f => f ∪ {[n]} |> <| maps ::= fun m => m ∪ {[a]} |>)) \/
  ((forall n a, ~ accepted E shmname s p n a) /\ map_shmem E p shmname s = (None, s)).
Proof.
  intros Ep (_ & Fn & Fa). unfold map_shmem. set (g := segments s shmname). destruct (e_open E) as [n|] eqn:En.
  2: { right. split; [| reflexivity]. intros n a (_ & A & _). congruence. }
  assert (Ec : close n (s <| fds ::= fun f => f ∪ {[n]} |>) = s).
  { destruct s as [S F M C Ep']. unfold close. cbn in *. rewrite add_remove by (apply Fn; reflexivity). reflexivity. }
  change (segments (s <| fds ::= fun f => f ∪ {[n]} |>) shmname) with g. rewrite Ec.
  destruct (e_fstat E) eqn:Es; cbn [negb orb]; [| right; split; [intros ? ? A; unfold accepted in A; destruct_and! A; congruence | reflexivity]].
  destruct (Z.leb_spec (st_size g) 0); [right; split; [intros ? ? A; unfold accepted in A; fold g in A; destruct_and! A; lia | reflexivity] |].
  destruct (e_header E) eqn:Eh; cbn [negb]; [| right; split; [intros ? ? A; unfold accepted in A; destruct_and! A; congruence | reflexivity]].
  destruct (header_bad g) eqn:Eb; [right; split; [intros ? ? A; unfold accepted in A; fold g in A; destruct_and! A; congruence | reflexivity] |].
  destruct (e_map E) as [a|] eqn:Ea; [| right; split; [intros ? ? A; unfold accepted in A; destruct_and! A; congruence | reflexivity]].
  set (s1 := s <| fds ::= fun f => f ∪ {[n]} |> <| maps ::= fun m => m ∪ {[a]} |>).
  assert (Em : close n (munmap a s1) = s).
  { destruct s as [S F M C Ep']. unfold close, munmap, s1. cbn in *. rewrite !add_remove by (apply Fn || apply Fa; reflexivity). reflexivity. }
  rewrite Em. change (shared_of s1 (mkClient p n a (shmSegSize g) shmname (offsets0 g))) with (at_offset g (offsets0 g)). unfold shared_address. cbn [shared_off map].
  destruct (Z.eqb_spec (magic (at_offset g (offsets0 g))) QUETZ_SHM_MAGIC); cbn [negb];
    [| right; split; [intros ? ? A; unfold accepted in A; fold g in A; destruct_and! A; congruence | reflexivity]].
  destruct (quetz_native_regions_valid _) eqn:Ev; cbn [negb];
    [| right; split; [intros ? a' A; unfold accepted in A; fold g in A; destruct_and! A; congruence | reflexivity]].
  left. exists n, a. split; [unfold accepted; fold g; auto 10 | reflexivity].
Qed.

Lemma attach_spec E shmname s : fresh E s ->
  (exists p n a s', accepted E shmname s p n a /\ quetz_ipc_attach E shmname s = (Some (new_client p n a shmname s), s') /\
     fds s' = fds s ∪ {[n]} /\ maps s' = maps s ∪ {[a]} /\ reset_clients s' = new_client p n a shmname s :: reset_clients s /\
     reset_epochs s' = reset_epochs s /\ (forall m, st_size (segments s' m) = st_size (segments s m)) /\
     forall c, (magic (shared_of s' c), region_count (shared_of s' c), regions (shared_of s' c), numCores (shared_of s' c)) =
               (magic (shared_of s c), region_count (shared_of s c), regions (shared_of s c), numCores (shared_of s c)) /\
       forall v, cpu_reset_epoch (shared_of s' c) v =
         if bool_decide (same_place (new_client p n a shmname s) c /\ 0 <= v < QUETZ_MAX_MMIO_VCORES) then reset_epochs s v
         else cpu_reset_epoch (shared_of s c) v) \/
  ((forall p n a, ~ accepted E shmname s p n a) /\ quetz_ipc_attach E shmname s = (None, s)).
Proof.
  intros F. unfold quetz_ipc_attach. destruct (e_calloc E) as [p|] eqn:Ep.
  2: { right. split; [intros ? ? ? A; unfold accepted in A; destruct_and! A; congruence | reflexivity]. }
  destruct (map_shmem_spec E p shmname s Ep F) as [(n & a & A & ->)|[A ->]].
  - left. set (s1 := s <| fds ::= _ |> <| maps ::= _ |>). set (c := new_client p n a shmname s).
    destruct (store_epochs_spec c s1) as [(SF & SM & SC & SR & SZ & SD) SE]. generalize dependent (store_epochs c s1). intros s2 SF SM SC SR SZ SD SE.
    exists p, n, a, (s2 <| reset_clients ::= cons c |>). split; [exact A |]. split; [reflexivity |]. cbn. rewrite SF, SM, SC, SR.
    repeat split; [exact SZ | apply SD | intros v; apply SE].
  - right. split; [| reflexivity]. intros p' n a A'. apply (A n a). unfold accepted in *. destruct_and! A'. assert (p' = p) as -> by congruence. auto 10.
Qed.

(** ** Preservation *)

Lemma attach_ok E shmname s : ipc_ok s -> fresh E s -> segment_ok (segments s shmname) -> ipc_ok (snd (quetz_ipc_attach E shmname s)).
Proof.
  intros I F G. destruct (attach_spec E shmname s F) as [(p & n & a & s' & A & -> & SF & SM & SC & SR & SZ & SD)|[_ ->]]; [| exact I].
  cbn [snd]. set (c0 := new_client p n a shmname s) in *. unfold accepted in A. destruct A as (Ap & An & _ & _ & _ & Aa & Ab & Am & Av).
  destruct (header_good _ G Ab) as (H1 & H2 & H3). destruct F as (Fp & Fn & Fa).
  assert (Old : forall c, client_ok s c -> client_ok s' c).
  { intros c [K1 K2 K3 K4 K5 K6]. destruct (SD c) as [D _]. injection D as D1 D2 D3 D4. split; rewrite ?SF, ?SM, ?SZ, ?D1; auto; [apply elem_of_union_l; assumption | apply elem_of_union_l; assumption |].
    unfold native_view in *. rewrite D2, D3. exact K6. }
  split; rewrite SC.
  - constructor.
    + destruct (SD c0) as [D _]. injection D as D1 D2 D3 D4. split.
      * rewrite SF. cbn. apply elem_of_union_r, elem_of_singleton. reflexivity.
      * rewrite SM. cbn. apply elem_of_union_r, elem_of_singleton. reflexivity.
      * rewrite SZ. exact H2.
      * destruct G as [_ G]. unfold is_word in G. cbn. lia.
      * rewrite D1. exact Am.
      * unfold native_view in *. rewrite D2, D3. exact Av.
    + eapply Forall_impl; [apply (ok_clients s I) | exact Old].
  - constructor.
    + intros v Hv. destruct (SD c0) as [_ ->]. rewrite bool_decide_true by (split; [split; reflexivity | exact Hv]). rewrite SR. reflexivity.
    + eapply Forall_impl; [apply (ok_epochs s I) |]. intros c Hc v Hv. destruct (SD c) as [_ ->]. rewrite SR. case_bool_decide; [reflexivity | apply Hc, Hv].
  - cbn. constructor; [apply Fp; exact Ap | apply (ok_ptrs s I)].
  - cbn. constructor; [| apply (ok_fds s I)]. intros Hin. apply list_elem_of_fmap in Hin as (c & E1 & Hc). apply (Fn n An). rewrite E1.
    apply (ok_fd s c). exact (proj1 (Forall_forall _ _) (ok_clients s I) c Hc).
  - cbn. constructor; [| apply (ok_maps s I)]. intros Hin. apply list_elem_of_fmap in Hin as (c & E1 & Hc). apply (Fa a Aa). rewrite E1.
    apply (ok_map s c). exact (proj1 (Forall_forall _ _) (ok_clients s I) c Hc).
Qed.

Lemma reset_ok v s s' : ipc_ok s -> quetz_ipc_cpu_reset v s = Ok s' -> ipc_ok s'.
Proof.
  intros I E. unfold quetz_ipc_cpu_reset in E. inv_ok. subst s'. set (e := u32 (reset_epochs s v + 1)).
  set (s1 := s <| reset_epochs ::= set_at v e |>).
  change (ipc_ok (foldl (store_epoch v e) s1 (reset_clients s1))).
  destruct (stores_clients v e (reset_clients s1) s1 s1 (epochs_only_refl s1)) as [Fr Ep].
  generalize dependent (foldl (store_epoch v e) s1 (reset_clients s1)). intros s2 Fr Ep. pose proof Fr as (SF & SM & SC & SR & _).
  assert (K : forall c, client_ok s c -> client_ok s2 c).
  { intros c Hc. apply (client_ok_frame s1 s2 c Fr). destruct Hc. split; assumption. }
  destruct I as [I1 I2 I3 I4 I5]. split; rewrite SC; cbn; auto.
  - eapply Forall_impl; [exact I1 | exact K].
  - apply Forall_forall. intros c Hc w Hw. rewrite Ep, SR. cbn. unfold set_at. destruct (Z.eqb_spec w v) as [->|N].
    + rewrite bool_decide_true; [reflexivity |]. split; [reflexivity |]. apply Exists_exists. exists c. split; [exact Hc | split; reflexivity].
    + rewrite bool_decide_false by tauto. exact (proj1 (Forall_forall _ _) I2 c Hc w Hw).
Qed.

Lemma NoDup_inj {A B} (f : A -> B) l x y : NoDup (f <$> l) -> x ∈ l -> y ∈ l -> f x = f y -> x = y.
Proof.
  induction l as [|z l IH]; intros N Hx Hy E; [inversion Hx |]. cbn in N. apply NoDup_cons in N as [Nz N].
  apply elem_of_cons in Hx as [->|Hx], Hy as [->|Hy]; auto; exfalso; apply Nz, list_elem_of_fmap; [exists y | exists x]; auto.
Qed.
Lemma unlink_sublist p l : unlink p l `sublist_of` l.
Proof. induction l as [|c l IH]; cbn; [constructor |]. destruct (ptr c =? p); [constructor; reflexivity | constructor; exact IH]. Qed.
Lemma unlink_other p l c : NoDup (ptr <$> l) -> c ∈ unlink p l -> c ∈ l /\ ptr c <> p.
Proof.
  induction l as [|d l IH]; intros N Hc; [inversion Hc |]. cbn in *. apply NoDup_cons in N as [Nd N]. destruct (Z.eqb_spec (ptr d) p) as [E|E].
  - split; [right; exact Hc |]. intros Ep. apply Nd. rewrite E, <- Ep. apply list_elem_of_fmap. eauto.
  - apply elem_of_cons in Hc as [->|Hc]; [split; [left; reflexivity | exact E] |]. destruct (IH N Hc). split; [right; assumption | assumption].
Qed.
Lemma detach_ok c s : ipc_ok s -> c ∈ reset_clients s -> ipc_ok (quetz_ipc_detach (Some c) s).
Proof.
  intros [I1 I2 I3 I4 I5] Hc. pose proof (unlink_sublist (ptr c) (reset_clients s)) as Hs.
  assert (K : forall c', c' ∈ unlink (ptr c) (reset_clients s) -> c' ∈ reset_clients s /\ fd c' <> fd c /\ map c' <> map c).
  { intros c' Hc'. destruct (unlink_other _ _ _ I3 Hc') as [Hin Hp]. split; [exact Hin |].
    split; intros E; apply Hp; f_equal; [apply (NoDup_inj fd (reset_clients s)) | apply (NoDup_inj map (reset_clients s))]; assumption. }
  rewrite Forall_forall in I1, I2. split; cbn.
  - apply Forall_forall. intros c' Hc'. destruct (K c' Hc') as (Hin & Hf & Hm). destruct (I1 c' Hin). split; auto; cbn;
      apply elem_of_difference; (split; [assumption | rewrite elem_of_singleton; assumption]).
  - apply Forall_forall. intros c' Hc'. apply I2. apply (K c' Hc').
  - exact (sublist_NoDup _ _ I3 (fmap_sublist ptr _ _ Hs)).
  - exact (sublist_NoDup _ _ I4 (fmap_sublist fd _ _ Hs)).
  - exact (sublist_NoDup _ _ I5 (fmap_sublist map _ _ Hs)).
Qed.

(** ** The properties *)

(** The client's calls, in any order. *)
Inductive ipc_reachable (s0 : Ipc) : Ipc -> Prop :=
  | ipc_start : ipc_reachable s0 s0
  | ipc_attach E shmname s : ipc_reachable s0 s -> fresh E s -> segment_ok (segments s shmname) -> ipc_reachable s0 (snd (quetz_ipc_attach E shmname s))
  | ipc_reset v s s' : ipc_reachable s0 s -> quetz_ipc_cpu_reset v s = Ok s' -> ipc_reachable s0 s'
  | ipc_detach c s : ipc_reachable s0 s -> c ∈ reset_clients s -> ipc_reachable s0 (quetz_ipc_detach (Some c) s).

(** C18. Every attached client's shared data lies within a segment that is mapped
    and big enough, with the stamp of this layout and valid native regions; and
    all of them show the same reset epochs, those of resets before their attach
    included. *)
Theorem clients_sound s0 s : reset_clients s0 = [] -> ipc_reachable s0 s ->
  forall c, c ∈ reset_clients s -> client_ok s c /\ epochs_agree s c.
Proof.
  intros H0 R. assert (I : ipc_ok s).
  { induction R as [|E name s R IH F G|v s s' R IH E|c s R IH Hc].
    - split; rewrite H0; constructor.
    - apply attach_ok; assumption.
    - eapply reset_ok; eassumption.
    - apply detach_ok; assumption. }
  intros c Hc. split; [exact (proj1 (Forall_forall _ _) (ok_clients s I) c Hc) | exact (proj1 (Forall_forall _ _) (ok_epochs s I) c Hc)].
Qed.

(** An attach gives a client exactly if the system's calls succeed, the header
    fits the file, and the data found there has the stamp and valid regions;
    one descriptor and one mapping are then open.  Otherwise nothing has
    changed: no descriptor and no mapping is left. *)
Lemma attach_exact E shmname s : fresh E s ->
  match quetz_ipc_attach E shmname s with
  | (Some c, s') => exists p n a, accepted E shmname s p n a /\ c = new_client p n a shmname s /\
      fds s' = fds s ∪ {[n]} /\ maps s' = maps s ∪ {[a]} /\ reset_clients s' = c :: reset_clients s
  | (None, s') => (forall p n a, ~ accepted E shmname s p n a) /\ s' = s
  end.
Proof.
  intros F. destruct (attach_spec E shmname s F) as [(p & n & a & s' & A & -> & SF & SM & SC & _)|[A ->]]; [| auto].
  exists p, n, a. split; [exact A | split; [reflexivity | auto]].
Qed.

(** ** A simulator's segment *)

Lemma forallb_eq {A} (f g : A -> bool) l : (forall x, f x = g x) -> forallb f l = forallb g l.
Proof. intros E. induction l as [|x l IH]; cbn; [reflexivity | rewrite E, IH; reflexivity]. Qed.

Lemma valid_elsewhere a a' c r b b' : a mod 4096 = a' mod 4096 ->
  quetz_native_regions_valid (mkShared a c r b) = quetz_native_regions_valid (mkShared a' c r b').
Proof.
  intros E.
  assert (U : forall x, Z.land (u64 x) 4095 = x mod 4096).
  { intros x. change 4095 with (Z.ones 12). rewrite Z.land_ones by lia. change (2 ^ 12) with 4096.
    unfold wrap. change (2 ^ 64) with (4096 * 2 ^ 52). rewrite Z.rem_mul_r by lia. rewrite (Z.mul_comm 4096), Z_mod_plus_full, Zmod_mod. reflexivity. }
  assert (K : forall x, Z.land (u64 (a + x)) 4095 = Z.land (u64 (a' + x)) 4095).
  { intros x. rewrite !U, (Z.add_mod a), (Z.add_mod a'), E by lia. reflexivity. }
  unfold quetz_native_regions_valid. cbn [native_region_count native_regions address]. f_equal. apply forallb_eq. intros i. cbv zeta. f_equal.
  unfold region_valid. rewrite K. reflexivity.
Qed.

Lemma segment_attaches E shmname s n d rs A m p fd0 a :
  let g := segments s shmname in let off := offsets0 g in numCores d = n -> magic d = QUETZ_SHM_MAGIC ->
  is_u32 n -> quetz_configure_native_regions (Some rs) (Z.of_nat (length rs)) (native_view A d) = (true, m) ->
  at_offset g off = d <| region_count := native_region_count m |> <| regions := native_regions m |> ->
  is_u64 off -> off + sizeof_SharedData <= shmSegSize g -> shmSegSize g <= st_size g -> is_u64 (shmSegSize g) ->
  A mod 4096 = (a + off) mod 4096 ->
  e_calloc E = Some p -> e_open E = Some fd0 -> e_fstat E = true -> e_header E = true -> e_map E = Some a -> fresh E s ->
  exists c s', quetz_ipc_attach E shmname s = (Some c, s') /\ quetz_ipc_vcpu_count (Some c) s' = n /\
    quetz_ipc_native_region_count (Some c) s' = Z.of_nat (length rs) /\ epochs_agree s' c.
Proof.
  intros g off In Im Hn Hc Hd Ho Hsz Hst Hseg HA E1 E2 E3 E4 E5 F.
  unfold quetz_configure_native_regions in Hc. destruct (_ || _); [discriminate |]. set (s1 := _ <| native_regions ::= _ |>) in Hc.
  destruct (quetz_native_regions_valid s1) eqn:Ev; [| discriminate]. injection Hc as <-.
  assert (Ad : magic (at_offset g off) = QUETZ_SHM_MAGIC) by (rewrite Hd; exact Im).
  assert (Hz : sizeof_SharedData = 341080) by reflexivity. unfold is_word in *.
  assert (Ac : accepted E shmname s p fd0 a).
  { unfold accepted. fold g off. repeat split; try assumption; [lia | |].
    - unfold header_bad. fold off. rewrite wrap_small by (unfold is_word; lia). unfold sizeof_header. rewrite !orb_false_iff, !Z.ltb_ge. lia.
    - rewrite Hd. unfold native_view. cbn [region_count regions]. rewrite <- Ev. apply valid_elsewhere. cbn.
      unfold wrap. change (2 ^ 64) with (4096 * 2 ^ 52). rewrite Z.rem_mul_r by lia. rewrite (Z.mul_comm 4096), Z_mod_plus_full, Zmod_mod. symmetry. exact HA. }
  destruct (attach_spec E shmname s F) as [(p' & n' & a' & s' & A' & Eq & SF & SM & SC & SR & SZ & SD)|[N _]]; [| destruct (N p fd0 a Ac)].
  set (c := new_client p' n' a' shmname s) in *. exists c, s'. split; [exact Eq |]. destruct (SD c) as [D De]. injection D as D1 D2 D3 D4.
  change (shared_of s c) with (at_offset g off) in *. rewrite Hd in D2, D4. cbn in D2, D4. unfold quetz_ipc_vcpu_count, quetz_ipc_native_region_count.
  rewrite D2, D4, In. split; [apply wrap_small; exact Hn |]. split; [reflexivity |].
  intros v Hv. rewrite De, SR, bool_decide_true by (split; [split; reflexivity | exact Hv]). reflexivity.
Qed.


(** ** The theorems at concrete inputs *)

Definition demo_data0 : SharedData :=
  mkSharedData 0 0 0 0 (fun _ => 0) (fun _ => 0) (fun _ _ => IrqMailbox.mkSlot 0 0) 0 (fun _ => 0) 0 [region0; region0] (fun _ => 0) 0.
Definition demo_regions : list NativeRegion := [mkRegion 0x100000 4096 0 0].
(** Two vCPUs and a region, set up by a simulator at 0x7f0000001000. *)
Definition demo_shared : Shared :=
  snd (quetz_configure_native_regions (Some demo_regions) 1 (native_view 0x7f0000001000 (initialize true 2 demo_data0))).
Definition demo_data : SharedData :=
  initialize true 2 demo_data0 <| region_count := native_region_count demo_shared |> <| regions := native_regions demo_shared |>.
Definition demo_segment : Segment := mkSegment 345176 345176 4096 (fun _ => demo_data).
Definition demo_ipc : Ipc := mkIpc (fun _ => demo_segment) ∅ ∅ [] (fun _ => 0).
Definition demo_env (i : Z) : Attach := mkAttach (Some i) (Some (i + 3)) true true (Some (0x7e0000000000 + 4096 * 1024 * i)).

Lemma demo_fresh i s : reset_clients s = [] -> fds s = ∅ -> maps s = ∅ -> fresh (demo_env i) s.
Proof. intros Hc Hf Hm. unfold fresh. rewrite Hc, Hf, Hm. repeat split; intros ? _; [apply not_elem_of_nil | apply not_elem_of_empty ..]. Qed.


(** A reset before the attach and one after it. *)
Definition demo_ok (r : result Ipc) : Ipc := match r with Ok s => s | Throw _ _ => demo_ipc end.
Lemma demo_ok_eq r : is_ok r = true -> r = Ok (demo_ok r).
Proof. destruct r; [reflexivity | discriminate]. Qed.
Definition demo_one : Ipc := demo_ok (quetz_ipc_cpu_reset 1 demo_ipc).
Definition demo_two : Ipc := demo_ok (quetz_ipc_cpu_reset 1 (snd (quetz_ipc_attach (demo_env 1) (tx "/q") demo_one))).
Definition demo_client : QuetzIpcClient := mkClient 1 4 (0x7e0000000000 + 4096 * 1024 * 1) 345176 (tx "/q") 4096.

Lemma clients_sound_witness : client_ok demo_two demo_client /\ cpu_reset_epoch (shared_of demo_two demo_client) 1 = 2.
Proof.
  destruct (clients_sound demo_ipc demo_two eq_refl) with (c := demo_client) as [K A].
  - apply (ipc_reset demo_ipc 1 (snd (quetz_ipc_attach (demo_env 1) (tx "/q") demo_one))); [| apply demo_ok_eq; reflexivity].
    apply ipc_attach.
    + apply (ipc_reset demo_ipc 1 demo_ipc); [apply ipc_start | apply demo_ok_eq; reflexivity].
    + apply demo_fresh; reflexivity.
    + split; vm_compute; split; congruence.
  - apply list_elem_of_singleton. vm_compute. reflexivity.
  - split; [exact K |]. rewrite A by (unfold QUETZ_MAX_MMIO_VCORES; lia). vm_compute. reflexivity.
Defined.

(** A file shorter than its header says is refused, and nothing stays open. *)
Definition demo_short : Ipc := demo_ipc <| segments := fun _ => demo_segment <| st_size := 4096 |> |>.
Lemma attach_exact_witness : quetz_ipc_attach (demo_env 1) (tx "/q") demo_short = (None, demo_short).
Proof.
  pose proof (attach_exact (demo_env 1) (tx "/q") demo_short (demo_fresh 1 demo_short eq_refl eq_refl eq_refl)) as H.
  destruct (quetz_ipc_attach _ _ _) as [[c|] s'].
  - destruct H as (p & n & a & (_ & _ & _ & _ & _ & _ & Hb & _) & _). vm_compute in Hb. discriminate.
  - destruct H as [_ ->]. reflexivity.
Defined.
