(* ===== verification/Bridge.v ===== *)
(** * The MMIO bridge device

    [qemu-overlay/hw/misc/sst_mmio_bridge.c]: the QEMU device that turns guest
    accesses of an aperture into mailbox requests and polls the interrupt
    mailbox ([IrqMailbox]).

    QEMU is an argument: the object search of [object_resolve_path_type], the
    interrupt inputs of a controller, the clock and the running vCPU.  The
    system memory is the list of regions mapped into it. *)
From S2P Require Import Prelude.
From S2P Require Import Text.
From S2P Require Import NativeRam.
From S2P Require Import Shmem.
From S2P Require Import Ipc.
From S2P Require Import Mailbox.

(** The properties of the device, and its state. *)
Record BridgeProps := mkProps
  { shmname : text; base : Z; size : Z; vcpu_id : Z; per_vcpu : bool;
    irq_count : Z; irq_poll_ns : Z; intc_type : text }.
(** [sst_mmio_bridge_properties]: the defaults. *)
Definition default_props : BridgeProps := mkProps [] 0 0x400 0 false 0 10000 [].

Inductive resolved (A : Type) := Found (o : A) | NotFound | Ambiguous.
Arguments Found {A} _.
Arguments NotFound {A}.
Arguments Ambiguous {A}.

Section Bridge.
Context {Object Irq : Type}.

Record Bridge := mkBridge
  { props : BridgeProps; ipc : option QuetzIpcClient; mapped : bool; irqs : list Irq; irq_timer : option Z }.
#[export] Instance Bridge_settable : Settable Bridge := fun b =>
  mkBridge (props b) (ipc b) (mapped b) (irqs b) (irq_timer b).
Definition bridge0 (p : BridgeProps) : Bridge := mkBridge p None false [] None.

(** A device, the client's process and the system memory. *)
Record World := mkWorld { bridge : Bridge; process : Ipc; system_memory : list (Z * Z) }.
#[export] Instance World_settable : Settable World := fun w => mkWorld (bridge w) (process w) (system_memory w).

Record Qemu := mkQemu
  { object_resolve_path_type : text -> resolved Object;
    qdev_get_gpio_in : Object -> Z -> Irq;
    clock_ns : Z;
    current_cpu : option Z }.             (* its index *)

Definition edit (f : Bridge -> Bridge) : Keep World () := fun w => (Ok (), w <| bridge ::= f |>).
(** [error_setg] and a return. *)
Definition error_setg {A} (msg : string) : Keep World A := fun w => (Throw RuntimeError msg, w).

(** ** Accesses *)

Definition sst_mmio_vcpu (Q : Qemu) (w : World) : result Z :=
  let s := bridge w in
  vcpu ← (if per_vcpu (props s) then
            match current_cpu Q with
            | Some i => Ok i
            | None => Throw Fatal "sst-mmio-bridge: per-vcpu access requires a running CPU"
            end
          else Ok (vcpu_id (props s)));
  throw_if ((quetz_ipc_vcpu_count (ipc s) (process w) <=? vcpu) || (QUETZ_MAX_MMIO_VCORES <=? vcpu)) Fatal
    "sst-mmio-bridge: vCPU has no configured mailbox" ≫= fun _ => Ok vcpu.

(** The request [quetz_ipc_mmio_read] and [quetz_ipc_mmio_write] make of a
    vCPU's mailbox, unless they return at once. *)
Definition mmio_request (client : option QuetzIpcClient) (vcpu addr size value cmd : Z) (s : Ipc) : option (Z * Req) :=
  match client with
  | None => None
  | Some c =>
      if (numCores (shared_of s c) <=? vcpu) || (QUETZ_MAX_MMIO_VCORES <=? vcpu) then None
      else Some (vcpu, mkReq addr size value cmd)
  end.
Definition sst_mmio_read (Q : Qemu) (offset size : Z) (w : World) : result (option (Z * Req)) :=
  v ← sst_mmio_vcpu Q w;
  Ok (mmio_request (ipc (bridge w)) v (u64 (base (props (bridge w)) + offset)) size 0 QUETZ_CMD_MMIO_READ_REQ (process w)).
Definition sst_mmio_write (Q : Qemu) (offset value size : Z) (w : World) : result (option (Z * Req)) :=
  v ← sst_mmio_vcpu Q w;
  Ok (mmio_request (ipc (bridge w)) v (u64 (base (props (bridge w)) + offset)) size value QUETZ_CMD_MMIO_WRITE_REQ (process w)).

(** ** Realisation *)

Definition sst_mmio_bridge_irq_init (Q : Qemu) : Keep World () := fun w =>
  let p := props (bridge w) in
  if bool_decide (intc_type p = []) then error_setg "sst-mmio-bridge: IRQ routing requires explicit intc-type" w
  else if Shmem.QUETZ_MAX_IRQ_LINES <? irq_count p then error_setg "sst-mmio-bridge: irq-count exceeds the shared IRQ mailbox size" w
  else if irq_poll_ns p =? 0 then error_setg "sst-mmio-bridge: irq-poll-ns must be greater than 0" w
  else
    match object_resolve_path_type Q (intc_type p) with
    | Found intc =>
        edit (fun s => s <| irqs := qdev_get_gpio_in Q intc <$> seqZ 0 (irq_count p) |> <| irq_timer := Some (clock_ns Q + irq_poll_ns p) |>) w
    | _ => error_setg "sst-mmio-bridge: needs exactly one such device on this machine" w
    end.

Definition attach (E : Attach) : Keep World () := fun w =>
  let (c, s) := quetz_ipc_attach E (shmname (props (bridge w))) (process w) in
  (Ok (), w <| process := s |> <| bridge ::= fun b => b <| ipc := c |> |>).
Definition map_region : Keep World () := fun w =>
  (Ok (), w <| system_memory ::= cons (base (props (bridge w)), size (props (bridge w))) |> <| bridge ::= fun b => b <| mapped := true |> |>).

Definition sst_mmio_bridge_realize (E : Attach) (Q : Qemu) : Keep World () := fun w =>
  let p := props (bridge w) in
  if bool_decide (shmname p = []) then error_setg "sst-mmio-bridge: shmname property required" w
  else if size p =? 0 then error_setg "sst-mmio-bridge: size must be > 0" w
  else
    (attach E ≫= fun _ : () => (fun w : World =>
     match ipc (bridge w) with
     | None => error_setg "sst-mmio-bridge: failed to attach shmem" w
     | Some c =>
         let vcpus := quetz_ipc_vcpu_count (Some c) (process w) in
         if (vcpus =? 0) || (QUETZ_MAX_MMIO_VCORES <? vcpus) ||
            (negb (per_vcpu p) && ((vcpus <=? vcpu_id p) || (1 <? vcpus)))
         then error_setg "sst-mmio-bridge: multicore requires per-vcpu=on" w
         else (map_region ≫= fun _ => if 0 <? irq_count p then sst_mmio_bridge_irq_init Q else mret ()) w
     end) : Keep World ()) w.

(** [memory_region_del_subregion]: the region of this device. *)
Fixpoint remove_one {A} `{EqDecision A} (x : A) (l : list A) : list A :=
  match l with [] => [] | y :: l => if decide (y = x) then l else y :: remove_one x l end.
Definition sst_mmio_bridge_unrealize (w : World) : World :=
  let s := bridge w in
  let w := w <| bridge ::= fun b => b <| irq_timer := None |> <| irqs := [] |> |> in
  let w := if mapped s
           then w <| system_memory ::= remove_one (base (props s), size (props s)) |> <| bridge ::= fun b => b <| mapped := false |> |>
           else w in
  match ipc s with
  | Some c => w <| process ::= quetz_ipc_detach (Some c) |> <| bridge ::= fun b => b <| ipc := None |> |>
  | None => w
  end.
End Bridge.
Arguments Bridge : clear implicits.
Arguments World : clear implicits.
Arguments Qemu : clear implicits.
