(* ===== verification/BridgeThm.v ===== *)
(** * The MMIO bridge device: theorems

    When a device is realized, what its accesses ask for, and what
    unrealizing gives back. *)
From S2P Require Import Prelude.
From S2P Require Import Text.
From S2P Require Import NativeRam.
From S2P Require Import Shmem.
From S2P Require Import Ipc.
From S2P Require Import IpcThm.
From S2P Require Import Mailbox.
From S2P Require Import Bridge.

Section Theorems.
Context {Object Irq : Type}.
Implicit Types (w : World Irq) (Q : Qemu Object Irq).

(** ** Realisation *)

(** The client an attach gives, and the process after it. *)
Definition attached (E : Attach) w : option QuetzIpcClient := fst (quetz_ipc_attach E (shmname (props (bridge w))) (process w)).
Definition after (E : Attach) w : Ipc := snd (quetz_ipc_attach E (shmname (props (bridge w))) (process w)).

Definition irq_ok Q (p : BridgeProps) : Prop :=
  intc_type p <> [] /\ irq_count p <= QUETZ_MAX_IRQ_LINES /\ irq_poll_ns p <> 0 /\ exists o, object_resolve_path_type Q (intc_type p) = Found o.
Definition realizable E Q w (n : Z) : Prop :=
  let p := props (bridge w) in
  shmname p <> [] /\ Bridge.size p <> 0 /\ is_Some (attached E w) /\ n = quetz_ipc_vcpu_count (attached E w) (after E w) /\
  0 < n <= QUETZ_MAX_MMIO_VCORES /\ (per_vcpu p = false -> n = 1 /\ vcpu_id p = 0) /\ (0 < irq_count p -> irq_ok Q p).

(** What a realized device has. *)
Definition realized E Q w w' : Prop :=
  let p := props (bridge w) in
  props (bridge w') = p /\ ipc (bridge w') = attached E w /\ mapped (bridge w') = true /\ process w' = after E w /\
  system_memory w' = (Bridge.base p, Bridge.size p) :: system_memory w /\
  length (irqs (bridge w')) = Z.to_nat (irq_count p) /\
  irq_timer (bridge w') = if 0 <? irq_count p then Some (clock_ns Q + irq_poll_ns p) else None.

Lemma irq_init_spec Q w : 0 < irq_count (props (bridge w)) ->
  match sst_mmio_bridge_irq_init Q w with
  | (Ok _, w') => irq_ok Q (props (bridge w)) /\ exists o, w' = w <| bridge ::= fun s => s <| irqs := qdev_get_gpio_in Q o <$> seqZ 0 (irq_count (props (bridge w))) |>
                                                     <| irq_timer := Some (clock_ns Q + irq_poll_ns (props (bridge w))) |> |>
  | (Throw e _, w') => e = RuntimeError /\ ~ irq_ok Q (props (bridge w)) /\ w' = w
  end.
Proof.
  intros Hc. unfold sst_mmio_bridge_irq_init, irq_ok. case_bool_decide as Ht; [cbn; repeat split; tauto |].
  destruct (Z.ltb_spec Shmem.QUETZ_MAX_IRQ_LINES (irq_count (props (bridge w)))); [cbn; repeat split; lia |].
  destruct (Z.eqb_spec (irq_poll_ns (props (bridge w))) 0); [cbn; repeat split; tauto |].
  destruct (object_resolve_path_type Q (intc_type (props (bridge w)))) as [o| |] eqn:Eo; cbn.
  - split; [| exists o; reflexivity]. repeat split; try assumption. exists o. reflexivity.
  - repeat split. intros (_ & _ & _ & o & Ho). congruence.
  - repeat split. intros (_ & _ & _ & o & Ho). congruence.
Qed.

Definition fresh_device w : Prop := irqs (bridge w) = [] /\ irq_timer (bridge w) = None /\ is_u32 (vcpu_id (props (bridge w))) /\ 0 <= irq_count (props (bridge w)).

Lemma realize_spec E Q w : fresh_device w ->
  match sst_mmio_bridge_realize E Q w with
  | (Ok _, w') => (exists n, realizable E Q w n) /\ realized E Q w w'
  | (Throw e _, w') => e = RuntimeError /\ forall n, ~ realizable E Q w n
  end.
Proof.
  intros (Fi & Ft & Fv & Fc). unfold sst_mmio_bridge_realize. case_bool_decide as Hs; [cbn; split; [reflexivity | intros n (R & _); tauto] |].
  destruct (Z.eqb_spec (Bridge.size (props (bridge w))) 0) as [Hz|Hz]; [cbn; split; [reflexivity | intros n (_ & R & _); tauto] |].
  unfold mbind, keep_bind, attach. destruct (quetz_ipc_attach E (shmname (props (bridge w))) (process w)) as [o s'] eqn:Ea. cbn [bridge ipc].
  assert (Eo : attached E w = o) by (unfold attached; rewrite Ea; reflexivity). assert (Es : after E w = s') by (unfold after; rewrite Ea; reflexivity).
  set (w1 := w <| process := s' |> <| bridge ::= fun b => b <| ipc := o |> |>). change (ipc (bridge w1)) with o. destruct o as [c|].
  2: { cbn. split; [reflexivity |]. intros n (_ & _ & [c Hc] & _). congruence. }
  change (process w1) with s'. set (n := quetz_ipc_vcpu_count (Some c) s'). unfold is_word in Fv.
  destruct ((n =? 0) || (QUETZ_MAX_MMIO_VCORES <? n) || (negb (per_vcpu (props (bridge w))) && ((n <=? vcpu_id (props (bridge w))) || (1 <? n)))) eqn:En.
  { cbn. split; [reflexivity |]. intros n' (_ & _ & _ & Hn & Hr & Hp & _). rewrite Eo, Es in Hn. fold n in Hn. subst n'.
    rewrite !orb_true_iff, andb_true_iff, orb_true_iff, negb_true_iff in En. rewrite Z.eqb_eq, !Z.ltb_lt, Z.leb_le in En.
    destruct En as [[?|?]|[Hf ?]]; [lia | lia |]. specialize (Hp Hf). lia. }
  rewrite !orb_false_iff, andb_false_iff, orb_false_iff, negb_false_iff in En. rewrite Z.eqb_neq, !Z.ltb_ge, Z.leb_gt in En. destruct En as [[En1 En2] En3].
  assert (Hn : 0 <= n) by (unfold n, quetz_ipc_vcpu_count, wrap; apply Z.mod_pos_bound; lia).
  assert (Hr : (0 < irq_count (props (bridge w)) -> irq_ok Q (props (bridge w))) -> realizable E Q w n).
  { intros Hi. unfold realizable. rewrite Eo, Es. fold n. do 2 (split; [assumption |]). split; [eexists; reflexivity |].
    split; [reflexivity |]. split; [lia |]. split; [| exact Hi]. intros Hp. destruct En3 as [En3|En3]; [congruence | lia]. }
  unfold map_region. set (w2 := w1 <| system_memory ::= _ |> <| bridge ::= _ |>). change (props (bridge w)) with (props (bridge w2)) in *.
  destruct (Z.ltb_spec 0 (irq_count (props (bridge w2)))) as [Hi|Hi].
  - pose proof (irq_init_spec Q w2 Hi) as Sp. destruct (sst_mmio_bridge_irq_init Q w2) as [[u|e t] w3].
    + destruct Sp as [Iok [o ->]]. split; [exists n; auto |]. unfold realized. change (props (bridge w)) with (props (bridge w2)).
      rewrite Eo, Es, (proj2 (Z.ltb_lt 0 _)) by exact Hi. cbn. rewrite length_fmap, length_seqZ. repeat split; reflexivity.
    + destruct Sp as (-> & Sp & _). split; [reflexivity |]. intros n' (_ & _ & _ & _ & _ & _ & R). apply Sp, R, Hi.
  - cbn. split; [exists n; apply Hr; lia |]. unfold realized. change (props (bridge w)) with (props (bridge w2)).
    assert (E0 : irq_count (props (bridge w2)) = 0) by lia. rewrite Eo, Es, E0. cbn. rewrite Fi, Ft. repeat split; reflexivity.
Qed.

(** ** The properties *)

(** A device is realized exactly if it has a name, a size and a segment to
    attach, one mailbox and no other without [per-vcpu], 1 to 256 with it, and -
    where lines are polled - one controller of the named type and no more lines
    than the shared memory has; it is then mapped, wired and armed. *)
Lemma bridge_realized E Q w : fresh_device w ->
  let '(r, w') := sst_mmio_bridge_realize E Q w in
  (r = Ok () <-> exists n, realizable E Q w n) /\ (r = Ok () -> realized E Q w w').
Proof.
  intros F. pose proof (realize_spec E Q w F) as S. destruct (sst_mmio_bridge_realize E Q w) as [[[]|e t] w'].
  - destruct S as [S1 S2]. tauto.
  - destruct S as [_ S]. split; [split; [discriminate | intros [n Hn]; destruct (S n Hn)] | discriminate].
Qed.

(** The mailbox an access of a realized device uses. *)
Definition mailbox_of Q w : option Z :=
  if per_vcpu (props (bridge w)) then current_cpu Q else Some 0.

Lemma access_vcpu E Q0 Q w w' n : realized E Q0 w w' -> realizable E Q0 w n ->
  match mailbox_of Q w with
  | Some v => if v <? n then sst_mmio_vcpu Q w' = Ok v else is_ok (sst_mmio_vcpu Q w') = false
  | None => is_ok (sst_mmio_vcpu Q w') = false
  end.
Proof.
  intros (Rp & Ri & _ & Rs & _) (_ & _ & _ & Hn & Hr & Hv & _). unfold sst_mmio_vcpu, mailbox_of. rewrite Rp, Ri, Rs, <- Hn.
  destruct (per_vcpu (props (bridge w))) eqn:Ep.
  - destruct (current_cpu Q) as [v|]; [| reflexivity]. cbn [mbind result_bind].
    destruct (Z.ltb_spec v n), (Z.leb_spec n v), (Z.leb_spec QUETZ_MAX_MMIO_VCORES v); try lia; reflexivity.
  - destruct (Hv eq_refl) as [-> ->]. reflexivity.
Qed.

(** Every access a vCPU of the guest makes of a realized device asks its own
    mailbox - the only one, without [per-vcpu] - for the same bytes at the
    aperture's base plus the offset, and is never dropped; an access from
    elsewhere ends QEMU. *)
Lemma bridge_access E Q0 Q w w' offset value size : fresh_device w -> sst_mmio_bridge_realize E Q0 w = (Ok (), w') ->
  (forall c, attached E w = Some c -> 0 <= numCores (shared_of (after E w) c)) ->
  let n := quetz_ipc_vcpu_count (attached E w) (after E w) in
  let addr := u64 (Bridge.base (props (bridge w)) + offset) in
  match mailbox_of Q w with
  | Some v =>
      if v <? n then
        sst_mmio_read Q offset size w' = Ok (Some (v, mkReq addr size 0 QUETZ_CMD_MMIO_READ_REQ)) /\
        sst_mmio_write Q offset value size w' = Ok (Some (v, mkReq addr size value QUETZ_CMD_MMIO_WRITE_REQ))
      else is_ok (sst_mmio_read Q offset size w') = false /\ is_ok (sst_mmio_write Q offset value size w') = false
  | None => is_ok (sst_mmio_read Q offset size w') = false /\ is_ok (sst_mmio_write Q offset value size w') = false
  end.
Proof.
  intros F E0 Hu n addr. pose proof (realize_spec E Q0 w F) as S. rewrite E0 in S. destruct S as [[m Hm] R].
  pose proof (access_vcpu E Q0 Q w w' m R Hm) as A. pose proof Hm as (_ & _ & [c Hc] & En & Hr & _). fold n in En. subst m.
  destruct R as (Rp & Ri & _ & Rs & _). unfold sst_mmio_read, sst_mmio_write. destruct (mailbox_of Q w) as [v|].
  - destruct (Z.ltb_spec v n) as [L|L].
    + rewrite A. cbn [mbind result_bind]. unfold mmio_request. rewrite Ri, Rp, Rs, Hc. fold addr.
      assert (Hle : n <= numCores (shared_of (after E w) c)) by (unfold n; rewrite Hc; apply wrap_le; [lia | apply Hu, Hc]).
      rewrite !(proj2 (Z.leb_gt _ v)) by lia. auto.
    + destruct (sst_mmio_vcpu Q w'); [discriminate | auto].
  - destruct (sst_mmio_vcpu Q w'); [discriminate | auto].
Qed.

(** Unrealizing gives back all that realizing took: the mapping in system
    memory, the descriptor, the mapping of the segment, the client, the timer. *)
Lemma bridge_unrealized E Q w w' : fresh_device w -> fresh E (process w) -> sst_mmio_bridge_realize E Q w = (Ok (), w') ->
  let w'' := sst_mmio_bridge_unrealize w' in
  system_memory w'' = system_memory w /\ fds (process w'') = fds (process w) /\ maps (process w'') = maps (process w) /\
  reset_clients (process w'') = reset_clients (process w) /\
  irq_timer (bridge w'') = None /\ mapped (bridge w'') = false /\ ipc (bridge w'') = None.
Proof.
  intros F Fr E0. pose proof (realize_spec E Q w F) as S. rewrite E0 in S. destruct S as [[m Hm] (Rp & Ri & Rm & Rs & Ry & _)].
  destruct Hm as (_ & _ & [c Hc] & _).
  destruct (attach_spec E (shmname (props (bridge w))) (process w) Fr) as [(p & n & a & s' & A & Ea & SF & SM & SC & _)|[_ Ea]];
    unfold attached, after in *; rewrite Ea in *; [| discriminate]. cbn [fst snd] in *. injection Hc as <-.
  unfold sst_mmio_bridge_unrealize. rewrite Rm, Ri. cbn. rewrite Ry, Rp, Rs. cbn. rewrite decide_True by reflexivity. rewrite SF, SM, SC. cbn.
  rewrite Z.eqb_refl. destruct Fr as (_ & Fn & Fa). destruct A as (_ & An & _ & _ & _ & Aa & _). rewrite !add_remove by (apply Fn || apply Fa; assumption).
  repeat split; reflexivity.
Qed.

End Theorems.

(** ** The theorems at concrete inputs *)

(** Two vCPUs and two interrupt lines on one controller. *)
Definition demo_props : BridgeProps := mkProps (tx "/q") 0x40000000 0x1000 0 true 2 10000 (tx "mcf-intc").
Definition demo_qemu (cpu : option Z) : Qemu unit Z :=
  mkQemu (fun t => if bool_decide (t = tx "mcf-intc") then Found tt else NotFound) (fun _ i => i) 500 cpu.
Definition demo_world : World Z := mkWorld (bridge0 demo_props) demo_ipc [].
Definition demo_realized : World Z := snd (sst_mmio_bridge_realize (demo_env 1) (demo_qemu None) demo_world).
Lemma demo_device : fresh_device demo_world.
Proof. unfold fresh_device, is_word. repeat split; vm_compute; congruence. Qed.
Lemma demo_realize : sst_mmio_bridge_realize (demo_env 1) (demo_qemu None) demo_world = (Ok (), demo_realized).
Proof.
  unfold demo_realized. assert (Hr : fst (sst_mmio_bridge_realize (demo_env 1) (demo_qemu None) demo_world) = Ok ()) by (vm_compute; reflexivity).
  destruct (sst_mmio_bridge_realize _ _ _) as [r w]. cbn in *. rewrite Hr. reflexivity.
Qed.

Lemma bridge_realized_witness : irq_timer (bridge demo_realized) = Some 10500.
Proof.
  pose proof (bridge_realized (demo_env 1) (demo_qemu None) demo_world demo_device) as H. rewrite demo_realize in H.
  destruct H as [_ H]. destruct (H eq_refl) as (_ & _ & _ & _ & _ & _ & ->). reflexivity.
Defined.

Lemma bridge_access_witness : sst_mmio_read (demo_qemu (Some 1)) 0x20 4 demo_realized = Ok (Some (1, mkReq 0x40000020 4 0 QUETZ_CMD_MMIO_READ_REQ)).
Proof.
  refine (proj1 (bridge_access (demo_env 1) (demo_qemu None) (demo_qemu (Some 1)) demo_world demo_realized 0x20 0 4 demo_device demo_realize _)).
  assert (H : match attached (demo_env 1) demo_world with
              | Some c => 0 <=? numCores (shared_of (after (demo_env 1) demo_world) c) | None => true end = true) by (vm_compute; reflexivity).
  intros c Hc. rewrite Hc in H. apply Z.leb_le. exact H.
Defined.

Lemma bridge_unrealized_witness : fds (process (sst_mmio_bridge_unrealize demo_realized)) = ∅.
Proof.
  apply (bridge_unrealized (demo_env 1) (demo_qemu None) demo_world demo_realized demo_device); [apply demo_fresh; reflexivity | exact demo_realize].
Defined.

(** A device whose interrupt wiring fails - here without a controller type -
    reports the error with its region already in the system memory; QEMU does
    not unrealize a device that was not realized. *)
Definition demo_unwired : World Z := mkWorld (bridge0 (mkProps (tx "/q") 0x40000000 0x1000 0 true 2 10000 [])) demo_ipc [].
Example failed_realize_stays_mapped :
  let '(r, w) := sst_mmio_bridge_realize (demo_env 1) (demo_qemu None) demo_unwired in
  is_ok r = false /\ mapped (bridge w) = true /\ system_memory w = [(0x40000000, 0x1000)].
Proof. vm_compute. auto. Qed.
