(* ===== verification/BridgeOptions.v ===== *)
(** * The bridge's properties

    [sst_mmio_bridge_properties] in [qemu-overlay/hw/misc/sst_mmio_bridge.c]:
    how QEMU's option [-device sst-mmio-bridge,key=value,...] becomes the
    properties the device is realized with.  QEMU's splitting of the option and
    its conversions of values are arguments. *)
From S2P Require Import Prelude.
From S2P Require Import Text.
From S2P Require Import Bridge.

#[export] Instance BridgeProps_settable : Settable BridgeProps := fun p =>
  mkProps (shmname p) (base p) (size p) (vcpu_id p) (per_vcpu p) (irq_count p) (irq_poll_ns p) (intc_type p).

(** How QEMU reads: the driver and the pairs of an option, an unsigned number of
    the given width, a switch. *)
Record Options := mkOptions
  { device_option : text -> text * list (text * text);
    read_uint : Z -> text -> option Z; read_bool : text -> option bool }.

Section Options.
Variable O : Options.

Definition with_value {X} (v : option X) (f : X -> BridgeProps) : result BridgeProps :=
  match v with Some x => Ok (f x) | None => Throw RuntimeError "invalid property value" end.

Definition set_property (p : BridgeProps) (kv : text * text) : result BridgeProps :=
  let (k, v) := kv in
  if bool_decide (k = tx "shmname") then Ok (p <| shmname := v |>)
  else if bool_decide (k = tx "base") then with_value (read_uint O 64 v) (fun n => p <| base := n |>)
  else if bool_decide (k = tx "size") then with_value (read_uint O 64 v) (fun n => p <| size := n |>)
  else if bool_decide (k = tx "vcpu_id") then with_value (read_uint O 32 v) (fun n => p <| vcpu_id := n |>)
  else if bool_decide (k = tx "per-vcpu") then with_value (read_bool O v) (fun b => p <| per_vcpu := b |>)
  else if bool_decide (k = tx "irq-count") then with_value (read_uint O 32 v) (fun n => p <| irq_count := n |>)
  else if bool_decide (k = tx "irq-poll-ns") then with_value (read_uint O 64 v) (fun n => p <| irq_poll_ns := n |>)
  else if bool_decide (k = tx "intc-type") then Ok (p <| intc_type := v |>)
  else Throw RuntimeError "property not found".

Fixpoint set_properties (l : list (text * text)) (p : BridgeProps) : result BridgeProps :=
  match l with [] => Ok p | kv :: l => set_property p kv ≫= set_properties l end.

Definition new_bridge (option : text) : result BridgeProps :=
  let (driver, fields) := device_option O option in
  if bool_decide (driver = tx "sst-mmio-bridge") then set_properties fields default_props
  else Throw RuntimeError "not this device".
End Options.
