(* ===== verification/UserMmio.v ===== *)
(** * Synchronous MMIO of a user-mode guest

    [src/qemu-overlay/linux-user/sst_mmio.c] and [sst_mmio_m68k.h]: the
    apertures given on the command line, and the handler of the faults the
    guest's accesses to them raise.  The handler decodes the instruction at
    the guest's program counter, passes the access through the mailbox,
    updates the registers and resumes after the instruction.

    Outside the source and therefore arguments: attaching to the shared memory
    and its vCPU count, the reservation of guest addresses, the recovered CPU
    state, reading guest memory, and the simulator behind the mailbox, which
    takes reads and writes and keeps a state of its own. *)
From S2P Require Import Prelude.
From S2P Require Import Text.

(** ** Apertures *)

Definition MAX_RANGES : nat := 8.
Definition QUETZ_MAX_MMIO_VCORES : Z := 256.

Record SstMmioRange (C : Type) := mkRange
  { shmname : text; base : Z; size : Z; vcpu_id : Z; client : option C }.
Arguments mkRange {C}. Arguments shmname {C}. Arguments base {C}. Arguments size {C}.
Arguments vcpu_id {C}. Arguments client {C}.
#[export] Instance SstMmioRange_settable {C} : Settable (SstMmioRange C) := fun r =>
  mkRange (shmname r) (base r) (size r) (vcpu_id r) (client r).

(** [exit(EXIT_FAILURE)] *)
Definition invalid_range {A} (reason : string) : result A := Throw Fatal reason.

Definition range_number (s : text) : result Z :=
  if match s with [] => true | c :: _ => Ascii.eqb c "-" end then invalid_range "expected an unsigned number"
  else
    let n := strtoull s in
    if erange n || negb (bool_decide (rest n = [])) then invalid_range "invalid numeric field" else Ok (value n).

Section Register.
Context {C : Type} (quetz_ipc_attach : text -> option C) (quetz_ipc_vcpu_count : C -> Z).
Variable abi_max : Z.  (* [(abi_ulong)-1] *)
Implicit Types r : SstMmioRange C.

(** One token of the specification. *)
Definition range_field (tok : text) r : result (SstMmioRange C) :=
  match after (tx "shmname=") tok with
  | Some v => if (256 <=? length v)%nat then invalid_range "shared-memory name too long" else Ok (r <| shmname := v |>)
  | None =>
  match after (tx "base=") tok with
  | Some v => n ← range_number v; Ok (r <| base := n |>)
  | None =>
  match after (tx "size=") tok with
  | Some v => n ← range_number v; Ok (r <| size := n |>)
  | None =>
  match after (tx "vcpu_id=") tok with
  | Some v => n ← range_number v;
      if max_u32 <? n then invalid_range "vCPU index out of range" else Ok (r <| vcpu_id := n |>)
  | None => invalid_range "unknown field"
  end end end end.

Fixpoint range_fields (toks : list text) r : result (SstMmioRange C) :=
  match toks with [] => Ok r | tok :: toks => r ← range_field tok r; range_fields toks r end.

Definition overlapping (r old : SstMmioRange C) : bool :=
  ((base old <=? base r) && (base r - base old <? size old)) ||
  ((base r <=? base old) && (base old - base r <? size r)).

(** The loop over the earlier ranges: none may overlap; one of the same
    shared memory gives its client. *)
Fixpoint against (olds : list (SstMmioRange C)) r : result (SstMmioRange C) :=
  match olds with
  | [] => Ok r
  | old :: olds =>
      if overlapping r old then invalid_range "overlapping ranges"
      else against olds (if bool_decide (shmname old = shmname r) then r <| client := client old |> else r)
  end.

Definition sst_mmio_register_range (spec : text) (ranges : list (SstMmioRange C)) : result (list (SstMmioRange C)) :=
  if (MAX_RANGES <=? length ranges)%nat then invalid_range "too many ranges or missing specification"
  else
    r ← range_fields (tokens "," spec) (mkRange [] 0 0 0 None);
    if bool_decide (shmname r = []) || (size r =? 0) || (abi_max <? base r) || (abi_max <? size r) ||
       (abi_max - base r <? size r - 1)
    then invalid_range "missing name, empty size, or address overflow"
    else
      r ← against ranges r;
      let r := match client r with Some _ => r | None => r <| client := quetz_ipc_attach (shmname r) |> end in
      if negb (vcpu_id r =? 0) then invalid_range "user-mode mailboxes use CPU indices; vcpu_id must be zero"
      else match client r with
           | None => invalid_range "cannot attach shared memory or invalid vCPU index"
           | Some c =>
               if (quetz_ipc_vcpu_count c =? 0) || (QUETZ_MAX_MMIO_VCORES <? quetz_ipc_vcpu_count c)
               then invalid_range "cannot attach shared memory or invalid vCPU index"
               else Ok (ranges ++ [r])
           end.

(** [target_mmap] at a fixed address: whether it succeeds. *)
Fixpoint sst_mmio_apply_reservation (target_mmap : Z -> Z -> bool) (ranges : list (SstMmioRange C)) : result () :=
  match ranges with
  | [] => Ok ()
  | r :: ranges =>
      if size r =? 0 then sst_mmio_apply_reservation target_mmap ranges
      else if target_mmap (base r) (size r) then sst_mmio_apply_reservation target_mmap ranges
      else invalid_range "failed to reserve guest address space"
  end.

Definition find_range (ranges : list (SstMmioRange C)) (addr : Z) : option (SstMmioRange C) :=
  List.find (fun r => (base r <=? addr) && (addr - base r <? size r)) ranges.
End Register.

(** ** RV64 loads and stores *)

Record Ldst := mkLdst { len : Z; is_store : bool; ls_size : Z; rd : Z; rs2 : Z; is_signed : bool }.

(** [None] where the C function returns 0. *)
Definition decode_ldst (insn : Z) : option Ldst :=
  if negb (Z.land insn 3 =? 3) then
    let cq := Z.land insn 3 in
    let cfunct3 := Z.land (Z.shiftr insn 13) 7 in
    let creg := 8 + Z.land (Z.shiftr insn 2) 7 in
    if negb (cq =? 0) then None
    else if cfunct3 =? 2 then Some (mkLdst 2 false 4 creg 0 true)
    else if cfunct3 =? 3 then Some (mkLdst 2 false 8 creg 0 false)
    else if cfunct3 =? 6 then Some (mkLdst 2 true 4 0 creg false)
    else if cfunct3 =? 7 then Some (mkLdst 2 true 8 0 creg false)
    else None
  else
    let opcode := Z.land insn 0x7f in
    let funct3 := Z.land (Z.shiftr insn 12) 7 in
    let rd := Z.land (Z.shiftr insn 7) 0x1f in
    let rs2 := Z.land (Z.shiftr insn 20) 0x1f in
    if opcode =? 0x03 then
      if funct3 =? 0 then Some (mkLdst 4 false 1 rd rs2 true)
      else if funct3 =? 1 then Some (mkLdst 4 false 2 rd rs2 true)
      else if funct3 =? 2 then Some (mkLdst 4 false 4 rd rs2 true)
      else if funct3 =? 3 then Some (mkLdst 4 false 8 rd rs2 false)
      else if funct3 =? 4 then Some (mkLdst 4 false 1 rd rs2 false)
      else if funct3 =? 5 then Some (mkLdst 4 false 2 rd rs2 false)
      else if funct3 =? 6 then Some (mkLdst 4 false 4 rd rs2 false)
      else None
    else if opcode =? 0x23 then
      if funct3 =? 0 then Some (mkLdst 4 true 1 rd rs2 false)
      else if funct3 =? 1 then Some (mkLdst 4 true 2 rd rs2 false)
      else if funct3 =? 2 then Some (mkLdst 4 true 4 rd rs2 false)
      else if funct3 =? 3 then Some (mkLdst 4 true 8 rd rs2 false)
      else None
    else None.

(** ** m68k moves *)

(** [None] where the C function returns -1. *)
Definition m68k_ea_extlen (mode reg : Z) : option Z :=
  if mode =? 2 then Some 0
  else if (mode =? 3) || (mode =? 4) then None
  else if mode =? 5 then Some 2
  else if mode =? 6 then Some 2
  else if mode =? 7 then
    if reg =? 0 then Some 2 else if reg =? 1 then Some 4 else if reg =? 2 then Some 2
    else if reg =? 3 then Some 2 else None
  else None.

Record MoveOp := mkMoveOp { mv_len : Z; mv_store : bool; mv_size : Z; dreg : Z; index_offset : Z }.

Definition m68k_mmio_decode (op : Z) : option MoveOp :=
  if negb (Z.land op 0xC000 =? 0) then None
  else
    let field := Z.land (Z.shiftr op 12) 3 in
    if field =? 0 then None
    else
      let size := if field =? 1 then 1 else if field =? 3 then 2 else 4 in
      let imm_bytes := if field =? 2 then 4 else 2 in
      let dst_reg := Z.land (Z.shiftr op 9) 7 in
      let dst_mode := Z.land (Z.shiftr op 6) 7 in
      let src_mode := Z.land (Z.shiftr op 3) 7 in
      let src_reg := Z.land op 7 in
      let dst_is_mem := (2 <=? dst_mode) && (negb (dst_mode =? 7) || (dst_reg <=? 1)) in
      if (size =? 1) && ((src_mode =? 1) || (dst_mode =? 1)) then None
      else if ((src_mode =? 0) || (src_mode =? 1)) && dst_is_mem then
        match m68k_ea_extlen dst_mode dst_reg with
        | None => None
        | Some ext => Some (mkMoveOp (2 + ext) true size (if src_mode =? 1 then 8 + src_reg else src_reg)
                              (if dst_mode =? 6 then 2 else 0))
        end
      else if (src_mode =? 7) && (src_reg =? 4) && dst_is_mem then
        match m68k_ea_extlen dst_mode dst_reg with
        | None => None
        | Some ext => Some (mkMoveOp (2 + imm_bytes + ext) true size (-1) (if dst_mode =? 6 then 2 + imm_bytes else 0))
        end
      else if (dst_mode =? 0) || (dst_mode =? 1) then
        match m68k_ea_extlen src_mode src_reg with
        | None => None
        | Some ext => Some (mkMoveOp (2 + ext) false size (if dst_mode =? 1 then 8 + dst_reg else dst_reg)
                              (if (src_mode =? 6) || ((src_mode =? 7) && (src_reg =? 3)) then 2 else 0))
        end
      else None.

Definition m68k_mmio_move_ccr (value size previous_ccr : Z) : Z :=
  let mask := if size =? 4 then max_u32 else u32 (Z.shiftl 1 (size * 8)) - 1 in
  let value := Z.land value mask in
  Z.lor (Z.lor (Z.land previous_ccr 0x10) (if value =? 0 then 4 else 0))
        (if negb (Z.land value (Z.shiftl 1 (size * 8 - 1)) =? 0) then 8 else 0).

(** ** The fault handler *)

(** [CPURISCVState]: the integer registers and the program counter. *)
Record Rv64 := mkRv64 { gpr : Z -> Z; rv_pc : Z }.
#[export] Instance Rv64_settable : Settable Rv64 := fun s => mkRv64 (gpr s) (rv_pc s).

(** [CPUM68KState]: data and address registers, program counter, and the
    condition codes X, N, Z, V, C as [cpu_m68k_set_ccr] takes them. *)
Record M68k := mkM68k { dregs : Z -> Z; aregs : Z -> Z; mk_pc : Z; ccr : Z }.
#[export] Instance M68k_settable : Settable M68k := fun s => mkM68k (dregs s) (aregs s) (mk_pc s) (ccr s).

Definition set_reg (i v : Z) (f : Z -> Z) : Z -> Z := fun j => if j =? i then v else f j.

(** The handler resumes the guest, or returns and the fault takes its usual
    course. *)
Inductive Outcome (E D : Type) : Type := Resumed (env : E) (d : D) | Returned.
Arguments Resumed {E D}. Arguments Returned {E D}.

Section Fault.
Context {C D : Type} (quetz_ipc_vcpu_count : C -> Z)
  (quetz_ipc_mmio_read : C -> Z -> Z -> Z -> D -> Z * D)
  (quetz_ipc_mmio_write : C -> Z -> Z -> Z -> Z -> D -> D).
Implicit Types ranges : list (SstMmioRange C).

(** What both targets do first; [restored]: the state [cpu_restore_state]
    recovers, at the faulting instruction. *)
Definition on_aperture {E} ranges (guest_addr cpu_index : Z) (restored : option E)
    (k : SstMmioRange C -> C -> E -> Outcome E D) : Outcome E D :=
  match find_range ranges guest_addr with
  | None => Returned
  | Some r =>
      match client r with
      | None => Returned
      | Some c =>
          if quetz_ipc_vcpu_count c <=? cpu_index then Returned
          else match restored with None => Returned | Some env => k r c env end
      end
  end.

(** Widening of the device's value to the 64-bit register. *)
Definition widen (size : Z) (signed : bool) (val : Z) : Z :=
  if size <? 8 then
    let shift := 64 - size * 8 in
    if signed then u64 (Z.shiftr (sign 64 (u64 (Z.shiftl val shift))) shift)
    else Z.land val (u64 (Z.shiftl 1 (size * 8)) - 1)
  else val.

Definition fault_rv64 ranges (guest_addr cpu_index : Z) (is_write : bool) (get_user_u32 : Z -> option Z)
    (restored : option Rv64) (d : D) : Outcome Rv64 D :=
  on_aperture ranges guest_addr cpu_index restored (fun r c env =>
    match get_user_u32 (rv_pc env) with
    | None => Returned
    | Some insn =>
        match decode_ldst insn with
        | None => Returned
        | Some i =>
            if negb (Bool.eqb (is_store i) is_write) || (size r - (guest_addr - base r) <? ls_size i) then Returned
            else
              let '(env', d') :=
                if is_store i then (env, quetz_ipc_mmio_write c cpu_index guest_addr (ls_size i) (gpr env (rs2 i)) d)
                else
                  let '(val, d) := quetz_ipc_mmio_read c cpu_index guest_addr (ls_size i) d in
                  let val := widen (ls_size i) (is_signed i) val in
                  (if negb (rd i =? 0) then env <| gpr ::= set_reg (rd i) val |> else env, d) in
              Resumed (env' <| rv_pc := u64 (rv_pc env + len i) |>) d'
        end
    end).

(** The source operand of a store. *)
Definition store_source (i : MoveOp) (env : M68k) (get_user_u16 get_user_u32 : Z -> option Z) : option Z :=
  if dreg i <? 0 then
    if 4 <=? mv_size i then get_user_u32 (u32 (mk_pc env + 2)) else get_user_u16 (u32 (mk_pc env + 2))
  else if dreg i <? 8 then Some (dregs env (dreg i)) else Some (aregs env (dreg i - 8)).

Definition fault_m68k ranges (guest_addr cpu_index : Z) (is_write : bool) (get_user_u16 get_user_u32 : Z -> option Z)
    (restored : option M68k) (d : D) : Outcome M68k D :=
  on_aperture ranges guest_addr cpu_index restored (fun r c env =>
    match get_user_u16 (mk_pc env) with
    | None => Returned
    | Some op =>
        match m68k_mmio_decode op with
        | None => Returned
        | Some i =>
            if negb (Bool.eqb (mv_store i) is_write) || (size r - (guest_addr - base r) <? mv_size i) then Returned
            else if negb (index_offset i =? 0) &&
                    match get_user_u16 (u32 (mk_pc env + index_offset i)) with
                    | None => true
                    | Some ext => negb (Z.land ext 0x0100 =? 0)
                    end then Returned
            else
              let mask := if 4 <=? mv_size i then max_u32 else u32 (Z.shiftl 1 (mv_size i * 8)) - 1 in
              let done_ := fun moved env' d' =>
                let env' := if mv_store i || (dreg i <? 8)
                            then env' <| ccr := m68k_mmio_move_ccr moved (mv_size i) (Z.shiftl (Z.b2z (Z.testbit (ccr env') 4)) 4) |>
                            else env' in
                Resumed (env' <| mk_pc := u32 (mk_pc env + mv_len i) |>) d' in
              if mv_store i then
                match store_source i env get_user_u16 get_user_u32 with
                | None => Returned
                | Some raw =>
                    let moved := Z.land raw mask in
                    done_ moved env (quetz_ipc_mmio_write c cpu_index guest_addr (mv_size i) moved d)
                end
              else
                let '(val, d) := quetz_ipc_mmio_read c cpu_index guest_addr (mv_size i) d in
                let moved := Z.land (u32 val) mask in
                let env' :=
                  if dreg i <? 8 then
                    env <| dregs ::= fun f => set_reg (dreg i) (Z.lor (Z.land (f (dreg i)) (not32 mask)) (Z.land (u32 val) mask)) f |>
                  else
                    env <| aregs ::= set_reg (dreg i - 8) (if mv_size i =? 2 then u32 (sign 16 (u16 val)) else u32 val) |> in
                done_ moved env' d
        end
    end).
End Fault.
