(* ===== verification/UserMmioThm.v ===== *)
(** * A fault is the access the instruction makes

    Reference encodings and meanings of the RV64 loads and stores and the
    m68k moves of UserMmio.v, and the theorems: the decoders accept exactly
    their encodings; the fault handler resumes exactly the faults of such an
    instruction on an aperture, in the state the instruction leaves, and
    touches nothing otherwise; registered apertures never overlap. *)
From S2P Require Import Prelude.
From S2P Require Import Text.
From S2P Require Import UserMmio.

(** ** RV64: reference *)

Inductive Width : Set := B | H | W | D.
#[export] Instance Width_eq_dec : EqDecision Width. Proof. solve_decision. Defined.
Definition bytes (w : Width) : Z := match w with B => 1 | H => 2 | W => 4 | D => 8 end.
Definition log (w : Width) : Z := match w with B => 0 | H => 1 | W => 2 | D => 3 end.

(** The loads and stores of the base set, and those of the compressed set
    whose address is not relative to the stack pointer; a compressed one is
    followed by the half word [next].  Registers and immediates are the
    fields of the encoding. *)
Inductive Rv : Set :=
  | Load (w : Width) (signed : bool) (rd rs1 imm : Z)
  | Store (w : Width) (rs2 rs1 imm_lo imm_hi : Z)
  | CLoad (w : Width) (rd' imm_lo rs1' imm_hi next : Z)
  | CStore (w : Width) (rs2' imm_lo rs1' imm_hi next : Z).

Definition rv_ok (i : Rv) : Prop :=
  match i with
  | Load w signed rd rs1 imm => (w = D -> signed = true) /\ 0 <= rd < 32 /\ 0 <= rs1 < 32 /\ 0 <= imm < 4096
  | Store w rs2 rs1 lo hi => 0 <= rs2 < 32 /\ 0 <= rs1 < 32 /\ 0 <= lo < 32 /\ 0 <= hi < 128
  | CLoad w r lo rs1 hi next | CStore w r lo rs1 hi next =>
      (w = W \/ w = D) /\ 0 <= r < 8 /\ 0 <= lo < 4 /\ 0 <= rs1 < 8 /\ 0 <= hi < 8 /\ 0 <= next < 2 ^ 16
  end.

(** Fields from the lowest bit up: their values and widths. *)
Fixpoint fields (l : list (Z * Z)) : Z := match l with [] => 0 | (v, w) :: l => v + 2 ^ w * fields l end.

Definition encode (i : Rv) : Z :=
  match i with
  | Load w signed rd rs1 imm => fields [(3, 7); (rd, 5); (log w + (if signed then 0 else 4), 3); (rs1, 5); (imm, 12)]
  | Store w rs2 rs1 lo hi => fields [(35, 7); (lo, 5); (log w, 3); (rs1, 5); (rs2, 5); (hi, 7)]
  | CLoad w r lo rs1 hi next => fields [(0, 2); (r, 3); (lo, 2); (rs1, 3); (hi, 3); (log w, 3); (next, 16)]
  | CStore w r lo rs1 hi next => fields [(0, 2); (r, 3); (lo, 2); (rs1, 3); (hi, 3); (4 + log w, 3); (next, 16)]
  end.

Definition stores (i : Rv) : bool := match i with Store _ _ _ _ _ | CStore _ _ _ _ _ _ => true | _ => false end.
Definition width (i : Rv) : Width :=
  match i with Load w _ _ _ _ | Store w _ _ _ _ | CLoad w _ _ _ _ _ | CStore w _ _ _ _ _ => w end.

(** What the decoder says of it; loads of eight bytes need no extension. *)
Definition decoded (i : Rv) : Ldst :=
  match i with
  | Load w signed rd _ imm => mkLdst 4 false (bytes w) rd (imm mod 32) (signed && bool_decide (w <> D))
  | Store w rs2 _ lo _ => mkLdst 4 true (bytes w) lo rs2 false
  | CLoad w r _ _ _ _ => mkLdst 2 false (bytes w) (8 + r) 0 (bool_decide (w <> D))
  | CStore w r _ _ _ _ => mkLdst 2 true (bytes w) 0 (8 + r) false
  end.

(** The low [n] bytes of a value, extended to 64 bits. *)
Definition extend (n : Z) (signed : bool) (v : Z) : Z :=
  let v := v mod 2 ^ (8 * n) in if signed then u64 (sign (8 * n) v) else v.

Section Rv64Spec.
Context {C D : Type} (read : C -> Z -> Z -> Z -> D -> Z * D) (write : C -> Z -> Z -> Z -> Z -> D -> D).

(** Register 0 is not written. *)
Definition write_gpr (i v : Z) (env : Rv64) : Rv64 := if i =? 0 then env else env <| gpr ::= set_reg i v |>.

(** The instruction executed with its operand at address [a] of a device. *)
Definition execute (i : Rv) (c : C) (vcpu a : Z) (env : Rv64) (d : D) : Rv64 * D :=
  let n := bytes (width i) in
  let next := u64 (rv_pc env + match i with Load _ _ _ _ _ | Store _ _ _ _ _ => 4 | _ => 2 end) in
  match i with
  | Load _ s rd _ _ => let '(v, d) := read c vcpu a n d in (write_gpr rd (extend n s v) env <| rv_pc := next |>, d)
  | CLoad _ r _ _ _ _ => let '(v, d) := read c vcpu a n d in (write_gpr (8 + r) (extend n true v) env <| rv_pc := next |>, d)
  | Store _ r _ _ _ => (env <| rv_pc := next |>, write c vcpu a n (gpr env r) d)
  | CStore _ r _ _ _ _ => (env <| rv_pc := next |>, write c vcpu a n (gpr env (8 + r)) d)
  end.
End Rv64Spec.

(** ** m68k: reference *)

Inductive Ea : Set := AnInd (r : Z) | AnDisp (r : Z) | AnIdx (r : Z) | AbsW | AbsL | PcDisp | PcIdx.
Inductive Operand : Set := Dn (r : Z) | An (r : Z) | Imm.
(** A move between memory and a register, or of an immediate to memory. *)
Inductive Move : Set := ToMem (w : Width) (src : Operand) (ea : Ea) | FromMem (w : Width) (ea : Ea) (dst : Operand).
#[export] Instance Ea_eq_dec : EqDecision Ea. Proof. solve_decision. Defined.
#[export] Instance Operand_eq_dec : EqDecision Operand. Proof. solve_decision. Defined.
#[export] Instance Move_eq_dec : EqDecision Move. Proof. solve_decision. Defined.
#[export] Instance MoveOp_eq_dec : EqDecision MoveOp. Proof. solve_decision. Defined.

Definition ea_mode (ea : Ea) : Z * Z :=
  match ea with
  | AnInd r => (2, r) | AnDisp r => (5, r) | AnIdx r => (6, r) | AbsW => (7, 0) | AbsL => (7, 1) | PcDisp => (7, 2) | PcIdx => (7, 3)
  end.
Definition operand_mode (o : Operand) : Z * Z := match o with Dn r => (0, r) | An r => (1, r) | Imm => (7, 4) end.
Definition ea_bytes (ea : Ea) : Z := match ea with AnInd _ => 0 | AbsL => 4 | _ => 2 end.
Definition indexed (ea : Ea) : bool := match ea with AnIdx _ | PcIdx => true | _ => false end.
Definition imm_bytes (w : Width) (o : Operand) : Z := match o with Imm => if decide (w = W) then 4 else 2 | _ => 0 end.
Definition size_field (w : Width) : Z := match w with B => 1 | H => 3 | _ => 2 end.

Definition is_reg (r : Z) : bool := (0 <=? r) && (r <? 8).
Definition ea_ok (ea : Ea) : bool := match ea with AnInd r | AnDisp r | AnIdx r => is_reg r | _ => true end.
Definition operand_ok (w : Width) (o : Operand) : bool :=
  match o with Dn r => is_reg r | An r => is_reg r && bool_decide (w <> B) | Imm => true end.
(** A destination is not relative to the program counter, nor an immediate. *)
Definition move_ok (m : Move) : bool :=
  match m with
  | ToMem w src ea => bool_decide (w <> D) && operand_ok w src && ea_ok ea && bool_decide (ea <> PcDisp /\ ea <> PcIdx)
  | FromMem w ea dst => bool_decide (w <> D) && ea_ok ea && operand_ok w dst && bool_decide (dst <> Imm)
  end.

Definition opcode_of (size dst_reg dst_mode src_mode src_reg : Z) : Z :=
  fields [(src_reg, 3); (src_mode, 3); (dst_mode, 3); (dst_reg, 3); (size, 2)].
Definition opcode (m : Move) : Z :=
  match m with
  | ToMem w src ea => opcode_of (size_field w) (ea_mode ea).2 (ea_mode ea).1 (operand_mode src).1 (operand_mode src).2
  | FromMem w ea dst => opcode_of (size_field w) (operand_mode dst).2 (operand_mode dst).1 (ea_mode ea).1 (ea_mode ea).2
  end.

Definition operand_index (o : Operand) : Z := match o with Dn r => r | An r => 8 + r | Imm => -1 end.
(** The extension words of an immediate come before those of the address. *)
Definition move_decoded (m : Move) : MoveOp :=
  match m with
  | ToMem w src ea => mkMoveOp (2 + imm_bytes w src + ea_bytes ea) true (bytes w) (operand_index src)
                        (if indexed ea then 2 + imm_bytes w src else 0)
  | FromMem w ea dst => mkMoveOp (2 + ea_bytes ea) false (bytes w) (operand_index dst) (if indexed ea then 2 else 0)
  end.

(** The condition codes after a move of the [n]-byte value [v]. *)
Definition move_flags (n v old : Z) : Z :=
  16 * Z.b2z (Z.testbit old 4) + 8 * Z.b2z (Z.testbit v (8 * n - 1)) + 4 * Z.b2z (v =? 0).

Section M68kSpec.
Context {C D : Type} (read : C -> Z -> Z -> Z -> D -> Z * D) (write : C -> Z -> Z -> Z -> Z -> D -> D).

(** [imm]: the immediate operand. *)
Definition source (o : Operand) (imm : Z) (env : M68k) : Z :=
  match o with Dn r => dregs env r | An r => aregs env r | Imm => imm end.

(** A data register keeps its upper bytes; an address register takes the
    value sign-extended and leaves the condition codes. *)
Definition load_reg (n v : Z) (o : Operand) (env : M68k) : M68k :=
  match o with
  | Dn r => env <| dregs ::= fun f => set_reg r (f r - f r mod 2 ^ (8 * n) + v) f |> <| ccr ::= move_flags n v |>
  | An r => env <| aregs ::= set_reg r (u32 (sign (8 * n) v)) |>
  | Imm => env
  end.

Definition execute_move (m : Move) (imm : Z) (c : C) (vcpu a : Z) (env : M68k) (d : D) : M68k * D :=
  match m with
  | ToMem w src ea =>
      let n := bytes w in
      let v := source src imm env mod 2 ^ (8 * n) in
      (env <| ccr ::= move_flags n v |> <| mk_pc := u32 (mk_pc env + (2 + imm_bytes w src + ea_bytes ea)) |>, write c vcpu a n v d)
  | FromMem w ea dst =>
      let n := bytes w in
      let '(v, d) := read c vcpu a n d in
      (load_reg n (v mod 2 ^ (8 * n)) dst env <| mk_pc := u32 (mk_pc env + (2 + ea_bytes ea)) |>, d)
  end.
End M68kSpec.

(** ** Fields of a word *)

Lemma land_3 x : Z.land x 3 = x mod 4. Proof. exact (Z.land_ones x 2 ltac:(lia)). Qed.
Lemma land_7 x : Z.land x 7 = x mod 8. Proof. exact (Z.land_ones x 3 ltac:(lia)). Qed.
Lemma land_31 x : Z.land x 0x1f = x mod 32. Proof. exact (Z.land_ones x 5 ltac:(lia)). Qed.
Lemma land_127 x : Z.land x 0x7f = x mod 128. Proof. exact (Z.land_ones x 7 ltac:(lia)). Qed.

(** The decoders' fields as quotients and remainders. *)
Ltac to_fields :=
  rewrite ?land_3, ?land_7, ?land_31, ?land_127; rewrite ?Z.shiftr_div_pow2 by lia.

(** ** RV64: the decoder *)

Lemma decode_full insn : insn mod 4 = 3 ->
  decode_ldst insn =
    (let f := insn / 2 ^ 12 mod 8 in let a := insn / 2 ^ 7 mod 32 in let b := insn / 2 ^ 20 mod 32 in
     if insn mod 128 =? 3 then
       if f =? 7 then None else Some (mkLdst 4 false (2 ^ (f mod 4)) a b (f <? 3))
     else if insn mod 128 =? 35 then
       if 4 <=? f then None else Some (mkLdst 4 true (2 ^ f) a b false)
     else None).
Proof.
  intros H. unfold decode_ldst. cbv zeta. to_fields. rewrite H. cbn [negb Z.eqb Pos.eqb].
  assert (Hf : 0 <= insn / 2 ^ 12 mod 8 < 8) by (apply Z.mod_pos_bound; lia).
  set (f := insn / 2 ^ 12 mod 8) in *. clearbody f.
  assert (f = 0 \/ f = 1 \/ f = 2 \/ f = 3 \/ f = 4 \/ f = 5 \/ f = 6 \/ f = 7) as Hc by lia.
  destruct (_ =? 3); [| destruct (_ =? 35); [| reflexivity]];
    destruct Hc as [->|[->|[->|[->|[->|[->|[->| ->]]]]]]]; reflexivity.
Qed.

Lemma decode_compressed insn : insn mod 4 <> 3 ->
  decode_ldst insn =
    (let f := insn / 2 ^ 13 mod 8 in let r := 8 + insn / 2 ^ 2 mod 8 in
     if negb (insn mod 4 =? 0) then None
     else if (f =? 2) || (f =? 3) then Some (mkLdst 2 false (if f =? 2 then 4 else 8) r 0 (f =? 2))
     else if (f =? 6) || (f =? 7) then Some (mkLdst 2 true (if f =? 6 then 4 else 8) 0 r false)
     else None).
Proof.
  intros H. unfold decode_ldst. cbv zeta. to_fields. destruct (Z.eqb_spec (insn mod 4) 3); [contradiction |]. cbn [negb].
  set (f := insn / 2 ^ 13 mod 8) in *. clearbody f.
  destruct (negb _); [reflexivity |].
  destruct (Z.eqb_spec f 2) as [->|]; [reflexivity |]. destruct (Z.eqb_spec f 3) as [->|]; [reflexivity |].
  destruct (Z.eqb_spec f 6) as [->|]; [reflexivity |]. destruct (Z.eqb_spec f 7) as [->|]; reflexivity.
Qed.

Ltac digits := cbn [fields]; pow2; dlia.

Lemma decode_encode i : rv_ok i -> decode_ldst (encode i) = Some (decoded i).
Proof.
  destruct i as [w s rd rs1 imm | w r rs1 lo hi | w r lo rs1 hi next | w r lo rs1 hi next]; intros Hok; cbn in Hok.
  - destruct Hok as (Hw & Hrd & Hrs & Hi). set (f := log w + if s then 0 else 4).
    assert (Hf : 0 <= f < 7) by (subst f; destruct w, s; cbn; try lia; discriminate (Hw eq_refl)).
    rewrite decode_full by (unfold encode; fold f; digits). cbv zeta.
    assert (E : encode (Load w s rd rs1 imm) mod 128 = 3 /\ encode (Load w s rd rs1 imm) / 2 ^ 12 mod 8 = f /\
                encode (Load w s rd rs1 imm) / 2 ^ 7 mod 32 = rd /\ encode (Load w s rd rs1 imm) / 2 ^ 20 mod 32 = imm mod 32)
      by (unfold encode; fold f; clearbody f; repeat split; digits).
    destruct E as (-> & -> & -> & ->). subst f. destruct w, s; cbn; try reflexivity. discriminate (Hw eq_refl).
  - destruct Hok as (Hr & Hrs & Hlo & Hhi). assert (Hf : 0 <= log w < 4) by (destruct w; cbn; lia).
    rewrite decode_full by (unfold encode; digits). cbv zeta.
    assert (E : encode (Store w r rs1 lo hi) mod 128 = 35 /\ encode (Store w r rs1 lo hi) / 2 ^ 12 mod 8 = log w /\
                encode (Store w r rs1 lo hi) / 2 ^ 7 mod 32 = lo /\ encode (Store w r rs1 lo hi) / 2 ^ 20 mod 32 = r)
      by (unfold encode; set (f := log w) in *; clearbody f; repeat split; digits).
    destruct E as (-> & -> & -> & ->). destruct w; reflexivity.
  - destruct Hok as (Hw & Hr & Hlo & Hrs & Hhi & Hn). assert (Hf : 2 <= log w < 4) by (destruct Hw as [-> | ->]; cbn; lia).
    rewrite decode_compressed by (unfold encode; digits). cbv zeta.
    assert (E : encode (CLoad w r lo rs1 hi next) mod 4 = 0 /\ encode (CLoad w r lo rs1 hi next) / 2 ^ 13 mod 8 = log w /\
                encode (CLoad w r lo rs1 hi next) / 2 ^ 2 mod 8 = r)
      by (unfold encode; set (f := log w) in *; clearbody f; repeat split; digits).
    destruct E as (-> & -> & ->). destruct Hw as [-> | ->]; reflexivity.
  - destruct Hok as (Hw & Hr & Hlo & Hrs & Hhi & Hn). assert (Hf : 2 <= log w < 4) by (destruct Hw as [-> | ->]; cbn; lia).
    rewrite decode_compressed by (unfold encode; digits). cbv zeta.
    assert (E : encode (CStore w r lo rs1 hi next) mod 4 = 0 /\ encode (CStore w r lo rs1 hi next) / 2 ^ 13 mod 8 = 4 + log w /\
                encode (CStore w r lo rs1 hi next) / 2 ^ 2 mod 8 = r)
      by (unfold encode; set (f := log w) in *; clearbody f; repeat split; digits).
    destruct E as (-> & -> & ->). destruct Hw as [-> | ->]; reflexivity.
Qed.

Lemma encode_decode insn i : is_u32 insn -> decode_ldst insn = Some i -> exists r, rv_ok r /\ encode r = insn /\ decoded r = i.
Proof.
  intros Hw E. destruct (Z.eq_dec (insn mod 4) 3) as [H3|H3].
  - rewrite decode_full in E by exact H3. cbv zeta in E.
    assert (Hf : 0 <= insn / 2 ^ 12 mod 8 < 8) by (apply Z.mod_pos_bound; lia).
    destruct (Z.eqb_spec (insn mod 128) 3) as [Ho|Ho].
    + destruct (Z.eqb_spec (insn / 2 ^ 12 mod 8) 7) as [|Hn]; [discriminate |]. injection E as <-.
      set (f := insn / 2 ^ 12 mod 8) in *.
      exists (Load (if f mod 4 =? 0 then B else if f mod 4 =? 1 then H else if f mod 4 =? 2 then W else D) (f <? 4)
                (insn / 2 ^ 7 mod 32) (insn / 2 ^ 15 mod 32) (insn / 2 ^ 20)).
      assert (Ef : insn = fields [(3, 7); (insn / 2 ^ 7 mod 32, 5); (f, 3); (insn / 2 ^ 15 mod 32, 5); (insn / 2 ^ 20, 12)])
        by (subst f; digits).
      assert (Ei : insn / 2 ^ 20 mod 32 = insn / 2 ^ 20 mod 32) by reflexivity.
      assert (Hi : 0 <= insn / 2 ^ 20 < 4096) by (unfold is_word in Hw; pow2; dlia).
      assert (f = 0 \/ f = 1 \/ f = 2 \/ f = 3 \/ f = 4 \/ f = 5 \/ f = 6) as Hc by lia. clearbody f.
      split; [| split].
      * cbn [rv_ok]. split; [| repeat split; try (apply Z.mod_pos_bound; lia); lia].
        destruct Hc as [->|[->|[->|[->|[->|[->| ->]]]]]]; vm_compute; intros; congruence.
      * rewrite Ef at 4. cbn [encode]. destruct Hc as [->|[->|[->|[->|[->|[->| ->]]]]]]; reflexivity.
      * destruct Hc as [->|[->|[->|[->|[->|[->| ->]]]]]]; reflexivity.
    + destruct (Z.eqb_spec (insn mod 128) 35) as [Hs|]; [| discriminate].
      destruct (Z.leb_spec 4 (insn / 2 ^ 12 mod 8)) as [|Hn]; [discriminate |]. injection E as <-.
      set (f := insn / 2 ^ 12 mod 8) in *.
      exists (Store (if f =? 0 then B else if f =? 1 then H else if f =? 2 then W else D)
                (insn / 2 ^ 20 mod 32) (insn / 2 ^ 15 mod 32) (insn / 2 ^ 7 mod 32) (insn / 2 ^ 25)).
      assert (Ef : insn = fields [(35, 7); (insn / 2 ^ 7 mod 32, 5); (f, 3); (insn / 2 ^ 15 mod 32, 5); (insn / 2 ^ 20 mod 32, 5); (insn / 2 ^ 25, 7)])
        by (subst f; digits).
      assert (Hi : 0 <= insn / 2 ^ 25 < 128) by (unfold is_word in Hw; pow2; dlia).
      assert (f = 0 \/ f = 1 \/ f = 2 \/ f = 3) as Hc by lia. clearbody f.
      split; [| split].
      * cbn [rv_ok]. repeat split; try (apply Z.mod_pos_bound; lia); lia.
      * rewrite Ef at 5. cbn [encode]. destruct Hc as [->|[->|[->| ->]]]; reflexivity.
      * destruct Hc as [->|[->|[->| ->]]]; reflexivity.
  - rewrite decode_compressed in E by exact H3. cbv zeta in E.
    destruct (Z.eqb_spec (insn mod 4) 0) as [H0|]; [| discriminate]. cbn [negb] in E.
    set (f := insn / 2 ^ 13 mod 8) in *.
    assert (Ef : insn = fields [(0, 2); (insn / 2 ^ 2 mod 8, 3); (insn / 2 ^ 5 mod 4, 2); (insn / 2 ^ 7 mod 8, 3);
                                (insn / 2 ^ 10 mod 8, 3); (f, 3); (insn / 2 ^ 16, 16)]) by (subst f; digits).
    assert (Hi : 0 <= insn / 2 ^ 16 < 2 ^ 16) by (unfold is_word in Hw; pow2; dlia). clearbody f.
    assert (Hc : f = 2 \/ f = 3 \/ f = 6 \/ f = 7).
    { destruct (Z.eqb_spec f 2), (Z.eqb_spec f 3), (Z.eqb_spec f 6), (Z.eqb_spec f 7); try discriminate; auto. }
    destruct Hc as [Hc|[Hc|[Hc|Hc]]]; rewrite Hc in E, Ef; injection E as <-.
    1: exists (CLoad W (insn / 2 ^ 2 mod 8) (insn / 2 ^ 5 mod 4) (insn / 2 ^ 7 mod 8) (insn / 2 ^ 10 mod 8) (insn / 2 ^ 16)).
    2: exists (CLoad D (insn / 2 ^ 2 mod 8) (insn / 2 ^ 5 mod 4) (insn / 2 ^ 7 mod 8) (insn / 2 ^ 10 mod 8) (insn / 2 ^ 16)).
    3: exists (CStore W (insn / 2 ^ 2 mod 8) (insn / 2 ^ 5 mod 4) (insn / 2 ^ 7 mod 8) (insn / 2 ^ 10 mod 8) (insn / 2 ^ 16)).
    4: exists (CStore D (insn / 2 ^ 2 mod 8) (insn / 2 ^ 5 mod 4) (insn / 2 ^ 7 mod 8) (insn / 2 ^ 10 mod 8) (insn / 2 ^ 16)).
    all: split; [cbn [rv_ok]; repeat split; try (apply Z.mod_pos_bound; lia); try lia; auto |].
    all: split; [rewrite Ef at 6; reflexivity | reflexivity].
Qed.

(** ** m68k: the decoder *)

(** The decoder on the fields of the operation word. *)
Definition decode_fields (f dst_reg dst_mode src_mode src_reg : Z) : option MoveOp :=
  m68k_mmio_decode (opcode_of f dst_reg dst_mode src_mode src_reg).

(** The move with these fields. *)
Definition ea_of (mode reg : Z) : option Ea :=
  if mode =? 2 then Some (AnInd reg) else if mode =? 5 then Some (AnDisp reg) else if mode =? 6 then Some (AnIdx reg)
  else if mode =? 7 then
    if reg =? 0 then Some AbsW else if reg =? 1 then Some AbsL else if reg =? 2 then Some PcDisp
    else if reg =? 3 then Some PcIdx else None
  else None.
Definition operand_of (mode reg : Z) : option Operand :=
  if mode =? 0 then Some (Dn reg) else if mode =? 1 then Some (An reg)
  else if (mode =? 7) && (reg =? 4) then Some Imm else None.
Definition width_of (f : Z) : option Width :=
  if f =? 1 then Some B else if f =? 3 then Some H else if f =? 2 then Some W else None.
Definition move_of (f dst_reg dst_mode src_mode src_reg : Z) : option Move :=
  w ← width_of f;
  match operand_of src_mode src_reg, ea_of dst_mode dst_reg, ea_of src_mode src_reg, operand_of dst_mode dst_reg with
  | Some src, Some ea, _, _ => Some (ToMem w src ea)
  | _, _, Some ea, Some dst => Some (FromMem w ea dst)
  | _, _, _, _ => None
  end.

Definition digits8 : list Z := [0; 1; 2; 3; 4; 5; 6; 7].
Definition for_fields (p : Z -> Z -> Z -> Z -> Z -> bool) : bool :=
  forallb (fun f => forallb (fun dr => forallb (fun dm => forallb (fun sm => forallb (fun sr => p f dr dm sm sr)
    digits8) digits8) digits8) digits8) [0; 1; 2; 3].

Lemma in_digits8 x : 0 <= x < 8 -> In x digits8.
Proof. intros. cbn. lia. Qed.

Lemma for_fields_spec p : for_fields p = true -> forall f dr dm sm sr,
  0 <= f < 4 -> 0 <= dr < 8 -> 0 <= dm < 8 -> 0 <= sm < 8 -> 0 <= sr < 8 -> p f dr dm sm sr = true.
Proof.
  intros Hp f dr dm sm sr Hf H1 H2 H3 H4. unfold for_fields in Hp. rewrite forallb_forall in Hp.
  specialize (Hp f ltac:(cbn; lia)). rewrite forallb_forall in Hp.
  specialize (Hp dr (in_digits8 _ H1)). rewrite forallb_forall in Hp.
  specialize (Hp dm (in_digits8 _ H2)). rewrite forallb_forall in Hp.
  specialize (Hp sm (in_digits8 _ H3)). rewrite forallb_forall in Hp.
  exact (Hp sr (in_digits8 _ H4)).
Qed.

(** Every operation word of the family: the decoder and the reference agree. *)
Definition agrees (f dr dm sm sr : Z) : bool :=
  match move_of f dr dm sm sr with
  | Some m => if move_ok m then bool_decide (opcode m = opcode_of f dr dm sm sr /\ decode_fields f dr dm sm sr = Some (move_decoded m))
              else bool_decide (decode_fields f dr dm sm sr = None)
  | None => bool_decide (decode_fields f dr dm sm sr = None)
  end.

Lemma all_agree : for_fields agrees = true.
Proof. vm_compute. reflexivity. Qed.

Lemma reg_range r : is_reg r = true -> 0 <= r < 8.
Proof. unfold is_reg. lia. Qed.

Lemma move_of_fields m : move_ok m = true -> exists f dr dm sm sr,
  opcode m = opcode_of f dr dm sm sr /\ move_of f dr dm sm sr = Some m /\
  0 <= f < 4 /\ 0 <= dr < 8 /\ 0 <= dm < 8 /\ 0 <= sm < 8 /\ 0 <= sr < 8.
Proof.
  destruct m as [w src ea | w ea dst]; cbn [move_ok opcode]; rewrite !andb_true_iff, !bool_decide_eq_true; intros Hok;
    do 5 eexists; (split; [reflexivity |]).
  - destruct Hok as (((Hw & Hs) & He) & Hd). split.
    + destruct w, src, ea; try reflexivity; exfalso; tauto.
    + destruct w; [| | | tauto]; destruct src, ea; cbn in Hs, He |- *; rewrite ?andb_true_iff in Hs;
        repeat match goal with H : is_reg _ = true |- _ => apply reg_range in H | H : _ /\ _ |- _ => destruct H end;
        repeat split; lia || (exfalso; tauto).
  - destruct Hok as (((Hw & He) & Hs) & Hd). split.
    + destruct w, ea, dst; try reflexivity; exfalso; tauto.
    + destruct w; [| | | tauto]; destruct dst, ea; cbn in Hs, He |- *; rewrite ?andb_true_iff in Hs;
        repeat match goal with H : is_reg _ = true |- _ => apply reg_range in H | H : _ /\ _ |- _ => destruct H end;
        repeat split; lia || (exfalso; tauto).
Qed.

Lemma m68k_decode_move m : move_ok m = true -> m68k_mmio_decode (opcode m) = Some (move_decoded m).
Proof.
  intros Hok. destruct (move_of_fields m Hok) as (f & dr & dm & sm & sr & Eo & Em & H1 & H2 & H3 & H4 & H5).
  pose proof (for_fields_spec agrees all_agree f dr dm sm sr H1 H2 H3 H4 H5) as Ha. unfold agrees in Ha.
  rewrite Em, Hok, bool_decide_eq_true in Ha. rewrite Eo. apply Ha.
Qed.

Lemma m68k_move_decoded op i : is_word 16 op -> m68k_mmio_decode op = Some i ->
  exists m, move_ok m = true /\ opcode m = op /\ move_decoded m = i.
Proof.
  intros Ho E. assert (Hz : Z.land op 0xC000 = 0).
  { unfold m68k_mmio_decode in E. destruct (Z.eqb_spec (Z.land op 0xC000) 0); [assumption | discriminate]. }
  assert (Hb : 0 <= op < 2 ^ 14).
  { split; [apply Ho |]. replace (Z.land op 0xC000) with (2 ^ 14 * (op / 2 ^ 14)) in Hz.
    - pose proof (Z.div_mod op (2 ^ 14) ltac:(lia)). pose proof (Z.mod_pos_bound op (2 ^ 14) ltac:(lia)). lia.
    - replace 0xC000 with (Z.shiftl (Z.ones 2) 14) by reflexivity. rewrite Z.mul_comm, <- Z.shiftl_mul_pow2, <- Z.shiftr_div_pow2 by lia.
      apply Z.bits_inj'. intros n Hn. rewrite Z.land_spec. destruct (Z.lt_ge_cases n 14).
      + rewrite !Z.shiftl_spec_low by lia. rewrite andb_false_r. reflexivity.
      + rewrite !Z.shiftl_spec, Z.shiftr_spec by lia. replace (n - 14 + 14) with n by lia. destruct (Z.lt_ge_cases n 16).
        * rewrite Z.ones_spec_low by lia. rewrite andb_true_r. reflexivity.
        * rewrite Z.ones_spec_high by lia. rewrite andb_false_r. destruct (Z.eq_dec op 0) as [->|]; [apply Z.bits_0 |].
          apply Z.bits_above_log2; [apply Ho |]. apply Z.log2_lt_pow2; [unfold is_word in Ho; lia |].
          destruct Ho. eapply Z.lt_le_trans; [eassumption | apply Z.pow_le_mono_r; lia]. }
  set (f := op / 2 ^ 12). set (dr := op / 2 ^ 9 mod 8). set (dm := op / 2 ^ 6 mod 8). set (sm := op / 2 ^ 3 mod 8). set (sr := op mod 8).
  assert (Eo : opcode_of f dr dm sm sr = op) by (unfold opcode_of; subst f dr dm sm sr; digits).
  assert (Hf : 0 <= f < 4) by (subst f; dlia).
  pose proof (for_fields_spec agrees all_agree f dr dm sm sr Hf) as Ha. unfold agrees, decode_fields in Ha. rewrite Eo in Ha.
  specialize (Ha ltac:(apply Z.mod_pos_bound; lia) ltac:(apply Z.mod_pos_bound; lia)
                 ltac:(apply Z.mod_pos_bound; lia) ltac:(apply Z.mod_pos_bound; lia)).
  rewrite E in Ha. destruct (move_of f dr dm sm sr) as [m|]; [| discriminate].
  destruct (move_ok m) eqn:Hok; [| discriminate]. apply bool_decide_eq_true in Ha as [E1 E2].
  exists m. repeat split; [exact Hok | exact E1 |]. injection E2 as ->. reflexivity.
Qed.

(** ** Numbers and registers *)

Lemma shift_sign k v : 0 < k < 64 ->
  Z.shiftr (sign 64 (u64 (Z.shiftl v (64 - k)))) (64 - k) = sign k (v mod 2 ^ k).
Proof.
  intros Hk. rewrite Z.shiftl_mul_pow2, Z.shiftr_div_pow2 by lia. unfold sign, wrap.
  assert (E : 2 ^ 64 = 2 ^ k * 2 ^ (64 - k)) by (rewrite <- Z.pow_add_r by lia; f_equal; lia).
  assert (E' : 2 ^ (64 - 1) = 2 ^ (k - 1) * 2 ^ (64 - k)) by (rewrite <- Z.pow_add_r by lia; f_equal; lia).
  assert (0 < 2 ^ (64 - k)) by (apply Z.pow_pos_nonneg; lia). assert (0 < 2 ^ k) by (apply Z.pow_pos_nonneg; lia).
  rewrite E, E'. rewrite Z.mul_mod_distr_r by lia. rewrite <- Z.mul_add_distr_r, Z.mul_mod_distr_r, <- Z.mul_sub_distr_r by lia.
  apply Z.div_mul. lia.
Qed.

Lemma extend_widen w s v : is_u64 v -> widen (bytes w) (s && bool_decide (w <> D)) v = extend (bytes w) s v.
Proof.
  intros Hv. unfold widen, extend.
  assert (Ed : bool_decide (w <> D) = match w with D => false | _ => true end) by (destruct w; reflexivity). rewrite Ed.
  destruct w; rewrite ?andb_true_r, ?andb_false_r; cbn [bytes]; try (destruct s; cbv zeta).
  1: exact (f_equal u64 (shift_sign 8 v ltac:(lia))).
  2: exact (f_equal u64 (shift_sign 16 v ltac:(lia))).
  3: exact (f_equal u64 (shift_sign 32 v ltac:(lia))).
  1: exact (Z.land_ones v 8 ltac:(lia)).
  1: exact (Z.land_ones v 16 ltac:(lia)).
  1: exact (Z.land_ones v 32 ltac:(lia)).
  all: change (8 * 8) with 64; rewrite (Z.mod_small v) by exact Hv; try reflexivity.
  change (8 <? 8) with false. cbv iota. unfold sign, wrap. rewrite <- (Z.mod_small v (2 ^ 64)) at 1 by exact Hv.
  replace (v mod 2 ^ 64) with ((v + 2 ^ (64 - 1) - 2 ^ (64 - 1)) mod 2 ^ 64) by (f_equal; lia).
  rewrite <- Zminus_mod_idemp_l. reflexivity.
Qed.

Lemma mask_low n v : n = 1 \/ n = 2 \/ n = 4 ->
  Z.land v (if 4 <=? n then max_u32 else u32 (Z.shiftl 1 (n * 8)) - 1) = v mod 2 ^ (8 * n).
Proof.
  intros [->|[-> | ->]].
  - exact (Z.land_ones v 8 ltac:(lia)).
  - exact (Z.land_ones v 16 ltac:(lia)).
  - exact (Z.land_ones v 32 ltac:(lia)).
Qed.

(** ** Apertures *)

Section Apertures.
Context {C : Type} (attach : text -> option C) (vcpu_count : C -> Z) (abi_max : Z).
Implicit Types (r : SstMmioRange C) (ranges : list (SstMmioRange C)).

Definition covers r (a : Z) : Prop := base r <= a < base r + size r.

Record range_ok r : Prop :=
  { ro_name : shmname r <> []; ro_base : 0 <= base r; ro_size : 0 < size r; ro_fits : base r + size r <= abi_max + 1;
    ro_client : exists c, client r = Some c /\ vcpu_count c <> 0 /\ vcpu_count c <= QUETZ_MAX_MMIO_VCORES }.

Record ranges_ok ranges : Prop :=
  { rs_ok : Forall range_ok ranges;
    rs_apart : forall i j r r' a, ranges !! i = Some r -> ranges !! j = Some r' -> covers r a -> covers r' a -> i = j;
    rs_shared : forall r r', r ∈ ranges -> r' ∈ ranges -> shmname r = shmname r' -> client r = client r';
    rs_count : (length ranges <= MAX_RANGES)%nat }.

Lemma range_field_ok tok r r' : 0 <= base r -> 0 <= size r -> client r = None -> range_field tok r = Ok r' ->
  0 <= base r' /\ 0 <= size r' /\ client r' = None.
Proof.
  intros Hb Hs Hc. unfold range_field, invalid_range.
  assert (Hn : forall s n, range_number s = Ok n -> 0 <= n).
  { unfold range_number, invalid_range. intros s n. destruct (match s with [] => _ | _ => _ end); [discriminate |]. cbv zeta.
    destruct (_ || _); [discriminate |]. intros [= <-]. apply strtoull_range. }
  destruct (after (tx "shmname=") tok); [destruct (256 <=? _)%nat; [discriminate |]; intros [= <-]; auto |].
  destruct (after (tx "base=") tok); [intros E; inv_ok; subst r'; cbn; eauto |].
  destruct (after (tx "size=") tok); [intros E; inv_ok; subst r'; cbn; eauto |].
  destruct (after (tx "vcpu_id=") tok); [| discriminate].
  intros E. apply bind_ok in E as (n & E & E'). destruct (_ <? n); [discriminate |]. injection E' as <-. auto.
Qed.

Lemma range_fields_ok toks r r' : 0 <= base r -> 0 <= size r -> client r = None -> range_fields toks r = Ok r' ->
  0 <= base r' /\ 0 <= size r' /\ client r' = None.
Proof.
  revert r. induction toks as [|tok toks IH]; intros r Hb Hs Hc E; cbn [range_fields] in E; [injection E as <-; auto |].
  apply bind_ok in E as (r1 & E1 & E). destruct (range_field_ok _ _ _ Hb Hs Hc E1) as (? & ? & ?). eauto.
Qed.

Lemma overlapping_spec r old : 0 < size r -> 0 < size old -> overlapping r old = false <-> (forall a, covers r a -> covers old a -> False).
Proof.
  intros H1 H2. unfold overlapping, covers. split.
  - intros H a. lia.
  - intros H. destruct (Z.le_ge_cases (base old) (base r)).
    + specialize (H (base r)). lia.
    + specialize (H (base old)). lia.
Qed.

(** The result of the loop: the same range, apart from every earlier one,
    with the client of one of its name, if there is one. *)
Lemma against_ok olds r r' : 0 < size r -> Forall (fun o => 0 < size o) olds -> against olds r = Ok r' ->
  (exists c, r' = r <| client := c |>) /\
  (forall o a, o ∈ olds -> covers r a -> covers o a -> False) /\
  ((client r' = client r /\ forall o, o ∈ olds -> shmname o <> shmname r) \/
   exists o, o ∈ olds /\ shmname o = shmname r /\ client r' = client o).
Proof.
  revert r. induction olds as [|o olds IH]; intros r Hr Ho E; cbn [against] in E.
  - injection E as <-. split; [exists (client r); destruct r; reflexivity |].
    split; [intros o a []%elem_of_nil | left; split; [reflexivity | intros o []%elem_of_nil]].
  - apply Forall_cons in Ho as [Hp Ho]. destruct (overlapping r o) eqn:Ev; [discriminate |].
    pose proof (proj1 (overlapping_spec r o Hr Hp) Ev) as Hv.
    set (r1 := if bool_decide (shmname o = shmname r) then r <| client := client o |> else r) in E.
    assert (E1 : base r1 = base r /\ size r1 = size r /\ shmname r1 = shmname r) by (subst r1; case_bool_decide; auto).
    destruct E1 as (Eb & Es & En).
    destruct (IH r1 ltac:(lia) Ho E) as ((c & Ec) & A1 & A2). split; [| split].
    + exists c. rewrite Ec. subst r1. case_bool_decide; destruct r; reflexivity.
    + intros o' a [-> | Hin]%elem_of_cons Hc; [exact (Hv a Hc) |]. apply (A1 o' a Hin). unfold covers in *. rewrite Eb, Es. exact Hc.
    + rewrite En in A2. destruct A2 as [[A2 Hnone] | (o' & Hin & Hn & A2)].
      * rewrite A2. subst r1. case_bool_decide as Hd; [right; exists o; cbn; split; [left | split; [exact Hd |]]; reflexivity |].
        left. split; [reflexivity |]. intros o' [-> | Hin]%elem_of_cons; auto.
      * right. exists o'. split; [right; exact Hin | auto].
Qed.

Lemma register_ok spec ranges ranges' : ranges_ok ranges -> sst_mmio_register_range attach vcpu_count abi_max spec ranges = Ok ranges' ->
  ranges_ok ranges' /\ exists r, ranges' = ranges ++ [r].
Proof.
  intros I E. unfold sst_mmio_register_range, invalid_range in E.
  destruct (Nat.leb_spec MAX_RANGES (length ranges)) as [|Hl]; [discriminate |].
  apply bind_ok in E as (r & Ef & E). destruct (range_fields_ok _ (mkRange [] 0 0 0 None) r (Z.le_refl 0) (Z.le_refl 0) eq_refl Ef) as (Hb & Hs & Hc).
  destruct (_ || _) eqn:Eg in E; [discriminate |]. rewrite !orb_false_iff, bool_decide_eq_false in Eg.
  destruct Eg as ((((Hn & Hz) & Hb') & Hs') & Hf). apply bind_ok in E as (r1 & Ea & E).
  assert (Hpos : Forall (fun o => 0 < size o) ranges) by (eapply Forall_impl; [apply (rs_ok _ I) | intros o Ho; apply Ho]).
  assert (Hpz : 0 < size r) by lia.
  destruct (against_ok ranges r r1 Hpz Hpos Ea) as ((c & Ec) & A1 & A2). cbv zeta in E.
  set (r2 := match client r1 with Some _ => r1 | None => r1 <| client := attach (shmname r1) |> end) in E.
  destruct (negb (vcpu_id r2 =? 0)); [discriminate |]. destruct (client r2) as [c2|] eqn:E2; [| discriminate].
  destruct (_ || _) eqn:Ev in E; [discriminate |]. injection E as <-. split; [| eauto].
  assert (Er : base r2 = base r /\ size r2 = size r /\ shmname r2 = shmname r) by (subst r2 r1; case_match; auto).
  destruct Er as (Eb & Es & En). apply orb_false_iff in Ev as [Ev1 Ev2].
  assert (Hnew : forall i r' a, ranges !! i = Some r' -> covers r2 a -> covers r' a -> False).
  { intros i r' a Hi Hc2. apply (A1 r' a); [eapply list_elem_of_lookup_2, Hi |]. unfold covers in *. rewrite Eb, Es in Hc2. exact Hc2. }
  assert (Hshare : forall o, o ∈ ranges -> shmname o = shmname r2 -> client o = Some c2).
  { intros o Ho Hname. rewrite En in Hname. destruct A2 as [[_ A2] | (o' & Hin & Hn' & A2)]; [destruct (A2 o Ho Hname) |].
    rewrite (rs_shared _ I o o' Ho Hin) by congruence.
    pose proof (proj1 (Forall_forall _ _) (rs_ok _ I) o' Hin) as [_ _ _ _ (c' & Hc' & _)].
    rewrite Hc' in A2. subst r2. rewrite A2 in E2. congruence. }
  constructor.
  - apply Forall_app; split; [apply (rs_ok _ I) |]. constructor; [| constructor]. constructor.
    + rewrite En. exact Hn. + lia. + lia. + lia.
    + exists c2. split; [exact E2 | lia].
  - intros i j x y a Hi Hj Hx Hy.
    apply lookup_app_Some in Hi as [Hi | [Hi1 Hi]]; apply lookup_app_Some in Hj as [Hj | [Hj1 Hj]].
    + exact (rs_apart _ I i j x y a Hi Hj Hx Hy).
    + apply list_lookup_singleton_Some in Hj as [Hj <-]. destruct (Hnew i x a Hi Hy Hx).
    + apply list_lookup_singleton_Some in Hi as [Hi <-]. destruct (Hnew j y a Hj Hx Hy).
    + apply list_lookup_singleton_Some in Hi as [Hi <-]. apply list_lookup_singleton_Some in Hj as [Hj <-]. lia.
  - intros x y [Hx| ->%list_elem_of_singleton]%elem_of_app [Hy| ->%list_elem_of_singleton]%elem_of_app Hname.
    + exact (rs_shared _ I x y Hx Hy Hname).
    + rewrite E2. auto. + rewrite E2. symmetry. auto. + reflexivity.
  - rewrite length_app. cbn. lia.
Qed.

Lemma find_range_spec ranges a r : ranges_ok ranges -> find_range ranges a = Some r <-> r ∈ ranges /\ covers r a.
Proof.
  intros I. unfold find_range. split.
  - intros E. apply List.find_some in E as [Hin Hc]. split; [apply list_elem_of_In, Hin | unfold covers; lia].
  - intros [Hin Hc]. destruct (List.find _ ranges) as [r'|] eqn:E.
    + apply List.find_some in E as [Hin' Hc']. f_equal. apply list_elem_of_In, list_elem_of_lookup in Hin' as [j Hj].
      apply list_elem_of_lookup in Hin as [i Hi].
      assert (i = j) as -> by (apply (rs_apart _ I i j r r' a Hi Hj Hc); unfold covers; lia). congruence.
    + apply list_elem_of_In in Hin. eapply List.find_none in E; [| exact Hin]. unfold covers in Hc. lia.
Qed.

Lemma ranges0_ok : ranges_ok [].
Proof.
  constructor; [constructor | intros i j r r' a Hi; rewrite lookup_nil in Hi; discriminate | intros r r' []%elem_of_nil | cbn; lia].
Qed.

(** The apertures of a command line. *)
Fixpoint register_all (specs : list text) ranges : result (list (SstMmioRange C)) :=
  match specs with
  | [] => Ok ranges
  | spec :: specs => ranges ← sst_mmio_register_range attach vcpu_count abi_max spec ranges; register_all specs ranges
  end.

Lemma register_all_ok specs ranges ranges' : ranges_ok ranges -> register_all specs ranges = Ok ranges' ->
  ranges_ok ranges' /\ (length ranges' = length ranges + length specs)%nat.
Proof.
  revert ranges. induction specs as [|s specs IH]; intros ranges I E; cbn [register_all] in E.
  - injection E as <-. split; [exact I | cbn; lia].
  - apply bind_ok in E as (r1 & E1 & E). destruct (register_ok _ _ _ I E1) as (I1 & r & ->).
    destruct (IH _ I1 E) as [I2 Hl]. split; [exact I2 |]. rewrite Hl, length_app. cbn. lia.
Qed.

(** C39. The apertures a command line registers are as many as it gives, at most
    eight, none empty or beyond the guest's addresses, no two overlapping;
    those of one shared memory share a client, whose vCPU count is valid; and
    an address has the range that contains it, if one does. *)
Theorem apertures_registered specs ranges : register_all specs [] = Ok ranges ->
  ranges_ok ranges /\ length ranges = length specs /\
  forall a r, find_range ranges a = Some r <-> r ∈ ranges /\ covers r a.
Proof.
  intros E. destruct (register_all_ok specs [] ranges ranges0_ok E) as [I Hl]. split; [exact I |].
  split; [exact Hl |]. intros a r. exact (find_range_spec ranges a r I).
Qed.
End Apertures.

(** ** RV64: faults *)

Section Faults.
Context {C Dev : Type} (vcpu_count : C -> Z) (read : C -> Z -> Z -> Z -> Dev -> Z * Dev) (write : C -> Z -> Z -> Z -> Z -> Dev -> Dev).
Variable abi_max : Z.
Hypothesis read_u64 : forall c v a n d, is_u64 (read c v a n d).1.
Implicit Types ranges : list (SstMmioRange C).

Lemma bytes_pos w : 1 <= bytes w <= 8.
Proof. destruct w; cbn; lia. Qed.

Lemma decoded_fields i : ls_size (decoded i) = bytes (width i) /\ is_store (decoded i) = stores i.
Proof. destruct i; auto. Qed.

(** The handler's effects are those of the instruction. *)
Lemma rv64_effects i c vcpu a env d : rv_ok i ->
  (let k := decoded i in
   let '(env', d') :=
     if is_store k then (env, write c vcpu a (ls_size k) (gpr env (rs2 k)) d)
     else
       let '(val, d) := read c vcpu a (ls_size k) d in
       let val := widen (ls_size k) (is_signed k) val in
       (if negb (rd k =? 0) then env <| gpr ::= set_reg (rd k) val |> else env, d) in
   (env' <| rv_pc := u64 (rv_pc env + len k) |>, d')) = execute read write i c vcpu a env d.
Proof.
  intros Hok. destruct i as [w s x rs1 imm | w r rs1 lo hi | w r lo rs1 hi next | w r lo rs1 hi next]; try reflexivity.
  - cbn [decoded is_store ls_size is_signed UserMmio.rd len execute width]. pose proof (read_u64 c vcpu a (bytes w) d) as Hv.
    destruct (read c vcpu a (bytes w) d) as [v d']. cbn in Hv. cbv zeta. rewrite extend_widen by exact Hv.
    unfold write_gpr. destruct (x =? 0); reflexivity.
  - destruct Hok as (Hw & Hr & _). cbn [decoded is_store ls_size is_signed UserMmio.rd len execute width].
    pose proof (read_u64 c vcpu a (bytes w) d) as Hv.
    destruct (read c vcpu a (bytes w) d) as [v d']. cbn in Hv. cbv zeta.
    change (bool_decide (w <> D)) with (true && bool_decide (w <> D)). rewrite extend_widen by exact Hv.
    unfold write_gpr. destruct (Z.eqb_spec (8 + r) 0); [lia | reflexivity].
Qed.

(** C7. The handler resumes the guest exactly when the instruction at the program
    counter is a load or store in the direction of the fault, its operand lies
    within one aperture and the faulting vCPU has a mailbox there; the
    registers, the program counter and the device are then as after that
    instruction.  Otherwise it does nothing. *)
Theorem rv64_fault_is_access ranges a vcpu is_write get_user_u32 restored d env' d' :
  ranges_ok vcpu_count abi_max ranges -> (forall p w, get_user_u32 p = Some w -> is_u32 w) ->
  fault_rv64 vcpu_count read write ranges a vcpu is_write get_user_u32 restored d = Resumed env' d' <->
  exists r c env i, r ∈ ranges /\ base r <= a /\ a + bytes (width i) <= base r + size r /\
    client r = Some c /\ vcpu < vcpu_count c /\ restored = Some env /\
    rv_ok i /\ get_user_u32 (rv_pc env) = Some (encode i) /\ stores i = is_write /\
    execute read write i c vcpu a env d = (env', d').
Proof.
  intros I Hmem. unfold fault_rv64, on_aperture. split.
  - intros E. destruct (find_range ranges a) as [r|] eqn:Er; [| discriminate].
    apply (find_range_spec _ _ _ _ _ I) in Er as [Hin [Hb Hs]].
    destruct (client r) as [c|] eqn:Ec; [| discriminate]. destruct (Z.leb_spec (vcpu_count c) vcpu); [discriminate |].
    destruct restored as [env|]; [| discriminate]. destruct (get_user_u32 (rv_pc env)) as [w|] eqn:Ew; [| discriminate].
    destruct (decode_ldst w) as [k|] eqn:Ek; [| discriminate].
    destruct (encode_decode w k (Hmem _ _ Ew) Ek) as (i & Hok & <- & <-).
    destruct (_ || _) eqn:Eg in E; [discriminate |]. apply orb_false_iff in Eg as [Eg1 Eg2].
    destruct (decoded_fields i) as [Es Est]. rewrite Est in Eg1. apply negb_false_iff, Bool.eqb_prop in Eg1.
    rewrite Es in Eg2. exists r, c, env, i. repeat (split; [auto; lia |]).
    rewrite <- rv64_effects by exact Hok. cbv zeta. destruct (if is_store (decoded i) then _ else _) as [e1 d1].
    injection E as <- <-. reflexivity.
  - intros (r & c & env & i & Hin & Hb & Hs & Ec & Hv & -> & Hok & Ew & Est & Ex). pose proof (bytes_pos (width i)).
    rewrite (proj2 (find_range_spec _ _ _ _ _ I)) by (split; [exact Hin | unfold covers; lia]).
    rewrite Ec. destruct (Z.leb_spec (vcpu_count c) vcpu); [lia |]. rewrite Ew, decode_encode by exact Hok.
    destruct (decoded_fields i) as [Es Est']. rewrite Es at 1. rewrite Est' at 1. rewrite Est, Bool.eqb_reflx. cbn [negb orb].
    destruct (Z.ltb_spec (size r - (a - base r)) (bytes (width i))); [lia |].
    rewrite <- rv64_effects in Ex by exact Hok. cbv zeta in Ex. destruct (if is_store (decoded i) then _ else _) as [e1 d1].
    injection Ex as <- <-. reflexivity.
Qed.

(** ** m68k: faults *)

Lemma testbit_land v k : 0 <= k -> (Z.land v (Z.shiftl 1 k) =? 0) = negb (Z.testbit v k).
Proof.
  intros Hk. rewrite Z.shiftl_1_l.
  assert (E : Z.testbit (Z.land v (2 ^ k)) k = Z.testbit v k) by (rewrite Z.land_spec, Z.pow2_bits_true by lia; apply andb_true_r).
  destruct (Z.eqb_spec (Z.land v (2 ^ k)) 0) as [H|H].
  - rewrite H, Z.bits_0 in E. rewrite <- E. reflexivity.
  - destruct (Z.testbit v k) eqn:Et; [reflexivity |]. exfalso. apply H. apply Z.bits_inj'. intros n Hn.
    rewrite Z.land_spec, Z.bits_0. destruct (Z.eq_dec n k) as [->|Hne]; [rewrite Et; reflexivity |].
    rewrite Z.pow2_bits_false by lia. apply andb_false_r.
Qed.

Definition moves (n : Z) : Prop := n = 1 \/ n = 2 \/ n = 4.

Lemma moves_bytes m : move_ok m = true -> moves (mv_size (move_decoded m)).
Proof.
  destruct m as [w s e | w e s]; cbn; rewrite !andb_true_iff; intros H; unfold moves; destruct w; cbn; auto; exfalso;
    destruct H as ((H & _) & _); try destruct H; discriminate.
Qed.

Lemma ccr_flags n v old : moves n -> 0 <= v < 2 ^ (8 * n) ->
  m68k_mmio_move_ccr v n (Z.shiftl (Z.b2z (Z.testbit old 4)) 4) = move_flags n v old.
Proof.
  intros Hn Hv. unfold m68k_mmio_move_ccr, move_flags. cbv zeta.
  replace (Z.land v (if n =? 4 then max_u32 else u32 (Z.shiftl 1 (n * 8)) - 1)) with v.
  - rewrite testbit_land by (unfold moves in Hn; lia). rewrite negb_involutive. replace (n * 8 - 1) with (8 * n - 1) by lia.
    destruct (Z.testbit old 4), (Z.testbit v (8 * n - 1)), (v =? 0); reflexivity.
  - destruct Hn as [->|[-> | ->]]; symmetry.
    + etransitivity; [exact (Z.land_ones v 8 ltac:(lia)) | apply Z.mod_small, Hv].
    + etransitivity; [exact (Z.land_ones v 16 ltac:(lia)) | apply Z.mod_small, Hv].
    + etransitivity; [exact (Z.land_ones v 32 ltac:(lia)) | apply Z.mod_small, Hv].
Qed.

(** A register with its low bytes replaced. *)
Lemma replace_low n x v : moves n -> is_u32 x ->
  Z.lor (Z.land x (not32 (if 4 <=? n then max_u32 else u32 (Z.shiftl 1 (n * 8)) - 1)))
        (Z.land (u32 v) (if 4 <=? n then max_u32 else u32 (Z.shiftl 1 (n * 8)) - 1)) = x - x mod 2 ^ (8 * n) + v mod 2 ^ (8 * n).
Proof.
  intros Hn Hx. rewrite (mask_low n (u32 v) Hn).
  assert (Hm : u32 v mod 2 ^ (8 * n) = v mod 2 ^ (8 * n)).
  { unfold wrap. apply Z.mod_mod_divide. exists (2 ^ (32 - 8 * n)). rewrite <- Z.pow_add_r by (unfold moves in Hn; lia). f_equal. lia. }
  rewrite Hm.
  assert (Hl : Z.land x (not32 (if 4 <=? n then max_u32 else u32 (Z.shiftl 1 (n * 8)) - 1)) = x / 2 ^ (8 * n) * 2 ^ (8 * n)).
  { replace (not32 (if 4 <=? n then max_u32 else u32 (Z.shiftl 1 (n * 8)) - 1)) with (Z.ldiff (Z.ones 32) (Z.ones (8 * n)))
      by (destruct Hn as [->|[-> | ->]]; reflexivity).
    rewrite <- Z.shiftl_mul_pow2, <- Z.shiftr_div_pow2, <- Z.ldiff_ones_r by (unfold moves in Hn; lia).
    replace x with (Z.land x (Z.ones 32)) at 2 by (rewrite Z.land_ones by lia; apply Z.mod_small, Hx).
    apply Z.bits_inj'. intros k Hk. rewrite !Z.ldiff_spec, !Z.land_spec, Z.ldiff_spec. repeat destruct (Z.testbit _ k); reflexivity. }
  rewrite Hl, lor_add_low; [| unfold moves in Hn; lia | apply Z.mod_pos_bound, Z.pow_pos_nonneg; unfold moves in Hn; lia].
  pose proof (Z.div_mod x (2 ^ (8 * n)) ltac:(apply Z.pow_nonzero; unfold moves in Hn; lia)). lia.
Qed.

Lemma address_load n v : n = 2 \/ n = 4 ->
  (if n =? 2 then u32 (sign 16 (u16 v)) else u32 v) = u32 (sign (8 * n) (v mod 2 ^ (8 * n))).
Proof.
  intros [-> | ->]; [reflexivity |]. change (4 =? 2) with false. cbv iota. change (8 * 4) with 32. unfold sign, wrap.
  rewrite Zminus_mod_idemp_l, Z.add_simpl_r. symmetry. apply Z.mod_mod. discriminate.
Qed.

(** The immediate operand, from the words after the operation word. *)
Definition immediate (m : Move) (pc : Z) (get16 get32 : Z -> option Z) : option Z :=
  match m with
  | ToMem w Imm _ => if decide (w = W) then get32 (u32 (pc + 2)) else get16 (u32 (pc + 2))
  | _ => Some 0
  end.

(** An indexed address has a brief extension word. *)
Definition brief (m : Move) (pc : Z) (get16 : Z -> option Z) : Prop :=
  index_offset (move_decoded m) <> 0 -> exists ext, get16 (u32 (pc + index_offset (move_decoded m))) = Some ext /\ Z.testbit ext 8 = false.

Lemma brief_spec m pc get16 :
  negb (index_offset (move_decoded m) =? 0) &&
    match get16 (u32 (pc + index_offset (move_decoded m))) with None => true | Some ext => negb (Z.land ext 0x0100 =? 0) end = false
  <-> brief m pc get16.
Proof.
  unfold brief. destruct (Z.eqb_spec (index_offset (move_decoded m)) 0) as [->|Hne]; cbn [negb andb]; [split; [congruence | reflexivity] |].
  destruct (get16 _) as [ext|].
  - change 0x0100 with (Z.shiftl 1 8). rewrite testbit_land, negb_involutive by lia. split.
    + intros H _. eauto.
    + intros H. destruct (H Hne) as (e & [= <-] & He). exact He.
  - split; [discriminate |]. intros H. destruct (H Hne) as (e & He & _). discriminate.
Qed.

Lemma source_spec w src ea env get16 get32 : move_ok (ToMem w src ea) = true ->
  store_source (move_decoded (ToMem w src ea)) env get16 get32 =
  (imm ← immediate (ToMem w src ea) (mk_pc env) get16 get32; Some (source src imm env)).
Proof.
  intros Hok. cbn [move_ok] in Hok. rewrite !andb_true_iff, !bool_decide_eq_true in Hok. destruct Hok as (((Hw & Hs) & _) & _).
  unfold store_source. cbn [move_decoded dreg mv_size immediate]. destruct src as [r|r|]; cbn [operand_index operand_ok source] in *.
  - apply reg_range in Hs. destruct (Z.ltb_spec r 0); [lia |]. destruct (Z.ltb_spec r 8); [reflexivity | lia].
  - apply andb_true_iff in Hs as [Hs _]. apply reg_range in Hs. destruct (Z.ltb_spec (8 + r) 0); [lia |].
    destruct (Z.ltb_spec (8 + r) 8); [lia |]. cbn. do 2 f_equal. lia.
  - destruct w; try (exfalso; apply Hw; reflexivity); cbn; destruct (_ (u32 _)); reflexivity.
Qed.

(** What the handler does once its checks have passed. *)
Lemma m68k_store w src ea imm env (d' : Dev) : move_ok (ToMem w src ea) = true ->
  let i := move_decoded (ToMem w src ea) in
  let mask := if 4 <=? mv_size i then max_u32 else u32 (Z.shiftl 1 (mv_size i * 8)) - 1 in
  Z.land (source src imm env) mask = source src imm env mod 2 ^ (8 * bytes w) /\
  env <| ccr := m68k_mmio_move_ccr (source src imm env mod 2 ^ (8 * bytes w)) (mv_size i) (Z.shiftl (Z.b2z (Z.testbit (ccr env) 4)) 4) |> =
  env <| ccr ::= move_flags (bytes w) (source src imm env mod 2 ^ (8 * bytes w)) |>.
Proof.
  intros Hok. pose proof (moves_bytes _ Hok) as Hn. cbn [move_decoded mv_size] in *. split; [apply (mask_low _ _ Hn) |].
  rewrite ccr_flags; [reflexivity | exact Hn |]. apply Z.mod_pos_bound, Z.pow_pos_nonneg; unfold moves in Hn; lia.
Qed.

Lemma m68k_load w ea dst v env (d' : Dev) : move_ok (FromMem w ea dst) = true -> (forall r, is_u32 (dregs env r)) ->
  let i := move_decoded (FromMem w ea dst) in
  let mask := if 4 <=? mv_size i then max_u32 else u32 (Z.shiftl 1 (mv_size i * 8)) - 1 in
  let env' :=
    if dreg i <? 8 then env <| dregs ::= fun f => set_reg (dreg i) (Z.lor (Z.land (f (dreg i)) (not32 mask)) (Z.land (u32 v) mask)) f |>
    else env <| aregs ::= set_reg (dreg i - 8) (if mv_size i =? 2 then u32 (sign 16 (u16 v)) else u32 v) |> in
  (if dreg i <? 8 then env' <| ccr := m68k_mmio_move_ccr (Z.land (u32 v) mask) (mv_size i) (Z.shiftl (Z.b2z (Z.testbit (ccr env') 4)) 4) |>
   else env') = load_reg (bytes w) (v mod 2 ^ (8 * bytes w)) dst env.
Proof.
  intros Hok Hregs. pose proof (moves_bytes _ Hok) as Hn. cbn [move_decoded mv_size dreg] in *. cbv zeta.
  cbn [move_ok] in Hok. rewrite !andb_true_iff, !bool_decide_eq_true in Hok. destruct Hok as (((Hw & _) & Hs) & Hd).
  destruct dst as [r|r|]; cbn [operand_index operand_ok load_reg] in *; [| | congruence].
  - apply reg_range in Hs. destruct (Z.ltb_spec r 8); [| lia].
    assert (Hm : Z.land (u32 v) (if 4 <=? bytes w then max_u32 else u32 (Z.shiftl 1 (bytes w * 8)) - 1) = v mod 2 ^ (8 * bytes w)).
    { pose proof (replace_low (bytes w) 0 v Hn ltac:(word)) as Hz. rewrite Z.land_0_l, Z.lor_0_l, Z.mod_0_l in Hz;
        [rewrite Hz; lia | apply Z.pow_nonzero; unfold moves in Hn; lia]. }
    cbn [update_field M68k_settable eta_record dregs aregs mk_pc ccr]. rewrite Hm.
    pose proof (replace_low (bytes w) (dregs env r) v Hn (Hregs r)) as Hr. rewrite Hm in Hr. rewrite Hr.
    rewrite ccr_flags; [reflexivity | exact Hn | apply Z.mod_pos_bound, Z.pow_pos_nonneg; unfold moves in Hn; lia].
  - apply andb_true_iff in Hs as [Hs Hb]. apply reg_range in Hs. apply bool_decide_eq_true in Hb.
    destruct (Z.ltb_spec (8 + r) 8); [lia |]. rewrite address_load by (destruct w; cbn; auto; congruence).
    replace (8 + r - 8) with r by lia. reflexivity.
Qed.

Definition move_size (m : Move) : Z := bytes (match m with ToMem w _ _ | FromMem w _ _ => w end).
Definition to_memory (m : Move) : bool := match m with ToMem _ _ _ => true | _ => false end.

Lemma move_decoded_fields m : mv_size (move_decoded m) = move_size m /\ mv_store (move_decoded m) = to_memory m.
Proof. destruct m; auto. Qed.

(** The handler past its checks of direction and size. *)
Definition m68k_rest (i : MoveOp) (c : C) (vcpu a : Z) (get16 get32 : Z -> option Z) (env : M68k) (d : Dev) : Outcome M68k Dev :=
  let mask := if 4 <=? mv_size i then max_u32 else u32 (Z.shiftl 1 (mv_size i * 8)) - 1 in
  let done_ := fun moved env' d' =>
    let env' := if mv_store i || (dreg i <? 8)
                then env' <| ccr := m68k_mmio_move_ccr moved (mv_size i) (Z.shiftl (Z.b2z (Z.testbit (ccr env') 4)) 4) |>
                else env' in
    Resumed (env' <| mk_pc := u32 (mk_pc env + mv_len i) |>) d' in
  if mv_store i then
    match store_source i env get16 get32 with
    | None => Returned
    | Some raw => done_ (Z.land raw mask) env (write c vcpu a (mv_size i) (Z.land raw mask) d)
    end
  else
    let '(val, d) := read c vcpu a (mv_size i) d in
    let env' :=
      if dreg i <? 8 then env <| dregs ::= fun f => set_reg (dreg i) (Z.lor (Z.land (f (dreg i)) (not32 mask)) (Z.land (u32 val) mask)) f |>
      else env <| aregs ::= set_reg (dreg i - 8) (if mv_size i =? 2 then u32 (sign 16 (u16 val)) else u32 val) |> in
    done_ (Z.land (u32 val) mask) env' d.

Lemma m68k_effects m c vcpu a get16 get32 env d : move_ok m = true -> (forall r, is_u32 (dregs env r)) ->
  m68k_rest (move_decoded m) c vcpu a get16 get32 env d =
  match immediate m (mk_pc env) get16 get32 with
  | None => Returned
  | Some imm => let '(env', d') := execute_move read write m imm c vcpu a env d in Resumed env' d'
  end.
Proof.
  intros Hok Hregs. unfold m68k_rest. cbv zeta. destruct m as [w src ea | w ea dst].
  - change (mv_store (move_decoded (ToMem w src ea))) with true. cbv iota. rewrite source_spec by exact Hok.
    destruct (immediate _ _ _ _) as [imm|]; [| reflexivity].
    destruct (m68k_store w src ea imm env d Hok) as [E1 E2]. cbv zeta in E1.
    cbn [mbind option_bind]. rewrite E1. cbn [orb execute_move]. cbv zeta. rewrite E2. reflexivity.
  - change (mv_store (move_decoded (FromMem w ea dst))) with false. cbv iota. cbn [immediate].
    cbn [execute_move]. cbv zeta. change (mv_size (move_decoded (FromMem w ea dst))) with (bytes w) at 1.
    destruct (read c vcpu a (bytes w) d) as [v d']. cbn [orb].
    pose proof (m68k_load w ea dst v env d Hok Hregs) as E. cbv zeta in E. rewrite E. reflexivity.
Qed.

(** C21. The m68k handler: a fault is resumed exactly when the instruction is one of
    the moves, in the fault's direction, with a brief extension word if it is
    indexed, its operand within one aperture and the vCPU's mailbox there;
    registers, condition codes, program counter and device are then as after
    that move. *)
Theorem m68k_fault_is_move ranges a vcpu is_write get_user_u16 get_user_u32 restored d env' d' :
  ranges_ok vcpu_count abi_max ranges -> (forall p w, get_user_u16 p = Some w -> is_word 16 w) ->
  (forall env, restored = Some env -> forall r, is_u32 (dregs env r)) ->
  fault_m68k vcpu_count read write ranges a vcpu is_write get_user_u16 get_user_u32 restored d = Resumed env' d' <->
  exists r c env m imm, r ∈ ranges /\ base r <= a /\ a + move_size m <= base r + size r /\
    client r = Some c /\ vcpu < vcpu_count c /\ restored = Some env /\
    move_ok m = true /\ get_user_u16 (mk_pc env) = Some (opcode m) /\ to_memory m = is_write /\
    brief m (mk_pc env) get_user_u16 /\ immediate m (mk_pc env) get_user_u16 get_user_u32 = Some imm /\
    execute_move read write m imm c vcpu a env d = (env', d').
Proof.
  intros I Hmem Hregs. unfold fault_m68k, on_aperture. split.
  - intros E. destruct (find_range ranges a) as [r|] eqn:Er; [| discriminate].
    apply (find_range_spec _ _ _ _ _ I) in Er as [Hin [Hb Hs]].
    destruct (client r) as [c|] eqn:Ec; [| discriminate]. destruct (Z.leb_spec (vcpu_count c) vcpu); [discriminate |].
    destruct restored as [env|]; [| discriminate]. destruct (get_user_u16 (mk_pc env)) as [w|] eqn:Ew; [| discriminate].
    destruct (m68k_mmio_decode w) as [k|] eqn:Ek; [| discriminate].
    destruct (m68k_move_decoded w k (Hmem _ _ Ew) Ek) as (m & Hok & <- & <-).
    destruct (_ || _) eqn:Eg in E; [discriminate |]. apply orb_false_iff in Eg as [Eg1 Eg2].
    destruct (move_decoded_fields m) as [Es Est]. rewrite Est in Eg1. apply negb_false_iff, Bool.eqb_prop in Eg1. rewrite Es in Eg2.
    destruct (_ && _) eqn:Eb in E; [discriminate |]. apply brief_spec in Eb.
    change (m68k_rest (move_decoded m) c vcpu a get_user_u16 get_user_u32 env d = Resumed env' d') in E.
    rewrite m68k_effects in E by eauto. destruct (immediate _ _ _ _) as [imm|] eqn:Ei; [| discriminate].
    exists r, c, env, m, imm. repeat (split; [auto; lia |]). destruct (execute_move _ _ _ _ _ _ _ _ _) as [e1 d1]. congruence.
  - intros (r & c & env & m & imm & Hin & Hb & Hs & Ec & Hv & -> & Hok & Ew & Est & Hbr & Ei & Ex).
    assert (Hp : 1 <= move_size m) by apply bytes_pos.
    rewrite (proj2 (find_range_spec _ _ _ _ _ I)) by (split; [exact Hin | unfold covers; lia]).
    rewrite Ec. destruct (Z.leb_spec (vcpu_count c) vcpu); [lia |]. rewrite Ew, m68k_decode_move by exact Hok.
    destruct (move_decoded_fields m) as [Es Est']. rewrite Es at 1. rewrite Est' at 1. rewrite Est, Bool.eqb_reflx. cbn [negb orb].
    destruct (Z.ltb_spec (size r - (a - base r)) (move_size m)); [lia |].
    apply brief_spec in Hbr. rewrite Hbr.
    change (m68k_rest (move_decoded m) c vcpu a get_user_u16 get_user_u32 env d = Resumed env' d').
    rewrite m68k_effects by eauto. rewrite Ei, Ex. reflexivity.
Qed.
End Faults.

(** ** The theorems at concrete inputs *)

Definition demo_attach (s : text) : option Z := if (0 <? length s)%nat then Some 1 else None.
Definition demo_specs : list text := [tx "shmname=/q,base=0x10000,size=0x100"; tx "shmname=/q,base=0x20000,size=64"].
Definition demo_ranges : list (SstMmioRange Z) :=
  [mkRange (tx "/q") 65536 256 0 (Some 1); mkRange (tx "/q") 131072 64 0 (Some 1)].
Definition demo_count (c : Z) : Z := 2.

Lemma demo_registered : register_all demo_attach demo_count max_u32 demo_specs [] = Ok demo_ranges.
Proof. vm_compute. reflexivity. Qed.

Lemma demo_ranges_ok : ranges_ok demo_count max_u32 demo_ranges.
Proof. apply (register_all_ok _ _ _ _ _ _ (ranges0_ok demo_count max_u32) demo_registered). Qed.

Lemma apertures_registered_witness :
  register_all demo_attach demo_count max_u32 demo_specs [] = Ok demo_ranges /\ ranges_ok demo_count max_u32 demo_ranges.
Proof.
  split; [vm_compute; reflexivity |].
  apply (apertures_registered demo_attach demo_count max_u32 demo_specs demo_ranges). vm_compute. reflexivity.
Defined.

(** A device that answers every read with the same value and keeps a log. *)
Definition demo_read (c v a n : Z) (d : list (Z * Z)) : Z * list (Z * Z) := (0x80000001, d ++ [(a, n)]).
Definition demo_write (c v a n x : Z) (d : list (Z * Z)) : list (Z * Z) := d ++ [(a, x)].

(** [lw x5, 0(x10)] on the first range. *)
Definition demo_insn : Rv := Load W true 5 10 0.
Definition demo_fetch (p : Z) : option Z := if p =? 0x400 then Some (encode demo_insn) else None.
Definition demo_rv64 : Rv64 := mkRv64 (fun _ => 0) 0x400.

Lemma rv64_fault_is_access_witness : exists env,
  fault_rv64 demo_count demo_read demo_write demo_ranges 65540 1 false demo_fetch (Some demo_rv64) [] = Resumed env [(65540, 4)] /\
  gpr env 5 = 0xffffffff80000001 /\ rv_pc env = 0x404.
Proof.
  eexists. split; [| split].
  - refine (proj2 (rv64_fault_is_access demo_count demo_read demo_write max_u32 _ demo_ranges 65540 1 false demo_fetch
      (Some demo_rv64) [] _ _ demo_ranges_ok _) _).
    + intros. cbn. word.
    + unfold demo_fetch. intros p w. destruct (p =? 0x400); [| discriminate]. intros [= <-]. vm_compute. split; congruence.
    + exists (mkRange (tx "/q") 65536 256 0 (Some 1)), 1, demo_rv64, demo_insn.
      split; [left |]. repeat split; try (vm_compute; congruence).
  - reflexivity.
  - reflexivity.
Defined.

(** [move.w #0x8001, (a0)] on the second range. *)
Definition demo_move : Move := ToMem H Imm (AnInd 0).
Definition demo_fetch16 (p : Z) : option Z := if p =? 0x400 then Some (opcode demo_move) else if p =? 0x402 then Some 0x8001 else None.
Definition demo_m68k : M68k := mkM68k (fun _ => 0) (fun _ => 0x20000) 0x400 0x11.

Lemma m68k_fault_is_move_witness : exists env,
  fault_m68k demo_count demo_read demo_write demo_ranges 0x20000 0 true demo_fetch16 (fun _ => None) (Some demo_m68k) [] =
    Resumed env [(0x20000, 0x8001)] /\ ccr env = 0x18 /\ mk_pc env = 0x404.
Proof.
  eexists. split; [| split].
  - refine (proj2 (m68k_fault_is_move demo_count demo_read demo_write max_u32 demo_ranges 0x20000 0 true demo_fetch16 (fun _ => None)
      (Some demo_m68k) [] _ _ demo_ranges_ok _ _) _).
    + unfold demo_fetch16. intros p w. destruct (p =? 0x400); [| destruct (p =? 0x402); [| discriminate]]; intros [= <-]; vm_compute; split; congruence.
    + intros env [= <-] r. cbn. word.
    + exists (mkRange (tx "/q") 131072 64 0 (Some 1)), 1, demo_m68k, demo_move, 0x8001.
      split; [right; left |]. repeat split; try (vm_compute; congruence); try (intros Hn; vm_compute in Hn; congruence).
  - reflexivity.
  - reflexivity.
Defined.
