(* ===== verification/Platform.v ===== *)
(** * What a platform may ask for

    [src/src/quetz_platform_contract.h]: the native RAM regions of a
    configuration and the QEMU command line of a ColdFire machine; with
    [quetz_cache_launch.h] and [quetz_multicore_launch.h], which apply the
    latter.

    Exceptions and errors carry the code's messages; [nullptr] is [None]. *)
From S2P Require Import Prelude.
From S2P Require Import Text.
From S2P Require Import NativeRam.

(** ** [parseNativeRegions] *)

Definition digits_of_numbers : text := tx "0123456789abcdefABCDEFxX".

Definition region_number (s : text) : result Z :=
  throw_if (bool_decide (s = []) || existsb (fun c => negb (existsb (Ascii.eqb c) digits_of_numbers)) s) InvalidArgument
    "invalid native region number" ≫= fun _ =>
  '(v, unused) ← stoull s;
  throw_if (negb (bool_decide (unused = []))) InvalidArgument "invalid native region number" ≫= fun _ =>
  Ok v.

(** The item between two separators. *)
Definition parse_region (item : text) (regions : list NativeRegion) : result (list NativeRegion) :=
  let pairs := "cache_native_regions requires base:size pairs separated by semicolons" in
  match cut ":" item with
  | (_, None) => Throw InvalidArgument pairs
  | (b, Some n) =>
      throw_if (bool_decide (b = []) || bool_decide (n = []) || contains (tx ":") n) InvalidArgument pairs ≫= fun _ =>
      base0 ← region_number b;
      size0 ← region_number n;
      throw_if ((size0 =? 0) || (QUETZ_NATIVE_REGION_BYTES <? size0) || negb (Z.land size0 4095 =? 0) ||
                negb (Z.land base0 4095 =? 0) || (2 ^ 32 <=? base0) || (2 ^ 32 - base0 <? size0)) InvalidArgument
        "native regions require 4-KiB alignment, at most 64 KiB each and 32-bit guest addresses" ≫= fun _ =>
      throw_if (existsb (fun r => (base0 <? u64 (base r + size r)) && (base r <? u64 (base0 + size0))) regions) InvalidArgument
        "native regions overlap" ≫= fun _ =>
      throw_if (Z.of_nat (length regions) =? QUETZ_MAX_NATIVE_REGIONS) InvalidArgument
        "at most two native regions are supported" ≫= fun _ =>
      Ok (regions ++ [mkRegion (u32 base0) (u32 size0) 0 0])
  end.

(** The loop, over the items; a separator at the end is an error, after the
    item before it. *)
Fixpoint parse_items (items : list text) (regions : list NativeRegion) : result (list NativeRegion) :=
  match items with
  | [] => Ok regions
  | item :: items =>
      regions ← parse_region item regions;
      match items with
      | [[]] => Throw InvalidArgument "empty native region"
      | _ => parse_items items regions
      end
  end.

Definition parseNativeRegions (value : text) : result (list NativeRegion) :=
  match value with [] => Ok [] | _ => parse_items (split ";" value) [] end.

(** ** [coldFireLaunchError] *)

Record Seen := mkSeen { machine_seen : bool; cpu_seen : bool; smp_seen : bool; accel_seen : bool }.
#[export] Instance Seen_settable : Settable Seen := fun s => mkSeen (machine_seen s) (cpu_seen s) (smp_seen s) (accel_seen s).

Inductive Model : Set := KMachine | KCpu | KSmp | KAccel.
#[export] Instance Model_eq_dec : EqDecision Model. Proof. solve_decision. Defined.

(** An argument's key, and its value after [=] if it has one; two dashes
    count as one. *)
Definition option_key (arg : text) : text * option text :=
  cut "=" (match after (tx "--") arg with Some s => "-"%char :: s | None => arg end).

Definition lit (s : string) (t : text) : bool := bool_decide (t = tx s).
Definition model_key (key : text) : option Model :=
  if lit "-machine" key || lit "-M" key then Some KMachine
  else if lit "-cpu" key then Some KCpu else if lit "-smp" key then Some KSmp
  else if lit "-accel" key then Some KAccel else None.
Definition forbidden_key (key : text) : bool := lit "-readconfig" key || lit "-global" key || lit "-enable-kvm" key.

(** One model option; the message of the first error, or what is seen now. *)
Definition model_option (k : Model) (value : text) (vcpus : Z) (machine_name : text) (s : Seen) : string + Seen :=
  match k with
  | KMachine =>
      if machine_seen s || negb (bool_decide ((cut "," value).1 = machine_name)) ||
         contains (tx ",type=") value || contains (tx ",accel=") value
      then inl "QEMU machine does not match the platform descriptor"%string else inr (s <| machine_seen := true |>)
  | KCpu =>
      if cpu_seen s || negb (lit "cfv4e" value)
      then inl "ColdFire adapter supports only one cfv4e selection"%string else inr (s <| cpu_seen := true |>)
  | KSmp =>
      if smp_seen s || negb (bool_decide (value = dec vcpus))
      then inl "QEMU topology does not match configured CPU count"%string else inr (s <| smp_seen := true |>)
  | KAccel =>
      if accel_seen s || (negb (lit "tcg,thread=single" value) && negb ((vcpus =? 1) && lit "tcg" value))
      then inl "ColdFire adapter requires single-thread TCG"%string else inr (s <| accel_seen := true |>)
  end.

Fixpoint launch_options (args : list text) (vcpus : Z) (machine_name : text) (s : Seen) : string + Seen :=
  match args with
  | [] => inr s
  | arg :: args =>
      let '(key, v) := option_key arg in
      if forbidden_key key then inl "ColdFire adapter forbids external model overrides"%string
      else
        match model_key key with
        | None => launch_options args vcpus machine_name s
        | Some k =>
            match v with
            | Some value =>
                match model_option k value vcpus machine_name s with
                | inl e => inl e
                | inr s => launch_options args vcpus machine_name s
                end
            | None =>
                match args with
                | [] => inl "missing QEMU model option value"%string
                | value :: args =>
                    match model_option k value vcpus machine_name s with
                    | inl e => inl e
                    | inr s => launch_options args vcpus machine_name s
                    end
                end
            end
        end
  end.

Definition newline : ascii := char 10.
Definition tab : ascii := char 9.

Definition coldFireLaunchError (args : list text) (vcpus : Z) (machine_name : text) : option string :=
  if (vcpus <? 1) || (2 <? vcpus) then Some "ColdFire adapter requires one or two CPUs"%string
  else if bool_decide (machine_name = []) || has_any [","; " "; tab; newline; "="]%char machine_name
  then Some "ColdFire adapter requires an explicit platform_machine name"%string
  else
    match launch_options args vcpus machine_name (mkSeen false false false false) with
    | inl e => Some e
    | inr s =>
        if negb (machine_seen s) then Some "ColdFire adapter requires an explicit QEMU machine"%string
        else if (vcpus =? 2) && (negb (smp_seen s) || negb (accel_seen s))
        then Some "two CPUs require explicit -smp 2 and single-thread TCG"%string
        else None
    end.

Definition windowCacheLaunchError (args : list text) (vcpus : Z) (machine : text) : option string :=
  coldFireLaunchError args vcpus machine.
Definition multicoreLaunchError (vcpus : Z) (args : list text) (machine : text) : option string :=
  if negb (vcpus =? 2) then Some "system multicore requires exactly two CPUs"%string
  else coldFireLaunchError args vcpus machine.
