(* ===== verification/PlatformThm.v ===== *)
(** * What is accepted is what the platform means

    Reference reading of a QEMU command line and the theorems on Platform.v:
    a command line is accepted exactly when it selects one ColdFire machine;
    the native regions of a configuration are read as they were written, and
    those accepted can be placed in the shared segment. *)
From S2P Require Import Prelude.
From S2P Require Import Text.
From S2P Require Import NativeRam.
From S2P Require Import Platform.

(** ** Command lines *)

(** The model options of a command line, in order; none if one is forbidden
    or has no value. *)
Fixpoint model_options (args : list text) : option (list (Model * text)) :=
  match args with
  | [] => Some []
  | arg :: args =>
      let '(key, v) := option_key arg in
      if forbidden_key key then None
      else
        match model_key key with
        | None => model_options args
        | Some k =>
            match v with
            | Some value => cons (k, value) <$> model_options args
            | None => match args with [] => None | value :: args => cons (k, value) <$> model_options args end
            end
        end
  end.

Definition values (k : Model) (l : list (Model * text)) : list text :=
  (List.filter (fun p => bool_decide (p.1 = k)) l).*2.

Definition machine_value (name v : text) : Prop :=
  (cut "," v).1 = name /\ contains (tx ",type=") v = false /\ contains (tx ",accel=") v = false.
Definition accel_value (vcpus : Z) (v : text) : Prop := v = tx "tcg,thread=single" \/ (vcpus = 1 /\ v = tx "tcg").

(** The values a model option may have. *)
Definition value_ok (vcpus : Z) (name : text) (k : Model) (v : text) : Prop :=
  match k with
  | KMachine => machine_value name v
  | KCpu => v = tx "cfv4e"
  | KSmp => v = dec vcpus
  | KAccel => accel_value vcpus v
  end.
Definition seen (k : Model) (s : Seen) : bool :=
  match k with KMachine => machine_seen s | KCpu => cpu_seen s | KSmp => smp_seen s | KAccel => accel_seen s end.

Lemma model_option_ok k v vcpus name s s' : model_option k v vcpus name s = inr s' <->
  seen k s = false /\ value_ok vcpus name k v /\ seen k s' = true /\ forall k', k' <> k -> seen k' s' = seen k' s.
Proof.
  assert (Hw : forall b (e : string) (t : Seen), (if b : bool then inl e else inr t : string + Seen) = inr s' <-> b = false /\ s' = t).
  { intros [] e t; split; intros H; [discriminate | destruct H; discriminate | injection H as <-; auto | destruct H as [_ ->]; reflexivity]. }
  assert (He : forall t : Seen, s' = t <-> forall k, seen k s' = seen k t).
  { intros t. split; [intros ->; reflexivity |]. intros H. destruct s', t.
    pose proof (H KMachine). pose proof (H KCpu). pose proof (H KSmp). pose proof (H KAccel). cbn in *. congruence. }
  assert (Hk : forall t : Seen, (forall k', k' <> k -> seen k' t = seen k' s) -> seen k t = true ->
    s' = t <-> seen k s' = true /\ forall k', k' <> k -> seen k' s' = seen k' s).
  { intros t Ht Hs. rewrite He. split; [intros H; split; [rewrite H; exact Hs | intros k' Hne; rewrite H; auto] |].
    intros [H1 H2] k'. destruct (decide (k' = k)) as [->|Hne]; [congruence | rewrite H2, Ht by exact Hne; reflexivity]. }
  unfold lit in *. destruct k; cbn [model_option value_ok seen] in *; rewrite Hw.
  - rewrite (Hk (s <| machine_seen := true |>)) by (try (intros [] Hne; congruence || reflexivity); reflexivity).
    rewrite !orb_false_iff, negb_false_iff, bool_decide_eq_true. unfold machine_value. tauto.
  - rewrite (Hk (s <| cpu_seen := true |>)) by (try (intros [] Hne; congruence || reflexivity); reflexivity).
    unfold lit. rewrite !orb_false_iff, negb_false_iff, bool_decide_eq_true. tauto.
  - rewrite (Hk (s <| smp_seen := true |>)) by (try (intros [] Hne; congruence || reflexivity); reflexivity).
    rewrite !orb_false_iff, negb_false_iff, bool_decide_eq_true. tauto.
  - rewrite (Hk (s <| accel_seen := true |>)) by (try (intros [] Hne; congruence || reflexivity); reflexivity).
    unfold lit, accel_value. rewrite !orb_false_iff, andb_false_iff, !negb_false_iff, andb_true_iff, !bool_decide_eq_true, Z.eqb_eq. tauto.
Qed.

(** The options in order, against what was seen before. *)
Fixpoint check_options (l : list (Model * text)) (vcpus : Z) (name : text) (s : Seen) : string + Seen :=
  match l with
  | [] => inr s
  | (k, v) :: l => match model_option k v vcpus name s with inl e => inl e | inr s => check_options l vcpus name s end
  end.

Lemma launch_options_split args vcpus name s s' : launch_options args vcpus name s = inr s' <->
  exists l, model_options args = Some l /\ check_options l vcpus name s = inr s'.
Proof.
  remember (length args) as n eqn:Hn. revert args s Hn. induction n as [n IH] using lt_wf_ind. intros args s ->.
  destruct args as [|arg args]; cbn [launch_options model_options]; [split; [eauto | intros (l & [= <-] & H); exact H] |].
  destruct (option_key arg) as [key v]. destruct (forbidden_key key); [split; [discriminate | intros (l & H & _); discriminate] |].
  destruct (model_key key) as [k|]; [| apply (IH (length args)); cbn; lia].
  assert (Hstep : forall value rest, (length rest <= length args)%nat ->
    match model_option k value vcpus name s with inl e => inl e | inr s => launch_options rest vcpus name s end = inr s' <->
    exists l, cons (k, value) <$> model_options rest = Some l /\ check_options l vcpus name s = inr s').
  { intros value rest Hl. destruct (model_option k value vcpus name s) as [e|s1] eqn:E.
    - split; [discriminate |]. intros (l & H & Hc). apply fmap_Some in H as (l0 & _ & ->). cbn in Hc. rewrite E in Hc. discriminate.
    - rewrite (IH (length rest)) by (cbn; lia). split.
      + intros (l & H & Hc). exists ((k, value) :: l). rewrite H. cbn. rewrite E. auto.
      + intros (l & H & Hc). apply fmap_Some in H as (l0 & H0 & ->). cbn in Hc. rewrite E in Hc. eauto. }
  destruct v as [value|]; [apply Hstep; lia |]. destruct args as [|value rest]; [split; [discriminate | intros (l & H & _); discriminate] |].
  apply Hstep. cbn. lia.
Qed.

Lemma check_options_spec l vcpus name : forall s s', check_options l vcpus name s = inr s' <->
  forall k, match values k l with
            | [] => seen k s' = seen k s
            | [v] => seen k s = false /\ value_ok vcpus name k v /\ seen k s' = true
            | _ => False
            end.
Proof.
  induction l as [|[k v] l IH]; intros s s'; cbn [check_options].
  - cbn. split; [intros [= <-] k; reflexivity |]. intros H. destruct s, s'. pose proof (H KMachine). pose proof (H KCpu).
    pose proof (H KSmp). pose proof (H KAccel). cbn in *. congruence.
  - assert (Hv : forall k', values k' ((k, v) :: l) = if decide (k = k') then v :: values k' l else values k' l).
    { intros k'. unfold values. cbn. destruct (decide (k = k')); [rewrite bool_decide_true by assumption | rewrite bool_decide_false by assumption]; reflexivity. }
    split.
    + destruct (model_option k v vcpus name s) as [e|s1] eqn:E; [discriminate |]. intros H.
      apply model_option_ok in E as (E1 & E2 & E3 & E4). pose proof (proj1 (IH s1 s') H) as H'. intros k'. rewrite Hv.
      specialize (H' k'). destruct (decide (k = k')) as [<-|Hne].
      * destruct (values k l) as [|v' [|]]; [rewrite <- E3; auto | destruct H'; congruence | contradiction].
      * rewrite <- (E4 k') by congruence. exact H'.
    + intros H. pose proof (H k) as Hk. rewrite Hv, decide_True in Hk by reflexivity.
      destruct (values k l) as [|v' vs] eqn:Evk; [| contradiction]. destruct Hk as (K1 & K2 & K3).
      set (s1 := match k with KMachine => s <| machine_seen := true |> | KCpu => s <| cpu_seen := true |>
                 | KSmp => s <| smp_seen := true |> | KAccel => s <| accel_seen := true |> end).
      assert (E : model_option k v vcpus name s = inr s1).
      { apply model_option_ok. split; [exact K1 |]. split; [exact K2 |]. subst s1.
        split; [destruct k; reflexivity | intros k' Hne; destruct k, k'; congruence || reflexivity]. }
      rewrite E. apply IH. intros k'. specialize (H k'). rewrite Hv in H. apply model_option_ok in E as (_ & _ & E3 & E4).
      destruct (decide (k = k')) as [<-|Hne]; [rewrite Evk; congruence |]. rewrite (E4 k') by congruence. exact H.
Qed.

(** A machine's name: not empty, and one word of one option. *)
Definition name_ok (name : text) : Prop := name <> [] /\ has_any [","; " "; tab; newline; "="]%char name = false.

(** What the adapter promises of an accepted command line. *)
Definition launch_ok (args : list text) (vcpus : Z) (name : text) : Prop :=
  1 <= vcpus <= 2 /\ name_ok name /\
  exists l, model_options args = Some l /\
    (exists v, values KMachine l = [v] /\ machine_value name v) /\
    (values KCpu l = [] \/ values KCpu l = [tx "cfv4e"]) /\
    (values KSmp l = [] /\ vcpus = 1 \/ values KSmp l = [dec vcpus]) /\
    (values KAccel l = [] /\ vcpus = 1 \/ exists v, values KAccel l = [v] /\ accel_value vcpus v).

Lemma coldFireLaunchError_none args vcpus name : coldFireLaunchError args vcpus name = None <-> launch_ok args vcpus name.
Proof.
  unfold coldFireLaunchError, launch_ok, name_ok.
  destruct (_ || _) eqn:E1; [split; [discriminate | intros (H & _); lia] |]. apply orb_false_iff in E1.
  destruct (_ || _) eqn:E2 in |- *; [split; [discriminate |] |].
  { intros (_ & [H1 H2] & _). rewrite H2, bool_decide_false in E2 by exact H1. discriminate. }
  apply orb_false_iff in E2 as [E2 E3]. apply bool_decide_eq_false in E2.
  destruct (launch_options args vcpus name _) as [e|s'] eqn:E.
  - split; [discriminate |]. intros (Hv & _ & l & Hl & (v & M1 & M2) & Hc & Hs & Ha). exfalso.
    assert (Hgo : exists s', launch_options args vcpus name (mkSeen false false false false) = inr s').
    { exists (mkSeen true (negb (bool_decide (values KCpu l = []))) (negb (bool_decide (values KSmp l = []))) (negb (bool_decide (values KAccel l = [])))).
      apply launch_options_split. exists l. split; [exact Hl |]. apply check_options_spec. intros [].
      - rewrite M1. auto.
      - destruct Hc as [-> | ->]; cbn; auto.
      - destruct Hs as [[-> _] | ->]; cbn; auto.
      - destruct Ha as [[-> _] | (w & -> & Hw)]; cbn; auto. }
    destruct Hgo as (s' & Hs'). congruence.
  - apply launch_options_split in E as (l & Hl & E). rewrite check_options_spec in E.
    pose proof (E KMachine) as Em. pose proof (E KCpu) as Ec. pose proof (E KSmp) as Es. pose proof (E KAccel) as Ea. clear E.
    cbn [seen machine_seen cpu_seen smp_seen accel_seen] in *. split.
    + intros H. destruct (machine_seen s') eqn:Hm; [| discriminate]. cbn [negb] in H.
      destruct (_ && _) eqn:H2 in H; [discriminate |]. split; [lia |]. split; [auto |]. exists l. split; [exact Hl |].
      destruct (values KMachine l) as [|v [|]]; [discriminate | | contradiction].
      destruct (values KCpu l) as [|vc [|]]; [| | contradiction];
      destruct (values KSmp l) as [|vs [|]]; try contradiction; destruct (values KAccel l) as [|va [|]]; try contradiction;
      repeat match goal with H : _ /\ _ |- _ => destruct H end; cbn [value_ok] in *; subst;
      (split; [eauto |]); (split; [auto |]);
      (assert (Hone : smp_seen s' = false \/ accel_seen s' = false -> vcpus = 1)
        by (intros [Hx|Hx]; rewrite Hx in H2; cbn in H2; rewrite ?orb_true_r, ?andb_true_r in H2; lia));
      (split; [auto | eauto]).
    + intros (_ & _ & l' & Hl' & (v & M1 & M2) & Hc & Hs & Ha). replace l' with l in * by congruence.
      rewrite M1 in Em. destruct Em as (_ & _ & ->). cbn [negb].
      destruct (Z.eqb_spec vcpus 2) as [H2|]; [| reflexivity].
      destruct Hs as [[_ ?] | Hs]; [lia |]. destruct Ha as [[_ ?] | (w & Hw & _)]; [lia |].
      rewrite Hs in Es. rewrite Hw in Ea. destruct Es as (_ & _ & ->), Ea as (_ & _ & ->). reflexivity.
Qed.


(** ** Native regions *)

Lemma hex_allowed n : 0 <= n -> existsb (fun c => negb (existsb (Ascii.eqb c) digits_of_numbers)) (tx "0x" ++ hex n) = false.
Proof.
  intros Hn. rewrite existsb_app. apply orb_false_iff. split; [reflexivity |].
  apply not_true_is_false. intros H. apply existsb_exists in H as (c & Hin & Hc). apply list_elem_of_In in Hin.
  pose proof (code_hex c n Hin Hn) as Hr. clear Hin. apply negb_true_iff in Hc. revert Hc Hr.
  destruct c as [[] [] [] [] [] [] [] []]; vm_compute; intuition congruence.
Qed.

Lemma region_number_hex n : is_u64 n -> region_number (tx "0x" ++ hex n) = Ok n.
Proof.
  intros Hn. unfold region_number. rewrite hex_allowed by apply Hn. rewrite bool_decide_false by discriminate. cbn [orb throw_if mbind result_bind].
  unfold stoull. rewrite <- (app_nil_r (hex n)), strtoull_hex by (assumption || exact I). reflexivity.
Qed.

(** A configuration's text for regions. *)
Definition region_text (r : NativeRegion) : text := tx "0x" ++ hex (base r) ++ ":"%char :: tx "0x" ++ hex (size r).
Definition regions_text (rs : list NativeRegion) : text := join ";" (region_text <$> rs).

Lemma not_in_hex c n : 0 <= n -> code c = 58 \/ code c = 59 -> c ∉ tx "0x" ++ hex n.
Proof.
  intros Hn Hc [H|H]%elem_of_app; [| apply (code_hex c n) in H; lia].
  assert (c = "0"%char \/ c = "x"%char) as [-> | ->] ; [| destruct Hc; discriminate..].
  cbn in H. rewrite !elem_of_cons, elem_of_nil in H. tauto.
Qed.

Lemma region_text_cut r : 0 <= base r -> cut ":" (region_text r) = (tx "0x" ++ hex (base r), Some (tx "0x" ++ hex (size r))).
Proof. intros Hb. unfold region_text. rewrite app_assoc. apply cut_app. apply not_in_hex; [exact Hb | auto]. Qed.

Lemma contains_none c s : c ∉ s -> contains [c] s = false.
Proof.
  induction s as [|a s IH]; intros H; [reflexivity |]. apply not_elem_of_cons in H as [Hne H]. cbn.
  destruct (Ascii.eqb_spec c a) as [->|]; [congruence |]. exact (IH H).
Qed.

Definition regions_ok (rs : list NativeRegion) : Prop :=
  (length rs <= 2)%nat /\ requests_ok rs /\ Forall request_fields rs /\ Forall (fun r => offset r = 0 /\ reserved r = 0) rs.

Lemma region_checks b n : is_u64 b -> is_u64 n ->
  (n =? 0) || (QUETZ_NATIVE_REGION_BYTES <? n) || negb (Z.land n 4095 =? 0) || negb (Z.land b 4095 =? 0) ||
    (2 ^ 32 <=? b) || (2 ^ 32 - b <? n) = false <-> request_ok (mkRegion b n 0 0).
Proof.
  intros Hb Hn. unfold request_ok, QUETZ_NATIVE_REGION_BYTES. cbn [NativeRam.base NativeRam.size].
  rewrite !land_page, !orb_false_iff, !negb_false_iff, !Z.eqb_eq, Z.eqb_neq, !Z.ltb_ge, Z.leb_gt. unfold is_word in *. pow2. lia.
Qed.

Lemma region_overlap b n r : request_ok (mkRegion b n 0 0) -> request_ok r -> is_u64 b -> request_fields r ->
  (b <? u64 (base r + size r)) && (base r <? u64 (b + n)) = false <-> apart r (mkRegion b n 0 0).
Proof.
  intros H1 H2 Hb [Hr1 Hr2]. unfold request_ok, apart, QUETZ_NATIVE_REGION_BYTES in *. cbn [NativeRam.base NativeRam.size] in *.
  rewrite !wrap_small by word. rewrite andb_false_iff, !Z.ltb_ge. lia.
Qed.

(** One item: read, checked against those before it and added. *)
Lemma parse_region_ok item rs rs' : regions_ok rs -> parse_region item rs = Ok rs' -> regions_ok rs'.
Proof.
  intros (Hl & [Ho Ha] & Hf & Hz) E. unfold parse_region in E. destruct (cut ":" item) as [b [n|]]; [| discriminate].
  assert (Hnum : forall s v, region_number s = Ok v -> is_u64 v).
  { unfold region_number, stoull. intros s v Ev. apply bind_ok in Ev as (u & _ & Ev). apply bind_ok in Ev as ([w r] & Ev & Ev').
    apply bind_ok in Ev as (u1 & _ & Ev). apply bind_ok in Ev as (u2 & _ & Ev). injection Ev as <- <-.
    apply bind_ok in Ev' as (u3 & _ & Ev'). injection Ev' as <-. apply strtoull_range. }
  apply bind_ok in E as (u & _ & E). apply bind_ok in E as (b0 & Eb & E). apply bind_ok in E as (n0 & En & E).
  apply bind_ok in E as (u1 & E1 & E). apply bind_ok in E as (u2 & E2 & E). apply bind_ok in E as (u3 & E3 & E). injection E as <-.
  apply throw_if_ok in E1, E2, E3. apply Hnum in Eb, En. apply (region_checks b0 n0 Eb En) in E1.
  assert (Hb : u32 b0 = b0 /\ u32 n0 = n0).
  { destruct E1 as (? & _ & _ & ?). cbn [NativeRam.base NativeRam.size] in *. unfold QUETZ_NATIVE_REGION_BYTES in *. split; apply wrap_small; word. }
  destruct Hb as [-> ->]. unfold QUETZ_MAX_NATIVE_REGIONS in E3.
  assert (Hfn : request_fields (mkRegion b0 n0 0 0)).
  { destruct E1 as (? & _ & _ & ?). cbn [NativeRam.base NativeRam.size] in *. unfold QUETZ_NATIVE_REGION_BYTES in *.
    split; cbn [NativeRam.base NativeRam.size]; word. }
  split; [rewrite length_app; cbn; lia |]. split; [| split; apply Forall_app; auto].
  split; [apply Forall_app; auto |]. destruct rs as [|r [|r' [|]]]; cbn in Hl, E3 |- *; try exact I; try lia.
  rewrite !Forall_singleton in *. cbn in E2. rewrite orb_false_r in E2. apply region_overlap in E2; auto.
Qed.

Lemma parse_items_ok items : forall rs rs', regions_ok rs -> parse_items items rs = Ok rs' -> regions_ok rs'.
Proof.
  induction items as [|item items IH]; intros rs rs' H E; cbn [parse_items] in E; [injection E as <-; exact H |].
  apply bind_ok in E as (rs1 & E1 & E). apply (parse_region_ok _ _ _ H) in E1.
  destruct items as [|[|] [|]]; try discriminate; eauto.
Qed.

Lemma regions0_ok : regions_ok [].
Proof. split; [cbn; lia |]. split; [split; [constructor | exact I] | split; constructor]. Qed.

Lemma parsed_regions_ok value rs : parseNativeRegions value = Ok rs -> regions_ok rs.
Proof.
  destruct value as [|c value]; [intros [= <-]; apply regions0_ok |].
  apply parse_items_ok, regions0_ok.
Qed.

Lemma parse_region_text r rs : regions_ok (rs ++ [r]) -> parse_region (region_text r) rs = Ok (rs ++ [r]).
Proof.
  intros (Hl & [Ho Ha] & Hf & Hz). rewrite !Forall_app, !Forall_singleton in *. destruct Ho as [Ho Hr], Hf as [Hf [Hb Hs]], Hz as [_ [Hz1 Hz2]].
  assert (Hb' : is_u64 (base r)) by (unfold is_word in *; pow2; lia). assert (Hs' : is_u64 (size r)) by (unfold is_word in *; pow2; lia).
  unfold parse_region. rewrite region_text_cut by apply Hb.
  rewrite !bool_decide_false by discriminate. change (tx ":") with [":"%char]. rewrite contains_none by (apply not_in_hex; [apply Hs | auto]).
  cbn [orb throw_if mbind result_bind]. rewrite !region_number_hex by assumption. cbn [mbind result_bind].
  assert (E0 : r = mkRegion (base r) (size r) 0 0) by (destruct r; cbn in *; congruence).
  rewrite (proj2 (region_checks (base r) (size r) Hb' Hs')) by (rewrite <- E0; exact Hr). cbn [throw_if mbind result_bind].
  rewrite length_app in Hl. cbn in Hl.
  assert (Ee : existsb (fun x => (base r <? u64 (base x + size x)) && (base x <? u64 (base r + size r))) rs = false).
  { destruct rs as [|x [|]]; cbn in Hl; [reflexivity | | lia]. cbn [existsb]. rewrite orb_false_r.
    rewrite !Forall_singleton in *. apply region_overlap; rewrite <- ?E0; auto. }
  rewrite Ee. cbn [throw_if mbind result_bind]. unfold QUETZ_MAX_NATIVE_REGIONS. destruct (Z.eqb_spec (Z.of_nat (length rs)) 2); [lia |].
  cbn [throw_if mbind result_bind]. rewrite !wrap_small by assumption. rewrite <- E0. reflexivity.
Qed.

(** Regions written as text are read back as they were. *)
Lemma native_regions_read rs : regions_ok rs -> parseNativeRegions (regions_text rs) = Ok rs.
Proof.
  intros H. pose proof H as (Hl & [_ _] & Hf & _).
  assert (Hsep : Forall (fun s : text => ";"%char ∉ s) (region_text <$> rs)).
  { apply Forall_fmap. eapply Forall_impl; [exact Hf |]. intros r [Hb Hs]. change (";"%char ∉ region_text r). unfold region_text.
    rewrite app_assoc. apply not_elem_of_app. split; [apply not_in_hex; [apply Hb | auto] |].
    apply not_elem_of_cons. split; [discriminate | apply not_in_hex; [apply Hs | auto]]. }
  destruct rs as [|a [|b [|]]]; [reflexivity | | | cbn in Hl; lia].
  - change (parseNativeRegions (regions_text [a])) with (parse_items (split ";" (regions_text [a])) []).
    unfold regions_text. rewrite split_join by (discriminate || exact Hsep). cbn [fmap list_fmap parse_items].
    rewrite (parse_region_text a []) by exact H. reflexivity.
  - change (parseNativeRegions (regions_text [a; b])) with (parse_items (split ";" (regions_text [a; b])) []).
    unfold regions_text. rewrite split_join by (discriminate || exact Hsep). cbn [fmap list_fmap parse_items].
    rewrite (parse_region_text a []).
    + cbn [app mbind result_bind]. change (region_text b) with ("0"%char :: "x"%char :: hex (base b) ++ ":"%char :: tx "0x" ++ hex (size b)) at 1.
      cbv iota. change ("0"%char :: "x"%char :: hex (base b) ++ ":"%char :: tx "0x" ++ hex (size b)) with (region_text b).
      rewrite (parse_region_text b [a]) by exact H. reflexivity.
    + destruct H as (_ & [Ho _] & _ & Hz). split; [cbn; lia |]. cbn [app]. rewrite !Forall_cons in *.
      split; [split; [rewrite Forall_singleton; apply Ho | exact I] |]. split; constructor; auto; apply Hf || apply Hz.
Qed.

(** What the parser accepts can be placed: the shared segment's configuration
    of these regions succeeds wherever it is mapped, so the start of QEMU does
    not fail for them. *)
Lemma native_regions_accepted value rs s : parseNativeRegions value = Ok rs ->
  0 <= address s -> address s + storage_begin + storage_bytes < 2 ^ 64 -> length (native_regions s) = 2%nat ->
  (quetz_configure_native_regions (Some rs) (Z.of_nat (length rs)) s).1 = true.
Proof.
  intros E H1 H2 Hl. apply parsed_regions_ok in E as (Hn & Ho & Hf & _).
  rewrite configure_accepts by auto. apply bool_decide_eq_true. exact Ho.
Qed.

(** ** The theorems at concrete inputs *)

Definition demo_regions : list NativeRegion := [mkRegion 0x100000 4096 0 0; mkRegion 0x200000 65536 0 0].

Lemma demo_regions_ok : regions_ok demo_regions.
Proof.
  split; [cbn; lia |]. split; [apply (bool_decide_eq_true_1 _); vm_compute; reflexivity |].
  split; repeat constructor; vm_compute; congruence.
Qed.

Lemma native_regions_read_witness : regions_ok demo_regions /\
  parseNativeRegions (tx "0x100000:0x1000;0x200000:0x10000") = Ok demo_regions.
Proof. split; [exact demo_regions_ok |]. exact (native_regions_read demo_regions demo_regions_ok). Defined.

Lemma native_regions_accepted_witness : exists rs,
  parseNativeRegions (tx "1048576:4096") = Ok rs /\
  (quetz_configure_native_regions (Some rs) (Z.of_nat (length rs)) (mkShared 4096 0 [region0; region0] (fun _ => 0))).1 = true.
Proof.
  eexists. split; [vm_compute; reflexivity |].
  apply (native_regions_accepted (tx "1048576:4096")); vm_compute; try reflexivity; congruence.
Defined.
