(* ===== verification/Config.v ===== *)
(** * The component's configuration

    [src/src/quetz_config.cc], [quetz_config.h]: the fields and how they are
    read and checked; [quetz_config_manager.cc], [quetz_platform_profiles.cc]:
    the platform presets; the checks of [QuetzCPU]'s constructor in
    [quetzcpu.cc].

    SST's [Params] is a table of strings with typed lookups; the conversions
    of strings to numbers are SST's and arguments of the model.  [fatal] ends
    the simulation: a [Throw]. *)
From S2P Require Import Prelude.
From S2P Require Import Text.
From S2P Require Import Backing.
From S2P Require Import NativeRam.
From S2P Require Import WindowCache.
From S2P Require Import WindowCacheBank.
From S2P Require Import Command.
From S2P Require Import Platform.

(** ** Parameters *)

Definition Params : Type := text -> option text.

Record Conversions := mkConversions
  { to_int : text -> Z; to_uint32 : text -> Z; to_uint64 : text -> Z; to_bool : text -> bool }.

(** [Params::insert(key, value, false)]: a key already there is kept. *)
Definition insert_default (key value : text) (p : Params) : Params := fun k =>
  match p k with Some v => Some v | None => if bool_decide (k = key) then Some value else None end.

Definition find {T} (conv : text -> T) (p : Params) (key : string) (default : T) : T :=
  match p (tx key) with Some v => conv v | None => default end.
(** A key made of a stem and an index, [snprintf(buf, 256, "...%u", i)]. *)
Definition find_indexed (p : Params) (stem : string) (i : Z) : text := default [] (p (snprintf 256 (tx stem ++ dec i))).

(** ** [QuetzConfig] *)

Record RegionHandlerPreset := mkPreset { type : string; params : list (string * string) }.

Record QuetzConfig := mkQuetzConfig
  { verbosity : Z;
    vcpu_count : Z; max_core_queue : Z; max_pend_trans : Z; max_issue_cyc : Z; cache_line_sz : Z; cpu_clock : text;
    balar_doorbell_addr : Z; balar_doorbell_size : Z; balar_packet_flush_bytes : Z;
    async_offload : bool; async_doorbell_addr : Z; async_doorbell_size : Z; async_completion_depth : Z;
    architecture_adapter : text; platform_machine : text; cache_native_regions : list NativeRegion;
    sst_window_cache : bool; window_big_endian : bool; sst_window_base : Z; sst_window_size : Z;
    system_mode : bool; system_mode_loader : text; qemu_bin : text; qemu_plugin : text; executable : text;
    app_args : list text; qemu_extra_args : list text;
    stdin_file : text; stdout_file : text; stderr_file : text;
    max_insts : Z; check_addresses : Z; detailed_tracking : bool;
    isa_str : text; has_fpu : bool; has_vector : bool; vector_vlen : Z; vector_elen : Z;
    exec_latency : Z -> Z; compute_latency : Z -> Z;
    region_handlers : list RegionHandlerPreset; extra_env : list (text * text) }.

(** Entries of a zeroed array of the instruction classes. *)
Fixpoint latencies (l : list (Z * Z)) (cls : Z) : Z :=
  match l with [] => 0 | (c, v) :: l => if cls =? c then v else latencies l cls end.

Section FromParams.
Variable conv : Conversions.
Variable getenv : string -> option text.

(** The window of the environment: base and size; none, or an end before the
    start, leaves the size 0. *)
Definition env_window : Z * Z :=
  match getenv "QUETZ_SST_WIN_START", getenv "QUETZ_SST_WIN_END" with
  | Some ws, Some we =>
      let base := Text.value (strtoull ws) in
      let end_ := Text.value (strtoull we) in
      (base, if base <=? end_ then u64 (end_ - base + 1) else 0)
  | _, _ => (0, 0)
  end.

Definition check {A} (b : bool) (msg : string) (k : result A) : result A := throw_if b Fatal msg ≫= fun _ => k.

Definition regions_or_fatal (r : result (list NativeRegion)) : result (list NativeRegion) :=
  match r with Ok l => Ok l | Throw _ msg => Throw Fatal msg end.

(** The last checks of [fromParams], on the fields they read. *)
Definition adapter_checks (cfg : QuetzConfig) : result QuetzConfig :=
  let coldfire := lit "coldfire-v4e" (architecture_adapter cfg) in
  check (negb (bool_decide (architecture_adapter cfg = [])) && negb coldfire) "Unsupported architecture_adapter"
  (check ((sst_window_cache cfg || (system_mode cfg && (1 <? vcpu_count cfg))) && negb coldfire)
     "Cache/system multicore requires architecture_adapter=coldfire-v4e"
  (check (negb (bool_decide (cache_native_regions cfg = [])) && negb (sst_window_cache cfg))
     "cache_native_regions requires sst_window_cache=1"
  (if coldfire then
     check (negb (system_mode cfg)) "ColdFire adapter requires system mode"
     (match coldFireLaunchError (qemu_extra_args cfg) (vcpu_count cfg) (platform_machine cfg) with
      | Some e => Throw Fatal e
      | None => Ok cfg
      end)
   else Ok cfg))).

Definition config_fromParams (p : Params) : result QuetzConfig :=
  let u32 := find (to_uint32 conv) p in
  let u64 := find (to_uint64 conv) p in
  let flag := find (to_bool conv) p in
  let str := fun k d => find (fun s => s) p k (tx d) in
  let '(window_base, window_size) := env_window in
  let depth := u32 "async_completion_depth"%string 1 in
  check (flag "async_offload"%string false && (u64 "async_doorbell_addr"%string 0 =? 0)) "async_offload=1 requires async_doorbell_addr to be set"
  (native ← regions_or_fatal (parseNativeRegions (str "cache_native_regions"%string ""%string));
  check (flag "window_big_endian"%string false && (window_size =? 0)) "window_big_endian=1 but no SST window is configured"
  (check (bool_decide (str "executable"%string ""%string = [])) "No 'executable' parameter provided"
  (let compute := latencies
     [(QUETZ_INSN_INT_COMPUTE, u32 "compute_latency_int"%string 0); (QUETZ_INSN_FP_COMPUTE, u32 "compute_latency_fp"%string 0);
      (QUETZ_INSN_VEC_COMPUTE, u32 "compute_latency_vec"%string 0); (QUETZ_INSN_BRANCH, u32 "compute_latency_branch"%string 0);
      (QUETZ_INSN_OTHER, u32 "compute_latency_other"%string 0)] in
   let needs_detailed := negb (compute QUETZ_INSN_INT_COMPUTE =? 0) || negb (compute QUETZ_INSN_FP_COMPUTE =? 0) ||
     negb (compute QUETZ_INSN_VEC_COMPUTE =? 0) || negb (compute QUETZ_INSN_BRANCH =? 0) in
   check (needs_detailed && negb (flag "detailed_instruction_tracking"%string false))
     "compute_latency_int/fp/vec/branch require detailed_instruction_tracking=1"
  (adapter_checks
    {| verbosity := find (to_int conv) p "verbose" 0;
       vcpu_count := u32 "vcpu_count"%string 1; max_core_queue := u32 "maxcorequeue"%string 64;
       max_pend_trans := u32 "maxtranscore"%string 16; max_issue_cyc := u32 "maxissuepercycle"%string 1;
       cache_line_sz := u64 "cachelinesize"%string 64; cpu_clock := str "clock"%string "1GHz"%string;
       balar_doorbell_addr := u64 "balar_doorbell_addr"%string 0; balar_doorbell_size := u64 "balar_doorbell_size"%string 8;
       balar_packet_flush_bytes := u64 "balar_packet_flush_bytes"%string 4096;
       async_offload := flag "async_offload"%string false; async_doorbell_addr := u64 "async_doorbell_addr"%string 0;
       async_doorbell_size := u64 "async_doorbell_size"%string 0x40;
       async_completion_depth := if depth =? 0 then 1 else depth;
       architecture_adapter := str "architecture_adapter"%string ""%string; platform_machine := str "platform_machine"%string ""%string;
       cache_native_regions := native;
       sst_window_cache := flag "sst_window_cache"%string false; window_big_endian := flag "window_big_endian"%string false;
       sst_window_base := window_base; sst_window_size := window_size;
       system_mode := flag "system_mode"%string false; system_mode_loader := str "system_mode_loader"%string "-kernel"%string;
       qemu_bin := str "qemu"%string "qemu-riscv64"%string; qemu_plugin := str "qemu_plugin"%string ""%string;
       executable := str "executable"%string ""%string;
       app_args := find_indexed p "apparg" <$> seqZ 0 (u32 "appargcount"%string 0);
       qemu_extra_args := words (str "qemu_args"%string ""%string);
       stdin_file := str "appstdin"%string ""%string; stdout_file := str "appstdout"%string ""%string; stderr_file := str "appstderr"%string ""%string;
       max_insts := u64 "max_insts"%string 0; check_addresses := u32 "checkaddresses"%string 0;
       detailed_tracking := flag "detailed_instruction_tracking"%string false;
       isa_str := str "isa"%string ""%string; has_fpu := flag "has_fpu"%string false; has_vector := flag "has_vector"%string false;
       vector_vlen := u32 "vector_vlen"%string 128; vector_elen := u32 "vector_elen"%string 64;
       exec_latency := latencies
         [(QUETZ_INSN_INT_MEM, u32 "exec_latency_int"%string 0); (QUETZ_INSN_FP_MEM, u32 "exec_latency_fp"%string 0);
          (QUETZ_INSN_VEC_MEM, u32 "exec_latency_vec"%string 0)];
       compute_latency := compute;
       region_handlers := [];
       extra_env := (fun i => (find_indexed p "envparamname" i, find_indexed p "envparamval" i)) <$>
         seqZ 0 (find (to_int conv) p "envparamcount" (-1)) |})))).
End FromParams.

(** ** Presets *)

Record QuetzPlatformProfile := mkProfile
  { name : string; param_defaults : list (string * string); profile_handlers : list RegionHandlerPreset }.

Definition filtered (start end_ : string) : RegionHandlerPreset :=
  mkPreset "quetz.FilteredRegionHandler" [("start", start); ("end", end_)]%string.
Definition uart0 : RegionHandlerPreset :=
  mkPreset "quetz.UartRegionHandler" [("start", "0x10000000"); ("end", "0x10000FFF"); ("tx_offset", "0")]%string.

Definition quetzPlatformRegistry : list QuetzPlatformProfile :=
  [ mkProfile "riscv64_virt"
      [("qemu", "qemu-system-riscv64"); ("system_mode", "1"); ("system_mode_loader", "-kernel");
       ("qemu_args", "-machine virt -nographic -bios none"); ("isa", "rv64gc")]%string
      [filtered "0x0" "0x7FFFFFFF"];
    mkProfile "riscv64_virt_uart"
      [("qemu", "qemu-system-riscv64"); ("system_mode", "1"); ("system_mode_loader", "-kernel");
       ("qemu_args", "-machine virt -nographic -bios none"); ("isa", "rv64gc")]%string
      [uart0; filtered "0x0" "0x7FFFFFFF"];
    mkProfile "arm_m7"
      [("qemu", "qemu-system-arm"); ("system_mode", "1"); ("system_mode_loader", "-kernel");
       ("qemu_args", "-machine mps2-an500 -nographic -semihosting-config enable=on,target=native"); ("isa", "aarch32-m7")]%string
      [filtered "0x40000000" "0xFFFFFFFF"];
    mkProfile "x86_baremetal"
      [("qemu", "qemu-system-i386"); ("system_mode", "1"); ("system_mode_loader", "-kernel"); ("isa", "x86")]%string [];
    mkProfile "riscv64_usermode" [("qemu", "qemu-riscv64"); ("system_mode", "0"); ("isa", "rv64gc")]%string [];
    mkProfile "aarch64_usermode" [("qemu", "qemu-aarch64"); ("system_mode", "0"); ("isa", "aarch64")]%string [];
    mkProfile "x86_64_usermode" [("qemu", "qemu-x86_64"); ("system_mode", "0"); ("isa", "x86_64")]%string [] ].

Definition findPlatform (n : text) : option QuetzPlatformProfile :=
  List.find (fun p => bool_decide (tx (name p) = n)) quetzPlatformRegistry.

Definition applyProfile (profile : QuetzPlatformProfile) (p : Params) : Params :=
  foldl (fun p kv => insert_default (tx kv.1) (tx kv.2) p) p (param_defaults profile).

(** The bounds of a handler's preset, later entries over earlier ones. *)
Fixpoint preset_bounds (l : list (string * string)) (start end_ : Z) : result (Z * Z) :=
  match l with
  | [] => Ok (start, end_)
  | (k, v) :: l =>
      if (k =? "start")%string then '(n, _) ← stoull (tx v); preset_bounds l n end_
      else if (k =? "end")%string then '(n, _) ← stoull (tx v); preset_bounds l start n
      else preset_bounds l start end_
  end.

(** [validateExtended]: the bounds are checked, and overlapping handlers
    reported. *)
Fixpoint validateExtended (handlers : list RegionHandlerPreset) : result () :=
  match handlers with
  | [] => Ok ()
  | h :: handlers =>
      '(start, end_) ← preset_bounds (params h) 0 0;
      check (end_ <? start) "region_handlers: start > end" (validateExtended handlers)
  end.

(** The reports: the handler that wins, its place, and the other. *)
Fixpoint overlaps_with (i : nat) (a : RegionHandlerPreset) (others : list RegionHandlerPreset) : result (list (nat * string * string)) :=
  match others with
  | [] => Ok []
  | b :: others =>
      '(a_start, a_end) ← preset_bounds (params a) 0 0;
      '(b_start, b_end) ← preset_bounds (params b) 0 0;
      rest ← overlaps_with i a others;
      Ok (if (a_start <=? b_end) && (b_start <=? a_end) then (i, type a, type b) :: rest else rest)
  end.
Fixpoint overlap_reports (i : nat) (handlers : list RegionHandlerPreset) : result (list (nat * string * string)) :=
  match handlers with
  | [] => Ok []
  | a :: others => l ← overlaps_with i a others; rest ← overlap_reports (S i) others; Ok (l ++ rest)
  end.

Definition with_handlers (l : list RegionHandlerPreset) (cfg : QuetzConfig) : QuetzConfig :=
  let 'mkQuetzConfig a1 a2 a3 a4 a5 a6 a7 a8 a9 a10 a11 a12 a13 a14 a15 a16 a17 a18 a19 a20 a21 a22 a23 a24 a25 a26 a27 a28
    a29 a30 a31 a32 a33 a34 a35 a36 a37 a38 a39 a40 a41 _ a43 := cfg in
  mkQuetzConfig a1 a2 a3 a4 a5 a6 a7 a8 a9 a10 a11 a12 a13 a14 a15 a16 a17 a18 a19 a20 a21 a22 a23 a24 a25 a26 a27 a28
    a29 a30 a31 a32 a33 a34 a35 a36 a37 a38 a39 a40 a41 l a43.

(** [QuetzConfigManager::fromParams] *)
Definition fromParams (conv : Conversions) (getenv : string -> option text) (p : Params) : result QuetzConfig :=
  let platform := find (fun s => s) p "platform" [] in
  profile ← (if bool_decide (platform = []) then Ok None
             else match findPlatform platform with Some q => Ok (Some q) | None => Throw Fatal "Unknown platform preset" end);
  let p := match profile with Some q => applyProfile q p | None => p end in
  cfg ← config_fromParams conv getenv p;
  let cfg := match profile with
             | Some q => if bool_decide (region_handlers cfg = []) then with_handlers (profile_handlers q) cfg else cfg
             | None => cfg
             end in
  validateExtended (region_handlers cfg) ≫= fun _ => Ok cfg.

(** ** The constructor's checks *)

Definition multicore_check {A} (cfg : QuetzConfig) (a : A) : result A :=
  if system_mode cfg && (1 <? vcpu_count cfg) then
    match multicoreLaunchError (vcpu_count cfg) (qemu_extra_args cfg) (platform_machine cfg) with
    | Some e => Throw Fatal e
    | None => Ok a
    end
  else Ok a.

(** The window caches [QuetzCPU] starts with, or the error it stops with. *)
Definition construct (cfg : QuetzConfig) : result WindowCacheBank :=
  bank ← (if sst_window_cache cfg then
            check (negb (system_mode cfg) || negb (window_big_endian cfg)) "sst_window_cache=1 requires big-endian system mode"
            (match windowCacheLaunchError (qemu_extra_args cfg) (vcpu_count cfg) (platform_machine cfg) with
             | Some e => Throw Fatal e
             | None =>
                 match (bank ← WindowCacheBank.configure (vcpu_count cfg) (sst_window_base cfg) (sst_window_size cfg) bank0;
                        foldl (fun b r => b ≫= WindowCacheBank.addRegion (NativeRam.base r) (NativeRam.size r)) (Ok bank) (cache_native_regions cfg)) with
                 | Throw _ msg => Throw Fatal msg
                 | Ok bank => Ok bank
                 end
             end)
          else Ok bank0);
  multicore_check cfg bank.
