(* ===== verification/ConfigThm.v ===== *)
(** * An accepted configuration is consistent

    The theorems on Config.v: what holds of every configuration the component
    accepts, whatever its parameters, environment and preset; what the presets
    mean; and which window caches the constructor starts with. *)
From S2P Require Import Prelude.
From S2P Require Import Text.
From S2P Require Import Backing.
From S2P Require Import NativeRam.
From S2P Require Import WindowCache.
From S2P Require Import WindowCacheSpec.
From S2P Require Import WindowCacheThm.
From S2P Require Import WindowCacheBank.
From S2P Require Import Command.
From S2P Require Import Platform.
From S2P Require Import PlatformThm.
From S2P Require Import Config.

(** ** Consistency *)

Definition coldfire (cfg : QuetzConfig) : Prop := architecture_adapter cfg = tx "coldfire-v4e".

Definition handler_ok (h : RegionHandlerPreset) : Prop := exists start end_, preset_bounds (params h) 0 0 = Ok (start, end_) /\ start <= end_.

Record consistent (cfg : QuetzConfig) : Prop :=
  { ok_executable : executable cfg <> [];
    ok_async : async_offload cfg = true -> async_doorbell_addr cfg <> 0;
    ok_depth : async_completion_depth cfg <> 0;
    ok_big_endian : window_big_endian cfg = true -> sst_window_size cfg <> 0;
    ok_window : is_u64 (sst_window_base cfg) /\ is_u64 (sst_window_size cfg);
    ok_native : PlatformThm.regions_ok (cache_native_regions cfg);
    ok_native_cache : cache_native_regions cfg <> [] -> sst_window_cache cfg = true;
    ok_detailed : forall cls, cls <> QUETZ_INSN_OTHER -> compute_latency cfg cls <> 0 -> detailed_tracking cfg = true;
    ok_adapter : architecture_adapter cfg = [] \/ coldfire cfg;
    ok_needs_coldfire : sst_window_cache cfg = true \/ (system_mode cfg = true /\ 1 < vcpu_count cfg) -> coldfire cfg;
    ok_coldfire : coldfire cfg -> system_mode cfg = true /\ launch_ok (qemu_extra_args cfg) (vcpu_count cfg) (platform_machine cfg);
    ok_handlers : Forall handler_ok (region_handlers cfg) }.

Lemma check_ok {A} b msg (k : result A) a : check b msg k = Ok a <-> b = false /\ k = Ok a.
Proof. unfold check. destruct b; cbn; split; intros H; [discriminate | destruct H; discriminate | auto | apply H]. Qed.

Lemma lit_spec s t : lit s t = true <-> t = tx s.
Proof. unfold lit. apply bool_decide_eq_true. Qed.

Lemma adapter_checks_ok cfg cfg' : adapter_checks cfg = Ok cfg' -> cfg' = cfg /\
  (architecture_adapter cfg = [] \/ coldfire cfg) /\
  (sst_window_cache cfg = true \/ (system_mode cfg = true /\ 1 < vcpu_count cfg) -> coldfire cfg) /\
  (cache_native_regions cfg <> [] -> sst_window_cache cfg = true) /\
  (coldfire cfg -> system_mode cfg = true /\ launch_ok (qemu_extra_args cfg) (vcpu_count cfg) (platform_machine cfg)).
Proof.
  unfold adapter_checks, coldfire. cbv zeta. rewrite !check_ok. intros (E1 & E2 & E3 & E). rewrite <- !lit_spec.
  destruct (lit "coldfire-v4e" (architecture_adapter cfg)); cbn [negb] in *; rewrite ?andb_true_r, ?andb_false_r in *.
  - apply check_ok in E as [Es E]. destruct (coldFireLaunchError _ _ _) eqn:El; [discriminate |]. injection E as <-.
    apply negb_false_iff in Es. apply coldFireLaunchError_none in El. repeat split; auto; try apply El.
    intros Hn. rewrite bool_decide_false in E3 by exact Hn. destruct (sst_window_cache cfg); [reflexivity | discriminate].
  - injection E as <-. apply negb_false_iff, bool_decide_eq_true in E1. apply orb_false_iff in E2 as [E2 E4].
    repeat split; auto; try discriminate.
    + intros [H | [H1 H2]]; [congruence |]. rewrite H1 in E4. cbn in E4. lia.
    + intros Hn. rewrite bool_decide_false in E3 by exact Hn. destruct (sst_window_cache cfg); [reflexivity | discriminate].
Qed.

Lemma latencies_other l cls : latencies l cls <> 0 -> cls ∈ l.*1.
Proof.
  induction l as [|[c v] l IH]; cbn; [congruence |]. destruct (Z.eqb_spec cls c) as [->|]; intros H; [left | right; auto].
Qed.

Lemma env_window_range getenv : is_u64 (env_window getenv).1 /\ is_u64 (env_window getenv).2.
Proof.
  unfold env_window. destruct (getenv "QUETZ_SST_WIN_START"%string) as [ws|], (getenv "QUETZ_SST_WIN_END"%string) as [we|]; cbn [fst snd]; try (split; word).
  split; [apply strtoull_range |]. destruct (_ <=? _); [apply is_word_wrap; lia | word].
Qed.

Lemma config_ok conv getenv p cfg : config_fromParams conv getenv p = Ok cfg -> consistent cfg /\ region_handlers cfg = [].
Proof.
  unfold config_fromParams. pose proof (env_window_range getenv) as Hw. destruct (env_window getenv) as [wb ws]. cbv zeta. rewrite check_ok. intros [E1 E].
  apply bind_ok in E as (native & En & E). rewrite !check_ok in E. destruct E as (E2 & E3 & E4 & E).
  apply adapter_checks_ok in E as (-> & A1 & A2 & A3 & A4). split; [| reflexivity].
  constructor; cbn [executable async_offload async_doorbell_addr async_completion_depth window_big_endian sst_window_base sst_window_size
    cache_native_regions sst_window_cache compute_latency detailed_tracking region_handlers] in *; auto.
  - intros H. apply bool_decide_eq_false in E3. exact (E3 H).
  - intros H. rewrite H in E1. cbn [andb] in E1. lia.
  - destruct (Z.eqb_spec (find (to_uint32 conv) p "async_completion_depth" 1) 0); lia.
  - intros H. rewrite H in E2. cbn [andb] in E2. lia.
  - unfold regions_or_fatal in En. destruct (parseNativeRegions _) as [l|] eqn:Ep in En; [| discriminate]. injection En as ->.
    apply parsed_regions_ok in Ep. exact Ep.
  - intros cls Hne Hc. set (comp := latencies _) in *. destruct (find (to_bool conv) p "detailed_instruction_tracking" false); [reflexivity | exfalso].
    cbn [negb] in E4. rewrite andb_true_r, !orb_false_iff, !negb_false_iff, !Z.eqb_eq in E4. destruct E4 as (((F1 & F2) & F3) & F4).
    pose proof (latencies_other _ _ Hc) as Hin. cbn in Hin. rewrite !elem_of_cons, elem_of_nil in Hin.
    destruct Hin as [->|[->|[->|[->|[->|[]]]]]]; congruence.
Qed.

Lemma validateExtended_ok l u : validateExtended l = Ok u -> Forall handler_ok l.
Proof.
  induction l as [|h l IH]; cbn; intros E; [constructor |]. apply bind_ok in E as ([a b] & Eb & E). apply check_ok in E as [Hc E].
  constructor; [| auto]. exists a, b. split; [exact Eb | lia].
Qed.

Lemma consistent_handlers cfg l : consistent cfg -> Forall handler_ok l -> consistent (with_handlers l cfg).
Proof. intros [] Hl. destruct cfg. constructor; assumption. Qed.

Lemma fromParams_consistent conv getenv p cfg : fromParams conv getenv p = Ok cfg -> consistent cfg.
Proof.
  unfold fromParams. cbv zeta. intros E. apply bind_ok in E as (profile & _ & E). apply bind_ok in E as (cfg0 & E0 & E).
  apply bind_ok in E as ([] & Ev & E). injection E as <-. destruct (config_ok _ _ _ _ E0) as [C Hh].
  apply validateExtended_ok in Ev. destruct profile as [q|]; [| exact C].
  rewrite Hh in Ev |- *. rewrite bool_decide_true in Ev |- * by reflexivity. apply consistent_handlers; [exact C |].
  destruct cfg0. exact Ev.
Qed.

(** The numbers of an accepted configuration are of their fields' width. *)
Record widths (cfg : QuetzConfig) : Prop :=
  { wd_vcpus : is_u32 (vcpu_count cfg); wd_queue : is_u32 (max_core_queue cfg); wd_pending : is_u32 (max_pend_trans cfg);
    wd_issue : is_u32 (max_issue_cyc cfg); wd_line : is_u64 (cache_line_sz cfg) }.
Lemma fromParams_widths conv getenv p cfg : (forall s, is_u32 (to_uint32 conv s)) -> (forall s, is_u64 (to_uint64 conv s)) ->
  fromParams conv getenv p = Ok cfg -> widths cfg.
Proof.
  intros H32 H64. unfold fromParams. cbv zeta. intros E. apply bind_ok in E as (profile & _ & E). apply bind_ok in E as (cfg0 & E0 & E).
  apply bind_ok in E as ([] & _ & E). injection E as <-.
  assert (G : widths cfg0).
  { unfold config_fromParams in E0. destruct (env_window getenv) as [wb ws]. cbv zeta in E0. rewrite check_ok in E0. destruct E0 as [_ E0].
    apply bind_ok in E0 as (native & _ & E0). rewrite !check_ok in E0. destruct E0 as (_ & _ & _ & E0).
    apply adapter_checks_ok in E0 as (-> & _).
    constructor; cbn [vcpu_count max_core_queue max_pend_trans max_issue_cyc cache_line_sz]; unfold find; case_match; auto; word. }
  destruct profile as [q|]; [| exact G]. case_bool_decide; [| exact G]. destruct cfg0, G. constructor; assumption.
Qed.

(** C24. Whatever the parameters, the environment and the preset: a configuration
    that is accepted has a program to run; a submit address if it offloads,
    and a depth of at least one; a window if it asks for its byte order;
    native regions that are well formed, disjoint, and only with the window
    cache; instruction classes if their latencies differ; the ColdFire adapter
    if it caches or has several CPUs in system mode, and then a command line
    that starts just that machine; and handlers whose ranges are not empty. *)
Theorem config_consistent conv getenv p cfg : fromParams conv getenv p = Ok cfg -> consistent cfg.
Proof. apply fromParams_consistent. Qed.

(** ** Presets *)

(** The default a preset gives a parameter: its first entry. *)
Definition preset_default (q : QuetzPlatformProfile) (k : text) : option text :=
  tx <$> (snd <$> List.find (fun kv => bool_decide (tx kv.1 = k)) (param_defaults q)).

Lemma applyProfile_lookup q p k : applyProfile q p k = match p k with Some v => Some v | None => preset_default q k end.
Proof.
  unfold applyProfile, preset_default. generalize (param_defaults q) as l. intros l. revert p.
  induction l as [|[a v] l IH]; intros p; cbn [foldl List.find fst snd]; [destruct (p k); reflexivity |].
  rewrite IH. unfold insert_default. destruct (p k) as [w|]; [reflexivity |].
  destruct (decide (k = tx a)) as [->|Hne].
  - rewrite !bool_decide_true by reflexivity. reflexivity.
  - rewrite !bool_decide_false by congruence. reflexivity.
Qed.

Lemma registry_valid : Forall (fun q => findPlatform (tx (name q)) = Some q /\ validateExtended (profile_handlers q) = Ok ()) quetzPlatformRegistry.
Proof. repeat constructor. Qed.

(** Selecting a preset of the registry by its name: every parameter the user
    gave is kept and every other has the preset's value, if it has one; the
    configuration is read from these and, having no handlers of its own, gets
    the preset's, which are always valid. *)
Lemma preset_applied q conv getenv p : q ∈ quetzPlatformRegistry -> p (tx "platform") = Some (tx (name q)) ->
  fromParams conv getenv p =
    (cfg ← config_fromParams conv getenv (applyProfile q p); Ok (with_handlers (profile_handlers q) cfg)) /\
  forall k, applyProfile q p k = match p k with Some v => Some v | None => preset_default q k end.
Proof.
  intros Hq Hp. destruct (proj1 (Forall_forall _ _) registry_valid q Hq) as [Hf Hv]. split; [| apply applyProfile_lookup].
  assert (Hn : tx (name q) <> []) by (revert Hq; rewrite list_elem_of_In; cbn; intuition (subst; discriminate)).
  unfold fromParams. replace (find (fun s => s) p "platform" []) with (tx (name q)) by (unfold find; rewrite Hp; reflexivity).
  cbv zeta. rewrite bool_decide_false by exact Hn. rewrite Hf. cbn [mbind result_bind].
  destruct (config_fromParams conv getenv (applyProfile q p)) as [cfg|] eqn:E; [| reflexivity]. cbn [mbind result_bind].
  destruct (config_ok _ _ _ _ E) as [_ ->]. rewrite bool_decide_true by reflexivity.
  replace (region_handlers (with_handlers (profile_handlers q) cfg)) with (profile_handlers q) by (destruct cfg; reflexivity).
  rewrite Hv. reflexivity.
Qed.

(** ** The window caches *)

Definition cache_with (rs : list Region) : WindowDataCache := cache0 <| WindowCache.regions := rs |>.

(** What a cached window may be. *)
Definition window_ok (b n : Z) : Prop := 0 < n <= 2 ^ 20 /\ b + n <= 2 ^ 32 /\ b mod 16 = 0 /\ n mod 16 = 0.

Definition native_region (r : NativeRegion) : Region := WindowCache.mkRegion (NativeRam.base r) (NativeRam.size r).

Lemma add_iff rs b n : WindowCacheThm.regions_ok rs -> is_u64 b -> is_u64 n ->
  match WindowCache.addRegion b n (cache_with rs) with
  | Ok c => c = cache_with (rs ++ [WindowCache.mkRegion b n]) /\ window_ok b n /\ Forall (disjoint b n) rs
  | Throw _ _ => ~ (window_ok b n /\ Forall (disjoint b n) rs)
  end.
Proof.
  intros Hr Hb Hn. pose proof (addRegion_iff (cache_with rs) b n Hr Hb Hn) as H. cbn [cache_with] in H.
  destruct (WindowCache.addRegion b n (cache_with rs)) as [c|e m] eqn:E.
  - destruct (proj1 H) as (_ & H1 & H2 & H3 & H4 & H5); [eauto |]. split; [| split; [split; auto | exact H5]].
    unfold WindowCache.addRegion in E. inv_ok. subst c. reflexivity.
  - intros [(H1 & H2 & H3 & H4) H5]. destruct (proj2 H) as [c Hc]; [| congruence]. repeat split; auto; apply H1.
Qed.

Lemma for_each_same f c o k : (0 < k)%nat -> for_each f (replicate k (mkState c o)) =
  match f c with Ok c' => Ok (replicate k (mkState c' o)) | Throw e m => Throw e m end.
Proof.
  intros Hk. destruct k as [|k]; [lia |]. clear Hk. induction k as [|k IH].
  - cbn. destruct (f c); reflexivity.
  - cbn [replicate for_each s_cache] in *. destruct (f c); [| reflexivity]. cbn [mbind result_bind] in *.
    destruct (for_each f (replicate k (mkState c o))) as [l|]; [| discriminate]. cbn in IH |- *. injection IH as ->. reflexivity.
Qed.

Definition bank_with (k : nat) (rs : list Region) : WindowCacheBank := mkBank (replicate k (mkState (cache_with rs) false)) ∅.

Lemma bank_idle k rs : WindowCacheBank.active (bank_with k rs) = false.
Proof.
  unfold WindowCacheBank.active, bank_with. cbn [pending states]. rewrite bool_decide_true by reflexivity. cbn [negb orb].
  apply not_true_is_false. intros H. apply existsb_exists in H as (s & Hin & Ha). apply list_elem_of_In, elem_of_replicate_inv in Hin as ->.
  discriminate.
Qed.

Lemma bank_add k rs b n : (0 < k)%nat -> WindowCacheThm.regions_ok rs -> is_u64 b -> is_u64 n ->
  match WindowCacheBank.addRegion b n (bank_with k rs) with
  | Ok b' => b' = bank_with k (rs ++ [WindowCache.mkRegion b n]) /\ window_ok b n /\ Forall (disjoint b n) rs
  | Throw _ _ => ~ (window_ok b n /\ Forall (disjoint b n) rs)
  end.
Proof.
  intros Hk Hr Hb Hn. pose proof (add_iff rs b n Hr Hb Hn) as H. unfold WindowCacheBank.addRegion. rewrite bank_idle. cbn [throw_if mbind result_bind].
  cbn [bank_with states]. rewrite for_each_same by exact Hk.
  destruct (WindowCache.addRegion b n (cache_with rs)) as [c|]; [| exact H]. destruct H as (-> & H). split; [reflexivity | exact H].
Qed.

(** Regions added one after the other. *)
Fixpoint apart_from (rs : list Region) (l : list NativeRegion) : Prop :=
  match l with [] => True | r :: l => Forall (disjoint (NativeRam.base r) (NativeRam.size r)) rs /\ apart_from (rs ++ [native_region r]) l end.

Lemma request_window r : request_ok r -> request_fields r ->
  is_u64 (NativeRam.base r) /\ is_u64 (NativeRam.size r) /\ window_ok (NativeRam.base r) (NativeRam.size r) /\ WindowCacheThm.region_ok (native_region r).
Proof.
  intros (H1 & H2 & H3 & H4) [Hb Hs]. unfold QUETZ_NATIVE_REGION_BYTES, window_ok, WindowCacheThm.region_ok, native_region, is_word in *. cbn in *.
  repeat split; try lia; dlia.
Qed.

Lemma fold_throw l e m : foldl (fun b r => b ≫= WindowCacheBank.addRegion (NativeRam.base r) (NativeRam.size r)) (Throw e m) l = Throw e m.
Proof. induction l; [reflexivity | exact IHl]. Qed.

Lemma fold_regions k l : (0 < k)%nat -> Forall request_ok l -> Forall request_fields l -> forall rs, WindowCacheThm.regions_ok rs ->
  match foldl (fun b r => b ≫= WindowCacheBank.addRegion (NativeRam.base r) (NativeRam.size r)) (Ok (bank_with k rs)) l with
  | Ok b => b = bank_with k (rs ++ (native_region <$> l)) /\ apart_from rs l
  | Throw _ _ => ~ apart_from rs l
  end.
Proof.
  intros Hk Ho Hf. induction l as [|r l IH]; intros rs Hr; cbn [foldl apart_from].
  - rewrite app_nil_r. auto.
  - apply Forall_cons in Ho as [Ho1 Ho], Hf as [Hf1 Hf]. destruct (request_window r Ho1 Hf1) as (Hb & Hs & Hw & Hreg).
    pose proof (bank_add k rs (NativeRam.base r) (NativeRam.size r) Hk Hr Hb Hs) as H. cbn [mbind result_bind].
    destruct (WindowCacheBank.addRegion _ _ (bank_with k rs)) as [b|e m].
    + destruct H as (-> & _ & Hd). specialize (IH Ho Hf (rs ++ [native_region r])).
      unfold native_region in IH at 2. rewrite <- app_assoc in IH. cbn [app fmap list_fmap] in IH |- *.
      assert (Hr' : WindowCacheThm.regions_ok (rs ++ [native_region r])) by (apply Forall_app; auto).
      specialize (IH Hr'). destruct (foldl _ _ l); [destruct IH; auto | tauto].
    + rewrite fold_throw. tauto.
Qed.

(** The window and the native regions of a configuration. *)
Definition window (cfg : QuetzConfig) : Region := WindowCache.mkRegion (sst_window_base cfg) (sst_window_size cfg).
Definition cached_regions (cfg : QuetzConfig) : list Region := window cfg :: (native_region <$> cache_native_regions cfg).
Definition cacheable (cfg : QuetzConfig) : Prop :=
  window_big_endian cfg = true /\ window_ok (sst_window_base cfg) (sst_window_size cfg) /\
  Forall (fun r => disjoint (NativeRam.base r) (NativeRam.size r) (window cfg)) (cache_native_regions cfg).

Lemma apart_natives cfg : PlatformThm.regions_ok (cache_native_regions cfg) ->
  apart_from [window cfg] (cache_native_regions cfg) <->
  Forall (fun r => disjoint (NativeRam.base r) (NativeRam.size r) (window cfg)) (cache_native_regions cfg).
Proof.
  intros (Hl & [_ Ha] & _). destruct (cache_native_regions cfg) as [|a [|b [|]]]; cbn [apart_from app] in *;
    rewrite ?Forall_cons, ?Forall_nil; [tauto | tauto | | cbn in Hl; lia].
  unfold apart, disjoint, native_region in *. cbn in *. intuition.
Qed.

Lemma multicore_passes {A} cfg (a : A) : consistent cfg -> multicore_check cfg a = Ok a.
Proof.
  intros C. unfold multicore_check. destruct (_ && _) eqn:H; [| reflexivity]. apply andb_true_iff in H as [H1 H2]. apply Z.ltb_lt in H2.
  destruct (ok_coldfire _ C) as [_ L]; [apply (ok_needs_coldfire _ C); auto |]. unfold multicoreLaunchError.
  pose proof L as ([_ H3] & _). replace (vcpu_count cfg =? 2) with true by lia. rewrite (proj2 (coldFireLaunchError_none _ _ _) L). reflexivity.
Qed.

(** The constructor of an accepted configuration fails exactly if it caches a
    window that the guest does not see in its own byte order, that is not a
    valid one for the caches, or that meets a native region.  Otherwise it
    starts, when caching, with one empty cache per vCPU over the window and
    the native regions. *)
Lemma constructed_caches cfg : consistent cfg ->
  match construct cfg with
  | Ok bank => if sst_window_cache cfg then cacheable cfg /\ bank = bank_with (Z.to_nat (vcpu_count cfg)) (cached_regions cfg)
               else bank = bank0
  | Throw _ _ => sst_window_cache cfg = true /\ ~ cacheable cfg
  end.
Proof.
  intros C. unfold construct. assert (Hrest : forall b : WindowCacheBank, multicore_check cfg b = Ok b) by (intros; apply multicore_passes, C).
  destruct (sst_window_cache cfg) eqn:Ew; [| cbn [mbind result_bind]; rewrite Hrest; reflexivity].
  destruct (ok_coldfire _ C) as [Hs L]; [apply (ok_needs_coldfire _ C); auto |]. rewrite Hs. cbn [negb orb].
  unfold check. destruct (window_big_endian cfg) eqn:Eb; cbn [negb throw_if mbind result_bind]; [| split; [reflexivity | intros [H _]; congruence]].
  unfold windowCacheLaunchError. rewrite (proj2 (coldFireLaunchError_none _ _ _) L).
  destruct L as (Hv & _). destruct (ok_window _ C) as [Hb Hn]. pose proof (ok_native _ C) as (Hl & [Ho Ha] & Hf & Hz).
  unfold WindowCacheBank.configure. replace (vcpu_count cfg <? 1) with false by lia. replace (2 <? vcpu_count cfg) with false by lia.
  change (WindowCacheBank.active bank0) with false. cbn [orb throw_if mbind result_bind].
  assert (Hk : (0 < Z.to_nat (vcpu_count cfg))%nat) by lia. rewrite for_each_same by exact Hk.
  change (WindowCache.configure (sst_window_base cfg) (sst_window_size cfg) cache0) with
    (WindowCache.addRegion (sst_window_base cfg) (sst_window_size cfg) (cache_with [])).
  pose proof (add_iff [] (sst_window_base cfg) (sst_window_size cfg) ltac:(constructor) Hb Hn) as H.
  destruct (WindowCache.addRegion _ _ (cache_with [])) as [c|e m].
  2: { cbn [mbind result_bind]. split; [reflexivity |]. intros (_ & H2 & _). apply H. split; [exact H2 | constructor]. }
  destruct H as (-> & Hw & _). cbn [mbind result_bind app].
  change (bank0 <| states := replicate (Z.to_nat (vcpu_count cfg)) (mkState (cache_with [WindowCache.mkRegion (sst_window_base cfg) (sst_window_size cfg)]) false) |>)
    with (bank_with (Z.to_nat (vcpu_count cfg)) [window cfg]).
  assert (Hr : WindowCacheThm.regions_ok [window cfg]).
  { constructor; [| constructor]. destruct Hw as (H1 & H2 & _). unfold WindowCacheThm.region_ok, window, is_word in *. cbn. lia. }
  pose proof (fold_regions _ _ Hk Ho Hf [window cfg] Hr) as Hfold. destruct (foldl _ _ _) as [bank|e m].
  - destruct Hfold as (-> & Hap). cbn [mbind result_bind]. rewrite Hrest. split; [| reflexivity].
    split; [exact Eb |]. split; [exact Hw |]. apply (apart_natives cfg (ok_native _ C)). exact Hap.
  - cbn [mbind result_bind]. split; [reflexivity |]. intros (_ & _ & Hd). apply Hfold, (apart_natives cfg (ok_native _ C)), Hd.
Qed.

(** ** Overlapping handlers *)

Definition meet (a b : RegionHandlerPreset) : Prop := exists s1 e1 s2 e2,
  preset_bounds (params a) 0 0 = Ok (s1, e1) /\ preset_bounds (params b) 0 0 = Ok (s2, e2) /\ s1 <= e2 /\ s2 <= e1.

Lemma overlaps_with_spec i a others : handler_ok a -> Forall handler_ok others ->
  exists r, overlaps_with i a others = Ok r /\ forall x, x ∈ r <-> exists b, b ∈ others /\ meet a b /\ x = (i, type a, type b).
Proof.
  intros (s1 & e1 & Ea & _). induction 1 as [|b others (s2 & e2 & Eb & _) _ (r & Er & Hr)]; cbn [overlaps_with].
  { exists []. split; [reflexivity |]. intros x. rewrite elem_of_nil. split; [tauto | intros (b & Hb & _); inversion Hb]. }
  rewrite Ea, Eb, Er. cbn [mbind result_bind]. eexists. split; [reflexivity |]. intros x.
  assert (Hm : meet a b <-> (s1 <=? e2) && (s2 <=? e1) = true).
  { rewrite andb_true_iff, !Z.leb_le. unfold meet. rewrite Ea, Eb. split; [intros (? & ? & ? & ? & [= <- <-] & [= <- <-] & H); exact H |].
    intros H. exists s1, e1, s2, e2. auto. }
  destruct (_ && _).
  - rewrite elem_of_cons, Hr. split.
    + intros [->|(b' & H1 & H2)]; [exists b; split; [left | split; [apply Hm; reflexivity | reflexivity]] | exists b'; split; [right; exact H1 | exact H2]].
    + intros (b' & H1 & H2 & ->). apply elem_of_cons in H1 as [->|H1]; [left; reflexivity | right; eauto].
  - rewrite Hr. split.
    + intros (b' & H1 & H2). exists b'. split; [right; exact H1 | exact H2].
    + intros (b' & H1 & H2 & ->). apply elem_of_cons in H1 as [->|H1]; [apply Hm in H2; discriminate | eauto].
Qed.

(** Accepted handlers are reported exactly where two of them meet, the earlier
    one as the winner, and the reports never fail. *)
Lemma overlap_reports_spec handlers : forall i, Forall handler_ok handlers ->
  exists r, overlap_reports i handlers = Ok r /\
    forall x, x ∈ r <-> exists j k a b, (j < k)%nat /\ handlers !! j = Some a /\ handlers !! k = Some b /\ meet a b /\ x = ((i + j)%nat, type a, type b).
Proof.
  induction handlers as [|a others IH]; intros i H; cbn [overlap_reports].
  { exists []. split; [reflexivity |]. intros x. rewrite elem_of_nil. split; [tauto | intros (j & k & ? & ? & _ & E & _); discriminate]. }
  apply Forall_cons in H as [Ha Ho]. destruct (overlaps_with_spec i a others Ha Ho) as (r1 & -> & H1). destruct (IH (S i) Ho) as (r2 & -> & H2).
  cbn [mbind result_bind]. eexists. split; [reflexivity |]. intros x. rewrite elem_of_app, H1, H2. split.
  - intros [(b & Hb & Hm & ->)|(j & k & a' & b & Hjk & Ej & Ek & Hm & ->)].
    + apply list_elem_of_lookup in Hb as [k Hk]. exists 0%nat, (S k), a, b. rewrite Nat.add_0_r. repeat split; (assumption || lia).
    + exists (S j), (S k), a', b. repeat split; try assumption; [lia | f_equal; f_equal; lia].
  - intros (j & k & a' & b & Hjk & Ej & Ek & Hm & ->). destruct k as [|k]; [lia |]. destruct j as [|j]; cbn in Ej, Ek.
    + injection Ej as <-. left. exists b. split; [eapply list_elem_of_lookup_2, Ek |]. split; [exact Hm | f_equal; f_equal; lia].
    + right. exists j, k, a', b. repeat split; try assumption; [lia | f_equal; f_equal; lia].
Qed.

(** ** The theorems at concrete inputs *)

Definition demo_number (s : text) : Z := Text.value (strtoull s).
Definition demo_conv : Conversions := mkConversions demo_number demo_number demo_number (fun s => lit "1" s).
Definition demo_table (l : list (string * string)) : Params := fun k => tx <$> (snd <$> List.find (fun kv => bool_decide (tx kv.1 = k)) l).
Definition demo_params : Params := demo_table
  [("executable", "fw.elf"); ("system_mode", "1"); ("architecture_adapter", "coldfire-v4e"); ("platform_machine", "mcf");
   ("qemu_args", "-M mcf -nographic"); ("sst_window_cache", "1"); ("window_big_endian", "1");
   ("cache_native_regions", "0x100000:0x1000")]%string.
Definition demo_getenv (s : string) : option text :=
  if (s =? "QUETZ_SST_WIN_START")%string then Some (tx "0x40000000")
  else if (s =? "QUETZ_SST_WIN_END")%string then Some (tx "0x4000ffff") else None.

Definition result_or {A} (d : A) (r : result A) : A := match r with Ok a => a | Throw _ _ => d end.
Definition config0 : QuetzConfig :=
  mkQuetzConfig 0 0 0 0 0 0 [] 0 0 0 false 0 0 0 [] [] [] false false 0 0 false [] [] [] [] [] [] [] [] [] 0 0 false [] false false 0 0
    (fun _ => 0) (fun _ => 0) [] [].
Definition demo_cfg : QuetzConfig := result_or config0 (fromParams demo_conv demo_getenv demo_params).

Lemma demo_config_read : fromParams demo_conv demo_getenv demo_params = Ok demo_cfg.
Proof. vm_compute. reflexivity. Qed.

Lemma config_consistent_witness : fromParams demo_conv demo_getenv demo_params = Ok demo_cfg /\ consistent demo_cfg.
Proof.
  split; [vm_compute; reflexivity |]. apply (config_consistent demo_conv demo_getenv demo_params). vm_compute. reflexivity.
Defined.

Lemma demo_consistent : consistent demo_cfg.
Proof.
  unfold demo_cfg. destruct (config_ok demo_conv demo_getenv demo_params demo_cfg) as [C _]; [vm_compute; reflexivity | exact C].
Qed.

Lemma constructed_caches_witness : consistent demo_cfg /\ cacheable demo_cfg /\
  construct demo_cfg = Ok (bank_with 1 [WindowCache.mkRegion 0x40000000 0x10000; WindowCache.mkRegion 0x100000 0x1000]).
Proof.
  pose proof (constructed_caches demo_cfg demo_consistent) as H.
  destruct (construct demo_cfg) as [bank|] eqn:E; [| vm_compute in E; discriminate].
  assert (Ew : sst_window_cache demo_cfg = true) by (vm_compute; reflexivity). rewrite Ew in H. destruct H as [H1 ->].
  split; [exact demo_consistent |]. split; [exact H1 |]. vm_compute. reflexivity.
Defined.

Definition demo_preset : Params := demo_table [("platform", "riscv64_virt"); ("executable", "a.elf"); ("isa", "rv64imac")]%string.

Lemma preset_applied_witness : exists q cfg, q ∈ quetzPlatformRegistry /\ fromParams demo_conv demo_getenv demo_preset = Ok cfg /\
  qemu_bin cfg = tx "qemu-system-riscv64" /\ isa_str cfg = tx "rv64imac" /\ region_handlers cfg = [filtered "0x0" "0x7FFFFFFF"].
Proof.
  exists (List.hd (mkProfile "" [] []) quetzPlatformRegistry).
  destruct (preset_applied (List.hd (mkProfile "" [] []) quetzPlatformRegistry) demo_conv demo_getenv demo_preset) as [E _];
    [left | vm_compute; reflexivity |].
  eexists. split; [left |]. rewrite E. split; [vm_compute; reflexivity |]. repeat split; vm_compute; reflexivity.
Defined.
