(* ===== verification/Launch.v ===== *)
(** * Starting the guest

    [src/src/quetz_launcher.cc], [QemuLauncher::spawn]: the command line and
    environment QEMU is started with; [qemu_plugin_install] of
    [src/src/qemu_plugin/plugin_main.cpp], which reads the plugin's part of it
    on the other side.

    The fork is in [Process] and what the child does up to its exec in
    [Child]; the environment, whether the installed plugin can be
    read, and the shared memory's vCPU count are arguments. *)
From S2P Require Import Prelude.
From S2P Require Import Text.
From S2P Require Import Command.
From S2P Require Import InsnClass.
From S2P Require Import Plugin.
From S2P Require Import Platform.
From S2P Require Import Config.

(** ** The command line *)

(** [0x%PRIx64] *)
Definition hex0x (n : Z) : text := tx "0x" ++ hex n.

Record Launch := mkLaunch
  { argv : list text;
    env : list (text * text);              (* [setenv] *)
    cache_ram_shm : option text }.         (* [QUETZ_CACHE_RAM_SHM], or unset *)

Section Spawn.
Variable getenv : string -> option text.
Variable readable : text -> bool.          (* [access(path, R_OK) == 0] *)
Variable QEMU_PLUGIN_INSTALL_DIR : text.

Definition launch_checks (cfg : QuetzConfig) : result () :=
  (if system_mode cfg && (1 <? vcpu_count cfg) then
     match multicoreLaunchError (vcpu_count cfg) (qemu_extra_args cfg) (platform_machine cfg) with
     | Some e => Throw Fatal e
     | None => Ok ()
     end
   else Ok ()) ≫= fun _ =>
  if sst_window_cache cfg then
    match windowCacheLaunchError (qemu_extra_args cfg) (vcpu_count cfg) (platform_machine cfg) with
    | Some e => Throw Fatal e
    | None => Ok ()
    end
  else Ok ().

Definition resolved_plugin (cfg : QuetzConfig) : result text :=
  match qemu_plugin cfg with
  | [] =>
      let libexec := QEMU_PLUGIN_INSTALL_DIR ++ tx "/libqemu_sst_plugin.so" in
      if readable libexec then Ok libexec else Throw Fatal "qemu_plugin path not specified"
  | p => Ok p
  end.

(** The MMIO aperture of the environment, if it is asked for: base and size. *)
Definition mmio_aperture : option (Z * Z) :=
  match getenv "QUETZ_MMIO_PAYLOAD", getenv "QUETZ_MMIO_START", getenv "QUETZ_MMIO_END" with
  | Some ("1"%char :: _), Some start, Some end_ =>
      let base := Text.value (strtoull start) in
      let e := Text.value (strtoull end_) in
      Some (base, if base <=? e then u64 (e - base + 1) else 0)
  | _, _, _ => None
  end.
Definition mmio_base : Z := match mmio_aperture with Some (b, _) => b | None => 0 end.
Definition mmio_size : Z := match mmio_aperture with Some (_, n) => n | None => 0 end.

Definition plugin_arg (cfg : QuetzConfig) (plugin shmem : text) (detailed : bool) : text :=
  plugin ++ tx ",shmname=" ++ shmem ++
  (if detailed then tx ",detailed=1" else []) ++
  (if sst_window_cache cfg then tx ",cache_ops=1" else []) ++
  (match mmio_aperture with
   | Some (b, n) => snprintf 128 (tx ",mmio_base=" ++ hex0x b ++ tx ",mmio_size=" ++ hex0x n)
   | None => []
   end) ++
  (if sst_window_size cfg =? 0 then []
   else snprintf 128 (tx ",win_base=" ++ hex0x (sst_window_base cfg) ++ tx ",win_size=" ++ hex0x (sst_window_size cfg))).

Definition explicit_cpu (args : list text) : bool :=
  existsb (fun a => lit "-cpu" a || lit "--cpu" a || bool_decide (is_Some (after (tx "-cpu=") a)) ||
                    bool_decide (is_Some (after (tx "--cpu=") a))) args.

(** A bridge device over an aperture. *)
Definition bridge_device (shmem : text) (base size : Z) (per_vcpu : bool) : text :=
  snprintf 256 (tx "sst-mmio-bridge,shmname=" ++ shmem ++ tx ",base=" ++ hex0x base ++ tx ",size=" ++ hex0x size ++ tx ",vcpu_id=0") ++
  (if per_vcpu then tx ",per-vcpu=on" else []).

(** What the environment adds for interrupts. *)
Definition irq_options : text :=
  match getenv "QUETZ_IRQ_LINES" with
  | Some lines =>
      if 0 <? Text.value (strtoull lines) then
        tx ",irq-count=" ++ lines ++
        match getenv "QUETZ_IRQ_POLL_NS" with Some (c :: s) => tx ",irq-poll-ns=" ++ c :: s | _ => [] end ++
        match getenv "QUETZ_IRQ_INTC_TYPE" with Some (c :: s) => tx ",intc-type=" ++ c :: s | _ => [] end
      else []
  | None => []
  end.

Definition user_range (shmem : text) (base size : Z) : text :=
  snprintf 256 (tx "shmname=" ++ shmem ++ tx ",base=" ++ hex0x base ++ tx ",size=" ++ hex0x size).

(** The part of the command line for the MMIO aperture, and for the window. *)
Definition mmio_args (cfg : QuetzConfig) (shmem : text) : list text :=
  if mmio_size =? 0 then []
  else if system_mode cfg then [tx "-device"; bridge_device shmem mmio_base mmio_size (1 <? vcpu_count cfg) ++ irq_options]
  else [tx "-sst-mmio-range"; user_range shmem mmio_base mmio_size].
Definition window_args (cfg : QuetzConfig) (shmem : text) : result (list text) :=
  if sst_window_size cfg =? 0 then Ok []
  else if negb (system_mode cfg) then Throw Fatal "QUETZ_SST_WIN_START/END is only supported in system mode"
  else Ok [tx "-device"; bridge_device shmem (sst_window_base cfg) (sst_window_size cfg) (1 <? vcpu_count cfg)].

Definition spawn (cfg : QuetzConfig) (shmem : text) (detailed : bool) : result Launch :=
  launch_checks cfg ≫= fun _ =>
  plugin ← resolved_plugin cfg;
  window ← window_args cfg shmem;
  let cpu := if lit "coldfire-v4e" (architecture_adapter cfg) && negb (explicit_cpu (qemu_extra_args cfg))
             then [tx "-cpu"; tx "cfv4e"] else [] in
  let loader := if system_mode cfg && negb (bool_decide (system_mode_loader cfg = [])) then [system_mode_loader cfg] else [] in
  Ok (mkLaunch
    (qemu_bin cfg :: qemu_extra_args cfg ++ cpu ++ tx "-plugin" :: plugin_arg cfg plugin shmem detailed ::
     mmio_args cfg shmem ++ window ++ loader ++ executable cfg :: app_args cfg)
    (extra_env cfg)
    (if sst_window_cache cfg then Some shmem else None)).
End Spawn.

(** ** The plugin's side *)

Record PluginArgs := mkPluginArgs
  { shmem_name : text; arg_cache_ops : bool; arg_detailed : bool;
    arg_mmio_base : Z; arg_mmio_size : Z; arg_win_base : Z; arg_win_size : Z }.
#[export] Instance PluginArgs_settable : Settable PluginArgs := fun g =>
  mkPluginArgs (shmem_name g) (arg_cache_ops g) (arg_detailed g) (arg_mmio_base g) (arg_mmio_size g) (arg_win_base g) (arg_win_size g).

Definition read_plugin_arg (g : PluginArgs) (a : text) : PluginArgs :=
  match after (tx "shmname=") a with
  | Some s => g <| shmem_name := s |>
  | None =>
  if lit "cache_ops=1" a then g <| arg_cache_ops := true |>
  else
  match after (tx "detailed=") a with
  | Some s => g <| arg_detailed := match s with c :: _ => Ascii.eqb c "1" | [] => false end |>
  | None =>
  match after (tx "mmio_base=") a with
  | Some s => g <| arg_mmio_base := Text.value (strtoull s) |>
  | None =>
  match after (tx "mmio_size=") a with
  | Some s => g <| arg_mmio_size := Text.value (strtoull s) |>
  | None =>
  match after (tx "win_base=") a with
  | Some s => g <| arg_win_base := Text.value (strtoull s) |>
  | None =>
  match after (tx "win_size=") a with
  | Some s => g <| arg_win_size := Text.value (strtoull s) |>
  | None => g
  end end end end end end.

Definition plugin_args0 : PluginArgs := mkPluginArgs [] false false 0 0 0 0.
Definition read_plugin_args (args : list text) : PluginArgs := foldl read_plugin_arg plugin_args0 args.

(** The registrations of the decoders' files, in any order. *)
Definition registrations : list (string * InsnClassifier) :=
  [("aarch64", Aarch64InsnClassifier); ("", GenericInsnClassifier); ("riscv", RiscvInsnClassifier)]%string.

(** [qemu_plugin_install], of the plugin interface of version 4: the
    configuration the callbacks work with, or an error; [attach]: the trace
    rings of a shared memory, if it can be attached. *)
Definition qemu_plugin_install (entries : list (string * InsnClassifier)) (target : string) (system_emulation : bool)
    (smp_vcpus : Z) (attach : text -> option Z) (args : list text) : result PluginConfig :=
  match findByPrefix target entries with
  | None => Throw RuntimeError "no classifier/handler for target"
  | Some k =>
      let g := read_plugin_args args in
      if arg_cache_ops g && (negb (target =? "m68k")%string || negb system_emulation || (arg_win_size g =? 0))
      then Throw RuntimeError "cache_ops=1 requires ColdFire system mode and an SST-backed window"
      else if bool_decide (shmem_name g = []) then Throw RuntimeError "no 'shmname=<name>' argument"
      else
        match attach (shmem_name g) with
        | None => Throw RuntimeError "failed to attach to shmem"
        | Some cores =>
            if (cores =? 0) || (PLUGIN_MAX_VCPUS <? cores) || (system_emulation && negb (smp_vcpus =? cores))
            then Throw RuntimeError "configured trace-ring count does not match the QEMU vCPU topology"
            else Ok (mkPluginConfig k (arg_cache_ops g) cores (arg_mmio_base g) (arg_mmio_size g) (arg_win_base g) (arg_win_size g))
        end
  end.
