(* ===== verification/LaunchThm.v ===== *)
(** * Both sides of the start agree

    What the launcher writes into QEMU's command line is what the plugin, and
    in user mode the fault handler, read from it: the theorems on Launch.v with
    Plugin.v and UserMmio.v. *)
From S2P Require Import Prelude.
From S2P Require Import Text.
From S2P Require Import Command.
From S2P Require Import InsnClass.
From S2P Require Import Plugin.
From S2P Require Import UserMmio.
From S2P Require Import UserMmioThm.
From S2P Require Import Platform.
From S2P Require Import PlatformThm.
From S2P Require Import Config.
From S2P Require Import ConfigThm.
From S2P Require Import Launch.

(** ** Printed numbers *)

Lemma length_hex0x n : (length (hex0x n) <= 22)%nat.
Proof. pose proof (length_write_digits 16 20 n []) as H. change (length (hex n) <= 20 + 0)%nat in H. change (length (hex0x n)) with (2 + length (hex n))%nat. lia. Qed.

Lemma strtoull_hex0x n : is_u64 n -> strtoull (hex0x n) = mkNumber n [] true false.
Proof. intros Hn. unfold hex0x. rewrite <- (app_nil_r (hex n)). apply strtoull_hex; [exact Hn | exact I]. Qed.

Lemma value_hex0x n : is_u64 n -> Text.value (strtoull (hex0x n)) = n.
Proof. intros Hn. rewrite strtoull_hex0x by exact Hn. reflexivity. Qed.

Lemma hex0x_no_comma n : 0 <= n -> ","%char ∉ hex0x n.
Proof.
  intros Hn [H|H]%elem_of_app; [cbn in H; rewrite !elem_of_cons, elem_of_nil in H; intuition discriminate |].
  apply (code_hex ","%char n) in H; [| exact Hn]. change (code ","%char) with 44 in H. lia.
Qed.

Lemma snprintf_fits n s : (length s < n)%nat -> snprintf n s = s.
Proof. intros H. unfold snprintf. apply take_ge. lia. Qed.

(** A key and a value without the separator. *)
Lemma field_no_comma (k : string) v : ","%char ∉ tx k -> ","%char ∉ v -> ","%char ∉ tx k ++ v.
Proof. intros. apply not_elem_of_app. auto. Qed.

Ltac no_comma := first
  [ assumption
  | apply hex0x_no_comma; unfold is_word in *; lia
  | apply field_no_comma; [cbn; rewrite ?not_elem_of_cons; repeat split; (discriminate || apply not_elem_of_nil) | no_comma]
  | cbn; rewrite ?not_elem_of_cons; repeat split; (discriminate || apply not_elem_of_nil) ].

Lemma join_cons c p l : join c (p :: l) = p ++ concat ((fun s => c :: s) <$> l).
Proof.
  revert p. induction l as [|s l IH]; intros p; [cbn; symmetry; apply app_nil_r |].
  change (join c (p :: s :: l)) with (p ++ c :: join c (s :: l)). rewrite IH. reflexivity.
Qed.

(** ** The plugin's options *)

Section Agreement.
Variable getenv : string -> option text.
Variable readable : text -> bool.
Variable install_dir : text.
Variable cfg : QuetzConfig.
Variable shmem : text.
Variable detailed : bool.
Hypothesis window_u64 : is_u64 (sst_window_base cfg) /\ is_u64 (sst_window_size cfg).
Hypothesis shmem_plain : ","%char ∉ shmem.
Hypothesis plugin_plain : forall p, resolved_plugin readable install_dir cfg = Ok p -> ","%char ∉ p.

Lemma aperture_u64 b n : mmio_aperture getenv = Some (b, n) -> is_u64 b /\ is_u64 n.
Proof.
  unfold mmio_aperture. destruct (getenv "QUETZ_MMIO_PAYLOAD"%string) as [[|c s]|]; try discriminate.
  destruct c as [[] [] [] [] [] [] [] []]; try discriminate.
  destruct (getenv "QUETZ_MMIO_START"%string) as [a|], (getenv "QUETZ_MMIO_END"%string) as [e|]; try discriminate.
  intros [= <- <-]. split; [apply strtoull_range |]. destruct (_ <=? _); [apply is_word_wrap; lia | word].
Qed.

Definition plugin_options : list text :=
  (tx "shmname=" ++ shmem) ::
  (if detailed then [tx "detailed=1"] else []) ++
  (if sst_window_cache cfg then [tx "cache_ops=1"] else []) ++
  (match mmio_aperture getenv with
   | Some (b, n) => [tx "mmio_base=" ++ hex0x b; tx "mmio_size=" ++ hex0x n]
   | None => []
   end) ++
  (if sst_window_size cfg =? 0 then []
   else [tx "win_base=" ++ hex0x (sst_window_base cfg); tx "win_size=" ++ hex0x (sst_window_size cfg)]).

Lemma plugin_arg_join p : plugin_arg getenv cfg p shmem detailed = join "," (p :: plugin_options).
Proof.
  rewrite join_cons. unfold plugin_arg, plugin_options. f_equal.
  cbn [fmap list_fmap concat]. rewrite <- app_comm_cons. change (tx ",shmname=") with (","%char :: tx "shmname=").
  rewrite <- !app_comm_cons. f_equal. rewrite <- !app_assoc. do 2 f_equal.
  rewrite !fmap_app, !concat_app. f_equal; [destruct detailed; reflexivity |].
  f_equal; [destruct (sst_window_cache cfg); reflexivity |]. f_equal.
  - destruct (mmio_aperture getenv) as [[b n]|]; [| reflexivity]. rewrite snprintf_fits.
    + cbn [fmap list_fmap concat]. rewrite app_nil_r. change (tx ",mmio_base=") with (","%char :: tx "mmio_base=").
      change (tx ",mmio_size=") with (","%char :: tx "mmio_size="). rewrite <- !app_comm_cons, <- !app_assoc. reflexivity.
    + rewrite !length_app. pose proof (length_hex0x b). pose proof (length_hex0x n).
      change (length (tx ",mmio_base=")) with 11%nat. change (length (tx ",mmio_size=")) with 11%nat. lia.
  - destruct (sst_window_size cfg =? 0); [reflexivity |]. rewrite snprintf_fits.
    + cbn [fmap list_fmap concat]. rewrite app_nil_r. change (tx ",win_base=") with (","%char :: tx "win_base=").
      change (tx ",win_size=") with (","%char :: tx "win_size="). rewrite <- !app_comm_cons, <- !app_assoc. reflexivity.
    + rewrite !length_app. pose proof (length_hex0x (sst_window_base cfg)). pose proof (length_hex0x (sst_window_size cfg)).
      change (length (tx ",win_base=")) with 10%nat. change (length (tx ",win_size=")) with 10%nat. lia.
Qed.

Lemma plugin_options_plain : Forall (fun s => ","%char ∉ s) plugin_options.
Proof.
  unfold plugin_options. destruct window_u64 as [Hb Hn]. constructor; [no_comma |]. rewrite !Forall_app. repeat split.
  - destruct detailed; repeat constructor; no_comma.
  - destruct (sst_window_cache cfg); repeat constructor; no_comma.
  - destruct (mmio_aperture getenv) as [[b n]|] eqn:E; [| constructor]. destruct (aperture_u64 b n E). repeat constructor; no_comma.
  - destruct (sst_window_size cfg =? 0); repeat constructor; no_comma.
Qed.

(** What the plugin is to know. *)
Definition told : PluginArgs :=
  mkPluginArgs shmem (sst_window_cache cfg) detailed (mmio_base getenv) (mmio_size getenv)
    (if sst_window_size cfg =? 0 then 0 else sst_window_base cfg) (sst_window_size cfg).

Lemma read_options : read_plugin_args plugin_options = told.
Proof.
  unfold read_plugin_args, plugin_options, told, mmio_base, mmio_size. destruct window_u64 as [Hb Hn].
  cbn [foldl]. rewrite !foldl_app.
  change (read_plugin_arg plugin_args0 (tx "shmname=" ++ shmem)) with (plugin_args0 <| shmem_name := shmem |>).
  assert (Emb : forall g n, is_u64 n -> read_plugin_arg g (tx "mmio_base=" ++ hex0x n) = g <| arg_mmio_base := n |>)
    by (intros g n H; transitivity (g <| arg_mmio_base := Text.value (strtoull (hex0x n)) |>); [reflexivity | rewrite value_hex0x by exact H; reflexivity]).
  assert (Ems : forall g n, is_u64 n -> read_plugin_arg g (tx "mmio_size=" ++ hex0x n) = g <| arg_mmio_size := n |>)
    by (intros g n H; transitivity (g <| arg_mmio_size := Text.value (strtoull (hex0x n)) |>); [reflexivity | rewrite value_hex0x by exact H; reflexivity]).
  assert (Ewb : forall g n, is_u64 n -> read_plugin_arg g (tx "win_base=" ++ hex0x n) = g <| arg_win_base := n |>)
    by (intros g n H; transitivity (g <| arg_win_base := Text.value (strtoull (hex0x n)) |>); [reflexivity | rewrite value_hex0x by exact H; reflexivity]).
  assert (Ews : forall g n, is_u64 n -> read_plugin_arg g (tx "win_size=" ++ hex0x n) = g <| arg_win_size := n |>)
    by (intros g n H; transitivity (g <| arg_win_size := Text.value (strtoull (hex0x n)) |>); [reflexivity | rewrite value_hex0x by exact H; reflexivity]).
  destruct (mmio_aperture getenv) as [[b n]|] eqn:Ea.
  - destruct (aperture_u64 b n Ea). destruct (Z.eqb_spec (sst_window_size cfg) 0) as [->|]; cbn [foldl]; rewrite ?Ews, ?Ewb, ?Ems, ?Emb by assumption;
      destruct detailed, (sst_window_cache cfg); reflexivity.
  - destruct (Z.eqb_spec (sst_window_size cfg) 0) as [->|]; cbn [foldl]; rewrite ?Ews, ?Ewb by assumption;
      destruct detailed, (sst_window_cache cfg); reflexivity.
Qed.
End Agreement.

(** ** The CPU type of a ColdFire machine *)

Lemma cut_spec c s : match cut c s with
  | (l, None) => s = l /\ c ∉ l
  | (l, Some r) => s = l ++ c :: r /\ c ∉ l
  end.
Proof.
  induction s as [|a s IH]; cbn [cut]; [split; [reflexivity | apply not_elem_of_nil] |].
  destruct (Ascii.eqb_spec a c) as [->|Hne]; [split; [reflexivity | apply not_elem_of_nil] |].
  destruct (cut c s) as [l [r|]]; destruct IH as [-> Hl]; (split; [reflexivity |]); apply not_elem_of_cons; auto.
Qed.

Lemma cut_key s k : "="%char ∉ k -> (cut "=" s).1 = k <-> s = k \/ exists r, s = k ++ "="%char :: r.
Proof.
  intros Hk. pose proof (cut_spec "=" s) as H. split.
  - destruct (cut "=" s) as [l [r|]]; cbn; intros <-; destruct H as [-> _]; eauto.
  - intros [-> | [r ->]]; [rewrite cut_whole by exact Hk | rewrite cut_app by exact Hk]; reflexivity.
Qed.

Definition cpu_argument (a : text) : Prop :=
  a = tx "-cpu" \/ a = tx "--cpu" \/ (exists r, a = tx "-cpu=" ++ r) \/ (exists r, a = tx "--cpu=" ++ r).

Lemma explicit_cpu_spec args : explicit_cpu args = true <-> Exists cpu_argument args.
Proof.
  unfold explicit_cpu. rewrite existsb_exists, Exists_exists. unfold cpu_argument, lit. split; intros (a & Hin & H); exists a;
    rewrite list_elem_of_In in *; (split; [exact Hin |]); revert H;
    rewrite !orb_true_iff, !bool_decide_eq_true; unfold is_Some; setoid_rewrite after_Some; tauto.
Qed.

Lemma cpu_key a : (option_key a).1 = tx "-cpu" <-> cpu_argument a.
Proof.
  unfold option_key, cpu_argument. destruct (after (tx "--") a) as [s|] eqn:E.
  - apply after_Some in E as ->. rewrite cut_key by (cbn; rewrite !not_elem_of_cons; repeat split; (discriminate || apply not_elem_of_nil)). split.
    + intros [H | [r H]]; [right; left | right; right; right; exists r]; cbn in H |- *; injection H as ->; reflexivity.
    + intros [H|[H|[[r H]|[r H]]]]; try discriminate; cbn in H; injection H as ->; eauto.
  - rewrite cut_key by (cbn; rewrite !not_elem_of_cons; repeat split; (discriminate || apply not_elem_of_nil)). split; [tauto |].
    intros [H|[H|[H|[r ->]]]]; auto; try discriminate. subst a. discriminate.
Qed.

Lemma cpu_model key : model_key key = Some KCpu <-> key = tx "-cpu".
Proof.
  unfold model_key, lit. split.
  - repeat case_bool_decide; cbn [orb]; intros; try discriminate; assumption.
  - intros ->. reflexivity.
Qed.

Lemma forbidden_not_cpu key : key = tx "-cpu" -> forbidden_key key = false.
Proof. intros ->. reflexivity. Qed.

Lemma values_forall l (P : Model -> text -> Prop) :
  (forall k v, In v (values k l) -> P k v) -> Forall (fun p => P p.1 p.2) l.
Proof.
  intros H. apply Forall_forall. intros [k v] Hin. apply H. unfold values. apply in_map_iff. exists (k, v). split; [reflexivity |].
  apply List.filter_In. split; [apply list_elem_of_In, Hin |]. apply bool_decide_eq_true. reflexivity.
Qed.

Lemma options_values_ok args vcpus name l : launch_ok args vcpus name -> model_options args = Some l ->
  Forall (fun p => value_ok vcpus name p.1 p.2) l.
Proof.
  intros (_ & _ & l' & E & (vm & Hm & Mv) & Hc & Hs & Ha) El. replace l' with l in * by congruence.
  apply (values_forall l (value_ok vcpus name)). intros [] v Hin; cbn [value_ok].
  - rewrite Hm in Hin. destruct Hin as [<-|[]]. exact Mv.
  - destruct Hc as [Hc|Hc]; rewrite Hc in Hin; [destruct Hin | destruct Hin as [<-|[]]; reflexivity].
  - destruct Hs as [[Hs _]|Hs]; rewrite Hs in Hin; [destruct Hin | destruct Hin as [<-|[]]; reflexivity].
  - destruct Ha as [[Ha _]|(w & Hw & Aw)]; [rewrite Ha in Hin; destruct Hin | rewrite Hw in Hin; destruct Hin as [<-|[]]; exact Aw].
Qed.

(** No value of an accepted option looks like a CPU option, unless the
    machine's name does. *)
Lemma value_no_cpu vcpus name k v : 1 <= vcpus <= 2 -> name_ok name -> ~ cpu_argument name -> value_ok vcpus name k v -> ~ cpu_argument v.
Proof.
  intros Hv [_ Hn] Hnc Hok Hc. destruct k; cbn in Hok.
  - destruct Hok as (Hm & _). apply Hnc. unfold cpu_argument in *.
    destruct Hc as [->|[->|[[r ->]|[r ->]]]].
    + left. symmetry. exact Hm.
    + right. left. symmetry. exact Hm.
    + exfalso. cbn in Hm. destruct (cut "," r) as [a b]. cbn in Hm. subst name. discriminate.
    + exfalso. cbn in Hm. destruct (cut "," r) as [a b]. cbn in Hm. subst name. discriminate.
  - subst v. destruct Hc as [H|[H|[[r H]|[r H]]]]; discriminate.
  - assert (vcpus = 1 \/ vcpus = 2) as [-> | ->] by lia; subst v; destruct Hc as [H|[H|[[r H]|[r H]]]]; discriminate.
  - destruct Hok as [-> | [_ ->]]; destruct Hc as [H|[H|[[r H]|[r H]]]]; discriminate.
Qed.

Lemma values_cons k k' v l : values k ((k', v) :: l) = if decide (k' = k) then v :: values k l else values k l.
Proof. unfold values. cbn. destruct (decide (k' = k)); [rewrite bool_decide_true by assumption | rewrite bool_decide_false by assumption]; reflexivity. Qed.

Lemma explicit_values vcpus name : 1 <= vcpus <= 2 -> name_ok name -> ~ cpu_argument name -> forall args l,
  model_options args = Some l -> Forall (fun p => value_ok vcpus name p.1 p.2) l -> Exists cpu_argument args <-> values KCpu l <> [].
Proof.
  intros Hv Hn Hnc args. remember (length args) as n eqn:Hlen. revert args Hlen.
  induction n as [n IH] using lt_wf_ind. intros args -> l E Hok. destruct args as [|arg args]; cbn [model_options] in E.
  - injection E as <-. rewrite Exists_nil. cbn. tauto.
  - pose proof (cpu_key arg) as Hk. destruct (option_key arg) as [key v]. cbn [fst] in Hk. rewrite Exists_cons, <- Hk.
    destruct (forbidden_key key); [discriminate |]. pose proof (cpu_model key) as Hm.
    destruct (model_key key) as [k|].
    + assert (Hkc : key = tx "-cpu" <-> k = KCpu) by (rewrite <- Hm; split; congruence).
      assert (Hstep : forall value l', l = (k, value) :: l' -> values KCpu l <> [] <-> k = KCpu \/ values KCpu l' <> []).
      { intros value l' ->. rewrite values_cons. destruct (decide (k = KCpu)); [split; [auto | discriminate] | tauto]. }
      destruct v as [value|].
      * apply fmap_Some in E as (l' & E & ->). apply Forall_cons in Hok as [_ Hok].
        rewrite (Hstep value l' eq_refl), Hkc, (IH (length args) ltac:(cbn; lia) args eq_refl l' E Hok). tauto.
      * destruct args as [|value args]; [discriminate |]. apply fmap_Some in E as (l' & E & ->). apply Forall_cons in Hok as [Hval Hok].
        rewrite Exists_cons, (Hstep value l' eq_refl), Hkc, (IH (length args) ltac:(cbn; lia) args eq_refl l' E Hok).
        pose proof (value_no_cpu vcpus name k value Hv Hn Hnc Hval). tauto.
    + rewrite (IH (length args) ltac:(cbn; lia) args eq_refl l E Hok). intuition congruence.
Qed.

Lemma model_options_app args l more : model_options args = Some l -> model_options (args ++ more) = app l <$> model_options more.
Proof.
  remember (length args) as n eqn:Hlen. revert args Hlen l. induction n as [n IH] using lt_wf_ind. intros args -> l E.
  destruct args as [|arg args]; cbn [model_options app] in *.
  - injection E as <-. destruct (model_options more); reflexivity.
  - destruct (option_key arg) as [key v]. destruct (forbidden_key key); [discriminate |].
    destruct (model_key key) as [k|]; [| apply (IH (length args)); [cbn; lia | reflexivity | exact E]].
    destruct v as [value|].
    + apply fmap_Some in E as (l' & E & ->). rewrite (IH (length args) ltac:(cbn; lia) args eq_refl l' E).
      destruct (model_options more); reflexivity.
    + destruct args as [|value args]; [discriminate |]. apply fmap_Some in E as (l' & E & ->). cbn [app].
      rewrite (IH (length args) ltac:(cbn; lia) args eq_refl l' E). destruct (model_options more); reflexivity.
Qed.

(** The arguments before [-plugin]. *)
Definition machine_args (cfg : QuetzConfig) : list text :=
  qemu_extra_args cfg ++
  (if lit "coldfire-v4e" (architecture_adapter cfg) && negb (explicit_cpu (qemu_extra_args cfg)) then [tx "-cpu"; tx "cfv4e"] else []).

Lemma coldfire_cpu cfg : coldfire cfg -> launch_ok (qemu_extra_args cfg) (vcpu_count cfg) (platform_machine cfg) ->
  ~ cpu_argument (platform_machine cfg) ->
  exists l, model_options (machine_args cfg) = Some l /\ values KCpu l = [tx "cfv4e"].
Proof.
  intros Hc L Hnc. unfold machine_args. rewrite (proj2 (lit_spec _ _) Hc). cbn [andb]. pose proof L as (Hv & Hn & l & El & _ & Hcpu & _).
  pose proof (explicit_values _ _ Hv Hn Hnc _ _ El (options_values_ok _ _ _ _ L El)) as He. rewrite <- explicit_cpu_spec in He.
  destruct (explicit_cpu (qemu_extra_args cfg)); cbn [negb].
  - rewrite app_nil_r. exists l. split; [exact El |]. destruct Hcpu as [H|H]; [| exact H]. destruct (proj1 He eq_refl). exact H.
  - rewrite (model_options_app _ _ _ El). exists (l ++ [(KCpu, tx "cfv4e")]). split; [reflexivity |].
    destruct Hcpu as [H|H].
    + unfold values in *. rewrite List.filter_app, fmap_app. rewrite H. reflexivity.
    + assert (false = true) as [=] by (apply He; rewrite H; discriminate).
Qed.

(** ** The start *)

Section Start.
Variable getenv : string -> option text.
Variable readable : text -> bool.
Variable install_dir : text.

Lemma launch_checks_pass cfg : consistent cfg -> launch_checks cfg = Ok ().
Proof.
  intros C. unfold launch_checks. pose proof (multicore_passes cfg () C) as Hm. unfold multicore_check in Hm. rewrite Hm. cbn [mbind result_bind].
  destruct (sst_window_cache cfg) eqn:Ew; [| reflexivity]. destruct (ok_coldfire _ C) as [_ L]; [apply (ok_needs_coldfire _ C); auto |].
  unfold windowCacheLaunchError. rewrite (proj2 (coldFireLaunchError_none _ _ _) L). reflexivity.
Qed.

(** An accepted configuration is started unless no plugin is found, or a window
    is set up for user mode.  QEMU then has the arguments of the user, and of a
    ColdFire machine exactly one CPU type, [cfv4e], whether the user named it
    or not. *)
Lemma spawn_starts cfg shmem detailed : consistent cfg ->
  match spawn getenv readable install_dir cfg shmem detailed with
  | Ok l => (exists arg post, argv l = qemu_bin cfg :: machine_args cfg ++ tx "-plugin" :: arg :: post) /\
            (coldfire cfg -> ~ cpu_argument (platform_machine cfg) ->
             exists o, model_options (machine_args cfg) = Some o /\ values KCpu o = [tx "cfv4e"])
  | Throw e _ => e = Fatal /\
      ((qemu_plugin cfg = [] /\ readable (install_dir ++ tx "/libqemu_sst_plugin.so") = false) \/
       (system_mode cfg = false /\ sst_window_size cfg <> 0))
  end.
Proof.
  intros C. unfold spawn. rewrite launch_checks_pass by exact C. cbn [mbind result_bind].
  unfold resolved_plugin. destruct (qemu_plugin cfg) as [|c p] eqn:Ep.
  - destruct (readable _) eqn:Er; cbn [mbind result_bind]; [| auto]. unfold window_args.
    destruct (Z.eqb_spec (sst_window_size cfg) 0); [| destruct (system_mode cfg); [| cbn; auto]]; cbn [negb mbind result_bind argv];
      (split; [do 2 eexists; unfold machine_args; rewrite <- app_assoc; reflexivity |]);
      intros Hc Hn; apply coldfire_cpu; auto; apply (ok_coldfire _ C Hc).
  - cbn [mbind result_bind]. unfold window_args.
    destruct (Z.eqb_spec (sst_window_size cfg) 0); [| destruct (system_mode cfg); [| cbn; auto]]; cbn [negb mbind result_bind argv];
      (split; [do 2 eexists; unfold machine_args; rewrite <- app_assoc; reflexivity |]);
      intros Hc Hn; apply coldfire_cpu; auto; apply (ok_coldfire _ C Hc).
Qed.

Section Told.
(** QEMU hands a plugin its options as the parts between commas, after the
    plugin's path. *)
Variable qemu_plugin_args : text -> list text.
Hypothesis qemu_splits : forall path opts, Forall (fun s => ","%char ∉ s) (path :: opts) -> qemu_plugin_args (join "," (path :: opts)) = opts.

Lemma spawn_ok cfg shmem detailed l : spawn getenv readable install_dir cfg shmem detailed = Ok l ->
  exists p w post, resolved_plugin readable install_dir cfg = Ok p /\ window_args cfg shmem = Ok w /\
    argv l = qemu_bin cfg :: machine_args cfg ++ tx "-plugin" :: plugin_arg getenv cfg p shmem detailed :: mmio_args getenv cfg shmem ++ w ++ post.
Proof.
  unfold spawn. intros E. inv_ok. subst l. do 3 eexists. split; [eassumption |]. split; [eassumption |].
  unfold machine_args. cbn [argv]. rewrite <- !app_assoc. reflexivity.
Qed.

(** C27. The plugin is told, through QEMU's command line, what the launcher was
    given: the shared memory, whether to follow cache instructions and to track
    in detail, the MMIO aperture of the environment and the window of the
    configuration - every number printed by one side and read by the other. *)
Theorem plugin_told cfg shmem detailed l : spawn getenv readable install_dir cfg shmem detailed = Ok l ->
  is_u64 (sst_window_base cfg) /\ is_u64 (sst_window_size cfg) -> ","%char ∉ shmem ->
  (forall p, resolved_plugin readable install_dir cfg = Ok p -> ","%char ∉ p) ->
  exists arg post, argv l = qemu_bin cfg :: machine_args cfg ++ tx "-plugin" :: arg :: post /\
    read_plugin_args (qemu_plugin_args arg) = told getenv cfg shmem detailed.
Proof.
  intros E Hw Hs Hp. destruct (spawn_ok _ _ _ _ E) as (p & w & post & Ep & _ & ->). do 2 eexists. split; [reflexivity |].
  rewrite plugin_arg_join, qemu_splits; [apply read_options; exact Hw |].
  constructor; [apply Hp, Ep | apply plugin_options_plain; assumption].
Qed.
End Told.

(** ** The aperture of user mode *)

Lemma range_number_hex0x n : is_u64 n -> range_number (hex0x n) = Ok n.
Proof. intros Hn. unfold range_number. rewrite strtoull_hex0x by exact Hn. reflexivity. Qed.

Lemma user_range_join shmem b n : (length shmem <= 128)%nat ->
  user_range shmem b n = join "," [tx "shmname=" ++ shmem; tx "base=" ++ hex0x b; tx "size=" ++ hex0x n].
Proof.
  intros Hl. unfold user_range. rewrite snprintf_fits.
  - rewrite join_cons. cbn [fmap list_fmap concat]. rewrite app_nil_r. change (tx ",base=") with (","%char :: tx "base=").
    change (tx ",size=") with (","%char :: tx "size="). rewrite <- !app_comm_cons, <- !app_assoc. reflexivity.
  - rewrite !length_app. pose proof (length_hex0x b). pose proof (length_hex0x n).
    change (length (tx "shmname=")) with 8%nat. change (length (tx ",base=")) with 6%nat. change (length (tx ",size=")) with 6%nat. lia.
Qed.

Lemma register_user_range {C} (attach : text -> option C) vcpu_count abi_max shmem b n c :
  shmem <> [] -> ","%char ∉ shmem -> (length shmem <= 128)%nat -> is_u64 b -> is_u64 n -> n <> 0 -> n <= abi_max -> b + n <= abi_max + 1 ->
  attach shmem = Some c -> vcpu_count c <> 0 -> vcpu_count c <= QUETZ_MAX_MMIO_VCORES ->
  sst_mmio_register_range attach vcpu_count abi_max (user_range shmem b n) [] = Ok [mkRange shmem b n 0 (Some c)].
Proof.
  intros Hs Hc Hl Hb Hn Hz Hm Hf Ha H1 H2. unfold sst_mmio_register_range. cbn [Datatypes.length Nat.leb MAX_RANGES].
  rewrite user_range_join by exact Hl. rewrite tokens_join.
  - cbn [range_fields].
    replace (range_field (tx "shmname=" ++ shmem) (mkRange [] 0 0 0 None)) with (Ok (mkRange shmem 0 0 0 (@None C))).
    2: { unfold range_field. rewrite after_app. destruct (Nat.leb_spec 256 (length shmem)); [lia | reflexivity]. }
    cbn [mbind result_bind].
    replace (range_field (tx "base=" ++ hex0x b) (mkRange shmem 0 0 0 None)) with (Ok (mkRange shmem b 0 0 (@None C))).
    2: { change (range_field (tx "base=" ++ hex0x b) (mkRange shmem 0 0 0 (@None C))) with
           (x ← range_number (hex0x b); Ok (mkRange shmem 0 0 0 (@None C) <| base := x |>)). rewrite range_number_hex0x by exact Hb. reflexivity. }
    cbn [mbind result_bind].
    replace (range_field (tx "size=" ++ hex0x n) (mkRange shmem b 0 0 None)) with (Ok (mkRange shmem b n 0 (@None C))).
    2: { change (range_field (tx "size=" ++ hex0x n) (mkRange shmem b 0 0 (@None C))) with
           (x ← range_number (hex0x n); Ok (mkRange shmem b 0 0 (@None C) <| size := x |>)). rewrite range_number_hex0x by exact Hn. reflexivity. }
    cbn [mbind result_bind shmname base size]. rewrite bool_decide_false by exact Hs.
    unfold is_word in *. replace (n =? 0) with false by lia. replace (abi_max <? b) with false by lia.
    replace (abi_max <? n) with false by lia. replace (abi_max - b <? n - 1) with false by lia. cbn [orb against mbind result_bind client].
    cbn [shmname]. rewrite Ha. cbn. replace (vcpu_count c =? 0) with false by lia. replace (QUETZ_MAX_MMIO_VCORES <? vcpu_count c) with false by lia. reflexivity.
  - discriminate.
  - repeat constructor; try discriminate; no_comma.
Qed.

End Start.

(** ** The theorems at concrete inputs *)

(** QEMU's splitting: the parts after the first. *)
Definition demo_plugin_args (s : text) : list text := List.tl (split "," s).
Lemma demo_splits path opts : Forall (fun s => ","%char ∉ s) (path :: opts) -> demo_plugin_args (join "," (path :: opts)) = opts.
Proof. intros H. unfold demo_plugin_args. rewrite split_join by (discriminate || exact H). reflexivity. Qed.

Definition demo_launch (l : result Launch) : Launch := match l with Ok l => l | Throw _ _ => mkLaunch [] [] None end.
Definition demo_dir : text := tx "/opt/quetz".

Lemma spawn_starts_witness : consistent demo_cfg /\ exists l, spawn demo_getenv (fun _ => true) demo_dir demo_cfg (tx "/shm") false = Ok l /\
  exists o, model_options (machine_args demo_cfg) = Some o /\ values KCpu o = [tx "cfv4e"].
Proof.
  split; [exact demo_consistent |]. eexists. split; [vm_compute; reflexivity |].
  pose proof (spawn_starts demo_getenv (fun _ => true) demo_dir demo_cfg (tx "/shm") false demo_consistent) as H.
  destruct (spawn _ _ _ _ _ _) as [l|] eqn:E; [| vm_compute in E; discriminate]. destruct H as [_ H]. apply H.
  - vm_compute. reflexivity.
  - intros [Hx|[Hx|[[r Hx]|[r Hx]]]]; vm_compute in Hx; discriminate.
Defined.

Lemma plugin_told_witness : exists l arg post,
  spawn demo_getenv (fun _ => true) demo_dir demo_cfg (tx "/shm") false = Ok l /\
  argv l = qemu_bin demo_cfg :: machine_args demo_cfg ++ tx "-plugin" :: arg :: post /\
  read_plugin_args (demo_plugin_args arg) = mkPluginArgs (tx "/shm") true false 0 0 0x40000000 0x10000.
Proof.
  destruct (plugin_told demo_getenv (fun _ => true) demo_dir demo_plugin_args demo_splits demo_cfg (tx "/shm") false
    (demo_launch (spawn demo_getenv (fun _ => true) demo_dir demo_cfg (tx "/shm") false))) as (arg & post & E1 & E2).
  - vm_compute. reflexivity.
  - split; vm_compute; split; congruence.
  - cbn. rewrite !not_elem_of_cons. repeat split; (discriminate || apply not_elem_of_nil).
  - intros p Hp. vm_compute in Hp. injection Hp as <-. cbn. rewrite !not_elem_of_cons. repeat split; (discriminate || apply not_elem_of_nil).
  - exists (demo_launch (spawn demo_getenv (fun _ => true) demo_dir demo_cfg (tx "/shm") false)), arg, post.
    split; [vm_compute; reflexivity |]. split; [exact E1 |]. rewrite E2. vm_compute. reflexivity.
Defined.

(** User mode: an aperture of 256 bytes. *)
Definition user_getenv (s : string) : option text :=
  if (s =? "QUETZ_MMIO_PAYLOAD")%string then Some (tx "1")
  else if (s =? "QUETZ_MMIO_START")%string then Some (tx "0x10000")
  else if (s =? "QUETZ_MMIO_END")%string then Some (tx "0x100ff") else None.
Definition user_cfg : QuetzConfig := result_or config0 (fromParams demo_conv user_getenv (demo_table [("executable", "a.out")]%string)).
Definition user_plugin : PluginConfig := result_or (mkPluginConfig GenericInsnClassifier false 0 0 0 0 0)
  (qemu_plugin_install registrations "riscv64" false 1 (fun _ => Some 1) (plugin_options user_getenv user_cfg (tx "/q") false)).

