(* ===== verification/Child.v ===== *)
(** * The process between fork and exec

    The child's part of [QemuLauncher::spawn] in [src/src/quetz_launcher.cc]:
    its environment, its standard streams and the program it becomes.  [Launch]
    has what it is given; the environment it inherits, the files that open and
    the programs that can be executed are arguments. *)
From S2P Require Import Prelude.
From S2P Require Import Text.
From S2P Require Import Config.
From S2P Require Import Launch.

Definition Environ : Type := text -> option text.

(** [setenv(name, value, 1)] fails on an empty name or one with [=]; its result
    is not looked at. *)
Definition valid_name (name : text) : bool := negb (bool_decide (name = [])) && negb (existsb (Ascii.eqb "=") name).
Definition setenv (name value : text) (env : Environ) : Environ := fun x =>
  if valid_name name && bool_decide (x = name) then Some value else env x.
Definition unsetenv (name : text) (env : Environ) : Environ := fun x => if bool_decide (x = name) then None else env x.

Inductive Stream : Set := Inherited | File (path : text).
Inductive Standard : Set := Stdin | Stdout | Stderr.
#[export] Instance Standard_eq_dec : EqDecision Standard.
Proof. solve_decision. Defined.

(** How the child ends: another program, or an exit. *)
Inductive End : Type :=
  | Execvp (argv : list text) (env : Environ) (streams : Standard -> Stream)
  | Exit (code : Z).

Section Child.
Variable cfg : QuetzConfig.
(** [freopen] with mode r or w, and [execvp] by its file. *)
Variables (opens : Standard -> text -> bool) (executable_file : text -> bool).

Definition set_extra_env (env : Environ) : Environ := foldl (fun env kv => setenv kv.1 kv.2 env) env (extra_env cfg).
Definition set_cache_ram (l : Launch) (env : Environ) : Environ :=
  match cache_ram_shm l with
  | Some shm => setenv (tx "QUETZ_CACHE_RAM_SHM") shm env
  | None => unsetenv (tx "QUETZ_CACHE_RAM_SHM") env
  end.

(** [if (!file.empty()) if (!freopen(...)) _exit(1)] *)
Definition redirect (std : Standard) (path : text) (streams : Standard -> Stream) : option (Standard -> Stream) :=
  if bool_decide (path = []) then Some streams
  else if opens std path then Some (fun x => if decide (x = std) then File path else streams x) else None.
Definition redirections (streams : Standard -> Stream) : option (Standard -> Stream) :=
  s ← redirect Stdin (stdin_file cfg) streams; s ← redirect Stdout (stdout_file cfg) s; redirect Stderr (stderr_file cfg) s.

Definition child (l : Launch) (env : Environ) : End :=
  let env := set_cache_ram l (set_extra_env env) in
  match redirections (fun _ => Inherited) with
  | None => Exit 1
  | Some streams =>
      match argv l with
      | file :: _ => if executable_file file then Execvp (argv l) env streams else Exit 127
      | [] => Exit 127
      end
  end.

(** ** What QEMU starts with *)

Definition stream_file (std : Standard) : text :=
  match std with Stdin => stdin_file cfg | Stdout => stdout_file cfg | Stderr => stderr_file cfg end.
Definition stream_ok (std : Standard) : Prop := stream_file std = [] \/ opens std (stream_file std) = true.

(** The last entry of a name wins. *)
Definition extra_value (x : text) : option text := snd <$> last (filter (fun kv => valid_name kv.1 = true /\ kv.1 = x) (extra_env cfg)).

Lemma extra_env_set env x : set_extra_env env x = match extra_value x with Some v => Some v | None => env x end.
Proof.
  unfold set_extra_env, extra_value. induction (extra_env cfg) as [|kv l IH] using rev_ind; [reflexivity |].
  rewrite foldl_app. cbn [foldl]. rewrite filter_app, filter_cons, filter_nil. unfold setenv at 1.
  case_decide as H.
  - destruct H as [-> <-]. rewrite bool_decide_true by reflexivity. rewrite last_snoc. reflexivity.
  - rewrite app_nil_r, IH. destruct (valid_name kv.1) eqn:E; [| reflexivity]. rewrite bool_decide_false by (intros ->; auto). reflexivity.
Qed.

Lemma redirect_spec std path s : match redirect std path s with
  | Some s' => (path = [] \/ opens std path = true) /\ forall x, s' x = if decide (x = std) then (if bool_decide (path = []) then s x else File path) else s x
  | None => path <> [] /\ opens std path = false
  end.
Proof.
  unfold redirect. case_bool_decide as H; [split; [auto |]; intros x; case_decide; reflexivity |].
  destruct (opens std path); [split; [auto | reflexivity] | auto].
Qed.

(** The child becomes QEMU with the command line of the launch exactly if the
    redirections open and the program can be executed; otherwise it exits with
    a status that is not 0.  QEMU's environment is the inherited one with the
    extra variables over it and the shared RAM's name exactly with the window
    cache, and its streams are those asked for. *)
Lemma child_spec l env file args : argv l = file :: args ->
  match child l env with
  | Execvp a e s => a = argv l /\ (forall std, stream_ok std) /\ executable_file file = true /\
      (forall std, s std = match stream_file std with [] => Inherited | p => File p end) /\
      (forall x, e x = if bool_decide (x = tx "QUETZ_CACHE_RAM_SHM") then cache_ram_shm l
                       else match extra_value x with Some v => Some v | None => env x end)
  | Exit c => (c = 1 /\ exists std, ~ stream_ok std) \/ (c = 127 /\ executable_file file = false)
  end.
Proof.
  intros Ha. unfold child, redirections. cbv zeta.
  pose proof (redirect_spec Stdin (stdin_file cfg) (fun _ => Inherited)) as R0. destruct (redirect Stdin _ _) as [s0|]; cbn [mbind option_bind].
  2: { left. split; [reflexivity |]. exists Stdin. intros [H|H]; cbn in H; destruct R0; congruence. }
  pose proof (redirect_spec Stdout (stdout_file cfg) s0) as R1. destruct (redirect Stdout _ _) as [s1|]; cbn [mbind option_bind].
  2: { left. split; [reflexivity |]. exists Stdout. intros [H|H]; cbn in H; destruct R1; congruence. }
  pose proof (redirect_spec Stderr (stderr_file cfg) s1) as R2. destruct (redirect Stderr _ _) as [s2|].
  2: { left. split; [reflexivity |]. exists Stderr. intros [H|H]; cbn in H; destruct R2; congruence. }
  rewrite Ha. destruct (executable_file file) eqn:Ex; [| right; auto].
  destruct R0 as [O0 R0], R1 as [O1 R1], R2 as [O2 R2]. split; [reflexivity |]. split; [intros []; assumption |]. split; [reflexivity |]. split.
  - assert (Hf : forall p : text, (if bool_decide (p = []) then Inherited else File p) = match p with [] => Inherited | p => File p end)
      by (intros []; reflexivity).
    intros []; rewrite R2, R1, R0; repeat first [rewrite decide_True by reflexivity | rewrite decide_False by discriminate]; rewrite Hf; cbn [stream_file];
      [destruct (stdin_file cfg) | destruct (stdout_file cfg) | destruct (stderr_file cfg)]; reflexivity.
  - intros x. unfold set_cache_ram, setenv, unsetenv. destruct (cache_ram_shm l); cbn [andb]; [change (valid_name _) with true; cbn [andb] |];
      rewrite extra_env_set; reflexivity.
Qed.
End Child.
