(* ===== verification/Process.v ===== *)
(** * Process control

    [src/src/quetz_launcher.cc] after the command line ([fork], [checkChild],
    [reapBounded], [terminate], [forceKill]) and
    [src/src/quetz_qemu_frontend.cc], which configures the shared memory, starts
    QEMU and waits for its plugin.

    The operating system is an argument: a class of the calls the code makes.
    A [fatal] does not undo what was done before it, so the operations are
    functions from a state to an outcome and a state; the state has a record of
    the calls made. *)
From S2P Require Import Prelude.
From S2P Require Import Text.
From S2P Require Import MemSpan.
From S2P Require Import NativeRam.
From S2P Require Import Config.
From S2P Require Import Launch.

(** ** The operating system *)

(** A status of [waitpid], as [WIFEXITED] and [WIFSIGNALED] tell it. *)
Inductive wait_status := Exited (code : Z) | Signaled (sig : Z) | Stopped (sig : Z).
#[export] Instance wait_status_eq_dec : EqDecision wait_status.
Proof. solve_decision. Defined.

Inductive errno := EINTR | ECHILD | EINVAL.
(** [waitpid(pid, &status, WNOHANG)]: the process, 0, or -1 with its [errno]. *)
Inductive wait_result := Reaped (st : wait_status) | Unchanged | Failed (e : errno).

Definition SIGKILL : Z := 9.
Definition SIGTERM : Z := 15.

Class Os (W : Type) := {
  waitpid : Z -> W -> wait_result * W;
  kill : Z -> Z -> W -> W;
  usleep : Z -> W -> W;
  fork : W -> Z * W;
  child_attached : W -> bool }.     (* the plugin's flag in the shared memory *)

(** What the code relies on for a child it has not collected: it can be asked
    for, is collected with the status it ended with, and stays a child under
    signals and time; [fork] fails or gives the parent such a child. *)
Class OsLaws (W : Type) `{Os W} := {
  unreaped : W -> Z -> Prop;
  waitpid_law p w : unreaped w p ->
    match waitpid p w with
    | (Reaped (Exited _), _) | (Reaped (Signaled _), _) => True
    | (Unchanged, w') | (Failed EINTR, w') => unreaped w' p
    | _ => False
    end;
  kill_law p sig w : unreaped w p -> unreaped (kill p sig w) p;
  usleep_law p us w : unreaped w p -> unreaped (usleep us w) p;
  fork_law w : fst (fork w) < 0 \/ (0 < fst (fork w) /\ unreaped (snd (fork w)) (fst (fork w))) }.

Inductive call := Waited (p : Z) (r : wait_result) | Killed (p sig : Z) | Slept (us : Z).

(** ** The launcher *)

Record Frontend (W : Type) := mkFrontend { shared : Shared; pid : Z; os : W; calls : list call (* newest first *) }.
Arguments mkFrontend {W} _ _ _ _.
Arguments shared {W} _.
Arguments pid {W} _.
Arguments os {W} _.
Arguments calls {W} _.
#[export] Instance Frontend_settable {W} : Settable (Frontend W) := fun f => mkFrontend (shared f) (pid f) (os f) (calls f).

Section Process.
Context {W : Type} `{Os W}.
#[local] Abbreviation P := (Keep (Frontend W)).

Definition get_pid : P Z := fun s => (Ok (pid s), s).
Definition set_pid (p : Z) : P () := fun s => (Ok (), s <| pid := p |>).
Definition sys_waitpid (p : Z) : P wait_result := fun s =>
  let (r, w) := waitpid p (os s) in (Ok r, s <| os := w |> <| calls ::= cons (Waited p r) |>).
Definition sys_kill (p sig : Z) : P () := fun s =>
  (Ok (), s <| os := kill p sig (os s) |> <| calls ::= cons (Killed p sig) |>).
Definition sys_usleep (us : Z) : P () := fun s =>
  (Ok (), s <| os := usleep us (os s) |> <| calls ::= cons (Slept us) |>).
Definition sys_fork : P Z := fun s => let (p, w) := fork (os s) in (Ok p, s <| os := w |>).

Definition checkChild : P bool :=
  p ← get_pid;
  if p =? 0 then mret false
  else
    r ← sys_waitpid p;
    match r with
    | Unchanged | Failed EINTR => mret true
    | Failed _ => fatal "Cannot inspect QEMU child"
    | Reaped st =>
        set_pid 0 ≫= fun _ =>
        match st with
        | Exited c => if negb (c =? 0) then fatal "QEMU exited with status" else mret false
        | Signaled _ => fatal "QEMU was terminated by signal"
        | Stopped _ => mret false
        end
    end.

Definition poll_ms : Z := 10.
(** [int status = 0] *)
Definition status0 : wait_status := Exited 0.

(** Whether the child is gone, and the caller's status after the call. *)
Fixpoint reap_loop (p timeout_ms : Z) (fuel : nat) (waited : Z) : P (bool * wait_status) :=
  match fuel with
  | O => out_of_fuel
  | S fuel =>
      r ← sys_waitpid p;
      match r with
      | Reaped st => mret (true, st)
      | Failed ECHILD => mret (true, status0)
      | _ =>
          if timeout_ms <=? waited then mret (false, status0)
          else sys_usleep (poll_ms * 1000) ≫= fun _ => reap_loop p timeout_ms fuel (waited + poll_ms)
      end
  end.
(** As many rounds as [waited] needs to reach the limit. *)
Definition reap_fuel (timeout_ms : Z) : nat := Z.to_nat ((timeout_ms + poll_ms - 1) / poll_ms + 1).
Definition reapBounded (p timeout_ms : Z) : P (bool * wait_status) := reap_loop p timeout_ms (reap_fuel timeout_ms) 0.

Definition is_success (st : wait_status) : bool := match st with Exited c => c =? 0 | _ => false end.
(** What [terminate] rejects after its own signals. *)
Definition teardown_failure (st : wait_status) : bool :=
  match st with
  | Exited c => negb (c =? 0)
  | Signaled sig => negb (sig =? SIGTERM) && negb (sig =? SIGKILL)
  | Stopped _ => false
  end.

Definition grace_ms : Z := 2000.
Definition terminate (expect_guest_exit : bool) : P () :=
  running ← checkChild;
  if negb running then mret ()
  else
    p ← get_pid;
    if expect_guest_exit then
      '(gone, st) ← reapBounded p 2000;
      if negb gone then fatal "QEMU did not exit after its plugin EXIT records"
      else set_pid 0 ≫= fun _ => if is_success st then mret () else fatal "QEMU failed after plugin EXIT"
    else
      sys_kill p SIGTERM ≫= fun _ =>
      '(gone, st) ← reapBounded p grace_ms;
      '(_, st) ← (if negb gone then sys_kill p SIGKILL ≫= fun _ => reapBounded p grace_ms else mret (gone, st));
      set_pid 0 ≫= fun _ => if teardown_failure st then fatal "QEMU failed during teardown" else mret ().

Definition forceKill : P () :=
  p ← get_pid;
  if p =? 0 then mret ()
  else
    sys_kill p SIGKILL ≫= fun _ =>
    reapBounded p 500 ≫= fun _ =>
    set_pid 0.

(** The parent's part of [QemuLauncher::spawn], with the command line of
    [Launch.spawn]; the child executes it. *)
Definition launcher_spawn (l : result Launch) : P Z :=
  match l with
  | Throw e msg => fun s => (Throw e msg, s)
  | Ok _ =>
      child ← sys_fork;
      if child <? 0 then fatal "fork() failed" else set_pid child ≫= fun _ => mret child
  end.

(** ** The frontend *)

Definition configure_regions (regions : list NativeRegion) : P bool := fun s =>
  let (b, m) := quetz_configure_native_regions (Some regions) (Z.of_nat (length regions)) (shared s) in (Ok b, s <| shared := m |>).
Definition frontend_spawn (cfg : QuetzConfig) (l : result Launch) : P () :=
  ok ← configure_regions (cache_native_regions cfg);
  if negb ok then fatal "Invalid shared native RAM registration" else launcher_spawn l ≫= fun _ => mret ().

(** [while (!childAttached())]: no bound, so the fuel is an argument. *)
Fixpoint waitForChildAttach (fuel : nat) : P () := fun s =>
  match fuel with
  | O => out_of_fuel s
  | S fuel =>
      if child_attached (os s) then (Ok (), s)
      else
        (r ← sys_waitpid (pid s);
         match r with
         | Reaped (Exited _) => fatal "QEMU exited before its SST plugin attached"
         | Reaped (Signaled _) => fatal "QEMU was terminated before its SST plugin attached"
         | Reaped (Stopped _) => fatal "QEMU stopped before its SST plugin attached"
         | _ => sys_usleep 1000 ≫= fun _ => waitForChildAttach fuel
         end) s
  end.

(** Phase 0 of [QuetzCPU::init]. *)
Definition init_launch (fuel : nat) (cfg : QuetzConfig) (l : result Launch) : P () :=
  frontend_spawn cfg l ≫= fun _ => waitForChildAttach fuel.
End Process.
