(* ===== verification/ProcessThm.v ===== *)
(** * Process control: theorems

    The simulator never signals a process it has collected, its teardown is
    bounded, and a guest that failed is never reported as a success. *)
From S2P Require Import Prelude.
From S2P Require Import Text.
From S2P Require Import MemSpan.
From S2P Require Import NativeRam.
From S2P Require Import Config.
From S2P Require Import ConfigThm.
From S2P Require Import Launch.
From S2P Require Import Process.

(** ** The record of calls *)

(** The status collected, signals, seconds and calls; the newest call first. *)
Fixpoint outcome (l : list call) : option wait_status :=
  match l with [] => None | Waited _ (Reaped st) :: _ => Some st | _ :: l => outcome l end.
Fixpoint signalled (l : list call) : bool :=
  match l with [] => false | Killed _ _ :: _ => true | _ :: l => signalled l end.
Fixpoint slept (l : list call) : Z :=
  match l with [] => 0 | Slept us :: l => us + slept l | _ :: l => slept l end.
Fixpoint waits (l : list call) : Z :=
  match l with [] => 0 | Waited _ _ :: l => 1 + waits l | _ :: l => waits l end.
(** Signals go to [p] only, and only before it was collected. *)
Fixpoint signals_ok (p : Z) (l : list call) : Prop :=
  match l with
  | [] => True
  | Killed q _ :: l => (q = p /\ 0 < p /\ outcome l = None) /\ signals_ok p l
  | _ :: l => signals_ok p l
  end.

Lemma outcome_app a b : outcome (a ++ b) = match outcome a with Some st => Some st | None => outcome b end.
Proof. induction a as [|[q [st| |e]|q sig|us] a IH]; cbn; auto. Qed.
Lemma signalled_app a b : signalled (a ++ b) = signalled a || signalled b.
Proof. induction a as [|[q [st| |e]|q sig|us] a IH]; cbn; auto. Qed.
Lemma slept_app a b : slept (a ++ b) = slept a + slept b.
Proof. induction a as [|[q [st| |e]|q sig|us] a IH]; cbn; lia. Qed.
Lemma waits_app a b : waits (a ++ b) = waits a + waits b.
Proof. induction a as [|[q [st| |e]|q sig|us] a IH]; cbn; lia. Qed.
Lemma signals_ok_app p a b : signalled a = false -> signals_ok p b -> signals_ok p (a ++ b).
Proof. induction a as [|[q [st| |e]|q sig|us] a IH]; cbn; auto; discriminate. Qed.
Create Rewrite HintDb calls.
#[export] Hint Rewrite outcome_app signalled_app slept_app waits_app : calls.

Section Theorems.
Context {W : Type} `{OsLaws W}.
Implicit Types (s : Frontend W).

(** ** Rules *)

(** [wp m Q s]: [m] from [s] ends in [Q], with a value or with an error. *)
Definition wp {A} (m : Keep (Frontend W) A) (Q : result A -> Frontend W -> Prop) s : Prop := Q (fst (m s)) (snd (m s)).

Lemma wp_bind {A B} (m : Keep (Frontend W) A) (k : A -> Keep (Frontend W) B) Q s :
  wp m (fun r s' => match r with Ok a => wp (k a) Q s' | Throw e t => Q (Throw e t) s' end) s -> wp (m ≫= k) Q s.
Proof.
  unfold wp. change ((m ≫= k) s) with (match m s with (Ok a, s') => k a s' | (Throw e t, s') => (Throw e t, s') end).
  destruct (m s) as [[a|e t] s']; exact (fun x => x).
Qed.
Lemma wp_mono {A} (m : Keep (Frontend W) A) (Q Q' : result A -> Frontend W -> Prop) s :
  wp m Q s -> (forall r s', Q r s' -> Q' r s') -> wp m Q' s.
Proof. unfold wp. auto. Qed.

Definition child s p : Prop := unreaped (os s) p.

(** One call of [waitpid] for a child in hand. *)
Lemma wp_waitpid p s Q : child s p ->
  (forall st s', (exists c, st = Exited c \/ st = Signaled c) -> shared s' = shared s -> pid s' = pid s -> calls s' = Waited p (Reaped st) :: calls s -> Q (Ok (Reaped st)) s') ->
  (forall r s', r = Unchanged \/ r = Failed EINTR -> child s' p -> shared s' = shared s -> pid s' = pid s -> calls s' = Waited p r :: calls s -> Q (Ok r) s') ->
  wp (sys_waitpid p) Q s.
Proof.
  intros Hc Hr Hn. unfold wp, sys_waitpid. pose proof (waitpid_law p (os s) Hc) as L.
  destruct (waitpid p (os s)) as [[[c|c|c]| |[]] w]; try contradiction; cbn; (apply Hr || apply Hn); eauto.
Qed.

(** What [reapBounded] has done, where it had [n] polls of 10 ms left. *)
Lemma reap_spec p n : forall waited s, child s p ->
  wp (reap_loop p (waited + poll_ms * Z.of_nat n) (S n) waited)
    (fun r s' => exists new, calls s' = new ++ calls s /\ pid s' = pid s /\ shared s' = shared s /\ signalled new = false /\
       waits new <= Z.of_nat n + 1 /\ 0 <= slept new <= 10000 * Z.of_nat n /\
       match r with
       | Ok (true, st) => outcome new = Some st /\ (exists c, st = Exited c \/ st = Signaled c)
       | Ok (false, st) => st = status0 /\ outcome new = None /\ child s' p /\ slept new = 10000 * Z.of_nat n
       | Throw _ _ => False
       end) s.
Proof.
  induction n as [|n IH]; intros waited s Hc; cbn [reap_loop]; apply wp_bind, (wp_waitpid _ _ _ Hc).
  1,3: intros st s' Hst ? ? E; exists [Waited p (Reaped st)]; cbn; rewrite E; repeat split; auto; lia.
  all: intros r s' Hr Hc' Hs Hp E; unfold poll_ms in *.
  - rewrite (proj2 (Z.leb_le (waited + 10 * Z.of_nat 0) waited)) by lia.
    exists [Waited p r]. destruct Hr as [-> | ->]; cbn; rewrite E; repeat split; auto; lia.
  - rewrite (proj2 (Z.leb_gt (waited + 10 * Z.of_nat (S n)) waited)) by lia.
    set (s2 := s' <| os := usleep (10 * 1000) (os s') |> <| calls ::= cons (Slept (10 * 1000)) |>).
    assert (G : wp (reap_loop p (waited + 10 * Z.of_nat (S n)) (S n) (waited + 10)) (fun r0 s0 => exists new, calls s0 = new ++ calls s /\
       pid s0 = pid s /\ shared s0 = shared s /\ signalled new = false /\ waits new <= Z.of_nat (S n) + 1 /\ 0 <= slept new <= 10000 * Z.of_nat (S n) /\
       match r0 with
       | Ok (true, st) => outcome new = Some st /\ (exists c, st = Exited c \/ st = Signaled c)
       | Ok (false, st) => st = status0 /\ outcome new = None /\ child s0 p /\ slept new = 10000 * Z.of_nat (S n)
       | Throw _ _ => False
       end) s2).
    { replace (waited + 10 * Z.of_nat (S n)) with (waited + 10 + 10 * Z.of_nat n) by lia.
      eapply wp_mono; [apply (IH (waited + 10) s2); apply usleep_law, Hc' |].
      intros r0 s0 (new & E0 & P0 & S0 & K0 & W0 & T0 & O0).
      exists (new ++ [Slept 10000; Waited p r]). rewrite E0, P0, S0. cbn [s2 calls pid shared].
      autorewrite with calls. rewrite K0.
      destruct Hr as [-> | ->]; cbn; (split; [rewrite <- app_assoc, E; reflexivity |]);
        (split; [assumption | split; [assumption | split; [reflexivity | split; [lia | split; [lia |]]]]]);
        (destruct r0 as [[[] st]|]; [| |exact O0]); [destruct O0 as [-> O0] | destruct O0 as (-> & -> & O0 & ?) | destruct O0 as [-> O0] | destruct O0 as (-> & -> & O0 & ?)]; auto with lia. }
    destruct Hr as [-> | ->]; exact G.
Qed.

(** ** The operations *)

(** The launched process is in hand: it has not been collected, and it is the
    only one signalled. *)
Definition holds p s : Prop := pid s = p /\ 0 < p /\ child s p /\ outcome (calls s) = None /\ signals_ok p (calls s).
(** ... or it is gone and forgotten. *)
Definition released p s : Prop := pid s = 0 /\ signals_ok p (calls s).
Definition supervised p s : Prop := holds p s \/ released p s.

Definition did (new : list call) s s' : Prop := calls s' = new ++ calls s /\ shared s' = shared s.
Lemma did_trans a b s s1 s2 : did a s s1 -> did b s1 s2 -> did (b ++ a) s s2.
Proof. intros [E1 ?] [E2 ?]. split; [rewrite E2, E1; apply app_assoc | congruence]. Qed.

Lemma checkChild_spec p s : holds p s ->
  wp checkChild (fun r s' => exists new, did new s s' /\ signalled new = false /\ slept new = 0 /\ waits new <= 1 /\
    match r with
    | Ok true => outcome new = None /\ holds p s'
    | Ok false => outcome new = Some (Exited 0) /\ released p s'
    | Throw e _ => e = Fatal /\ released p s' /\ exists st, outcome new = Some st /\ is_success st = false
    end) s.
Proof.
  intros (Hp & Hz & Hc & Ho & Hk). unfold checkChild. apply wp_bind. cbn [get_pid]. unfold wp at 1. cbn [fst snd get_pid].
  rewrite (proj2 (Z.eqb_neq (pid s) 0)) by lia. apply wp_bind. rewrite Hp. apply (wp_waitpid _ _ _ Hc).
  - intros st s' (c & Hst) Hs Hp' E. exists [Waited p (Reaped st)].
    assert (Hk' : signals_ok p (calls s')) by (rewrite E; exact Hk).
    destruct Hst as [-> | ->]; cbn; [destruct (Z.eqb_spec c 0) as [->|Hn] |]; cbn;
      repeat split; try assumption; try lia; eexists; (split; [reflexivity | cbn; auto; apply Z.eqb_neq; assumption]).
  - intros r s' Hr Hc' Hs Hp' E. exists [Waited p r]. destruct Hr as [-> | ->]; cbn;
      unfold holds, did; cbn; rewrite E, Hp'; cbn; repeat split; auto; lia.
Qed.

(** [reapBounded] of the child in hand, where the limit is [n] polls. *)
Lemma reapBounded_spec p n s : holds p s ->
  wp (reapBounded p (poll_ms * Z.of_nat n)) (fun r s' => exists new, did new s s' /\ signalled new = false /\ pid s' = p /\
       waits new <= Z.of_nat n + 1 /\ 0 <= slept new <= 10000 * Z.of_nat n /\ signals_ok p (calls s') /\
       match r with
       | Ok (true, st) => outcome new = Some st /\ (exists c, st = Exited c \/ st = Signaled c)
       | Ok (false, st) => st = status0 /\ outcome new = None /\ holds p s' /\ slept new = 10000 * Z.of_nat n
       | Throw _ _ => False
       end) s.
Proof.
  intros (Hp & Hz & Hc & Ho & Hk). unfold reapBounded, reap_fuel, poll_ms.
  replace (Z.to_nat ((10 * Z.of_nat n + 10 - 1) / 10 + 1)) with (S n) by dlia.
  eapply wp_mono; [apply (reap_spec p n 0 s Hc) |].
  intros r s' (new & E & P & Sh & K & Wt & Sl & O). exists new. unfold did, holds. rewrite E, P.
  pose proof (signals_ok_app p new (calls s) K Hk) as G. autorewrite with calls.
  repeat split; try assumption; try lia.
  destruct r as [[[] st]|]; [exact O | | exact O]. destruct O as (-> & O & Oc & Os). rewrite O. auto 10.
Qed.

Lemma sys_kill_holds p sig s : holds p s -> let s' := snd (sys_kill p sig s) in holds p s' /\ did [Killed p sig] s s'.
Proof.
  intros (Hp & Hz & Hc & Ho & Hk). cbn. unfold holds, did. cbn. repeat split; auto. apply kill_law, Hc.
Qed.

(** What [terminate] accepts: the status collected, and whether a signal of the
    simulator came first. *)
Definition accepts (expect_guest_exit sent : bool) (st : option wait_status) : bool :=
  match st with
  | Some (Exited c) => c =? 0
  | Some (Signaled sig) => sent && ((sig =? SIGTERM) || (sig =? SIGKILL))
  | Some (Stopped _) => false
  | None => negb expect_guest_exit
  end.

(** The end of a teardown, in at most [n] polls. *)
Definition teardown b n p s (r : result ()) s' : Prop :=
  exists new, did new s s' /\ supervised p s' /\ 0 <= slept new <= 4000000 /\ waits new <= n /\
    (b = true -> signalled new = false) /\
    (outcome new = None -> slept new = if b then 2000000 else 4000000) /\
    match r with
    | Ok _ => accepts b (signalled new) (outcome new) = true /\ released p s'
    | Throw e _ => e = Fatal /\ accepts b (signalled new) (outcome new) = false
    end.

(** The polls after the first. *)
Lemma teardown_after b n p s s0 l0 r s' : did l0 s s0 -> signalled l0 = false -> slept l0 = 0 -> outcome l0 = None -> waits l0 <= 1 ->
  teardown b n p s0 r s' -> teardown b (n + 1) p s r s'.
Proof.
  intros D0 K0 S0 O0 W0 (new & D & Sv & Sl & Wt & K & O & F). exists (new ++ l0). autorewrite with calls.
  rewrite K0, S0, O0, orb_false_r, Z.add_0_r. replace (match outcome new with Some st => Some st | None => None end) with (outcome new) by (destruct (outcome new); reflexivity).
  split; [exact (did_trans _ _ _ _ _ D0 D) |]. repeat split; auto; lia.
Qed.

(** A signal, and up to two seconds of polls. *)
Lemma kill_reap_spec p sig s : holds p s ->
  wp (sys_kill p sig ≫= fun _ => reapBounded p grace_ms) (fun r s' => exists new, did new s s' /\ signalled new = true /\ pid s' = p /\
       waits new <= 201 /\ 0 <= slept new <= 2000000 /\ signals_ok p (calls s') /\
       match r with
       | Ok (true, st) => outcome new = Some st /\ (exists c, st = Exited c \/ st = Signaled c)
       | Ok (false, st) => st = status0 /\ outcome new = None /\ holds p s' /\ slept new = 2000000
       | Throw _ _ => False
       end) s.
Proof.
  intros Hs. apply wp_bind. unfold wp at 1. destruct (sys_kill_holds p sig s Hs) as [H1 D1].
  set (s1 := snd (sys_kill p sig s)) in *. cbn [fst sys_kill].
  change grace_ms with (poll_ms * Z.of_nat 200). eapply wp_mono; [apply (reapBounded_spec p 200 s1 H1) |].
  intros r s2 (l & D & K & P & Wt & S & G & O). exists (l ++ [Killed p sig]). autorewrite with calls.
  split; [exact (did_trans _ _ _ _ _ D1 D) |]. rewrite K. cbn. repeat split; auto; try lia.
  destruct r as [[[] st]|]; [destruct O as [-> O]; auto | destruct O as (-> & -> & O & ?); repeat split; (apply O || lia) | exact O].
Qed.

Lemma wp_assoc {A B C} (m : Keep (Frontend W) A) (m' : A -> Keep (Frontend W) B) (k : B -> Keep (Frontend W) C) Q s :
  wp (m ≫= m') (fun r s' => match r with Ok a => wp (k a) Q s' | Throw e t => Q (Throw e t) s' end) s ->
  wp (m ≫= fun a => m' a ≫= k) Q s.
Proof.
  unfold wp, mbind, keep_bind. destruct (m s) as [[a|e t] s1]; [| exact (fun x => x)].
  destruct (m' a s1) as [[b|e t] s2]; exact (fun x => x).
Qed.

(** Decide what a teardown has collected. *)
Ltac ended := unfold supervised, released; cbn; repeat split; auto; try (lia || discriminate || assumption).

Lemma await_exit_spec p s : holds p s ->
  wp ('(gone, st) ← reapBounded p 2000;
      if negb gone then fatal "QEMU did not exit after its plugin EXIT records"
      else set_pid 0 ≫= fun _ => if is_success st then mret () else fatal "QEMU failed after plugin EXIT") (teardown true 201 p s) s.
Proof.
  intros Hs. apply wp_bind. change 2000 with (poll_ms * Z.of_nat 200). eapply wp_mono; [apply (reapBounded_spec p 200 s Hs) |].
  intros r s1 (l & [E Sh] & K & P & Wt & S & G & O). unfold did in *. destruct r as [[[] st]|]; [| |contradiction]; cbn [negb].
  - destruct O as [O (c & Hst)]. apply wp_bind. unfold wp at 1. cbn [fst snd set_pid].
    exists l. unfold did. rewrite K, O. destruct Hst as [-> | ->]; cbn; [destruct (c =? 0) eqn:Ec |]; cbn [wp fst snd mret keep_ret fatal accepts]; rewrite ?Ec; ended.
  - destruct O as (_ & O & H1 & T). exists l. unfold did. rewrite K, O. ended.
Qed.

(** The end of a teardown by signals. *)
Lemma teardown_last p l st s s1 : did l s s1 -> signalled l = true -> accepts false true (outcome l) = negb (teardown_failure st) ->
  0 <= slept l <= 4000000 -> waits l <= 402 -> signals_ok p (calls s1) -> (outcome l = None -> slept l = 4000000) ->
  wp (set_pid 0 ≫= fun _ => if teardown_failure st then fatal "QEMU failed during teardown" else mret ()) (teardown false 402 p s) s1.
Proof.
  intros D K Ha S Wt G O. apply wp_bind. unfold wp at 1. cbn [fst snd set_pid]. exists l. rewrite K, Ha. unfold did in *.
  destruct (teardown_failure st); ended; apply D.
Qed.
Lemma accepts_failure st l : outcome l = Some st -> (exists c, st = Exited c \/ st = Signaled c) -> accepts false true (outcome l) = negb (teardown_failure st).
Proof. intros -> (c & [-> | ->]); cbn; [rewrite negb_involutive | rewrite negb_andb, !negb_involutive]; reflexivity. Qed.

Lemma signals_spec p s : holds p s ->
  wp (sys_kill p SIGTERM ≫= fun _ =>
      '(gone, st) ← reapBounded p grace_ms;
      '(_, st) ← (if negb gone then sys_kill p SIGKILL ≫= fun _ => reapBounded p grace_ms else mret (gone, st));
      set_pid 0 ≫= fun _ => if teardown_failure st then fatal "QEMU failed during teardown" else mret ()) (teardown false 402 p s) s.
Proof.
  intros Hs. apply wp_assoc. eapply wp_mono; [apply (kill_reap_spec p SIGTERM s Hs) |].
  intros r s1 (l & D & K & P & Wt & S & G & O). destruct r as [[[] st]|]; [| |contradiction]; cbn [negb].
  - apply wp_bind. apply (teardown_last p l); auto; [apply accepts_failure; apply O | lia | lia |]. destruct O as [-> _]. discriminate.
  - destruct O as (_ & O & H1 & T). apply wp_bind. eapply wp_mono; [apply (kill_reap_spec p SIGKILL s1 H1) |].
    intros r s2 (l2 & D2 & K2 & P2 & Wt2 & S2 & G2 & O2). pose proof (did_trans _ _ _ _ _ D D2) as D'. destruct r as [[gone st']|]; [|contradiction].
    apply (teardown_last p (l2 ++ l)); auto; autorewrite with calls; rewrite ?K2; try lia; destruct gone.
    + destruct O2 as [O2 ?]. rewrite O2. rewrite <- O2. apply accepts_failure; assumption.
    + destruct O2 as (-> & -> & _ & _). rewrite O. reflexivity.
    + destruct O2 as [-> _]. discriminate.
    + lia.
Qed.

Lemma terminate_spec b p s : holds p s -> wp (terminate b) (teardown b 403 p s) s.
Proof.
  intros Hs. unfold terminate. apply wp_bind. eapply wp_mono; [apply (checkChild_spec p s Hs) |].
  intros r s0 (l0 & D0 & K0 & S0 & W0 & O0). destruct r as [[]|e t]; cbn [negb].
  - destruct O0 as [O0 Hh]. apply wp_bind. unfold wp at 1. cbn [fst snd get_pid]. replace (pid s0) with p by (symmetry; apply Hh).
    destruct b; (eapply wp_mono; [apply (await_exit_spec p s0 Hh) || apply (signals_spec p s0 Hh) |]); intros r s1 T;
      [apply (teardown_after true 402 p s s0 l0) | apply (teardown_after false 402 p s s0 l0)]; auto.
    destruct T as (new & T1 & T2 & T3 & T4 & T5). exists new. repeat split; try apply T1; try apply T5; auto; lia.
  - destruct O0 as [O0 Hr]. exists l0. rewrite O0, K0. unfold did in *. ended; (apply D0 || apply Hr).
  - destruct O0 as (-> & Hr & st & O0 & Hn). exists l0. rewrite O0, K0. unfold did in *. ended; (apply D0 || (destruct st; cbn; auto)).
Qed.

Lemma forceKill_spec p s : supervised p s ->
  wp forceKill (fun r s' => r = Ok () /\ released p s' /\ exists new, did new s s' /\ waits new <= 51 /\ 0 <= slept new <= 500000) s.
Proof.
  intros [Hs|[Hp Hk]]; unfold forceKill; apply wp_bind; unfold wp at 1; cbn [fst snd get_pid].
  - replace (pid s) with p by (symmetry; apply Hs). rewrite (proj2 (Z.eqb_neq p 0)) by (destruct Hs; lia).
    apply wp_bind. unfold wp at 1. destruct (sys_kill_holds p SIGKILL s Hs) as [H1 D1].
    set (s1 := snd (sys_kill p SIGKILL s)) in *. cbn [fst sys_kill]. apply wp_bind.
    change 500 with (poll_ms * Z.of_nat 50). eapply wp_mono; [apply (reapBounded_spec p 50 s1 H1) |].
    intros r s2 (l & D & K & P & Wt & S & G & O). destruct r as [a|]; [| contradiction]. unfold wp. cbn [fst snd set_pid].
    repeat split; auto. exists (l ++ [Killed p SIGKILL]). autorewrite with calls. cbn. split; [apply (did_trans _ _ _ _ _ D1 D) | lia].
  - rewrite Hp. cbn. repeat split; auto. exists []. unfold did. cbn. repeat split; auto; lia.
Qed.

(** ** The whole life of the child *)

Inductive op := Check | Terminate (expect_guest_exit : bool) | Force.
Definition run_op (o : op) s : Frontend W :=
  match o with Check => snd (checkChild s) | Terminate b => snd (terminate b s) | Force => snd (forceKill s) end.

Lemma run_op_idle o s : pid s = 0 -> run_op o s = s.
Proof. destruct s as [m p w l]. cbn. intros ->. destruct o as [|[]|]; reflexivity. Qed.
Lemma run_op_supervised p o s : supervised p s -> supervised p (run_op o s).
Proof.
  intros [Hs|Hr].
  - destruct o as [|b|]; cbn [run_op].
    + pose proof (checkChild_spec p s Hs) as (l & _ & _ & _ & _ & O). destruct (fst (checkChild s)) as [[]|]; [left | right | right]; apply O.
    + pose proof (terminate_spec b p s Hs) as (l & _ & Sv & _). exact Sv.
    + right. apply (forceKill_spec p s). left. exact Hs.
  - right. rewrite run_op_idle by apply Hr. exact Hr.
Qed.
Lemma run_ops_supervised p l s : supervised p s -> supervised p (foldl (fun s o => run_op o s) s l).
Proof. revert s. induction l as [|o l IH]; intros s Hs; [exact Hs |]. apply IH, run_op_supervised, Hs. Qed.

(** ** Start and attachment *)

Lemma attach_wait_spec p fuel : forall s, holds p s ->
  wp (waitForChildAttach fuel) (fun r s' =>
    match r with
    | Ok _ => holds p s' /\ child_attached (os s') = true
    | Throw Fatal _ => pid s' = p /\ exists st, outcome (calls s') = Some st
    | Throw OutOfFuel _ => holds p s'
    | Throw _ _ => False
    end) s.
Proof.
  induction fuel as [|fuel IH]; intros s Hs; [exact Hs |]. unfold wp. cbn [waitForChildAttach].
  destruct (child_attached (os s)) eqn:Ea; [split; [exact Hs | exact Ea] |].
  pose proof Hs as (Hp & Hz & Hc & Ho & Hk). apply wp_bind. rewrite Hp. apply (wp_waitpid _ _ _ Hc).
  - intros st s' (c & [-> | ->]) _ P E; cbn; rewrite E; cbn; (split; [congruence | eauto]).
  - intros r s' Hr Hc' Sh P E. set (s2 := s' <| os := usleep 1000 (os s') |> <| calls ::= cons (Slept 1000) |>).
    assert (H2 : holds p s2).
    { unfold holds. cbn. rewrite E, P. destruct Hr as [-> | ->]; cbn; repeat split; auto; apply usleep_law, Hc'. }
    destruct Hr as [-> | ->]; exact (IH s2 H2).
Qed.

Lemma configure_fst regions s : exists m, configure_regions regions s = (Ok (fst (quetz_configure_native_regions (Some regions) (Z.of_nat (length regions)) (shared s))), s <| shared := m |>).
Proof. unfold configure_regions. destruct (quetz_configure_native_regions _ _ _) as [b m]. exists m. reflexivity. Qed.

Lemma init_spec fuel cfg l s : pid s = 0 -> calls s = [] ->
  wp (init_launch fuel cfg l) (fun r s' =>
    match r with
    | Ok _ => holds (pid s') s' /\ child_attached (os s') = true
    | Throw _ _ => pid s' = 0 \/ holds (pid s') s' \/ exists st, outcome (calls s') = Some st
    end) s.
Proof.
  intros Hp Hc. unfold init_launch, frontend_spawn. apply wp_bind, wp_bind. unfold wp at 1.
  destruct (configure_fst (cache_native_regions cfg) s) as [m ->]. cbn [fst snd].
  destruct (fst (quetz_configure_native_regions _ _ _)); cbn [negb]; [| left; exact Hp].
  apply wp_bind. destruct l as [l|e t]; [| left; exact Hp]. unfold launcher_spawn. apply wp_bind. unfold wp at 1, sys_fork. change (os (s <| shared := m |>)) with (os s).
  pose proof (fork_law (os s)) as L. destruct (fork (os s)) as [q w]. cbn [fst snd] in *.
  destruct (Z.ltb_spec q 0); [left; exact Hp |]. destruct L as [L|[Lz Lu]]; [lia |].
  apply wp_bind. unfold wp at 1. cbn [fst snd set_pid]. unfold wp at 1. cbn [fst snd mret keep_ret]. unfold wp at 1. cbn [fst snd mret keep_ret].
  assert (Hh : holds q (s <| shared := m |> <| os := w |> <| pid := q |>)) by (unfold holds; cbn; rewrite Hc; cbn; auto).
  eapply wp_mono; [apply (attach_wait_spec q fuel _ Hh) |].
  intros [a|[] t] s' O; try contradiction; [destruct O as [O ?] | destruct O as [? O] |]; auto.
  - replace (pid s') with q by (symmetry; apply O). auto.
  - right; left. replace (pid s') with q by (symmetry; apply O). exact O.
Qed.

(** ** The properties *)

(** Once the guest has attached, whatever the simulator asks of its launcher,
    in any order and after any failure, signals go to the process it launched
    and to no other, none after the process was collected; a launcher without
    a process sends none. *)
Lemma child_supervised fuel cfg l ops s s1 : pid s = 0 -> calls s = [] -> init_launch fuel cfg l s = (Ok (), s1) ->
  let s2 := foldl (fun s o => run_op o s) s1 ops in
  0 < pid s1 /\ signals_ok (pid s1) (calls s2) /\ (pid s2 = 0 \/ (pid s2 = pid s1 /\ outcome (calls s2) = None)).
Proof.
  intros Hp Hc E s2. pose proof (init_spec fuel cfg l s Hp Hc) as I. unfold wp in I. rewrite E in I. destruct I as [I _].
  split; [apply I |]. destruct (run_ops_supervised (pid s1) ops s1 (or_introl I)) as [(? & _ & _ & ? & ?)|[? ?]]; auto.
Qed.

(** C17. [terminate] ends normally exactly if the guest ended well: with exit status
    0 - or, where it was not to end by itself, by a signal the simulator had
    sent before, or not at all in the time it had.  After a guest that announced
    its exit, no signal is sent. *)
Theorem teardown_honest b p s : holds p s -> exists new, calls (snd (terminate b s)) = new ++ calls s /\
  (fst (terminate b s) = Ok () <-> accepts b (signalled new) (outcome new) = true) /\
  (b = true -> signalled new = false) /\
  (b = false -> pid (snd (terminate b s)) = 0).
Proof.
  intros Hs. destruct (terminate_spec b p s Hs) as (new & [D _] & Sv & _ & _ & K & O & F). exists new. split; [exact D |].
  split; [| split; [exact K |]].
  - destruct (fst (terminate b s)) as [[]|e t]; destruct F as [F1 F2]; split; congruence.
  - intros ->. destruct (fst (terminate false s)) as [u|e t]; [apply F |]. destruct F as [_ F]. destruct Sv as [Sv|Sv]; [| apply Sv].
    pose proof Sv as (_ & _ & _ & Ho & _). rewrite D, outcome_app in Ho. destruct (outcome new); discriminate.
Qed.

(** C34. Every teardown ends: [terminate] in at most 403 polls and four seconds of
    sleep - two where the guest was to exit by itself -, and [forceKill], which
    never fails, in at most 51 polls and half a second. *)
Theorem teardown_bounded b p s : holds p s ->
  (exists new, calls (snd (terminate b s)) = new ++ calls s /\ waits new <= 403 /\ slept new <= 4000000 /\
     (outcome new = None -> slept new = if b then 2000000 else 4000000) /\
     match fst (terminate b s) with Ok _ => True | Throw e _ => e = Fatal end) /\
  (exists new, calls (snd (forceKill s)) = new ++ calls s /\ waits new <= 51 /\ slept new <= 500000 /\
     fst (forceKill s) = Ok () /\ pid (snd (forceKill s)) = 0).
Proof.
  intros Hs. split.
  - destruct (terminate_spec b p s Hs) as (new & [D _] & _ & Sl & Wt & _ & O & F). exists new. repeat split; auto; try lia.
    destruct (fst (terminate b s)); [exact I | apply F].
  - destruct (forceKill_spec p s (or_introl Hs)) as (E & Hr & new & [D _] & Wt & Sl). exists new. repeat split; auto; try lia. apply Hr.
Qed.

(** The rounds of the wait for the plugin. *)
Definition round p (w : W) : W := usleep 1000 (snd (waitpid p w)).
Definition collected (r : wait_result) : bool := match r with Reaped _ => true | _ => false end.

Lemma attach_step fuel s : child_attached (os s) = false -> collected (fst (waitpid (pid s) (os s))) = false ->
  exists l, waitForChildAttach (S fuel) s = waitForChildAttach fuel (mkFrontend (shared s) (pid s) (round (pid s) (os s)) l).
Proof.
  intros Ha Hn. exists (Slept 1000 :: Waited (pid s) (fst (waitpid (pid s) (os s))) :: calls s).
  destruct s as [m p w l]. cbn [os pid calls shared] in *. cbn [waitForChildAttach os]. rewrite Ha.
  unfold mbind at 1, keep_bind at 1, sys_waitpid, round. cbn [os pid]. destruct (waitpid p w) as [[st| |e] w']; [discriminate | reflexivity..].
Qed.

(** The wait ends in the round that finds the plugin attached, or QEMU gone -
    an error -, whichever is first, and in no earlier one. *)
Lemma attach_decided n s (w := fun k => Nat.iter k (round (pid s)) (os s)) :
  (forall k, (k < n)%nat -> child_attached (w k) = false /\ collected (fst (waitpid (pid s) (w k))) = false) ->
  (forall fuel, (fuel <= n)%nat -> exists s', waitForChildAttach fuel s = (Throw OutOfFuel "", s')) /\
  (child_attached (w n) = true -> forall fuel, (n < fuel)%nat -> fst (waitForChildAttach fuel s) = Ok ()) /\
  (child_attached (w n) = false -> collected (fst (waitpid (pid s) (w n))) = true -> forall fuel, (n < fuel)%nat ->
   exists msg, fst (waitForChildAttach fuel s) = Throw Fatal msg).
Proof.
  subst w. revert s. induction n as [|n IH]; intros s Hk.
  - split; [| split].
    + intros [|fuel] Hf; [eexists; reflexivity | lia].
    + intros Ha [|fuel] Hf; [lia |]. cbn in *. rewrite Ha. reflexivity.
    + intros Ha Hr [|fuel] Hf; [lia |]. cbn in *. rewrite Ha. unfold mbind, keep_bind, sys_waitpid.
      destruct (waitpid (pid s) (os s)) as [[[]| |] w]; try discriminate; eexists; reflexivity.
  - destruct (Hk 0%nat) as [H1 H2]; [lia |]. cbn in H1, H2.
    assert (Hk' : forall l k, (k < n)%nat -> let s' := mkFrontend (shared s) (pid s) (round (pid s) (os s)) l in
      child_attached (Nat.iter k (round (pid s')) (os s')) = false /\ collected (fst (waitpid (pid s') (Nat.iter k (round (pid s')) (os s')))) = false).
    { intros l k Hl. cbn. rewrite <- Nat.iter_succ_r. apply Hk. lia. }
    rewrite Nat.iter_succ_r. split; [| split].
    + intros [|fuel] Hf; [eexists; reflexivity |]. destruct (attach_step fuel s H1 H2) as [l ->]. apply (IH _ (Hk' l)). lia.
    + intros Ha [|fuel] Hf; [lia |]. destruct (attach_step fuel s H1 H2) as [l ->]. apply (IH _ (Hk' l)); [exact Ha | lia].
    + intros Ha Hr [|fuel] Hf; [lia |]. destruct (attach_step fuel s H1 H2) as [l ->]. apply (IH _ (Hk' l)); [exact Ha | exact Hr | lia].
Qed.

(** Polling only adds to the record. *)
Lemma reap_extends p t fuel : forall waited s, exists new, calls (snd (reap_loop p t fuel waited s)) = new ++ calls s /\ signalled new = false.
Proof.
  induction fuel as [|fuel IH]; intros waited s; [exists []; auto |]. cbn [reap_loop]. unfold mbind at 1, keep_bind at 1, sys_waitpid.
  destruct (waitpid p (os s)) as [r w].
  assert (G : exists new, calls (snd ((if t <=? waited then mret (false, status0) else sys_usleep (poll_ms * 1000) ≫= fun _ => reap_loop p t fuel (waited + poll_ms))
    (s <| os := w |> <| calls ::= cons (Waited p r) |>))) = new ++ calls s /\ signalled new = false).
  { destruct (t <=? waited); [exists [Waited p r]; auto |]. unfold mbind, keep_bind, sys_usleep. edestruct IH as (new & -> & K).
    exists (new ++ [Slept (poll_ms * 1000); Waited p r]). rewrite <- app_assoc. autorewrite with calls. rewrite K. auto. }
  destruct r as [st| |[]]; try exact G; eexists [_]; auto.
Qed.

(** The wait for the plugin collects a QEMU that died and does not forget its
    process number, as [checkChild] does: the emergency shutdown after the
    error sends it SIGKILL, when the number may be another process's. *)
Lemma attach_failure_signals_collected p fuel s msg s1 : holds p s -> waitForChildAttach fuel s = (Throw Fatal msg, s1) ->
  exists st, outcome (calls s1) = Some st /\ exists new, calls (snd (forceKill s1)) = new ++ Killed p SIGKILL :: calls s1.
Proof.
  intros Hs E. pose proof (attach_wait_spec p fuel s Hs) as A. unfold wp in A. rewrite E in A. destruct A as [Hp [st Ho]]. exists st. split; [exact Ho |].
  cbn [fst snd] in *. destruct Hs as (_ & Hz & _). unfold forceKill. unfold mbind at 1, keep_bind at 1, get_pid. rewrite Hp, (proj2 (Z.eqb_neq p 0)) by lia.
  unfold mbind at 1, keep_bind at 1, sys_kill. unfold mbind, keep_bind. set (s2 := s1 <| os := kill p SIGKILL (os s1) |> <| calls ::= cons (Killed p SIGKILL) |>).
  destruct (reap_extends p 500 (reap_fuel 500) 0 s2) as (new & E2 & _). exists new. fold (reapBounded p 500) in *.
  destruct (reapBounded p 500 s2) as [[a|e t] s3]; exact E2.
Qed.
End Theorems.

(** ** The theorems at concrete inputs *)

(** An operating system with one process, which ends at a given time or 15 ms
    after a signal; its plugin attaches at a given time. *)
Definition never_stopped (st : wait_status) : wait_status := match st with Stopped _ => Exited 0 | st => st end.
Record DemoOs := mkDemo { clock : Z; ends_at : Z; end_status : wait_status; is_reaped : bool; attaches_at : Z }.
#[export] Instance demo_os : Os DemoOs := {|
  waitpid p w :=
    if negb (p =? 42) || is_reaped w then (Failed ECHILD, w)
    else if ends_at w <=? clock w then (Reaped (never_stopped (end_status w)), mkDemo (clock w) (ends_at w) (end_status w) true (attaches_at w))
    else (Unchanged, w);
  kill p sig w :=
    if (p =? 42) && (clock w <? ends_at w) then mkDemo (clock w) (clock w + 15000) (Signaled sig) (is_reaped w) (attaches_at w) else w;
  usleep us w := mkDemo (clock w + us) (ends_at w) (end_status w) (is_reaped w) (attaches_at w);
  fork w := if is_reaped w then (-1, w) else (42, w);
  child_attached w := attaches_at w <=? clock w |}.
#[export] Instance demo_laws : OsLaws DemoOs.
Proof.
  refine {| unreaped w p := p = 42 /\ is_reaped w = false |}.
  - intros p w [-> E]. cbn. rewrite E. cbn. destruct (_ <=? _); [destruct (end_status w); exact I | auto].
  - intros p sig w [-> E]. cbn. destruct (_ <? _); auto.
  - intros p us w [-> E]. auto.
  - intros w. cbn. destruct (is_reaped w) eqn:E; cbn; [left | right]; auto with lia.
Defined.

Definition demo_world (ends : Z) (st : wait_status) : Frontend DemoOs :=
  mkFrontend (mkShared 0 0 [] (fun _ => 0)) 0 (mkDemo 0 ends st false 3500) [].
Definition demo_started (ends : Z) (st : wait_status) : Frontend DemoOs := snd (init_launch 10 config0 (Ok (mkLaunch [] [] None)) (demo_world ends st)).

Lemma child_supervised_witness :
  signals_ok 42 (calls (foldl (fun s o => run_op o s) (demo_started 1000000 (Exited 0)) [Check; Terminate false; Force; Check; Terminate true])).
Proof.
  apply (child_supervised 10 config0 (Ok (mkLaunch [] [] None)) [Check; Terminate false; Force; Check; Terminate true] (demo_world 1000000 (Exited 0))
    (demo_started 1000000 (Exited 0))); vm_compute; reflexivity.
Defined.

Lemma demo_holds : holds 42 (demo_started 34000 (Exited 1)) /\ holds 42 (demo_started 1000000 (Exited 1)).
Proof. unfold holds. repeat split; vm_compute; reflexivity. Qed.

(** The calls since then. *)
Definition since (s s' : Frontend DemoOs) : list call := take (length (calls s') - length (calls s)) (calls s').
Lemma since_new s s' new : calls s' = new ++ calls s -> new = since s s'.
Proof. intros E. unfold since. rewrite E, length_app, Nat.add_sub, take_app_length. reflexivity. Qed.

(** A guest that announced its exit and then fails; one that is stopped. *)
Lemma teardown_honest_witness :
  fst (terminate true (demo_started 34000 (Exited 1))) <> Ok () /\ fst (terminate false (demo_started 1000000 (Exited 1))) = Ok ().
Proof.
  destruct (teardown_honest true 42 _ (proj1 demo_holds)) as (new & E & H & _).
  destruct (teardown_honest false 42 _ (proj2 demo_holds)) as (new' & E' & H' & _).
  apply since_new in E as ->. apply since_new in E' as ->.
  split; [intros Hx; apply H in Hx; vm_compute in Hx; discriminate | apply H'; vm_compute; reflexivity].
Defined.

(** A guest that never ends by itself is stopped in three polls. *)
Lemma teardown_bounded_witness : pid (snd (forceKill (demo_started 1000000 (Exited 1)))) = 0 /\
  waits (since (demo_started 1000000 (Exited 1)) (snd (terminate false (demo_started 1000000 (Exited 1))))) = 4.
Proof.
  destruct (teardown_bounded false 42 _ (proj2 demo_holds)) as [_ (new & _ & _ & _ & _ & H)].
  split; [exact H | vm_compute; reflexivity].
Defined.

(** The plugin attaches after four rounds; or QEMU is gone after two. *)
Lemma attach_decided_witness : let s ends := snd (frontend_spawn config0 (Ok (mkLaunch [] [] None)) (demo_world ends (Exited 1))) in
  fst (waitForChildAttach 5 (s 100000)) = Ok () /\ exists msg, fst (waitForChildAttach 5 (s 2000)) = Throw Fatal msg.
Proof.
  intros s. split.
  - apply (attach_decided 4 (s 100000)); [| vm_compute; reflexivity | lia].
    intros k Hk. do 4 (destruct k as [|k]; [vm_compute; auto |]). lia.
  - apply (attach_decided 2 (s 2000)); [| vm_compute; reflexivity | vm_compute; reflexivity | lia].
    intros k Hk. do 2 (destruct k as [|k]; [vm_compute; auto |]). lia.
Defined.
