(* ===== verification/System.v ===== *)
(** * The simulated system

    [src/src/quetzcpu.cc], class [QuetzCPU], from its constructor to its end:
    the wiring of links, slots and stages, the start of QEMU, the clock with
    the supervision of the process, the normal end and the emergency shutdown.
    The parts are those of [Config], [Launch], [Process] and [Cpu].

    SST is an argument: which ports are connected and which slots are filled
    ([Wiring]), and the parameters' conversions.  A [fatal] does not undo what
    was done before it: from the start of QEMU on the operations are functions
    from a state to an outcome and a state. *)
From S2P Require Import Prelude.
From S2P Require Import Text.
From S2P Require Import NativeRam.
From S2P Require Import WindowCache.
From S2P Require Import WindowCacheBank.
From S2P Require Import StdMem.
From S2P Require Import AcceleratorPort.
From S2P Require BalarPort.
From S2P Require Import Command.
From S2P Require Import Regions.
From S2P Require Import MemIssue.
From S2P Require Import CpuSync.
From S2P Require Import Pipeline.
From S2P Require Import Cpu.
From S2P Require Import Config.
From S2P Require Import Launch.
From S2P Require Import Process.

(** ** Region handlers *)

(** SST's [Params::insert], and the parameters made of a preset's. *)
Definition insert (key value : text) (p : Params) : Params := fun k => if bool_decide (k = key) then Some value else p k.
Definition preset_params (h : RegionHandlerPreset) : Params :=
  foldl (fun p kv => insert (tx kv.1) (tx kv.2) p) (fun _ => None) (params h).

Section Handlers.
Variable conv : Conversions.

(** The constructors of [quetz_region_handlers.cc], by the names they are
    registered with; an unknown name is SST's error. *)
Definition handler_kind (type : string) (p : Params) : result Regions.Kind :=
  let u32 := find (to_uint32 conv) p in
  if (type =? "quetz.ForwardRegionHandler")%string then Ok Forward
  else if (type =? "quetz.FilteredRegionHandler")%string then Ok Filtered
  else if (type =? "quetz.UartRegionHandler")%string then Ok (Uart (u32 "tx_offset" 0) [])
  else if (type =? "quetz.GpuTraceRegionHandler")%string then
    Ok (Trace (mkTrace (u32 "doorbell_offset" 0) (u32 "status_offset" 8) (u32 "max_payload_log" 8) 0 0 []))
  else if (type =? "quetz.MmioForwardRegionHandler")%string then Ok MmioForward
  else if (type =? "quetz.TestFinisherRegionHandler")%string then Ok (TestFinisher (u32 "pass_value" 0x5555) false 0)
  else Throw Fatal "no such region handler".
Definition load_handler (type : string) (p : Params) : result MemRegionHandler :=
  k ← handler_kind type p;
  Ok (mkHandler (find (to_uint64 conv) p "start" 0) (find (to_uint64 conv) p "end" 0) k).
End Handlers.

(** ** Wiring *)

(** What the configuration graph gives the component: the filled slots, and
    the connected ports by name.  A slot of ports or handlers is what SST
    creates from it. *)
Record Wiring (A : Type) := mkWiring
  { region_slot : option (list (string * Params));
    memory_slot : option (bool * Z);              (* isAllPopulated(), getMaxPopulatedSlotNumber() *)
    mmio_slot : option (Z -> bool);               (* isPopulated *)
    accelerator_slot : option (list A);
    isPortConnected : text -> bool;
    configureLink : text -> bool }.
Arguments mkWiring {A}.
Arguments region_slot {A} _.
Arguments memory_slot {A} _.
Arguments mmio_slot {A} _.
Arguments accelerator_slot {A} _.
Arguments isPortConnected {A} _ _.
Arguments configureLink {A} _ _.

Fixpoint traverse {X Y} (f : X -> result Y) (l : list X) : result (list Y) :=
  match l with
  | [] => Ok []
  | x :: l => y ← f x; ys ← traverse f l; Ok (y :: ys)
  end.

(** The state of the component: its configuration, the part the clock drives,
    the frontend, whether [frontend_] points to it, and the output. *)
Record System (A W : Type) := mkSystem
  { config : QuetzConfig; sync_cfg : CpuSync.Config; core_cfg : QuetzCoreContext;
    cpu : QuetzCPU A; irq_links : nat;
    frontend : Frontend W; frontend_live : bool;
    printed : list (nat * Report) }.
Arguments mkSystem {A W}.
Arguments config {A W} _.
Arguments sync_cfg {A W} _.
Arguments core_cfg {A W} _.
Arguments cpu {A W} _.
Arguments irq_links {A W} _.
Arguments frontend {A W} _.
Arguments frontend_live {A W} _.
Arguments printed {A W} _.
#[export] Instance System_settable {A W} : Settable (System A W) := fun s =>
  mkSystem (config s) (sync_cfg s) (core_cfg s) (cpu s) (irq_links s) (frontend s) (frontend_live s) (printed s).

Section Component.
Context {A : Type} `{AcceleratorPort A} {W : Type} `{Os W}.
Variables (conv : Conversions) (getenv : string -> option text).
(** The port of the given parameters, as SST creates it. *)
Variable balar_accelerator_port : BalarPort.Params -> A.
Implicit Types (wire : Wiring A) (cfg : QuetzConfig) (s : System A W).

(** ** The constructor *)

Definition loadRegionHandlers wire cfg : result (list MemRegionHandler) :=
  match region_slot wire with
  | Some l => traverse (fun h => load_handler conv h.1 h.2) l
  | None => traverse (fun h => load_handler conv (type h) (preset_params h)) (region_handlers cfg)
  end.

(** The stages are the default ones. *)
Definition core_context (p : Params) cfg : QuetzCoreContext :=
  let array := fun f : Z -> Z => f <$> seqZ 0 QUETZ_INSN_CLASS_COUNT in
  mkContext (max_core_queue cfg) (max_issue_cyc cfg) (max_pend_trans cfg) (Config.max_insts cfg) (cache_line_sz cfg)
    (detailed_tracking cfg) (find (to_bool conv) p "filter_unmatched_regions" false) true
    (array (Config.exec_latency cfg)) (array (Config.compute_latency cfg)) true true.

(** A memory interface for each vCPU: the slot's, or the ports [cache_link_%u]. *)
Definition memory_check wire cfg : result () :=
  match memory_slot wire with
  | Some (all, max) =>
      throw_if (negb all || negb (u32 max =? u32 (Config.vcpu_count cfg - 1))) Fatal
        "Mismatch: 'memory' subcomponent slots must match vcpu_count"
  | None => Ok ()
  end.

Definition want_mmio wire (i : Z) : bool :=
  isPortConnected wire (snprintf 128 (tx "mmio_link_" ++ dec i)) ||
  match mmio_slot wire with Some populated => populated i | None => false end.
Definition sync_config wire cfg : CpuSync.Config :=
  CpuSync.mkConfig (Config.vcpu_count cfg) (Config.sst_window_cache cfg) (Config.window_big_endian cfg) (Config.sst_window_base cfg)
    (Config.sst_window_size cfg) (want_mmio wire).
Definition vcpus cfg : list nat := seq 0 (Z.to_nat (Config.vcpu_count cfg)).
Definition mmio_check wire cfg : result () :=
  throw_if (Config.sst_window_cache cfg && negb (forallb (fun i => want_mmio wire (Z.of_nat i)) (vcpus cfg))) Fatal
    "Window cache requires an MMIO interface for vCPU".

(** The parameters of the port made when none is in the slot. *)
Definition balar_params cfg : result BalarPort.Params :=
  let number := fun n => to_uint64 conv (dec n) in
  BalarPort.construct
    (BalarPort.mkParams (number (balar_doorbell_addr cfg)) (number (balar_doorbell_size cfg)) (number (balar_packet_flush_bytes cfg)) true
       (to_bool conv (if async_offload cfg then tx "1" else tx "0")) (number (async_doorbell_addr cfg)) (number (async_doorbell_size cfg))
       (to_uint32 conv (dec (async_completion_depth cfg)))) "range_from_value".
Definition loadAcceleratorPorts wire cfg : result (list A) :=
  match accelerator_slot wire with
  | Some l => Ok l
  | None => if balar_doorbell_addr cfg =? 0 then Ok []
            else P ← balar_params cfg; Ok [balar_accelerator_port P]
  end.

(** [for (i = 0;; i++)]: up to the first port that is not connected. *)
Fixpoint configureIrqLinks (fuel : nat) wire (i : nat) : result nat :=
  match fuel with
  | O => Throw OutOfFuel "configureIrqLinks"
  | S fuel =>
      let name := snprintf 64 (tx "irq_link_" ++ dec (Z.of_nat i)) in
      if negb (isPortConnected wire name) then Ok i
      else throw_if (negb (configureLink wire name)) Fatal "Failed to configure irq_link" ≫= fun _ =>
           configureIrqLinks fuel wire (S i)
  end.

(** The mailbox side over a segment as [QuetzTunnel::initialize] leaves it. *)
Definition sync0 cfg (bank : WindowCacheBank) (ports : list A) (m : Shared) : Cpu A :=
  mkCpu bank (if Config.sst_window_cache cfg then replicate (Z.to_nat (Config.vcpu_count cfg)) 0 else []) ∅ ports m
    (replicate 256 (mkRequest false 0 0 0 0)) (replicate 256 0) 0 [].

(** [m]: the segment the frontend's tunnel has initialised; [w]: the system. *)
Definition construct (fuel : nat) wire (p : Params) (m : Shared) (w : W) : result (System A W) :=
  cfg ← fromParams conv getenv p;
  bank ← Config.construct cfg;
  table ← loadRegionHandlers wire cfg;
  let scfg := sync_config wire cfg in
  let ctx := core_context p cfg in
  cores ← traverse (fun i => Pipeline.construct (core_ctx scfg ctx i) table) (vcpus cfg);
  memory_check wire cfg ≫= fun _ =>
  mmio_check wire cfg ≫= fun _ =>
  ports ← loadAcceleratorPorts wire cfg;
  links ← configureIrqLinks fuel wire 0;
  Ok (mkSystem cfg scfg ctx (mkQuetzCPU (sync0 cfg bank ports m) cores table 0 0 0 0 true true []) links (mkFrontend m 0 w []) true []).

(** ** Operations on the parts

    After an error of the clock's handlers only the frontend is used again. *)

#[local] Abbreviation K := (Keep (System A W)).

Definition on_frontend {X} (f : Keep (Frontend W) X) : K X := fun s =>
  if frontend_live s then let (r, f') := f (frontend s) in (r, s <| frontend := f' |>)
  else (Throw OutOfRange "frontend_", s).
Definition on_cpu {X} (f : QuetzCPU A -> result (X * QuetzCPU A)) : K X := fun s =>
  match f (cpu s) with Ok (x, c) => (Ok x, s <| cpu := c |>) | Throw e msg => (Throw e msg, s) end.
Definition the_cpu : K (QuetzCPU A) := fun s => (Ok (cpu s), s).

(** ** Start *)

(** Phase 0: QEMU is started and its plugin awaited; the segment is then the
    one the frontend has put the native regions in. *)
Definition launch (readable : text -> bool) (install_dir shmem : text) (fuel : nat) : K () := fun s =>
  on_frontend (init_launch fuel (config s)
    (spawn getenv readable install_dir (config s) shmem (detailed_tracking (config s)))) s.
Definition start_clock : K () := fun s =>
  (Ok (), s <| cpu ::= fun c => Cpu.init (c <| sync ::= fun x => x <| CpuSync.shared := Process.shared (frontend s) |> |>) |>).
Definition init (readable : text -> bool) (install_dir shmem : text) (fuel : nat) : K () :=
  launch readable install_dir shmem fuel ≫= fun _ => start_clock.

(** ** The clock *)

Definition advance_cpu (E : Env) : K () := fun s =>
  on_cpu (fun c => c ← advance (sync_cfg s) (core_cfg s) E c; Ok ((), c)) s.
Definition poll_frontend : K () := fun s =>
  let s := s <| cpu ::= fun c => c <| child_poll_ticks ::= fun n => u32 (n + 1) |> |> in
  if asks_child (sync_cfg s) (cpu s) then
    match on_frontend checkChild s with
    | (Ok b, s) => (Ok (), s <| cpu ::= fun c => c <| child_running := b |> |>)
    | (Throw e msg, s) => (Throw e msg, s)
    end
  else (Ok (), s).
Definition end_tick (child_was_running : bool) : K bool := fun s => on_cpu (end_of_tick (sync_cfg s) child_was_running) s.
Definition tick (E : Env) : K bool :=
  advance_cpu E ≫= fun _ =>
  c ← the_cpu;
  poll_frontend ≫= fun _ =>
  end_tick (child_running c).

(** ** The end *)

(** What the handlers of the table print for a core. *)
Definition finishCore (table : list MemRegionHandler) (core : nat) : list (nat * Report) :=
  (fun r => (core, r)) <$> omap Regions.finish table.
Definition print_reports : K () := fun s =>
  (Ok (), s <| printed ::= fun l => l ++ flat_map (finishCore (region_table (cpu s))) (vcpus (config s)) |>).
Definition finish : K () :=
  print_reports ≫= fun _ =>
  c ← the_cpu;
  on_frontend (terminate (guest_exited c)).

(** SST can call this at any time, more than once. *)
Definition emergencyShutdown : K () := fun s =>
  if frontend_live s then
    let (r, f) := forceKill (frontend s) in (r, s <| frontend := f |> <| frontend_live := false |>)
  else (Ok (), s).
End Component.
