(* ===== verification/SystemThm.v ===== *)
(** * The simulated system: theorems

    When the component can be built; that what it starts from is what the
    theorems on its parts assume; and how it ends: the verdict on the guest,
    and that nothing of it is left running. *)
From S2P Require Import Prelude.
From S2P Require Import Text.
From S2P Require Import NativeRam.
From S2P Require Import WindowCache.
From S2P Require Import WindowCacheBank.
From S2P Require Import StdMem.
From S2P Require Import AcceleratorPort.
From S2P Require BalarPort.
From S2P Require Import Command.
From S2P Require Import Regions.
From S2P Require Import MemIssue.
From S2P Require Import CpuSync.
From S2P Require CpuAnswers.
From S2P Require Import Pipeline.
From S2P Require Import PipelineThm.
From S2P Require Import Cpu.
From S2P Require Import CpuThm.
From S2P Require Import Config.
From S2P Require Import ConfigThm.
From S2P Require Import Platform.
From S2P Require Import Launch.
From S2P Require Import Process.
From S2P Require Import ProcessThm.
From S2P Require Import System.

(** ** Lists of results *)

Lemma traverse_all {X Y} (f : X -> result Y) (y : Y) l : (forall x, x ∈ l -> f x = Ok y) -> traverse f l = Ok (replicate (length l) y).
Proof.
  induction l as [|x l IH]; intros Hf; cbn; [reflexivity |]. rewrite Hf by left. cbn [mbind result_bind].
  rewrite IH by (intros; apply Hf; right; assumption). reflexivity.
Qed.
Lemma traverse_is_ok {X Y} (f : X -> result Y) l : is_ok (traverse f l) = true <-> forall x, x ∈ l -> is_ok (f x) = true.
Proof.
  induction l as [|x l IH]; cbn; [split; [intros _ x Hx; inversion Hx | reflexivity] |].
  destruct (f x) as [y|e m] eqn:E; cbn [mbind result_bind is_ok].
  - transitivity (is_ok (traverse f l) = true); [destruct (traverse f l); reflexivity |]. rewrite IH. split.
    + intros H z Hz. apply elem_of_cons in Hz as [->|Hz]; [rewrite E; reflexivity | auto].
    + intros H z Hz. apply H. right. exact Hz.
  - split; [discriminate |]. intros H. specialize (H x ltac:(left)). rewrite E in H. discriminate.
Qed.
Lemma is_ok_bind {X Y} (m : result X) (k : X -> result Y) : is_ok (m ≫= k) = true <-> exists x, m = Ok x /\ is_ok (k x) = true.
Proof.
  destruct m as [x|e t]; cbn [mbind result_bind is_ok]; [split; [eauto | intros (y & [= ->] & H); exact H] |].
  split; [discriminate | intros (? & ? & _); discriminate].
Qed.
Lemma is_ok_check {Y} b e t (k : result Y) : is_ok (throw_if b e t ≫= fun _ => k) = true <-> b = false /\ is_ok k = true.
Proof. destruct b; cbn; intuition discriminate. Qed.

Section Theorems.
Context {A : Type} `{AcceleratorLaws A} {W : Type} `{OsLaws W}.
Variables (conv : Conversions) (getenv : string -> option text).
Variable balar_accelerator_port : BalarPort.Params -> A.
Context (Hconv32 : forall t, is_u32 (to_uint32 conv t)) (Hconv64 : forall t, is_u64 (to_uint64 conv t)).
Implicit Types (wire : Wiring A) (cfg : QuetzConfig) (s : System A W).

#[local] Abbreviation build := (System.construct conv getenv balar_accelerator_port).
#[local] Abbreviation vcpu_count := Config.vcpu_count.

(** ** The constructor *)

(** What [QuetzEventPipeline] asks of its limits. *)
Definition limits_ok cfg : Prop := max_core_queue cfg <> 0 /\ max_issue_cyc cfg <> 0 /\ max_pend_trans cfg <> 0 /\ cache_line_sz cfg <> 0.

Lemma pipeline_is_ok p scfg cfg i t : is_ok (Pipeline.construct (core_ctx scfg (core_context conv p cfg) i) t) = true <-> limits_ok cfg.
Proof.
  unfold Pipeline.construct. rewrite is_ok_check. cbn [core_ctx core_context max_queue_len max_issue_per_cycle max_pending cache_line_size].
  unfold limits_ok. rewrite !orb_false_iff, !Z.eqb_neq. cbn. tauto.
Qed.
Lemma pipeline_is_pipeline0 ctx t q : Pipeline.construct ctx t = Ok q -> q = pipeline0 t.
Proof. unfold Pipeline.construct. destruct (_ || _); [discriminate |]. intros [= <-]. reflexivity. Qed.

Lemma cores_built p scfg cfg t : 0 <= vcpu_count cfg ->
  let r := traverse (fun i => Pipeline.construct (core_ctx scfg (core_context conv p cfg) i) t) (vcpus cfg) in
  (r = Ok (replicate (Z.to_nat (vcpu_count cfg)) (pipeline0 t)) /\ (0 < vcpu_count cfg -> limits_ok cfg)) \/
  (is_ok r = false /\ 0 < vcpu_count cfg /\ ~ limits_ok cfg).
Proof.
  intros Hn r. destruct (is_ok r) eqn:E; [left | right].
  - pose proof (proj1 (traverse_is_ok _ _) E) as Hall. split.
    + unfold r. rewrite (traverse_all _ (pipeline0 t)); [unfold vcpus; rewrite length_seq; reflexivity |].
      intros i Hi. specialize (Hall i Hi). cbv beta in Hall. destruct (Pipeline.construct _ t) eqn:Ep in Hall |- *; [| discriminate Hall].
      rewrite (pipeline_is_pipeline0 _ _ _ Ep). reflexivity.
    + intros Hz. apply (pipeline_is_ok p scfg cfg 0 t), Hall. unfold vcpus. apply elem_of_seq. lia.
  - split; [reflexivity |].
    assert (Hl : ~ limits_ok cfg).
    { intros Hl. assert (is_ok r = true) as Hr; [| congruence]. apply traverse_is_ok. intros i _. apply pipeline_is_ok, Hl. }
    split; [| exact Hl]. destruct (decide (0 < vcpu_count cfg)) as [Hz|Hz]; [exact Hz |].
    unfold r, vcpus in E. replace (vcpu_count cfg) with 0 in E by lia. discriminate.
Qed.

Definition known_handlers : list string :=
  ["quetz.ForwardRegionHandler"; "quetz.FilteredRegionHandler"; "quetz.UartRegionHandler"; "quetz.GpuTraceRegionHandler";
   "quetz.MmioForwardRegionHandler"; "quetz.TestFinisherRegionHandler"]%string.
Lemma load_handler_ok ty q : is_ok (load_handler conv ty q) = true <-> ty ∈ known_handlers.
Proof.
  unfold load_handler. rewrite is_ok_bind. unfold handler_kind, known_handlers.
  rewrite !elem_of_cons, elem_of_nil.
  repeat (match goal with |- context [String.eqb ty ?x] => destruct (String.eqb_spec ty x) as [Hx|?] end;
          [split; [tauto | intros _; eexists; split; reflexivity] |]).
  split; [intros (? & ? & _); discriminate | intros Hx; exfalso; tauto].
Qed.
Definition handlers_known wire cfg : Prop :=
  match region_slot wire with
  | Some l => forall h, h ∈ l -> h.1 ∈ known_handlers
  | None => forall h, h ∈ region_handlers cfg -> type h ∈ known_handlers
  end.
Lemma handlers_ok wire cfg : is_ok (loadRegionHandlers conv wire cfg) = true <-> handlers_known wire cfg.
Proof.
  unfold loadRegionHandlers, handlers_known. destruct (region_slot wire); rewrite traverse_is_ok; (split; intros Hx h Hh; [eapply load_handler_ok, (Hx h Hh) | apply load_handler_ok, (Hx h Hh)]).
Qed.

Definition irq_link (i : nat) : text := snprintf 64 (tx "irq_link_" ++ dec (Z.of_nat i)).
(** The links of the ports before the first that is not connected. *)
Definition irqs_ok wire : Prop :=
  forall k, (forall j, (j <= k)%nat -> isPortConnected wire (irq_link j) = true) -> configureLink wire (irq_link k) = true.
Lemma links_ok wire k : isPortConnected wire (irq_link k) = false -> forall fuel i, (i <= k)%nat -> (k < fuel + i)%nat ->
  (forall j, (j < i)%nat -> isPortConnected wire (irq_link j) = true /\ configureLink wire (irq_link j) = true) ->
  is_ok (configureIrqLinks fuel wire i) = true <-> irqs_ok wire.
Proof.
  intros Hk. induction fuel as [|fuel IH]; intros i Hi Hf Hb; [lia |]. cbn [configureIrqLinks]. fold (irq_link i).
  destruct (isPortConnected wire (irq_link i)) eqn:Ei; cbn [negb].
  - assert (i <> k) by congruence. rewrite is_ok_check, negb_false_iff. split.
    + intros [Hc Ho]. apply IH in Ho; [exact Ho | lia | lia |]. intros j Hj. destruct (decide (j = i)) as [->|]; [auto | apply Hb; lia].
    + intros Ho. assert (Hc : configureLink wire (irq_link i) = true).
      { apply Ho. intros j Hj. destruct (decide (j = i)) as [->|]; [exact Ei | apply Hb; lia]. }
      split; [exact Hc |]. apply IH; [lia | lia | | exact Ho]. intros j Hj. destruct (decide (j = i)) as [->|]; [auto | apply Hb; lia].
  - split; [intros _ | reflexivity]. intros k' Hk'. destruct (decide (k' < i)%nat); [apply Hb; assumption |].
    rewrite Hk' in Ei by lia. discriminate.
Qed.

(** What a graph and a configuration must have. *)
Record buildable wire cfg : Prop :=
  { bd_cache : Config.sst_window_cache cfg = true -> cacheable cfg /\ forall i, 0 <= i < vcpu_count cfg -> want_mmio wire i = true;
    bd_limits : 0 < vcpu_count cfg -> limits_ok cfg;
    bd_handlers : handlers_known wire cfg;
    bd_memory : match memory_slot wire with Some (all, max) => all = true /\ u32 max = u32 (vcpu_count cfg - 1) | None => True end;
    bd_irqs : irqs_ok wire }.

Lemma mmio_check_ok wire cfg : 0 <= vcpu_count cfg -> is_ok (mmio_check wire cfg) = true <->
  (Config.sst_window_cache cfg = true -> forall i, 0 <= i < vcpu_count cfg -> want_mmio wire i = true).
Proof.
  intros Hn. unfold mmio_check. destruct (Config.sst_window_cache cfg); cbn [andb]; [| split; [discriminate | reflexivity]].
  transitivity (forallb (fun i => want_mmio wire (Z.of_nat i)) (vcpus cfg) = true); [destruct (forallb _ _); cbn; split; auto; discriminate |].
  rewrite forallb_forall. unfold vcpus. split.
  - intros Hx _ i Hi. replace i with (Z.of_nat (Z.to_nat i)) by lia. apply Hx, in_seq. lia.
  - intros Hx i Hi. apply in_seq in Hi. apply (Hx eq_refl). lia.
Qed.
Lemma memory_check_ok wire cfg : is_ok (memory_check wire cfg) = true <->
  match memory_slot wire with Some (all, max) => all = true /\ u32 max = u32 (vcpu_count cfg - 1) | None => True end.
Proof.
  unfold memory_check. destruct (memory_slot wire) as [[all max]|]; [| tauto].
  transitivity (negb all || negb (u32 max =? u32 (vcpu_count cfg - 1)) = false); [destruct (_ || _); cbn; split; auto; discriminate |].
  rewrite orb_false_iff, !negb_false_iff, Z.eqb_eq. reflexivity.
Qed.
Lemma ports_ok wire cfg : exists l, loadAcceleratorPorts conv balar_accelerator_port wire cfg = Ok l.
Proof. unfold loadAcceleratorPorts. destruct (accelerator_slot wire); [eauto |]. destruct (_ =? 0); eauto. Qed.
Lemma caches_ok cfg : consistent cfg -> is_ok (Config.construct cfg) = true <-> (Config.sst_window_cache cfg = true -> cacheable cfg).
Proof.
  intros C. pose proof (constructed_caches cfg C) as Hc. destruct (Config.construct cfg); cbn [is_ok].
  - destruct (Config.sst_window_cache cfg); [| split; [discriminate | reflexivity]]. split; [intros _ _; apply Hc | reflexivity].
  - destruct Hc as [Hw Hc]. split; [discriminate | intros Hx; contradiction (Hc (Hx Hw))].
Qed.

Lemma throw_unit {Y} (m : result ()) (k : result Y) : is_ok (m ≫= fun _ => k) = true <-> is_ok m = true /\ is_ok k = true.
Proof. destruct m as [[]|]; cbn; intuition discriminate. Qed.

Lemma construct_iff fuel wire p cfg m (w : W) : fromParams conv getenv p = Ok cfg ->
  (exists k, (k < fuel)%nat /\ isPortConnected wire (irq_link k) = false) ->
  is_ok (build fuel wire p m w) = true <-> buildable wire cfg.
Proof.
  intros E (k & Hk & Hc). pose proof (fromParams_consistent _ _ _ _ E) as C. pose proof (fromParams_widths _ _ _ _ Hconv32 Hconv64 E) as [Hv _ _ _ _].
  assert (Hn : 0 <= vcpu_count cfg) by apply Hv. unfold System.construct. rewrite E. cbn [mbind result_bind]. cbv zeta.
  pose proof (caches_ok cfg C) as Hcache. pose proof (handlers_ok wire cfg) as Hh. pose proof (links_ok wire k Hc fuel 0 ltac:(lia) ltac:(lia) ltac:(lia)) as Hl.
  pose proof (memory_check_ok wire cfg) as Hm. pose proof (mmio_check_ok wire cfg Hn) as Hi. destruct (ports_ok wire cfg) as [ports Hp].
  destruct (Config.construct cfg) as [bank|] eqn:Eb; cbn [is_ok mbind result_bind] in *.
  2: { split; [discriminate |]. intros []. apply Hcache. intros Hw. apply (bd_cache0 Hw). }
  destruct (loadRegionHandlers conv wire cfg) as [table|] eqn:Et; cbn [is_ok mbind result_bind] in *.
  2: { split; [discriminate |]. intros []. apply Hh, bd_handlers0. }
  destruct (cores_built p (sync_config wire cfg) cfg table Hn) as [[-> Hx] | (Hf & Hz & Hx)].
  - cbn [mbind result_bind]. rewrite !throw_unit, Hp, Hm, Hi. cbn [mbind result_bind].
    assert (Hlinks : forall f : nat -> System A W, is_ok (configureIrqLinks fuel wire 0 ≫= fun l => Ok (f l)) = true <-> irqs_ok wire).
    { intros f. rewrite <- Hl. destruct (configureIrqLinks fuel wire 0); reflexivity. }
    rewrite Hlinks. split.
    + intros (G1 & G2 & G3). constructor; auto; [| apply Hh; reflexivity]. intros Hw. split; [apply Hcache; auto | auto].
    + intros []. split; [exact bd_memory0 | split; [| exact bd_irqs0]]. intros Hw. apply (bd_cache0 Hw).
  - destruct (traverse _ (vcpus cfg)); [discriminate |]. cbn. split; [discriminate |]. intros []. contradiction (Hx (bd_limits0 Hz)).
Qed.

(** The component as the constructor leaves it. *)
Lemma construct_ok fuel wire p m (w : W) s : build fuel wire p m w = Ok s -> exists cfg bank table ports links,
  fromParams conv getenv p = Ok cfg /\ Config.construct cfg = Ok bank /\ loadAcceleratorPorts conv balar_accelerator_port wire cfg = Ok ports /\
  (0 < vcpu_count cfg -> limits_ok cfg) /\
  s = mkSystem cfg (sync_config wire cfg) (core_context conv p cfg)
        (mkQuetzCPU (sync0 cfg bank ports m) (replicate (Z.to_nat (vcpu_count cfg)) (pipeline0 table)) table 0 0 0 0 true true [])
        links (mkFrontend m 0 w []) true [].
Proof.
  unfold System.construct. cbv zeta. intros E. apply bind_ok in E as (cfg & Ec & E). apply bind_ok in E as (bank & Eb & E).
  apply bind_ok in E as (table & Et & E). apply bind_ok in E as (cores & El & E). apply bind_ok in E as (u & _ & E). apply bind_ok in E as (u' & _ & E).
  apply bind_ok in E as (ports & Ep & E). apply bind_ok in E as (links & _ & [= <-]).
  pose proof (fromParams_widths _ _ _ _ Hconv32 Hconv64 Ec) as [Hv _ _ _ _].
  destruct (cores_built p (sync_config wire cfg) cfg table (proj1 Hv)) as [[Hc Hx]|[Hf _]]; [| rewrite El in Hf; discriminate].
  rewrite Hc in El. injection El as <-. exists cfg, bank, table, ports, links. auto 6.
Qed.

(** ** The clock *)

Definition with_child (r : result bool) (E : Env) : Env := mkEnv (e_nano E) (e_now E) r (e_order E).
Lemma advance_child scfg ctx r E (c : QuetzCPU A) : advance scfg ctx (with_child r E) c = advance scfg ctx E c.
Proof.
  assert (Hc : forall n i c, tick_cores scfg ctx (with_child r E) n i c = tick_cores scfg ctx E n i c).
  { induction n as [|n IH]; intros i x; [reflexivity |]. cbn [tick_cores]. change (tick_core scfg ctx (with_child r E) i x) with (tick_core scfg ctx E i x).
    destruct (tick_core scfg ctx E i x); [apply IH | reflexivity]. }
  unfold advance. change (poll scfg (with_child r E)) with (@poll A H scfg E). destruct (poll scfg E _); cbn [mbind result_bind]; [| reflexivity].
  rewrite Hc. reflexivity.
Qed.

(** A tick is one of [Cpu.tick], told what the frontend knows of the child;
    the frontend is asked at most once. *)
Lemma tick_parts E s : frontend_live s = true ->
  let '(r, s') := System.tick E s in let '(b, f) := checkChild (frontend s) in
  (forall x, r = Ok x -> Cpu.tick (sync_cfg s) (core_cfg s) (with_child b E) (cpu s) = Ok (x, cpu s')) /\
  (frontend s' = frontend s \/ (frontend s' = f /\ (is_ok b = false -> is_ok r = false))) /\
  frontend_live s' = true /\ config s' = config s /\ sync_cfg s' = sync_cfg s /\ core_cfg s' = core_cfg s.
Proof.
  intros Hl. destruct (checkChild (frontend s)) as [b f] eqn:Ek. unfold Cpu.tick, tick_body. rewrite advance_child.
  change (System.tick E s) with (match advance_cpu E s with
    | (Ok _, s1) => match poll_frontend s1 with (Ok _, s2) => end_tick (child_running (cpu s1)) s2 | (Throw e t, s2) => (Throw e t, s2) end
    | (Throw e t, s1) => (Throw e t, s1) end).
  unfold advance_cpu, on_cpu. destruct (advance (sync_cfg s) (core_cfg s) E (cpu s)) as [c|e t]; cbn [mbind result_bind].
  2: { repeat split; auto. discriminate. }
  destruct s as [cf sc cc cp il fr lv pr]. cbn in Hl, Ek. subst lv. unfold poll_frontend, poll_child, end_tick, on_cpu, on_frontend. cbn -[asks_child end_of_tick checkChild u32].
  match goal with |- context [asks_child sc ?x] => set (c1 := x) end. destruct (asks_child sc c1).
  - rewrite Ek. destruct b as [b|e t]; cbn -[end_of_tick].
    + destruct (end_of_tick _ _ _) as [[x c2]|e t]; cbn; repeat split; auto; try discriminate; intros y [= <-]; reflexivity.
    + repeat split; auto. discriminate.
  - cbn -[end_of_tick]. destruct (end_of_tick _ _ _) as [[x c2]|e t]; cbn; repeat split; auto; try discriminate; intros y [= <-]; reflexivity.
Qed.

(** ** The start *)

(** A graph with an MMIO link for each vCPU, and ports that owe nothing. *)
Definition fresh_port (a : A) : Prop := port_inv 0 a /\ forall w, owed a w = 0.
Record wired wire : Prop :=
  { wr_mmio : forall i, want_mmio wire (Z.of_nat i) = true;
    wr_ports : match accelerator_slot wire with Some l => Forall fresh_port l | None => forall P, fresh_port (balar_accelerator_port P) end }.

(** The component after its constructor and phase 0 of [init]. *)
Definition system_started s : Prop := exists fuel wire p m w readable dir shmem rounds s0,
  build fuel wire p m w = Ok s0 /\ wired wire /\ 0 < vcpu_count (config s0) /\
  System.init getenv readable dir shmem rounds s0 = (Ok (), s).

Record started_as s : Prop :=
  { sa_cpu : cpu_started (sync_cfg s) (region_table (cpu s)) (cpu s);
    sa_count : 0 <= CpuSync.vcpu_count (sync_cfg s) < 2 ^ 32;
    sa_ctx : forall i, ctx_ok (core_ctx (sync_cfg s) (core_cfg s) i);
    sa_live : frontend_live s = true;
    sa_child : ProcessThm.holds (pid (frontend s)) (frontend s) }.

Lemma ports_fresh wire cfg ports : wired wire -> loadAcceleratorPorts conv balar_accelerator_port wire cfg = Ok ports -> Forall fresh_port ports.
Proof.
  intros [_ Hw]. unfold loadAcceleratorPorts. destruct (accelerator_slot wire) as [l|]; [intros [= <-]; exact Hw |].
  destruct (_ =? 0); intros E; [injection E as <-; constructor |]. apply bind_ok in E as (P & _ & [= <-]). repeat constructor; apply Hw.
Qed.

Lemma bank_idle_caches cfg bank : consistent cfg -> Config.construct cfg = Ok bank ->
  (forall i st, states bank !! i = Some st -> WindowCache.active (s_cache st) = false) /\ WindowCacheBank.pending bank = ∅.
Proof.
  intros C E. pose proof (constructed_caches cfg C) as Hc. rewrite E in Hc.
  destruct (Config.sst_window_cache cfg); [destruct Hc as [_ ->] | subst bank]; (split; [| reflexivity]).
  - intros i st Hi. apply lookup_replicate in Hi as [-> _]. reflexivity.
  - intros i st Hi. discriminate.
Qed.

Lemma init_ok readable dir shmem rounds s0 s : frontend_live s0 = true -> System.init getenv readable dir shmem rounds s0 = (Ok (), s) ->
  exists l f, init_launch rounds (config s0) l (frontend s0) = (Ok (), f) /\
  s = (s0 <| frontend := f |>) <| cpu := Cpu.init (cpu s0 <| sync ::= fun x => x <| CpuSync.shared := Process.shared f |> |>) |>.
Proof.
  intros Hl. destruct s0 as [cf sc cc cp il fr lv pr]. cbn in Hl. subst lv. unfold System.init, launch, mbind, keep_bind, on_frontend, start_clock.
  cbn -[spawn init_launch]. set (l := spawn _ _ _ _ _ _). destruct (init_launch rounds cf l fr) as [[[]|e t] f] eqn:E; [| discriminate].
  cbn. intros [= <-]. exists l, f. auto.
Qed.

Lemma system_starts s : system_started s -> started_as s.
Proof.
  intros (fuel & wire & p & m & w & readable & dir & shmem & rounds & s0 & Eb & Hw & Hz & Ei).
  destruct (construct_ok _ _ _ _ _ _ Eb) as (cfg & bank & table & ports & links & Ec & Ek & Ep & Hlim & ->).
  pose proof (fromParams_consistent _ _ _ _ Ec) as C. pose proof (fromParams_widths _ _ _ _ Hconv32 Hconv64 Ec) as [Hv Hq Hpd Hiss Hline].
  cbn in Hz. destruct (Hlim Hz) as (L1 & L2 & L3 & L4). destruct (bank_idle_caches cfg bank C Ek) as [Hidle Hpend].
  pose proof (ports_fresh wire cfg ports Hw Ep) as Hports.
  apply init_ok in Ei as (l & f & El & ->); [| reflexivity].
  pose proof (init_spec rounds cfg l (mkFrontend m 0 w []) eq_refl eq_refl) as If. unfold wp in If. cbn [config frontend] in El. rewrite El in If.
  constructor; cbn -[Z.pow replicate]; try exact Hv; try reflexivity; [| | apply If].
  - constructor; cbn -[replicate]; auto. constructor; cbn -[replicate]; auto.
    + intros i r Hi. apply lookup_replicate in Hi as [-> _]. reflexivity.
  - intros i. constructor; cbn -[Z.pow]; unfold is_word in *; try lia; auto. apply Hw.
Qed.

(** ** The run *)

(** The clock, or what arrives between its ticks. *)
Inductive sys_step : System A W * list (list QuetzCommand) * (Z -> Z) -> System A W * list (list QuetzCommand) * (Z -> Z) -> Prop :=
  | sys_tick E b s s' g n : System.tick E s = (Ok b, s') -> sys_step (s, g, n) (s', g, n)
  | sys_input s g n c' g' n' : cpu_input (sync_cfg s) (system_mode (config s)) (cpu s, g, n) (c', g', n') ->
      sys_step (s, g, n) (s <| cpu := c' |>, g', n').
Definition idle_guests s : list (list QuetzCommand) := replicate (Z.to_nat (CpuSync.vcpu_count (sync_cfg s))) [].
(** [s], where the guests have published [g] and asked [n], after a start as [s0]. *)
Definition runs_to s0 s g n : Prop := system_started s0 /\ rtc sys_step (s0, idle_guests s0, fun _ => 0) (s, g, n).

(** The child of the start [s0], as the clock has left it: in hand, or
    collected with status 0 - and never signalled. *)
Definition watched s0 (f : Frontend W) : Prop :=
  exists new, calls f = new ++ calls (frontend s0) /\ signalled new = false /\
  ((ProcessThm.holds (pid (frontend s0)) f /\ outcome new = None) \/ (released (pid (frontend s0)) f /\ outcome new = Some (Exited 0))).

Record running s0 s g n : Prop :=
  { rn_cpu : good (sync_cfg s0) (core_cfg s0) (region_table (cpu s0)) (cpu s) g n;
    rn_child : watched s0 (frontend s);
    rn_live : frontend_live s = true;
    rn_cfg : config s = config s0 /\ sync_cfg s = sync_cfg s0 /\ core_cfg s = core_cfg s0 }.

Lemma idle_check (f : Frontend W) : pid f = 0 -> checkChild f = (Ok false, f).
Proof. intros Hp. destruct f as [m p w l]. cbn in Hp. subst p. reflexivity. Qed.
Lemma idle_terminate b (f : Frontend W) : pid f = 0 -> terminate b f = (Ok (), f).
Proof. intros Hp. destruct f as [m p w l]. cbn in Hp. subst p. destruct b; reflexivity. Qed.

Lemma watched_supervised s0 f : watched s0 f -> supervised (pid (frontend s0)) f.
Proof. intros (new & _ & _ & [[Hs _]|[Hr _]]); [left | right]; assumption. Qed.

(** A check keeps watch, or finds that the guest failed. *)
Lemma check_watched s0 f : watched s0 f -> let '(b, f') := checkChild f in
  supervised (pid (frontend s0)) f' /\ (is_ok b = true -> watched s0 f').
Proof.
  intros (new & Ec & Hs & [[Hh Ho]|[Hr Ho]]).
  - pose proof (checkChild_spec _ f Hh) as Hk. unfold wp in Hk. destruct (checkChild f) as [b f']. cbn [fst snd] in Hk.
    destruct Hk as (l & [D _] & Hl & _ & _ & R). destruct b as [[]|e t]; cbn [is_ok].
    + split; [left; apply R |]. intros _. exists (l ++ new). rewrite D, Ec, app_assoc. autorewrite with calls. rewrite Hl, Hs.
      split; [reflexivity | split; [reflexivity |]]. left. split; [apply R |]. rewrite (proj1 R). exact Ho.
    + split; [right; apply R |]. intros _. exists (l ++ new). rewrite D, Ec, app_assoc. autorewrite with calls. rewrite Hl, Hs.
      split; [reflexivity | split; [reflexivity |]]. right. split; [apply R |]. rewrite (proj1 R). reflexivity.
    + split; [right; apply R | discriminate].
  - rewrite idle_check by apply Hr. split; [right; exact Hr |]. intros _. exists new. auto.
Qed.

(** What a tick, successful or not, does to the frontend. *)
Lemma tick_frontend s0 E s r s' : frontend_live s = true -> watched s0 (frontend s) -> System.tick E s = (r, s') ->
  supervised (pid (frontend s0)) (frontend s') /\ frontend_live s' = true /\ (is_ok r = true -> watched s0 (frontend s')).
Proof.
  intros Hl Hw Et. pose proof (tick_parts E s Hl) as P. rewrite Et in P. pose proof (check_watched s0 _ Hw) as C.
  destruct (checkChild (frontend s)) as [b f]. destruct P as (_ & [-> | [-> Hb]] & Hl' & _); destruct C as [Cs Cw].
  - auto using watched_supervised.
  - split; [exact Cs | split; [exact Hl' |]]. intros Hr. apply Cw. destruct (is_ok b); [reflexivity | rewrite Hb in Hr by reflexivity; discriminate].
Qed.

Lemma tick_running s0 E b s s' g n : started_as s0 -> running s0 s g n -> System.tick E s = (Ok b, s') ->
  running s0 s' g n /\ (b = true <-> finished (cpu s')) /\ ends (cpu s') = (if b then 1 else ends (cpu s)).
Proof.
  intros S [G Hw Hl (C1 & C2 & C3)] Et. destruct (tick_frontend s0 E s _ _ Hl Hw Et) as (_ & Hl' & Hw').
  pose proof (tick_parts E s Hl) as P. rewrite Et in P. destruct (checkChild (frontend s)) as [r f]. destruct P as (P & _ & _ & D1 & D2 & D3).
  specialize (P b eq_refl). rewrite C2, C3 in P.
  destruct (tick_good _ _ _ (sa_count _ S) (sa_ctx _ S) _ _ _ _ _ _ G P) as (G' & F). split; [| exact F].
  constructor; auto. repeat split; congruence.
Qed.

Lemma run_running s0 s g n : runs_to s0 s g n -> started_as s0 /\ running s0 s g n.
Proof.
  intros [Hs Hr]. apply system_starts in Hs. split; [exact Hs |]. remember (s0, idle_guests s0, fun _ => 0) as x eqn:Ex. remember (s, g, n) as y eqn:Ey.
  assert (B : running s0 x.1.1 x.1.2 x.2).
  { subst x. constructor; [| | apply Hs | auto].
    - apply (started_good (sync_cfg s0) (core_cfg s0) (region_table (cpu s0)) (sa_count _ Hs) (sa_ctx _ Hs) (cpu s0) (sa_cpu _ Hs)).
    - exists []. split; [reflexivity | split; [reflexivity |]]. left. split; [apply (sa_child _ Hs) | reflexivity]. }
  assert (G : running s0 y.1.1 y.1.2 y.2); [| subst y; exact G]. clear Ex Ey. induction Hr as [x|x y z Hxy _ IH]; [exact B | apply IH].
  destruct Hxy as [E b s1 s1' g1 n1 Et | s1 g1 n1 c' g' n' Hi]; cbn [fst snd] in *; [apply (tick_running s0 E b s1 s1' g1 n1 Hs B Et) |].
  destruct B as [G Hw Hl (C1 & C2 & C3)]. constructor; auto. rewrite C2 in Hi.
  apply (cpu_step_good _ _ _ _ (sa_count _ Hs) (sa_ctx _ Hs) _ _ (cpu_other _ _ (core_cfg s0) _ _ Hi) G).
Qed.

(** ** The end *)

(** The end of a guest that was watched: what [terminate] adds. *)
Lemma terminate_watched s0 b f : watched s0 f -> let '(r, f') := terminate b f in
  supervised (pid (frontend s0)) f' /\ exists new, calls f' = new ++ calls (frontend s0) /\
  (r = Ok () <-> accepts b (signalled new) (outcome new) = true) /\ (b = true -> signalled new = false).
Proof.
  intros (new & Ec & Hs & [[Hh Ho]|[Hr Ho]]).
  - pose proof (terminate_spec b _ f Hh) as T. unfold wp in T. destruct (terminate b f) as [r f']. cbn [fst snd] in T.
    destruct T as (l & [D _] & Sv & _ & _ & K & _ & R). split; [exact Sv |]. exists (l ++ new). rewrite D, Ec, app_assoc. autorewrite with calls.
    rewrite Hs, orb_false_r. replace (match outcome l with Some st => Some st | None => outcome new end) with (outcome l) by (rewrite Ho; destruct (outcome l); reflexivity).
    split; [reflexivity | split; [| exact K]]. destruct r as [[]|e t]; destruct R as [R1 R2]; split; congruence.
  - rewrite idle_terminate by apply Hr. split; [right; exact Hr |]. exists new. split; [exact Ec |]. rewrite Hs, Ho. cbn. split; [split; reflexivity | reflexivity].
Qed.

Lemma finish_parts s : frontend_live s = true ->
  System.finish s = let '(r, f) := terminate (guest_exited (cpu s)) (frontend s) in
    (r, s <| printed := printed s ++ flat_map (finishCore (region_table (cpu s))) (vcpus (config s)) |> <| frontend := f |>).
Proof.
  destruct s as [cf sc cc cp il fr lv pr]. cbn [frontend_live]. intros ->.
  unfold System.finish, print_reports, the_cpu, on_frontend, mbind, keep_bind. cbn -[terminate guest_exited finishCore].
  destruct (terminate (guest_exited cp) fr) as [r f]. reflexivity.
Qed.

(** C15. A simulation that comes to its end: the clock stops exactly when every core
    has halted with nothing left of its guest, and tells SST once.  The
    simulation then succeeds exactly if the guest did: QEMU's process ended
    with status 0 - or, where not every core saw its guest exit, by a signal
    the simulator sent, or not in the time it had.  A guest that exited on
    every core is never signalled. *)
Theorem guest_verdict s0 s g n E b s1 : runs_to s0 s g n -> System.tick E s = (Ok b, s1) ->
  (b = true <-> finished (cpu s1)) /\ ends (cpu s1) = (if b then 1 else ends (cpu s)) /\
  exists new, calls (frontend (snd (System.finish s1))) = new ++ calls (frontend s0) /\
    (fst (System.finish s1) = Ok () <-> accepts (guest_exited (cpu s1)) (signalled new) (outcome new) = true) /\
    (guest_exited (cpu s1) = true -> signalled new = false).
Proof.
  intros Hr Et. destruct (run_running _ _ _ _ Hr) as [S R]. destruct (tick_running s0 E b s s1 g n S R Et) as ([_ Hw Hl _] & F & En).
  split; [exact F | split; [exact En |]]. rewrite finish_parts by exact Hl. pose proof (terminate_watched s0 (guest_exited (cpu s1)) _ Hw) as T.
  destruct (terminate _ (frontend s1)) as [r f]. apply T.
Qed.


End Theorems.

(** ** The theorems at concrete inputs

    One vCPU in user mode, a Balar port, the operating system of [ProcessThm]:
    the guest announces its exit and its process ends with the given status. *)

#[local] Existing Instance CpuAnswers.demo_balar.
#[local] Existing Instance CpuAnswers.demo_laws.

Definition demo_conv32 : Conversions := mkConversions demo_number (fun s => u32 (demo_number s)) demo_number (fun s => lit "1" s).
Definition demo_user : Params := demo_table
  [("executable", "a.elf"); ("qemu_plugin", "/p.so"); ("balar_doorbell_addr", "0x9000")]%string.
Definition demo_wire (mmio : bool) : Wiring BalarPort.Port :=
  mkWiring None None (Some (fun _ => mmio)) None (fun _ => false) (fun _ => true).
Definition demo_build (st : wait_status) : result (System BalarPort.Port DemoOs) :=
  System.construct demo_conv32 (fun _ => None) (fun _ => BalarPort.port0) 1 (demo_wire true) demo_user
    (mkShared 0 0 [region0; region0] (fun _ => 0)) (mkDemo 0 34000 st false 3500).
Definition demo_none : System BalarPort.Port DemoOs :=
  mkSystem config0 CpuAnswers.plain_config demo_ctx demo_cpu 0 (demo_world 0 (Exited 0)) false [].
Definition demo_built (st : wait_status) : System BalarPort.Port DemoOs := result_or demo_none (demo_build st).
Definition demo_init (st : wait_status) : result () * System BalarPort.Port DemoOs :=
  System.init (fun _ => None) (fun _ => true) [] (tx "/q") 5 (demo_built st).
Definition demo_table0 : list MemRegionHandler := [].
Definition demo_over (st : wait_status) : System BalarPort.Port DemoOs :=
  snd (demo_init st) <| cpu ::= fun c => c <| cores ::= <[0%nat := pipeline0 demo_table0 <| backend ::= fun l => l ++ [demo_exit] |>]> |> |>.
Definition demo_tick (st : wait_status) : result bool * System BalarPort.Port DemoOs := System.tick (CpuThm.demo_env true) (demo_over st).

Example demo_ends : fst (demo_tick (Exited 0)) = Ok true /\ fst (finish (snd (demo_tick (Exited 0)))) = Ok () /\
  is_ok (fst (finish (snd (demo_tick (Exited 1))))) = false.
Proof. vm_compute. auto. Qed.

(** Conversion unfolds the examples before the operations. *)
#[local] Strategy 100 [System.construct System.init System.tick System.finish emergencyShutdown].

Lemma demo_conv_ranges : (forall t, is_u32 (to_uint32 demo_conv32 t)) /\ forall t, is_u64 (to_uint64 demo_conv32 t).
Proof. split; intros t; cbn; [apply is_word_wrap; lia | apply strtoull_range]. Qed.
Lemma demo_wired : wired (fun _ => BalarPort.port0) (demo_wire true).
Proof. constructor; [reflexivity |]. intros _. apply (BalarAnswers.balar_start 0). Qed.

Lemma pair_of {X Y} (x : X * Y) a : fst x = a -> x = (a, snd x).
Proof. destruct x. intros <-. reflexivity. Qed.
Lemma demo_build_ok st : demo_build st = Ok (demo_built st).
Proof. unfold demo_built. assert (Hb : is_ok (demo_build st) = true) by (vm_compute; reflexivity). destruct (demo_build st); [reflexivity | discriminate]. Qed.
Lemma demo_system_started c : system_started demo_conv32 (fun _ => None) (fun _ => BalarPort.port0) (snd (demo_init (Exited c))).
Proof.
  exists 1%nat, (demo_wire true), demo_user, (mkShared 0 0 [region0; region0] (fun _ => 0)), (mkDemo 0 34000 (Exited c) false 3500).
  exists (fun _ => true), [], (tx "/q"), 5%nat, (demo_built (Exited c)).
  split; [apply demo_build_ok | split; [apply demo_wired | split; [vm_compute; reflexivity |]]].
  assert (Hi : fst (demo_init (Exited c)) = Ok ()) by (vm_compute; reflexivity). apply pair_of in Hi.
  unfold demo_init at 1 in Hi. exact Hi.
Qed.

(** The guest's exit has been published. *)
Lemma demo_runs c : runs_to demo_conv32 (fun _ => None) (fun _ => BalarPort.port0) (snd (demo_init (Exited c))) (demo_over (Exited c)) [[demo_exit]] (fun _ => 0).
Proof.
  split; [apply demo_system_started |]. apply rtc_once. unfold demo_over.
  assert (Hn : idle_guests (snd (demo_init (Exited c))) = [[]]) by (vm_compute; reflexivity).
  assert (Hc : cores (cpu (snd (demo_init (Exited c)))) = [pipeline0 demo_table0]) by (vm_compute; reflexivity).
  rewrite Hn. generalize dependent (snd (demo_init (Exited c))). intros s _ Hc.
  apply (sys_input s [[]] (fun _ => 0) _ [[demo_exit]] (fun _ => 0)). apply (cpu_publish _ _ 0 demo_exit (pipeline0 demo_table0) [] (cpu s) [[]]).
  - rewrite Hc. reflexivity.
  - reflexivity.
  - split; [| cbn; lia]. repeat constructor; cbn; lia.
Qed.
Lemma demo_tick_ok c : demo_tick (Exited c) = (Ok true, snd (demo_tick (Exited c))).
Proof. assert (Hi : fst (demo_tick (Exited c)) = Ok true) by (vm_compute; reflexivity). exact (pair_of _ _ Hi). Qed.

(** The process of a guest that exited ends with 0: the simulation succeeds;
    with 1: it fails. *)
Lemma guest_verdict_witness : fst (finish (snd (demo_tick (Exited 0)))) = Ok () /\ fst (finish (snd (demo_tick (Exited 1)))) <> Ok ().
Proof.
  destruct demo_conv_ranges as [H32 H64].
  destruct (guest_verdict demo_conv32 (fun _ => None) (fun _ => BalarPort.port0) H32 H64 _ _ _ _ _ _ _ (demo_runs 0) (demo_tick_ok 0)) as (_ & _ & new & E & V & _).
  destruct (guest_verdict demo_conv32 (fun _ => None) (fun _ => BalarPort.port0) H32 H64 _ _ _ _ _ _ _ (demo_runs 1) (demo_tick_ok 1)) as (_ & _ & new' & E' & V' & _).
  apply since_new in E as ->. apply since_new in E' as ->.
  split; [apply V; vm_compute; reflexivity | intros Hx; apply V' in Hx; vm_compute in Hx; discriminate].
Defined.


