(* ===== verification/Elements.v ===== *)
(** * What the SST elements document of themselves

    The tables [SST_ELI_DOCUMENT_PARAMS] and [SST_ELI_DOCUMENT_STATISTICS] of
    the elements' headers, descriptions left out, and the reading of the
    devices' parameters: [quetz_gpu_device.cc], [quetz_stream_device.cc],
    [quetz_sink_device.cc], [quetz_balar_accelerator_port.cc] and the two
    kernels, for the constructors of [Gpu], [Stream], [Sink] and [BalarPort].
    The component's own parameters are read in [Config] and [System].

    [quetz_stats.cc]: the names the core registers its counters with. *)
From S2P Require Import Prelude.
From S2P Require Import Text.
From S2P Require Import EventWriter.
From S2P Require Import Kernel.
From S2P Require Gpu.
From S2P Require Stream.
From S2P Require Sink.
From S2P Require BalarPort.
From S2P Require Import Command.
From S2P Require Import Config.

(** ** Parameters

    A parameter by name, or the family of a stem with an index. *)
Inductive Key : Set := One (name : string) | Family (stem : string).
Definition Table : Type := list (Key * string).

Open Scope string_scope.

Definition cpu_table : Table :=
  [(One "verbose", "0"); (One "platform", ""); (One "clock", "1GHz"); (One "vcpu_count", "1"); (One "maxcorequeue", "64");
   (One "maxtranscore", "16"); (One "maxissuepercycle", "1"); (One "cachelinesize", "64"); (One "balar_doorbell_addr", "0");
   (One "balar_doorbell_size", "8"); (One "balar_packet_flush_bytes", "4096"); (One "async_offload", "0");
   (One "async_doorbell_addr", "0"); (One "async_doorbell_size", "0x40"); (One "async_completion_depth", "1");
   (One "architecture_adapter", ""); (One "platform_machine", ""); (One "cache_native_regions", ""); (One "sst_window_cache", "0");
   (One "window_big_endian", "0"); (One "filter_unmatched_regions", "0")].
Definition guest_table : Table :=
  [(One "executable", ""); (One "qemu", "qemu-riscv64"); (One "qemu_plugin", ""); (One "system_mode", "0");
   (One "system_mode_loader", "-kernel"); (One "qemu_args", ""); (One "appargcount", "0"); (Family "apparg", "");
   (One "envparamcount", "-1"); (Family "envparamname", ""); (Family "envparamval", ""); (One "appstdin", ""); (One "appstdout", "");
   (One "appstderr", ""); (One "max_insts", "0"); (One "checkaddresses", "0"); (One "detailed_instruction_tracking", "0");
   (One "isa", ""); (One "has_fpu", "0"); (One "has_vector", "0"); (One "vector_vlen", "128"); (One "vector_elen", "64");
   (One "exec_latency_int", "0"); (One "exec_latency_fp", "0"); (One "exec_latency_vec", "0"); (One "compute_latency_int", "0");
   (One "compute_latency_fp", "0"); (One "compute_latency_vec", "0"); (One "compute_latency_branch", "0");
   (One "compute_latency_other", "0")].
Definition component_table : Table := (cpu_table ++ guest_table)%list.

Definition gpu_table : Table :=
  [(One "verbose", "0"); (One "clock", "1GHz"); (One "base_addr", "0"); (One "mmio_size", "0x400"); (One "kernel_latency", "5000");
   (One "doorbell_blocking", "0"); (One "irq_line", "-1"); (One "irq_vcpu", "0"); (One "dma_bytes_per_kernel", "0");
   (One "dma_range_start", "0"); (One "dma_range_end", "0"); (One "data_big_endian", "0"); (One "irq_witnesses", "0");
   (One "cpu_checkpoints", "0"); (One "event_file", ""); (One "event_source", "accelerator.quetz"); (One "event_operation", "kernel")].
Definition stream_table : Table :=
  [(One "verbose", "0"); (One "clock", "1GHz"); (One "base_addr", "0"); (One "mmio_size", "0x100"); (One "stream_file", "");
   (One "pace_bytes", "0"); (One "pace_period", "100us"); (One "irq_line", "-1"); (One "irq_vcpu", "0")].
Definition sink_table : Table :=
  [(One "verbose", "0"); (One "clock", "1GHz"); (One "base_addr", "0"); (One "mmio_size", "0x100"); (One "sink_file", "");
   (One "max_bytes", "0")].
Definition balar_table : Table :=
  [(One "verbose", "0"); (One "doorbell_addr", "0"); (One "doorbell_size", "8"); (One "flush_mode", "range_from_value");
   (One "packet_flush_bytes", "4096"); (One "async_offload", "0"); (One "async_doorbell_addr", "0"); (One "async_doorbell_size", "0x40");
   (One "async_completion_depth", "1")].
Definition fft_table : Table := [(One "fft_latency_coeff", "20")].
Definition scale_offset_table : Table := [(One "latency_coeff", "4")].

Definition bounds_table : Table := [(One "start", "0"); (One "end", "0")].
Definition uart_table : Table := [(One "start", "0"); (One "end", "0"); (One "tx_offset", "0")].
Definition trace_table : Table :=
  [(One "start", "0"); (One "end", "0"); (One "doorbell_offset", "0"); (One "status_offset", "8"); (One "max_payload_log", "8")].
Definition finisher_table : Table := [(One "start", "0"); (One "end", "0"); (One "pass_value", "0x5555")].
Definition handler_tables : list (string * Table) :=
  [("quetz.ForwardRegionHandler", bounds_table); ("quetz.FilteredRegionHandler", bounds_table); ("quetz.UartRegionHandler", uart_table);
   ("quetz.GpuTraceRegionHandler", trace_table); ("quetz.MmioForwardRegionHandler", bounds_table);
   ("quetz.TestFinisherRegionHandler", finisher_table)].

(** ** The constructors' reading

    What SST, the file system and the clock's units decide are arguments. *)
Section Reading.
Variables (conv : Conversions) (to_int64 : text -> Z).
Implicit Types p : Params.
Definition number (p : Params) := find (to_uint64 conv) p.
Definition str (p : Params) (k d : string) : text := find (fun s => s) p k (tx d).
Definition name_of (s : text) : string := string_of_list_ascii s.

(** The slots: a kernel, the interfaces; whether the interrupt port is linked. *)
Definition gpu_params (kernel : option QuetzKernel) (mem_line : Z) (iface mem_iface linked : bool) (valid_clock : text -> bool) p : Gpu.Params :=
  Gpu.mkParams (number p "base_addr" 0) (number p "mmio_size" 0x400) (number p "kernel_latency" 5000)
    (find (to_bool conv) p "doorbell_blocking" false) (find (to_bool conv) p "cpu_checkpoints" false)
    (find (to_bool conv) p "irq_witnesses" false) (find to_int64 p "irq_line" (-1)) (find (to_uint32 conv) p "irq_vcpu" 0)
    kernel (find (to_bool conv) p "data_big_endian" false) (number p "dma_range_start" 0) (number p "dma_range_end" 0) mem_line
    (number p "dma_bytes_per_kernel" 0) (name_of (str p "event_file" "")) (name_of (str p "event_source" "accelerator.quetz"))
    (name_of (str p "event_operation" "kernel")) iface mem_iface linked (valid_clock (str p "clock" "1GHz")).

Definition stream_params (open : text -> option (list Z)) (linked iface : bool) p : Stream.Params :=
  let file := str p "stream_file" "" in
  Stream.mkParams (number p "base_addr" 0) (number p "mmio_size" 0x100) (open file) (negb (bool_decide (file = [])))
    (number p "pace_bytes" 0) (find to_int64 p "irq_line" (-1)) (find (to_uint32 conv) p "irq_vcpu" 0) linked iface.

Definition sink_params (iface : bool) p : Sink.Params :=
  Sink.mkParams (number p "base_addr" 0) (number p "mmio_size" 0x100) (number p "max_bytes" 0) (name_of (str p "sink_file" "")) iface.

Definition balar_port_params p : result BalarPort.Params :=
  BalarPort.construct
    (BalarPort.mkParams (number p "doorbell_addr" 0) (number p "doorbell_size" 8) (number p "packet_flush_bytes" 4096) true
       (find (to_bool conv) p "async_offload" false) (number p "async_doorbell_addr" 0) (number p "async_doorbell_size" 0x40)
       (find (to_uint32 conv) p "async_completion_depth" 1)) (name_of (str p "flush_mode" "range_from_value")).

Definition fft_latency_coeff p : Z := number p "fft_latency_coeff" 20.
Definition scale_offset_latency_coeff p : Z := number p "latency_coeff" 4.
End Reading.

(** ** Statistics *)

(** [QuetzCoreStats::registerAll] *)
Definition registerAll : list (Stat * string) :=
  [(read_reqs, "read_requests"); (write_reqs, "write_requests"); (mmio_read_reqs, "mmio_read_requests");
   (mmio_write_reqs, "mmio_write_requests"); (read_lat, "read_latency"); (write_lat, "write_latency");
   (mmio_read_lat, "mmio_read_latency"); (mmio_write_lat, "mmio_write_latency"); (mmio_truncated_writes, "mmio_truncated_writes");
   (cached_truncated_writes, "cached_truncated_writes"); (mmio_doorbell_flushes, "mmio_doorbell_flushes");
   (mmio_doorbell_flush_cycles, "mmio_doorbell_flush_cycles"); (async_submits, "async_submits");
   (async_completions, "async_completions"); (async_overlap_cycles, "async_overlap_cycles"); (read_req_sizes, "read_request_sizes");
   (write_req_sizes, "write_request_sizes"); (split_reads, "split_read_requests"); (split_writes, "split_write_requests");
   (noop_count, "no_ops"); (insn_count, "instruction_count"); (cycles, "cycles"); (active_cycles, "active_cycles");
   (filtered_reads, "filtered_reads"); (filtered_writes, "filtered_writes"); (gpu_doorbell_writes, "gpu_doorbell_writes");
   (gpu_status_polls, "gpu_status_polls"); (gpu_other_reads, "gpu_other_reads"); (gpu_other_writes, "gpu_other_writes");
   (stall_cycles, "stall_cycles"); (compute_stall_cycles, "compute_stall_cycles"); (int_compute, "int_compute");
   (fp_compute, "fp_compute"); (vec_compute, "vec_compute"); (branch, "branch")].

(** The table of [QuetzCPU], in its order. *)
Definition cpu_statistics : list string :=
  ["read_requests"; "write_requests"; "mmio_read_requests"; "mmio_write_requests"; "read_latency"; "write_latency";
   "mmio_read_latency"; "mmio_write_latency"; "mmio_truncated_writes"; "cached_truncated_writes"; "mmio_doorbell_flushes";
   "mmio_doorbell_flush_cycles"; "async_submits"; "async_completions"; "async_overlap_cycles"; "read_request_sizes";
   "write_request_sizes"; "split_read_requests"; "split_write_requests"; "no_ops"; "cycles"; "active_cycles"; "instruction_count";
   "filtered_reads"; "filtered_writes"; "gpu_doorbell_writes"; "gpu_status_polls"; "gpu_other_reads"; "gpu_other_writes";
   "stall_cycles"; "compute_stall_cycles"; "int_compute"; "fp_compute"; "vec_compute"; "branch"].
