(* ===== verification/ElementsThm.v ===== *)
(** * What is documented is what is read

    Every element behaves as its documentation says of its parameters: it
    depends on none but the documented ones, and a parameter left out is the
    same as its documented default.  The statistics are registered under the
    documented names. *)
From S2P Require Import Prelude.
From S2P Require Import Text.
From S2P Require Import Kernel.
From S2P Require Import WindowCacheBank.
From S2P Require Import AcceleratorPort.
From S2P Require Gpu.
From S2P Require Stream.
From S2P Require Sink.
From S2P Require BalarPort.
From S2P Require Import Command.
From S2P Require Import Regions.
From S2P Require Import CpuSync.
From S2P Require Import Pipeline.
From S2P Require Import Config.
From S2P Require Import Process.
From S2P Require Import System.
From S2P Require Import Elements.

(** ** The interface: a documented element *)

(** The value a parameter has for who reads its documentation. *)
Definition value_of (p : Params) (key : text) (default_ : string) : text := default (tx default_) (p key).
Definition same_entry (p q : Params) (e : Key * string) : Prop :=
  match e.1 with
  | One n => value_of p (tx n) e.2 = value_of q (tx n) e.2
  | Family stem => forall i, let k := snprintf 256 (tx stem ++ dec i) in value_of p k e.2 = value_of q k e.2
  end.
Definition same (t : Table) (p q : Params) : Prop := Forall (same_entry p q) t.
#[export] Instance same_equivalence t : Equivalence (same t).
Proof.
  split.
  - intros p. apply Forall_forall. intros [[n|n] d] _; cbn; auto.
  - intros p q H. refine (Forall_impl _ _ _ H _). intros [[n|n] d]; cbn; auto.
  - intros p q r H1 H2. unfold same in *. rewrite Forall_forall in *. intros e He. specialize (H1 e He). specialize (H2 e He).
    destruct e as [[n|n] d]; cbn in *; [congruence | intros i; rewrite H1; apply H2].
Qed.

Class Documented {X} (t : Table) (f : Params -> X) : Prop := documented : forall p q, same t p q -> f p = f q.

(** SST's conversions of the numerals the tables and the code share. *)
Record reads_numerals (conv : Conversions) (to_int64 : text -> Z) : Prop :=
  { rn_uint32 : forall s n, In (s, n)
      [("0"%string, 0); ("1"%string, 1); ("8"%string, 8); ("16"%string, 16); ("64"%string, 64); ("128"%string, 128); ("0x5555"%string, 0x5555)] -> to_uint32 conv (tx s) = n;
    rn_uint64 : forall s n, In (s, n)
      [("0"%string, 0); ("4"%string, 4); ("8"%string, 8); ("20"%string, 20); ("64"%string, 64); ("4096"%string, 4096); ("5000"%string, 5000);
       ("0x40"%string, 0x40); ("0x100"%string, 0x100); ("0x400"%string, 0x400)] -> to_uint64 conv (tx s) = n;
    rn_bool : to_bool conv (tx "0") = false;
    rn_int : to_int conv (tx "0") = 0 /\ to_int conv (tx "-1") = -1;
    rn_int64 : to_int64 (tx "-1") = -1 }.

Section Documented.
Context {conv : Conversions} {to_int64 : text -> Z} (N : reads_numerals conv to_int64).

Lemma find_value {X} (c : text -> X) p k d v : c (tx d) = v -> find c p k v = c (value_of p (tx k) d).
Proof. intros <-. unfold find, value_of. destruct (p (tx k)); reflexivity. Qed.

Lemma find_same {X} (c : text -> X) t p q k d v : same t p q -> In (One k, d) t -> c (tx d) = v -> find c p k v = find c q k v.
Proof.
  intros H Hk Hv. rewrite !(find_value c _ k d v Hv). f_equal.
  exact (proj1 (List.Forall_forall _ _) H _ Hk).
Qed.

Lemma family_same t p q stem i : same t p q -> In (Family stem, ""%string) t -> find_indexed p stem i = find_indexed q stem i.
Proof. intros H Hk. exact (proj1 (List.Forall_forall _ _) H _ Hk i). Qed.
End Documented.

(** A place in a table, and a conversion read off the hypothesis. *)
Ltac listed := cbn; repeat first [left; reflexivity | right].
Ltac numeral N :=
  first [ reflexivity | exact (rn_bool _ _ N) | exact (rn_int64 _ _ N) | exact (proj1 (rn_int _ _ N)) | exact (proj2 (rn_int _ _ N))
        | apply (rn_uint32 _ _ N); listed | apply (rn_uint64 _ _ N); listed ].
(** Each reading of [p] becomes that of [q]. *)
Ltac read_same N H :=
  repeat match goal with
      | H : same ?t ?p ?q |- context [find ?c ?p ?k ?v] =>
          let E := fresh in
          assert (E : find c p k v = find c q k v) by (eapply (find_same c t p q k _ v H); [listed | numeral N]);
          rewrite E; clear E
      end.

Section Elements.
Context {conv : Conversions} {to_int64 : text -> Z} (N : reads_numerals conv to_int64).

Lemma gpu_documented kernel line i1 i2 linked clock :
  Documented gpu_table (gpu_params conv to_int64 kernel line i1 i2 linked clock).
Proof. intros p q H. unfold gpu_params, number, str. read_same N H. reflexivity. Qed.

Lemma stream_documented open linked iface : Documented stream_table (stream_params conv to_int64 open linked iface).
Proof. intros p q H. unfold stream_params, number, str. read_same N H. reflexivity. Qed.

Lemma sink_documented iface : Documented sink_table (sink_params conv iface).
Proof. intros p q H. unfold sink_params, number, str. read_same N H. reflexivity. Qed.

Lemma balar_documented : Documented balar_table (balar_port_params conv).
Proof. intros p q H. unfold balar_port_params, number, str. read_same N H. reflexivity. Qed.

Lemma fft_documented : Documented fft_table (fft_latency_coeff conv).
Proof. intros p q H. unfold fft_latency_coeff, number. read_same N H. reflexivity. Qed.

Lemma scale_offset_documented : Documented scale_offset_table (scale_offset_latency_coeff conv).
Proof. intros p q H. unfold scale_offset_latency_coeff, number. read_same N H. reflexivity. Qed.

Lemma handlers_documented type t : In (type, t) handler_tables -> Documented t (load_handler conv type).
Proof.
  intros Ht p q H. cbn in Ht.
  repeat (destruct Ht as [E|Ht]; [injection E as <- <-; unfold load_handler, handler_kind; cbn; read_same N H; reflexivity |]).
  destruct Ht.
Qed.

Lemma config_documented getenv : Documented component_table (config_fromParams conv getenv).
Proof.
  intros p q H. unfold config_fromParams. cbv zeta. read_same N H.
  assert (F : forall stem i, In (Family stem, ""%string) component_table -> find_indexed p stem i = find_indexed q stem i).
  { intros stem i Hs. exact (family_same _ _ _ _ _ H Hs). }
  assert (Fa : forall n, find_indexed p "apparg" <$> seqZ 0 n = find_indexed q "apparg" <$> seqZ 0 n).
  { intros n. apply list_fmap_ext. intros j i _. apply F. listed. }
  assert (Fe : forall n, (fun i => (find_indexed p "envparamname" i, find_indexed p "envparamval" i)) <$> seqZ 0 n =
                         (fun i => (find_indexed q "envparamname" i, find_indexed q "envparamval" i)) <$> seqZ 0 n).
  { intros n. apply list_fmap_ext. intros j i _. rewrite (F "envparamname"%string), (F "envparamval"%string) by listed. reflexivity. }
  rewrite Fa, Fe. reflexivity.
Qed.

(** ** Presets

    A preset changes the defaults: those it gives stand in for the documented
    ones. *)
Definition preset_default (profile : option QuetzPlatformProfile) (n : string) : option string :=
  profile ≫= fun q => snd <$> List.find (fun kv => String.eqb n kv.1) (param_defaults q).
Definition preset_entry (profile : option QuetzPlatformProfile) (e : Key * string) : Key * string :=
  match e.1 with One n => (One n, default e.2 (preset_default profile n)) | Family _ => e end.
Definition preset_table (profile : option QuetzPlatformProfile) : Table := map (preset_entry profile) component_table.

Lemma tx_inj a b : tx a = tx b -> a = b.
Proof. intros H. rewrite <- (string_of_list_ascii_of_string a), H. apply string_of_list_ascii_of_string. Qed.

Definition apply_defaults (l : list (string * string)) (p : Params) : Params :=
  foldl (fun p kv => insert_default (tx kv.1) (tx kv.2) p) p l.

Lemma apply_value l : forall p n d, value_of (apply_defaults l p) (tx n) d =
  value_of p (tx n) (default d (snd <$> List.find (fun kv => String.eqb n kv.1) l)).
Proof.
  induction l as [|[k v] l IH]; intros p n d; [reflexivity |]. cbn [apply_defaults foldl List.find fst snd].
  change (foldl _ _ l) with (apply_defaults l (insert_default (tx k) (tx v) p)). rewrite IH. unfold value_of, insert_default.
  destruct (String.eqb_spec n k) as [->|Hk]; cbn.
  - destruct (p (tx k)); [reflexivity |]. rewrite bool_decide_eq_true_2 by reflexivity. reflexivity.
  - destruct (p (tx n)); [reflexivity |]. rewrite bool_decide_eq_false_2 by (intros E; apply Hk, tx_inj, E). reflexivity.
Qed.

Lemma apply_other l key : Forall (fun kv => tx kv.1 <> key) l -> forall p, apply_defaults l p key = p key.
Proof.
  induction 1 as [|kv l Hk _ IH]; intros p; [reflexivity |]. cbn [apply_defaults foldl].
  change (foldl _ _ l) with (apply_defaults l (insert_default (tx kv.1) (tx kv.2) p)). rewrite IH. unfold insert_default.
  destruct (p key); [reflexivity |]. rewrite bool_decide_eq_false_2 by congruence. reflexivity.
Qed.

(** No preset gives a member of a family. *)
Definition head_code (s : text) : Z := match s with c :: _ => code c | [] => 0 end.
Lemma preset_families n q stem d i : findPlatform n = Some q -> In (Family stem, d) component_table ->
  Forall (fun kv => tx kv.1 <> snprintf 256 (tx stem ++ dec i)) (param_defaults q).
Proof.
  intros Hq Hs. apply find_some in Hq as [Hq _].
  assert (Hk : forallb (fun kv => existsb (Z.eqb (head_code (tx kv.1))) [113; 115; 105]) (param_defaults q) = true).
  { cbn in Hq. repeat (destruct Hq as [<-|Hq]; [reflexivity |]). destruct Hq. }
  assert (Hh : existsb (Z.eqb (head_code (snprintf 256 (tx stem ++ dec i)))) [113; 115; 105] = false).
  { cbn in Hs. repeat (destruct Hs as [E|Hs]; [first [discriminate E | injection E as <- <-; reflexivity] |]). destruct Hs. }
  apply List.Forall_forall. intros kv Hin E. rewrite forallb_forall in Hk. specialize (Hk kv Hin). rewrite E in Hk. congruence.
Qed.

Lemma preset_same n p q : same (preset_table (findPlatform n)) p q ->
  forall profile, findPlatform n = Some profile -> same component_table (applyProfile profile p) (applyProfile profile q).
Proof.
  intros H profile Hp. rewrite Hp in H. apply List.Forall_forall. intros [k d] He. unfold same, preset_table in H.
  pose proof (proj1 (List.Forall_forall _ _) H _ (in_map (preset_entry (Some profile)) _ _ He)) as Hv. unfold preset_entry in Hv.
  change (applyProfile profile) with (apply_defaults (param_defaults profile)).
  destruct k as [k|stem]; cbn [same_entry fst snd] in *.
  - rewrite !apply_value. exact Hv.
  - intros i. specialize (Hv i). cbv zeta in *. unfold value_of in *.
    rewrite !(apply_other _ _ (preset_families n profile stem d i Hp He)). exact Hv.
Qed.

Lemma fromParams_same getenv p q : let n := value_of p (tx "platform") "" in
  same (preset_table (findPlatform n)) p q -> fromParams conv getenv p = fromParams conv getenv q.
Proof.
  intros n H. unfold fromParams.
  assert (Ep : find (fun s => s) p "platform" [] = n) by (unfold find, n, value_of; destruct (p _); reflexivity).
  assert (Eq : find (fun s => s) q "platform" [] = n).
  { assert (Hn : preset_default (findPlatform n) "platform" = None).
    { unfold preset_default. destruct (findPlatform n) as [f|] eqn:E; [| reflexivity]. apply find_some in E as [E _]. cbn in E.
      repeat (destruct E as [<-|E]; [reflexivity |]). destruct E. }
    assert (Hin : In (One "platform"%string, ""%string) component_table) by listed.
    pose proof (proj1 (List.Forall_forall _ _) H _ (in_map (preset_entry (findPlatform n)) _ _ Hin)) as Hv.
    unfold preset_entry in Hv. cbn [fst snd same_entry] in Hv. rewrite Hn in Hv. cbn [default fst snd] in Hv.
    unfold find, n. rewrite Hv. unfold value_of. destruct (q _); reflexivity. }
  rewrite Ep, Eq. destruct (bool_decide_reflect (n = [])) as [En|En]; cbn [mbind result_bind].
  - assert (H' : same component_table p q) by (rewrite En in H; exact H).
    rewrite (config_documented getenv p q H'). reflexivity.
  - destruct (findPlatform n) as [f|] eqn:Ef; [| reflexivity]. cbn [mbind result_bind].
    rewrite (config_documented getenv _ _ (preset_same n p q ltac:(rewrite Ef; exact H) f Ef)). reflexivity.
Qed.

Lemma context_same n p q cfg : same (preset_table (findPlatform n)) p q -> core_context conv p cfg = core_context conv q cfg.
Proof.
  intros H. unfold core_context.
  assert (Hn : preset_default (findPlatform n) "filter_unmatched_regions" = None).
  { unfold preset_default. destruct (findPlatform n) as [f|] eqn:E; [| reflexivity]. apply find_some in E as [E _]. cbn in E.
    repeat (destruct E as [<-|E]; [reflexivity |]). destruct E. }
  rewrite (find_same (to_bool conv) _ p q "filter_unmatched_regions" "0" false H); [reflexivity | | exact (rn_bool _ _ N)].
  apply in_map_iff. exists (One "filter_unmatched_regions"%string, "0"%string). split; [| listed].
  unfold preset_entry. cbn [fst snd]. rewrite Hn. reflexivity.
Qed.
End Elements.

(** What SST reports under a name: the counter registered with it. *)
Definition reported (f : QuetzCoreStats) (name : string) : option Z :=
  f <$> (fst <$> List.find (fun e => String.eqb name (snd e)) registerAll).
(** The name a counter is registered with. *)
Definition registered_name (st : Stat) : string := default ""%string (snd <$> List.find (fun e => bool_decide (fst e = st)) registerAll).


(** Conversions with C's numerals. *)
Definition c_number (s : text) : Z := Text.value (strtoull s).
Definition c_conversions : Conversions :=
  mkConversions (fun s => sign 32 (c_number s)) (fun s => u32 (c_number s)) c_number (fun s => negb (bool_decide (s = tx "0"))).
Lemma c_numerals : reads_numerals c_conversions (fun s => sign 64 (c_number s)).
Proof.
  split; [| | reflexivity | split; reflexivity | reflexivity]; intros s n H; cbn in H;
    repeat (destruct H as [E|H]; [injection E as <- <-; reflexivity |]); destruct H.
Qed.

(** Nothing given, and what the documentation says of it. *)
Definition nothing : Params := fun _ => None.
Definition spelled : Params := fun k =>
  if bool_decide (k = tx "irq_line") then Some (tx "-1") else if bool_decide (k = tx "kernel_latency") then Some (tx "5000") else None.

