(* ===== verification/WindowThm.v ===== *)
(** * The window: one range for all

    The SST window of the configuration is the aperture of the bridge QEMU is
    started with, what the plugin leaves out of the trace, and what the
    component takes for the window: an access of the guest in it goes to the
    simulator's window, once, under its own address, and no other access
    does. *)
From S2P Require Import Prelude.
From S2P Require Import Text.
From S2P Require Import NativeRam.
From S2P Require Import WindowCache.
From S2P Require Import WindowCacheBank.
From S2P Require Import AcceleratorPort.
From S2P Require BalarPort.
From S2P Require Import CpuSync.
From S2P Require Import Cpu.
From S2P Require Import InsnClass.
From S2P Require Import Plugin.
From S2P Require Import Shmem.
From S2P Require Import Ipc.
From S2P Require Import Mailbox.
From S2P Require Import Bridge.
From S2P Require Import BridgeThm.
From S2P Require Import BridgeOptions.
From S2P Require Import Config.
From S2P Require Import ConfigThm.
From S2P Require Import Launch.
From S2P Require Import LaunchThm.
From S2P Require Import Process.
From S2P Require Import System.
From S2P Require Import SystemThm.

(** ** QEMU's options *)

Definition pair_text (kv : text * text) : text := kv.1 ++ "="%char :: kv.2.

(** What QEMU documents of [-device]: pairs separated by commas; numbers with
    C's prefixes; [on] for a set switch. *)
Record options_law (O : Options) : Prop :=
  { ol_device : forall driver fields, ","%char ∉ driver ->
      Forall (fun kv => ("="%char ∉ kv.1) /\ (","%char ∉ kv.1) /\ (","%char ∉ kv.2)) fields ->
      device_option O (join "," (driver :: (pair_text <$> fields))) = (driver, fields);
    ol_uint : forall w n, is_word w n -> is_u64 n -> read_uint O w (hex0x n) = Some n;
    ol_zero : read_uint O 32 (tx "0") = Some 0;
    ol_on : read_bool O (tx "on") = Some true }.

Section Device.
Variable O : Options.
Hypothesis Olaw : options_law O.

Definition fields (shmem : text) (b n : Z) (per : bool) : list (text * text) :=
  [(tx "shmname", shmem); (tx "base", hex0x b); (tx "size", hex0x n); (tx "vcpu_id", tx "0")] ++
  (if per then [(tx "per-vcpu", tx "on")] else []).

Lemma bridge_device_join shmem b n per : (length shmem <= 128)%nat ->
  bridge_device shmem b n per = join "," (tx "sst-mmio-bridge" :: (pair_text <$> fields shmem b n per)).
Proof.
  intros Hl. unfold bridge_device. rewrite snprintf_fits.
  - rewrite join_cons. unfold fields.
    change (tx "sst-mmio-bridge,shmname=") with (tx "sst-mmio-bridge" ++ ","%char :: tx "shmname" ++ ["="%char]).
    change (tx ",base=") with (","%char :: tx "base" ++ ["="%char]). change (tx ",size=") with (","%char :: tx "size" ++ ["="%char]).
    change (tx ",vcpu_id=0") with (","%char :: tx "vcpu_id" ++ "="%char :: tx "0").
    change (tx ",per-vcpu=on") with (","%char :: tx "per-vcpu" ++ "="%char :: tx "on").
    destruct per; cbn [app fmap list_fmap concat]; unfold pair_text; cbn [fst snd]; rewrite ?app_nil_r;
      repeat (rewrite <- ?app_assoc, <- ?app_comm_cons; cbn [app]); reflexivity.
  - rewrite !length_app. pose proof (length_hex0x b). pose proof (length_hex0x n).
    change (length (tx "sst-mmio-bridge,shmname=")) with 24%nat. change (length (tx ",base=")) with 6%nat.
    change (length (tx ",size=")) with 6%nat. change (length (tx ",vcpu_id=0")) with 10%nat. lia.
Qed.

(** The device the launcher writes is the one QEMU makes. *)
Lemma bridge_made shmem b n per : ","%char ∉ shmem -> (length shmem <= 128)%nat -> is_u64 b -> is_u64 n ->
  new_bridge O (bridge_device shmem b n per) = Ok (mkProps shmem b n 0 per 0 10000 []).
Proof.
  intros Hs Hl Hb Hn. unfold new_bridge. rewrite bridge_device_join by exact Hl.
  rewrite (ol_device O Olaw); [| no_comma |].
  - rewrite bool_decide_true by reflexivity. destruct per; unfold fields; cbn [app set_properties]; unfold set_property;
      repeat (rewrite ?bool_decide_true by reflexivity; rewrite ?bool_decide_false by discriminate);
      rewrite !(ol_uint O Olaw) by assumption; rewrite (ol_zero O Olaw); rewrite ?(ol_on O Olaw); reflexivity.
  - unfold fields. apply Forall_app. split; [| destruct per].
    all: repeat (apply Forall_cons; split); try apply Forall_nil; try exact I; cbn [fst snd];
      (split; [cbn; rewrite ?not_elem_of_cons; repeat split; (discriminate || apply not_elem_of_nil) |]);
      (split; [cbn; rewrite ?not_elem_of_cons; repeat split; (discriminate || apply not_elem_of_nil) |]); no_comma.
Qed.
End Device.

(** ** The component *)

Definition inside (cfg : QuetzConfig) (a : Z) : Prop :=
  Config.sst_window_base cfg <= a < Config.sst_window_base cfg + Config.sst_window_size cfg.
Definition in_native (cfg : QuetzConfig) (a : Z) : Prop :=
  Exists (fun r => NativeRam.base r <= a < NativeRam.base r + NativeRam.size r) (cache_native_regions cfg).

Lemma in_region_iff b n a : is_u64 b -> is_u64 a -> in_region a (WindowCache.mkRegion b n) = true <-> b <= a < b + n.
Proof.
  intros Hb Ha. unfold in_region. cbn [WindowCache.base WindowCache.size]. rewrite andb_true_iff, Z.leb_le, Z.ltb_lt.
  split; intros [H1 H2]; rewrite wrap_small in * by word; lia.
Qed.
Lemma find_region_iff a rs : find_region a rs <> None <-> Exists (fun r => in_region a r = true) rs.
Proof.
  induction rs as [|r rs IH]; cbn; [rewrite Exists_nil; tauto |]. rewrite Exists_cons, <- IH. destruct (in_region a r); intuition congruence.
Qed.

Lemma cached_contains cfg a : consistent cfg -> is_u64 a ->
  contains (cache_with (cached_regions cfg)) a = true <-> inside cfg a \/ in_native cfg a.
Proof.
  intros C Ha. destruct (ok_window _ C) as [Hb Hn]. unfold contains, regionFor. cbn [cache_with WindowCache.regions].
  transitivity (find_region a (cached_regions cfg) <> None); [destruct (find_region _ _); intuition congruence |].
  rewrite find_region_iff. unfold cached_regions. rewrite Exists_cons. unfold window. rewrite in_region_iff by assumption. unfold inside, in_native.
  apply or_iff_compat_l. rewrite Exists_fmap. pose proof (ok_native _ C) as (_ & _ & Hf & _). rewrite !Exists_exists.
  assert (Hr : forall r, r ∈ cache_native_regions cfg ->
    in_region a (native_region r) = true <-> NativeRam.base r <= a < NativeRam.base r + NativeRam.size r).
  { intros r Hr. rewrite Forall_forall in Hf. specialize (Hf r Hr). apply in_region_iff; [| exact Ha]. destruct Hf as [Hf _]. unfold is_word in *. pow2. lia. }
  split; intros (r & Hi & H); exists r; (split; [exact Hi |]); apply (Hr r Hi), H.
Qed.

Section Window.
Context {A : Type} `{AcceleratorLaws A} {W : Type} `{OsLaws W}.
Variables (conv : Conversions) (getenv : string -> option text).
Variable port : BalarPort.Params -> A.
Context (Hconv32 : forall t, is_u32 (to_uint32 conv t)) (Hconv64 : forall t, is_u64 (to_uint64 conv t)).
Variables (readable : text -> bool) (install_dir : text) (O : Options).
Hypothesis Olaw : options_law O.

(** What the component takes an address for: with the caches, each vCPU's cache
    has it exactly if it is in the window or in a native region; without,
    values are packed in the window's byte order exactly in the window. *)
Definition component_sees (s : System A W) (a : Z) : Prop :=
  let cfg := config s in
  if Config.sst_window_cache cfg
  then forall v, 0 <= v < Config.vcpu_count cfg -> exists c,
         WindowCacheBank.cache v (window_caches (sync (cpu s))) = Ok c /\ (contains c a = true <-> inside cfg a \/ in_native cfg a)
  else exists b, windowBigEndian (sync_cfg s) a (sync (cpu s)) = Ok b /\ (b = true <-> Config.window_big_endian cfg = true /\ inside cfg a).

Lemma component_window fuel wire p m (w : W) s a : System.construct conv getenv port fuel wire p m w = Ok s ->
  Config.sst_window_base (config s) + Config.sst_window_size (config s) < 2 ^ 64 -> is_u64 a -> component_sees s a.
Proof.
  intros Es Hend Ha. destruct (construct_ok conv getenv port Hconv32 Hconv64 _ _ _ _ _ _ Es) as (cfg & bank & table & ports & links & Ec & Eb & _ & _ & ->).
  pose proof (fromParams_consistent _ _ _ _ Ec) as C. pose proof (fromParams_widths _ _ _ _ Hconv32 Hconv64 Ec) as [Hv _ _ _ _].
  pose proof (constructed_caches cfg C) as K. rewrite Eb in K. destruct (ok_window _ C) as [Hb Hn]. cbn [config] in *.
  unfold component_sees. cbn [config cpu sync sync_cfg sync0 window_caches]. destruct (Config.sst_window_cache cfg) eqn:Ew.
  - destruct K as [_ ->]. intros v Hr. exists (cache_with (cached_regions cfg)). split; [| apply cached_contains; assumption].
    unfold WindowCacheBank.cache, at_, bank_with. cbn [states]. rewrite lookup_replicate_2 by lia. reflexivity.
  - unfold windowBigEndian. cbn [CpuSync.sst_window_cache sync_config]. rewrite Ew. eexists. split; [reflexivity |].
    cbn [CpuSync.window_big_endian CpuSync.sst_window_base CpuSync.sst_window_size sync_config]. rewrite wrap_small by word.
    rewrite !andb_true_iff, negb_true_iff, Z.eqb_neq, Z.leb_le, Z.ltb_lt. unfold inside. unfold is_word in *. split; [tauto |]. intros [? ?]. repeat split; (assumption || lia).
Qed.

(** The bridge's request for an access of the window. *)
Definition bridge_asks (cfg : QuetzConfig) (pr : BridgeProps) (a : Z) : Prop :=
  forall Object Irq E (Q0 Q : Qemu Object Irq) w w' v value sz,
    props (bridge w) = pr -> fresh_device w -> sst_mmio_bridge_realize E Q0 w = (Ok (), w') ->
    (forall c, attached E w = Some c -> 0 <= numCores (shared_of (after E w) c)) ->
    mailbox_of Q w = Some v -> v < quetz_ipc_vcpu_count (attached E w) (after E w) ->
    let offset := a - Config.sst_window_base cfg in
    sst_mmio_read Q offset sz w' = Ok (Some (v, mkReq a sz 0 QUETZ_CMD_MMIO_READ_REQ)) /\
    sst_mmio_write Q offset value sz w' = Ok (Some (v, mkReq a sz value QUETZ_CMD_MMIO_WRITE_REQ)).

End Window.

(** ** The theorem at a concrete input

    The ColdFire configuration of [ConfigThm], with a Balar port and QEMU's
    options read by splitting. *)

#[local] Existing Instance CpuAnswers.demo_balar.
#[local] Existing Instance CpuAnswers.demo_laws.

Definition demo_pair (s : text) : text * text := let (k, v) := cut "=" s in (k, default [] v).
Definition demo_options : Options :=
  mkOptions (fun s => match split "," s with d :: l => (d, demo_pair <$> l) | [] => ([], []) end)
    (fun _ s => Some (Text.value (strtoull s))) (fun s => Some (bool_decide (s = tx "on"))).

Lemma demo_options_law : options_law demo_options.
Proof.
  constructor; [| | reflexivity | reflexivity].
  - intros driver l Hd Hl. unfold demo_options. cbn [device_option]. rewrite split_join; [| discriminate |].
    + f_equal. induction Hl as [|[k v] l (Hk & _) _ IH]; cbn; [reflexivity |]. rewrite IH. unfold demo_pair, pair_text. cbn [fst snd].
      rewrite cut_app by exact Hk. reflexivity.
    + apply Forall_cons; split; [exact Hd |]. apply Forall_fmap. refine (Forall_impl _ _ _ Hl _). intros [k v] (_ & Hk & Hv). unfold pair_text. cbn in *.
      apply not_elem_of_app. split; [exact Hk |]. apply not_elem_of_cons. split; [discriminate | exact Hv].
  - intros w n _ Hn. change (Some (Text.value (strtoull (hex0x n))) = Some n). rewrite value_hex0x by exact Hn. reflexivity.
Qed.

Definition demo_window_build : result (System BalarPort.Port ProcessThm.DemoOs) :=
  System.construct demo_conv32 demo_getenv (fun _ => BalarPort.port0) 1 (demo_wire true) demo_params
    (mkShared 0 0 [region0; region0] (fun _ => 0)) (ProcessThm.mkDemo 0 34000 (Exited 0) false 3500).
Definition demo_window : System BalarPort.Port ProcessThm.DemoOs := result_or demo_none demo_window_build.
Definition demo_window_launch : Launch :=
  result_or (mkLaunch [] [] None) (spawn demo_getenv (fun _ => true) demo_dir (config demo_window) (tx "/q") false).
Definition demo_window_plugin : PluginConfig := result_or (mkPluginConfig GenericInsnClassifier false 0 0 0 0 0)
  (qemu_plugin_install registrations "m68k" true 1 (fun _ => Some 1) (plugin_options demo_getenv (config demo_window) (tx "/q") false)).

#[local] Strategy 100 [System.construct spawn qemu_plugin_install].

Lemma inside_of cfg b n a : Config.sst_window_base cfg = b -> Config.sst_window_size cfg = n -> b <= a < b + n -> inside cfg a.
Proof. intros <- <-. auto. Qed.
Lemma is_ok_or {X} (d : X) r : is_ok r = true -> r = Ok (result_or d r).
Proof. destruct r; [reflexivity | discriminate]. Qed.

