(* ===== verification/Fft.v ===== *)
(** * The FFT kernel

    [src/src/quetz_fft.h], the radix-2 transform in place, and
    [src/src/quetz_fft_kernel.cc], which applies it to the bytes of an
    operation.

    The floating-point arithmetic and the library's [cos] and [sin] are a class;
    an access outside the array is [None]. *)
From S2P Require Import Prelude.
From S2P Require Import Backing.
From S2P Require Import Kernel.

(** ** Arithmetic *)

(** [F] is [float] and [D] is [double]. *)
Class Arith (F D : Type) := {
  fadd : F -> F -> F;
  fsub : F -> F -> F;
  fmul : F -> F -> F;
  dmul : D -> D -> D;
  ddiv : D -> D -> D;
  d_of_int : Z -> D;              (* [(double)] of a [uint32_t], and -2.0 *)
  kFftPi : D;
  std_cos : D -> D;
  std_sin : D -> D;
  d_to_f : D -> F }.              (* [(float)] *)
(** [memcpy] between [uint32_t] and [float]. *)
Class FloatBits (F : Type) := {
  f_of_bits : Z -> F;
  f_to_bits : F -> Z }.

Record QuetzCf (F : Type) := mkCf { re : F; im : F }.
Arguments mkCf {F} _ _.
Arguments re {F} _.
Arguments im {F} _.

(** ** The transform *)

(** A loop over consecutive values that may stop with an error. *)
Fixpoint for_each {S} (body : Z -> S -> option S) (n : nat) (i : Z) (s : S) : option S :=
  match n with O => Some s | S n => s ← body i s; for_each body n (i + 1) s end.

(** [while ((1u << logn) < n) logn++], of a 32-bit word. *)
Fixpoint log_loop (fuel : nat) (logn n : Z) : Z :=
  match fuel with
  | O => logn
  | S fuel => if u32 (Z.shiftl 1 logn) <? n then log_loop fuel (logn + 1) n else logn
  end.
Definition ceil_log2 (n : Z) : Z := log_loop 32 0 n.

Fixpoint reverse_loop (b : nat) (r x : Z) : Z :=
  match b with
  | O => r
  | S b => reverse_loop b (Z.lor (u32 (Z.shiftl r 1)) (Z.land x 1)) (Z.shiftr x 1)
  end.

Section Transform.
Context {F D : Type} `{Arith F D}.
#[local] Abbreviation Cf := (QuetzCf F).

Definition swap (i r : Z) (a : list Cf) : option (list Cf) :=
  t ← a !! Z.to_nat i;
  x ← a !! Z.to_nat r;
  Some (<[Z.to_nat r := t]> (<[Z.to_nat i := x]> a)).
Definition permute_at (logn : Z) (i : Z) (a : list Cf) : option (list Cf) :=
  let r := reverse_loop (Z.to_nat logn) 0 i in
  if i <? r then swap i r a else Some a.
Definition permute (logn n : Z) (a : list Cf) : option (list Cf) := for_each (permute_at logn) (Z.to_nat n) 0 a.

(** The factor for the numerator [x] of [n] turns. *)
Definition twiddle (x n : Z) : Cf :=
  let ang := ddiv (dmul (dmul (d_of_int (-2)) kFftPi) (d_of_int x)) (d_of_int n) in
  mkCf (d_to_f (std_cos ang)) (d_to_f (std_sin ang)).

Definition butterfly (w u v : Cf) : Cf * Cf :=
  let tr := fsub (fmul (re w) (re v)) (fmul (im w) (im v)) in
  let ti := fadd (fmul (re w) (im v)) (fmul (im w) (re v)) in
  (mkCf (fadd (re u) tr) (fadd (im u) ti), mkCf (fsub (re u) tr) (fsub (im u) ti)).

Definition butterfly_at (logn n s k : Z) (a : list Cf) : option (list Cf) :=
  let half := u32 (Z.shiftl 1 (s - 1)) in
  let j := Z.land k (half - 1) in
  let group := Z.shiftr k (s - 1) in
  let i0 := u32 (group * u32 (Z.shiftl half 1) + j) in
  let i1 := u32 (i0 + half) in
  let w := twiddle (u32 (Z.shiftl j (logn - s))) n in
  v ← a !! Z.to_nat i1;
  u ← a !! Z.to_nat i0;
  let (x, y) := butterfly w u v in
  Some (<[Z.to_nat i1 := y]> (<[Z.to_nat i0 := x]> a)).
Definition stage (logn n s : Z) (a : list Cf) : option (list Cf) := for_each (butterfly_at logn n s) (Z.to_nat (n / 2)) 0 a.

Definition quetz_fft_radix2 (a : list Cf) (n : Z) : option (list Cf) :=
  let logn := ceil_log2 n in
  a ← permute logn n a;
  for_each (stage logn n) (Z.to_nat logn) 1 a.

(** ** The kernel *)

Context `{!FloatBits F}.

Definition bytes_to_f32 (p : list Z) (at_ : Z) (be : bool) : option F :=
  p0 ← p !! Z.to_nat at_; p1 ← p !! Z.to_nat (at_ + 1); p2 ← p !! Z.to_nat (at_ + 2); p3 ← p !! Z.to_nat (at_ + 3);
  Some (f_of_bits
    (if be then Z.lor (Z.lor (Z.lor (Z.shiftl p0 24) (Z.shiftl p1 16)) (Z.shiftl p2 8)) p3
     else Z.lor (Z.lor (Z.lor p0 (Z.shiftl p1 8)) (Z.shiftl p2 16)) (Z.shiftl p3 24))).

Definition f32_bytes (f : F) (be : bool) : list Z :=
  let b := f_to_bits f in
  let l := [u8 b; u8 (Z.shiftr b 8); u8 (Z.shiftr b 16); u8 (Z.shiftr b 24)] in
  if be then rev l else l.
(** [f32_to_bytes]: the four stores. *)
Definition f32_to_bytes (f : F) (p : list Z) (at_ : Z) (be : bool) : option (list Z) :=
  if bool_decide (Z.to_nat at_ + 4 <= length p)%nat then Some (splice p (Z.to_nat at_) (f32_bytes f be)) else None.

Definition read_points (be : bool) (in_ : list Z) (n : Z) : option (list Cf) :=
  for_each (fun i l =>
    x ← bytes_to_f32 in_ (i * 8 + 0) be; y ← bytes_to_f32 in_ (i * 8 + 4) be; Some (l ++ [mkCf x y])) (Z.to_nat n) 0 [].
Definition write_points (be : bool) (a : list Cf) (n : Z) (out : list Z) : option (list Z) :=
  for_each (fun i out =>
    p ← a !! Z.to_nat i;
    out ← f32_to_bytes (re p) out (i * 8 + 0) be; f32_to_bytes (im p) out (i * 8 + 4) be) (Z.to_nat n) 0 out.

Definition sizeof_Cf : Z := 8.
Definition fft_inputBytes (args : KernelArgs) : Z * string :=
  let n := arg2 args in
  if (n =? 0) || negb (Z.land n (n - 1) =? 0) then (0, "FFT N (REG_ARG2) must be a nonzero power of two"%string)
  else if kMaxKernelInputBytes / sizeof_Cf <? n then (0, "FFT N (REG_ARG2) exceeds the kernel input ceiling"%string)
  else (u64 (n * sizeof_Cf), ""%string).

Definition fft_latency (latency_coeff n logn : Z) : Z :=
  u64 (u64 (latency_coeff * n) * (if logn =? 0 then 1 else logn)).
Definition fft_compute (latency_coeff : Z) (be : bool) (args : KernelArgs) (in_ : list Z) : option (list Z * Z) :=
  let n := u32 (arg2 args) in
  let logn := ceil_log2 n in
  a ← read_points be in_ n;
  a ← quetz_fft_radix2 a n;
  out ← write_points be a n (replicate (length in_) 0);
  Some (out, fft_latency latency_coeff n logn).

(** The kernel as the device sees it; the theorems show that its [compute] is
    defined on every accepted operation. *)
Definition FFTKernel (latency_coeff : Z) : QuetzKernel :=
  mkKernel fft_inputBytes (fun be args in_ => default ([], 0) (fft_compute latency_coeff be args in_)).
End Transform.
