(* ===== verification/FftThm.v ===== *)
(** * The FFT kernel: the loops

    In any arithmetic, the loops in place compute the recursive transform, bit
    for bit, and never leave the array; the kernel accepts powers of two up to
    the device's ceiling. *)
From Stdlib Require Import Zmod.
From S2P Require Import Prelude.
From S2P Require Import Backing.
From S2P Require Import Kernel.
From S2P Require Import Fft.

(** ** Loops *)

Lemma for_each_inv {S} (I : Z -> S -> Prop) body n : forall lo s, I lo s ->
  (forall i s, lo <= i < lo + Z.of_nat n -> I i s -> exists s', body i s = Some s' /\ I (i + 1) s') ->
  exists s', for_each body n lo s = Some s' /\ I (lo + Z.of_nat n) s'.
Proof.
  induction n as [|n IH]; intros lo s Hs Hb; cbn [for_each].
  - exists s. rewrite Z.add_0_r. auto.
  - destruct (Hb lo s) as (s1 & -> & H1); [lia | exact Hs |]. cbn [mbind option_bind].
    replace (lo + Z.of_nat (Datatypes.S n)) with (lo + 1 + Z.of_nat n) by lia. apply IH; [exact H1 |]. intros. apply Hb; [lia | assumption].
Qed.

Lemma u32_small x : 0 <= x < 2 ^ 32 -> u32 x = x.
Proof. apply Z.mod_small. Qed.

Lemma log_loop_spec fuel : forall logn m, 0 <= logn -> logn <= m <= 31 -> m < logn + Z.of_nat fuel -> log_loop fuel logn (2 ^ m) = m.
Proof.
  induction fuel as [|fuel IH]; intros logn m H0 Hm Hf; [lia |]. cbn [log_loop]. rewrite Z.shiftl_1_l.
  rewrite u32_small by (split; [apply Z.pow_nonneg; lia | apply Z.pow_lt_mono_r; lia]).
  destruct (Z.ltb_spec (2 ^ logn) (2 ^ m)) as [L|L].
  - apply IH; [lia | | lia]. apply Z.pow_lt_mono_r_iff in L; lia.
  - apply Z.pow_le_mono_r_iff in L; lia.
Qed.
Lemma ceil_log2_pow2 m : 0 <= m <= 31 -> ceil_log2 (2 ^ m) = m.
Proof. intros. apply log_loop_spec; lia. Qed.

(** ** Bit reversal *)

Fixpoint revb (b : nat) (x : Z) : Z :=
  match b with O => 0 | S b => (x mod 2) * 2 ^ Z.of_nat b + revb b (x / 2) end.

Lemma pow2_pos n : 0 < 2 ^ Z.of_nat n.
Proof. apply Z.pow_pos_nonneg; lia. Qed.
Lemma pow2_S n : 2 ^ Z.of_nat (S n) = 2 * 2 ^ Z.of_nat n.
Proof. rewrite Nat2Z.inj_succ, Z.pow_succ_r by lia. reflexivity. Qed.

Lemma revb_range b : forall x, 0 <= revb b x < 2 ^ Z.of_nat b.
Proof.
  induction b as [|b IH]; intros x; [cbn; lia |]. cbn [revb]. rewrite pow2_S. specialize (IH (x / 2)). pose proof (Z.mod_pos_bound x 2 ltac:(lia)). nia.
Qed.

(** The loop's low bit goes to the top. *)
Lemma revb_high b : forall x, 0 <= x < 2 ^ Z.of_nat (S b) -> revb (S b) x = 2 * revb b (x mod 2 ^ Z.of_nat b) + x / 2 ^ Z.of_nat b.
Proof.
  induction b as [|b IH]; intros x Hx.
  - change (2 ^ Z.of_nat 1) with 2 in Hx. assert (x = 0 \/ x = 1) as [-> | ->] by lia; reflexivity.
  - cbn [revb] in *. rewrite (IH (x / 2)) by (rewrite pow2_S in Hx; dlia). rewrite !pow2_S in *. pose proof (pow2_pos b) as Hp.
    rewrite (Z.rem_mul_r x 2 (2 ^ Z.of_nat b)) by lia.
    replace (x mod 2 + 2 * ((x / 2) mod 2 ^ Z.of_nat b)) with (x mod 2 + ((x / 2) mod 2 ^ Z.of_nat b) * 2) by lia.
    rewrite Z_mod_plus_full, Z.div_add, Zmod_mod by lia. rewrite (Z.div_small (x mod 2) 2) by dlia.
    rewrite Z.div_div by lia. rewrite Z.add_0_l. ring.
Qed.

Lemma revb_revb b : forall x, 0 <= x < 2 ^ Z.of_nat b -> revb b (revb b x) = x.
Proof.
  induction b as [|b IH]; intros x Hx; [cbn in *; lia |].
  rewrite revb_high by apply revb_range. cbn [revb]. pose proof (revb_range b (x / 2)) as Hr. pose proof (pow2_pos b). rewrite pow2_S in Hx.
  rewrite (Z.add_comm (x mod 2 * _)), Z_mod_plus_full, (Z.mod_small (revb b (x / 2))) by lia. rewrite Z.div_add, (Z.div_small (revb b (x / 2))) by lia.
  rewrite IH by (split; [apply Z.div_pos; lia | apply Z.div_lt_upper_bound; lia]). dlia.
Qed.

Lemma revb_even b x : 0 <= x -> revb (S b) (2 * x) = revb b x.
Proof. intros. cbn [revb]. replace (2 * x) with (x * 2) by lia. rewrite Z_mod_mult, Z.div_mul by lia. lia. Qed.
Lemma revb_odd b x : 0 <= x -> revb (S b) (2 * x + 1) = 2 ^ Z.of_nat b + revb b x.
Proof. intros. cbn [revb]. replace ((2 * x + 1) mod 2) with 1 by dlia. replace ((2 * x + 1) / 2) with x by dlia. lia. Qed.

Lemma reverse_loop_spec b : forall r x, 0 <= r < 2 ^ (32 - Z.of_nat b) -> (b <= 32)%nat -> 0 <= x ->
  reverse_loop b r x = r * 2 ^ Z.of_nat b + revb b x.
Proof.
  induction b as [|b IH]; intros r x Hr Hb Hx; [cbn; lia |]. cbn [reverse_loop revb].
  assert (E : 2 ^ (32 - Z.of_nat b) = 2 * 2 ^ (32 - Z.of_nat (S b))) by (rewrite <- Z.pow_succ_r by lia; f_equal; lia).
  assert (Hle : 2 ^ (32 - Z.of_nat b) <= 2 ^ 32) by (apply Z.pow_le_mono_r; lia).
  rewrite Z.shiftl_mul_pow2 by lia. change (2 ^ 1) with 2. rewrite u32_small by lia.
  change 1 with (Z.ones 1) at 1. rewrite Z.land_ones by lia. change (2 ^ 1) with 2.
  rewrite Z.shiftr_div_pow2 by lia. change (2 ^ 1) with 2.
  replace (Z.lor (r * 2) (x mod 2)) with (r * 2 + x mod 2).
  - rewrite IH, pow2_S; [ring | dlia | lia | dlia].
  - pose proof (lor_add_low r (x mod 2) 1 ltac:(lia) ltac:(change (2 ^ 1) with 2; dlia)) as L. change (2 ^ 1) with 2 in L. lia.
Qed.

(** ** Arrays as functions *)

Section Loops.
Context {F D : Type} `{Arith F D}.
#[local] Abbreviation Cf := (QuetzCf F).
Implicit Types (a : list Cf) (f g : Z -> Cf).

Definition rep (n : Z) a f : Prop := Z.of_nat (length a) = n /\ forall i, 0 <= i < n -> a !! Z.to_nat i = Some (f i).

Lemma rep_ext n a f g : rep n a f -> (forall i, 0 <= i < n -> f i = g i) -> rep n a g.
Proof. intros [Hl Hf] E. split; [exact Hl |]. intros i Hi. rewrite <- E by exact Hi. auto. Qed.

Lemma rep_update n a f i x : rep n a f -> 0 <= i < n -> rep n (<[Z.to_nat i := x]> a) (fun k => if k =? i then x else f k).
Proof.
  intros [Hl Hf] Hi. split; [rewrite length_insert; exact Hl |]. intros k Hk. destruct (Z.eqb_spec k i) as [->|Hn].
  - apply list_lookup_insert_eq. lia.
  - rewrite list_lookup_insert_ne by lia. auto.
Qed.

Lemma swap_rep n a f i r : rep n a f -> 0 <= i < n -> 0 <= r < n ->
  exists a', swap i r a = Some a' /\ rep n a' (fun k => if k =? r then f i else if k =? i then f r else f k).
Proof.
  intros R Hi Hr. unfold swap. rewrite (proj2 R i Hi), (proj2 R r Hr). cbn [mbind option_bind]. eexists. split; [reflexivity |].
  apply rep_update; [| exact Hr]. apply rep_update; [exact R | exact Hi].
Qed.

(** ** The permutation *)

Lemma permute_rep m a f : (m <= 31)%nat -> rep (2 ^ Z.of_nat m) a f ->
  exists a', permute (Z.of_nat m) (2 ^ Z.of_nat m) a = Some a' /\ rep (2 ^ Z.of_nat m) a' (fun i => f (revb m i)).
Proof.
  intros Hm R. set (n := 2 ^ Z.of_nat m) in *. assert (Hn : 0 < n) by apply pow2_pos. unfold permute.
  destruct (for_each_inv (fun t a => rep n a (fun k => if Z.min k (revb m k) <? t then f (revb m k) else f k)) (permute_at (Z.of_nat m)) (Z.to_nat n) 0 a)
    as (a' & E & R').
  - eapply rep_ext; [exact R |]. intros i Hi. pose proof (revb_range m i). rewrite (proj2 (Z.ltb_ge _ _)) by lia. reflexivity.
  - intros i b Hi Rb. unfold permute_at. rewrite Nat2Z.id, (reverse_loop_spec m 0 i) by (lia || (split; [lia | apply Z.pow_pos_nonneg; lia])).
    rewrite Z.mul_0_l, Z.add_0_l. pose proof (revb_range m i) as Hr. fold n in Hr. pose proof (revb_revb m i) as Hinv. fold n in Hinv.
    assert (Hinj : forall k, 0 <= k < n -> (revb m k = i <-> k = revb m i)).
    { intros k Hk. split; [intros <-; symmetry; apply revb_revb; exact Hk | intros ->; apply Hinv; lia]. }
    destruct (Z.ltb_spec i (revb m i)) as [L|L].
    + destruct (swap_rep n b _ i (revb m i) Rb ltac:(lia) ltac:(lia)) as (b' & Eb & Rb'). exists b'. split; [exact Eb |].
      eapply rep_ext; [exact Rb' |]. intros k Hk. cbn beta. specialize (Hinj k Hk). rewrite Hinv by lia.
      rewrite !(proj2 (Z.ltb_ge (Z.min _ _) i)) by lia.
      destruct (Z.eqb_spec k (revb m i)) as [->|N1].
      { rewrite Hinv by lia. rewrite (proj2 (Z.ltb_lt _ _)) by lia. reflexivity. }
      destruct (Z.eqb_spec k i) as [->|N2]; [rewrite (proj2 (Z.ltb_lt _ _)) by lia; reflexivity |].
      assert (revb m k <> i) by tauto. destruct (Z.ltb_spec (Z.min k (revb m k)) i), (Z.ltb_spec (Z.min k (revb m k)) (i + 1)); (reflexivity || lia).
    + exists b. split; [reflexivity |]. eapply rep_ext; [exact Rb |]. intros k Hk. cbn beta. specialize (Hinj k Hk).
      destruct (Z.ltb_spec (Z.min k (revb m k)) i), (Z.ltb_spec (Z.min k (revb m k)) (i + 1)); try (reflexivity || lia).
      assert (Hc : k = i \/ revb m k = i) by lia. destruct Hc as [->|Hc]; [f_equal; lia |]. destruct Hinj as [Hinj _]. specialize (Hinj Hc). subst k.
      rewrite Hinv by lia. f_equal. lia.
  - exists a'. split; [exact E |]. eapply rep_ext; [exact R' |]. intros i Hi. cbn beta. pose proof (revb_range m i).
    rewrite (proj2 (Z.ltb_lt _ _)) by lia. reflexivity.
Qed.

(** ** A stage *)

(** What the pairs at distance [h = 2^s] make of [f]. *)
Definition stage_fun (m s : nat) f (i : Z) : Cf :=
  let h := 2 ^ Z.of_nat s in
  let w := twiddle (i mod h * 2 ^ (Z.of_nat m - Z.of_nat s - 1)) (2 ^ Z.of_nat m) in
  if Z.even (i / h) then fst (butterfly w (f i) (f (i + h))) else snd (butterfly w (f (i - h)) (f i)).

(** The pair an index belongs to, and the indices of a pair. *)
Definition pair_of (h i : Z) : Z := i / (2 * h) * h + i mod h.
Definition low_of (h k : Z) : Z := k / h * (2 * h) + k mod h.

Lemma div_2h h i : 0 < h -> i / (2 * h) = (i / h) / 2.
Proof. intros. rewrite Z.div_div by lia. f_equal. lia. Qed.

Lemma pair_low h k : 0 < h -> 0 <= k ->
  pair_of h (low_of h k) = k /\ pair_of h (low_of h k + h) = k /\ low_of h k mod h = k mod h /\ (low_of h k + h) mod h = k mod h /\
  Z.even (low_of h k / h) = true /\ Z.even ((low_of h k + h) / h) = false.
Proof.
  intros Hh Hk. unfold pair_of. rewrite !div_2h by exact Hh.
  assert (E1 : low_of h k / h = 2 * (k / h)).
  { unfold low_of. replace (k / h * (2 * h) + k mod h) with (k mod h + 2 * (k / h) * h) by ring.
    rewrite Z.div_add by lia. rewrite Z.div_small by (apply Z.mod_pos_bound; lia). lia. }
  assert (E2 : low_of h k mod h = k mod h).
  { unfold low_of. replace (k / h * (2 * h) + k mod h) with (k mod h + 2 * (k / h) * h) by ring. rewrite Z_mod_plus_full. apply Zmod_mod. }
  assert (E3 : (low_of h k + h) / h = 2 * (k / h) + 1) by (rewrite <- E1; replace (low_of h k + h) with (low_of h k + 1 * h) by lia; apply Z.div_add; lia).
  assert (E4 : (low_of h k + h) mod h = k mod h) by (rewrite <- E2; replace (low_of h k + h) with (low_of h k + 1 * h) by lia; apply Z_mod_plus_full).
  rewrite E1, E2, E3, E4. replace (2 * (k / h) / 2) with (k / h) by dlia. replace ((2 * (k / h) + 1) / 2) with (k / h) by dlia.
  pose proof (Z.div_mod k h). repeat split; try lia; [rewrite Z.even_mul; reflexivity | rewrite Z.add_comm, Z.even_add_mul_2; reflexivity].
Qed.

Lemma low_pair h i : 0 < h -> i = low_of h (pair_of h i) + (if Z.even (i / h) then 0 else h).
Proof.
  intros Hh. unfold low_of. assert (E1 : pair_of h i / h = i / (2 * h)).
  { unfold pair_of. rewrite Z.add_comm, Z.div_add by lia. rewrite Z.div_small by (apply Z.mod_pos_bound; lia). lia. }
  assert (E2 : pair_of h i mod h = i mod h) by (unfold pair_of; rewrite Z.add_comm, Z_mod_plus_full; apply Zmod_mod).
  rewrite E1, E2, div_2h by exact Hh. pose proof (Z.div_mod i h ltac:(lia)). pose proof (Zmod_even (i / h)). pose proof (Z.div_mod (i / h) 2 ltac:(lia)).
  destruct (Z.even (i / h)); nia.
Qed.

Lemma butterfly_at_eq m s k a : (s < m <= 31)%nat -> 0 <= k < 2 ^ Z.of_nat m / 2 ->
  let h := 2 ^ Z.of_nat s in
  0 <= low_of h k /\ low_of h k + h < 2 ^ Z.of_nat m /\
  butterfly_at (Z.of_nat m) (2 ^ Z.of_nat m) (Z.of_nat s + 1) k a =
  (v ← a !! Z.to_nat (low_of h k + h); u ← a !! Z.to_nat (low_of h k);
   let (x, y) := butterfly (twiddle (k mod h * 2 ^ (Z.of_nat m - Z.of_nat s - 1)) (2 ^ Z.of_nat m)) u v in
   Some (<[Z.to_nat (low_of h k + h) := y]> (<[Z.to_nat (low_of h k) := x]> a))).
Proof.
  intros Hm Hk h. set (q := 2 ^ (Z.of_nat m - Z.of_nat s - 1)). assert (Hh : 0 < h) by apply pow2_pos.
  assert (Hq : 0 < q) by (apply Z.pow_pos_nonneg; lia).
  assert (EN : 2 ^ Z.of_nat m = 2 * h * q).
  { unfold h, q. rewrite <- (Z.pow_succ_r 2 (Z.of_nat s)), <- Z.pow_add_r by lia. f_equal. lia. }
  assert (HN : 2 ^ Z.of_nat m <= 2 ^ 31) by (apply Z.pow_le_mono_r; lia). change (2 ^ 31) with 2147483648 in HN.
  rewrite EN in Hk. replace (2 * h * q) with (h * q * 2) in Hk by ring. rewrite Z.div_mul in Hk by lia.
  assert (Hg : 0 <= k / h < q) by (split; [apply Z.div_pos; lia | apply Z.div_lt_upper_bound; lia]).
  assert (Hj : 0 <= k mod h < h) by (apply Z.mod_pos_bound; lia).
  assert (Hlow : 0 <= low_of h k /\ low_of h k + h < 2 ^ Z.of_nat m) by (unfold low_of; rewrite EN; nia).
  split; [apply Hlow | split; [apply Hlow |]]. unfold butterfly_at. replace (Z.of_nat s + 1 - 1) with (Z.of_nat s) by lia.
  rewrite Z.shiftl_1_l. fold h. rewrite !Z.shiftl_mul_pow2, Z.shiftr_div_pow2 by lia. fold h. change (2 ^ 1) with 2.
  assert (Hb : forall x, 0 <= x < 2 * h * q -> u32 x = x) by (intros x Hx; apply u32_small; change (2 ^ 32) with 4294967296; lia).
  rewrite (Hb h) by nia. rewrite (u32_small (h * 2)) by (change (2 ^ 32) with 4294967296; nia).
  replace (h - 1) with (Z.ones (Z.of_nat s)) by (unfold h; rewrite Z.ones_equiv; lia). rewrite Z.land_ones by lia. fold h.
  replace (k / h * (h * 2) + k mod h) with (low_of h k) by (unfold low_of; ring). rewrite EN in Hlow.
  rewrite (Hb (low_of h k)), (Hb (low_of h k + h)) by lia.
  replace (Z.of_nat m - (Z.of_nat s + 1)) with (Z.of_nat m - Z.of_nat s - 1) by lia. fold q. rewrite (Hb (k mod h * q)) by nia. reflexivity.
Qed.

Lemma pair_bound m s i : (s < m)%nat -> 0 <= i < 2 ^ Z.of_nat m -> pair_of (2 ^ Z.of_nat s) i < 2 ^ Z.of_nat m / 2.
Proof.
  intros Hm Hi. set (h := 2 ^ Z.of_nat s). set (q := 2 ^ (Z.of_nat m - Z.of_nat s - 1)). assert (Hh : 0 < h) by apply pow2_pos.
  assert (EN : 2 ^ Z.of_nat m = h * q * 2).
  { unfold h, q. rewrite <- Z.pow_add_r by lia. rewrite Z.mul_comm, <- Z.pow_succ_r by lia. f_equal. lia. }
  rewrite EN in *. rewrite Z.div_mul by lia. unfold pair_of. pose proof (Z.mod_pos_bound i h Hh).
  assert (i / (2 * h) < q) by (apply Z.div_lt_upper_bound; lia). nia.
Qed.

Lemma stage_rep m s a f : (s < m <= 31)%nat -> rep (2 ^ Z.of_nat m) a f ->
  exists a', stage (Z.of_nat m) (2 ^ Z.of_nat m) (Z.of_nat s + 1) a = Some a' /\ rep (2 ^ Z.of_nat m) a' (stage_fun m s f).
Proof.
  intros Hm R. set (n := 2 ^ Z.of_nat m) in *. set (h := 2 ^ Z.of_nat s). assert (Hh : 0 < h) by apply pow2_pos. unfold stage.
  destruct (for_each_inv (fun t a => rep n a (fun i => if pair_of h i <? t then stage_fun m s f i else f i))
    (butterfly_at (Z.of_nat m) n (Z.of_nat s + 1)) (Z.to_nat (n / 2)) 0 a) as (a' & E & R').
  - eapply rep_ext; [exact R |]. intros i Hi. rewrite (proj2 (Z.ltb_ge _ _)); [reflexivity |]. unfold pair_of.
    pose proof (Z.mod_pos_bound i h Hh). pose proof (Z.div_pos i (2 * h)). nia.
  - intros k b Hk Rb. destruct (butterfly_at_eq m s k b Hm ltac:(fold n; lia)) as (H1 & H2 & E). fold h n in H1, H2, E. rewrite E.
    destruct (pair_low h k Hh ltac:(lia)) as (P1 & P2 & M1 & M2 & V1 & V2).
    rewrite (proj2 Rb (low_of h k + h)), (proj2 Rb (low_of h k)) by lia. cbn [mbind option_bind].
    rewrite P1, P2, !(proj2 (Z.ltb_ge k k)) by lia.
    destruct (butterfly _ _ _) as [x y] eqn:Eb. eexists. split; [reflexivity |].
    eapply rep_ext; [apply rep_update; [apply rep_update; [exact Rb | lia] | lia] |]. intros i Hi. cbn beta.
    destruct (Z.eqb_spec i (low_of h k + h)) as [->|N1].
    { rewrite P2, (proj2 (Z.ltb_lt _ _)) by lia. unfold stage_fun. fold h n. rewrite M2, V2.
      replace (low_of h k + h - h) with (low_of h k) by lia. rewrite Eb. reflexivity. }
    destruct (Z.eqb_spec i (low_of h k)) as [->|N2].
    { rewrite P1, (proj2 (Z.ltb_lt _ _)) by lia. unfold stage_fun. fold h n. rewrite M1, V1, Eb. reflexivity. }
    assert (pair_of h i <> k) by (intros <-; pose proof (low_pair h i Hh); destruct (Z.even (i / h)); lia).
    destruct (Z.ltb_spec (pair_of h i) k), (Z.ltb_spec (pair_of h i) (k + 1)); (reflexivity || lia).
  - exists a'. split; [exact E |]. eapply rep_ext; [exact R' |]. intros i Hi. cbn beta. rewrite (proj2 (Z.ltb_lt _ _)); [reflexivity |].
    pose proof (pair_bound m s i ltac:(lia) Hi) as Hb. fold h n in Hb. lia.
Qed.

(** ** The recursive transform *)

(** Decimation in time: the transform of [2^s] values [g 0, g 1, ...] from
    those of the values at even and at odd indices. *)
Fixpoint rfft (m s : nat) g (k : Z) : Cf :=
  match s with
  | O => g 0
  | S s =>
      let h := 2 ^ Z.of_nat s in
      let e := rfft m s (fun j => g (2 * j)) (k mod h) in
      let o := rfft m s (fun j => g (2 * j + 1)) (k mod h) in
      let (x, y) := butterfly (twiddle (k mod h * 2 ^ (Z.of_nat m - Z.of_nat s - 1)) (2 ^ Z.of_nat m)) e o in
      if k <? h then x else y
  end.

Lemma rfft_ext m s : forall g g' k, (forall j, 0 <= j < 2 ^ Z.of_nat s -> g j = g' j) -> rfft m s g k = rfft m s g' k.
Proof.
  induction s as [|s IH]; intros g g' k E; cbn [rfft]; [apply E; cbn; lia |]. rewrite pow2_S in E.
  rewrite (IH (fun j => g (2 * j)) (fun j => g' (2 * j))), (IH (fun j => g (2 * j + 1)) (fun j => g' (2 * j + 1))) by (intros; apply E; lia). reflexivity.
Qed.

(** Block [i / 2^s] after the stages up to [s]: the transform of the values
    whose indices end in its number, reversed. *)
Definition blocks m s f (i : Z) : Cf :=
  rfft m s (fun j => f (j * 2 ^ Z.of_nat (m - s) + revb (m - s) (i / 2 ^ Z.of_nat s))) (i mod 2 ^ Z.of_nat s).

Lemma blocks_even m s f b i : (s < m)%nat -> 0 <= b -> i / 2 ^ Z.of_nat s = 2 * b ->
  blocks m s f i = rfft m s (fun j => f (2 * j * 2 ^ Z.of_nat (m - S s) + revb (m - S s) b)) (i mod 2 ^ Z.of_nat s).
Proof.
  intros Hm Hg E. unfold blocks. rewrite E. replace (m - s)%nat with (S (m - S s)) by lia. rewrite revb_even by exact Hg. rewrite pow2_S.
  apply rfft_ext. intros j _. f_equal. ring.
Qed.
Lemma blocks_odd m s f b i : (s < m)%nat -> 0 <= b -> i / 2 ^ Z.of_nat s = 2 * b + 1 ->
  blocks m s f i = rfft m s (fun j => f ((2 * j + 1) * 2 ^ Z.of_nat (m - S s) + revb (m - S s) b)) (i mod 2 ^ Z.of_nat s).
Proof.
  intros Hm Hg E. unfold blocks. rewrite E. replace (m - s)%nat with (S (m - S s)) by lia. rewrite revb_odd by exact Hg. rewrite pow2_S.
  apply rfft_ext. intros j _. f_equal. ring.
Qed.

Lemma shift_block h i c : 0 < h -> (i + c * h) / h = i / h + c /\ (i + c * h) mod h = i mod h.
Proof. intros. split; [apply Z.div_add; lia | apply Z_mod_plus_full]. Qed.

Lemma blocks_step m s f i : (s < m)%nat -> 0 <= i < 2 ^ Z.of_nat m -> stage_fun m s (blocks m s f) i = blocks m (S s) f i.
Proof.
  intros Hm Hi. unfold stage_fun. set (h := 2 ^ Z.of_nat s). assert (Hh : 0 < h) by apply pow2_pos.
  unfold blocks at 5. cbn [rfft]. fold h. rewrite pow2_S. fold h. set (t := (m - S s)%nat).
  set (b := i / (2 * h)). assert (Hg : 0 <= b) by (apply Z.div_pos; lia).
  assert (Em : i mod (2 * h) = i mod h + (if Z.even (i / h) then 0 else h) /\ i / h = 2 * b + (if Z.even (i / h) then 0 else 1)).
  { unfold b. rewrite div_2h by exact Hh. pose proof (Z.div_mod (i / h) 2 ltac:(lia)) as E2. rewrite Zmod_even in E2.
    pose proof (Z.div_mod i h ltac:(lia)). pose proof (Z.div_mod i (2 * h) ltac:(lia)) as E3. rewrite div_2h in E3 by exact Hh.
    destruct (Z.even (i / h)); nia. }
  destruct Em as [Em Eq]. pose proof (Z.mod_pos_bound i h Hh). destruct (Z.even (i / h)) eqn:Ev.
  - destruct (shift_block h i 1 Hh) as [D1 M1]. rewrite Z.mul_1_l in D1, M1.
    rewrite (blocks_even m s f b i), (blocks_odd m s f b (i + h)) by (assumption || (fold h; lia)). fold h t. rewrite M1, Em, Z.add_0_r, Zmod_mod.
    destruct (butterfly _ _ _). rewrite (proj2 (Z.ltb_lt _ _)) by lia. reflexivity.
  - destruct (shift_block h i (-1) Hh) as [D1 M1]. replace (i + -1 * h) with (i - h) in D1, M1 by lia.
    rewrite (blocks_even m s f b (i - h)), (blocks_odd m s f b i) by (assumption || (fold h; lia)). fold h t. rewrite M1, Em.
    replace ((i mod h + h) mod h) with (i mod h).
    + destruct (butterfly _ _ _). rewrite (proj2 (Z.ltb_ge _ _)) by lia. reflexivity.
    + replace (i mod h + h) with (i mod h + 1 * h) by lia. rewrite Z_mod_plus_full, Zmod_mod. reflexivity.
Qed.

Lemma blocks_0 m f i : 0 <= i < 2 ^ Z.of_nat m -> blocks m 0 f i = f (revb m i).
Proof. intros. unfold blocks. cbn [rfft]. rewrite Nat.sub_0_r, Z.div_1_r, Z.mul_0_l. reflexivity. Qed.
Lemma blocks_all m f i : 0 <= i < 2 ^ Z.of_nat m -> blocks m m f i = rfft m m f i.
Proof.
  intros. unfold blocks. rewrite Nat.sub_diag, Z.mod_small by lia. apply rfft_ext. intros j Hj. f_equal. cbn. lia.
Qed.

(** ** The loops compute the recursion *)

Lemma rep_map n f : 0 <= n -> rep n (f <$> seqZ 0 n) f.
Proof.
  intros Hn. split; [rewrite length_fmap, length_seqZ; lia |]. intros i Hi. rewrite list_lookup_fmap, lookup_seqZ_lt by lia. cbn. f_equal. f_equal. lia.
Qed.
Lemma rep_eq n a f : 0 <= n -> rep n a f -> a = f <$> seqZ 0 n.
Proof.
  intros Hn [Hl Hf]. apply list_eq. intros i. destruct (decide (Z.of_nat i < n)) as [L|L].
  - rewrite list_lookup_fmap, lookup_seqZ_lt by lia. rewrite <- (Nat2Z.id i) at 1. rewrite Hf by lia. reflexivity.
  - rewrite !lookup_ge_None_2; [reflexivity | rewrite length_fmap, length_seqZ; lia | lia].
Qed.

Lemma fft_rep m a f : (m <= 31)%nat -> rep (2 ^ Z.of_nat m) a f ->
  exists a', quetz_fft_radix2 a (2 ^ Z.of_nat m) = Some a' /\ rep (2 ^ Z.of_nat m) a' (rfft m m f).
Proof.
  intros Hm R. unfold quetz_fft_radix2. rewrite ceil_log2_pow2 by lia.
  destruct (permute_rep m a f Hm R) as (b & -> & Rb). cbn [mbind option_bind]. rewrite Nat2Z.id.
  destruct (for_each_inv (fun t a => rep (2 ^ Z.of_nat m) a (blocks m (Z.to_nat (t - 1)) f)) (stage (Z.of_nat m) (2 ^ Z.of_nat m)) m 1 b) as (a' & E & R').
  - eapply rep_ext; [exact Rb |]. intros i Hi. symmetry. apply blocks_0, Hi.
  - intros t c Ht Rc. destruct (stage_rep m (Z.to_nat (t - 1)) c _ ltac:(lia) Rc) as (c' & Ec & Rc').
    replace (Z.of_nat (Z.to_nat (t - 1)) + 1) with t in Ec by lia. exists c'. split; [exact Ec |].
    eapply rep_ext; [exact Rc' |]. intros i Hi. rewrite blocks_step by (lia || exact Hi). replace (Z.to_nat (t + 1 - 1)) with (S (Z.to_nat (t - 1))) by lia. reflexivity.
  - exists a'. split; [exact E |]. eapply rep_ext; [exact R' |]. intros i Hi. replace (Z.to_nat (1 + Z.of_nat m - 1)) with m by lia. apply blocks_all, Hi.
Qed.

Lemma fft_radix2_spec m f : (m <= 31)%nat ->
  quetz_fft_radix2 (f <$> seqZ 0 (2 ^ Z.of_nat m)) (2 ^ Z.of_nat m) = Some (rfft m m f <$> seqZ 0 (2 ^ Z.of_nat m)).
Proof.
  intros Hm. pose proof (pow2_pos m). destruct (fft_rep m _ f Hm (rep_map (2 ^ Z.of_nat m) f ltac:(lia))) as (a' & -> & R). f_equal. apply rep_eq; [lia | exact R].
Qed.

(** C11. On any array of [2^m] points the transform in place stays within the array
    and leaves, in every arithmetic and so to the last bit, the values of the
    recursive transform by decimation in time. *)
Theorem fft_equiv m f : (m <= 31)%nat ->
  quetz_fft_radix2 (f <$> seqZ 0 (2 ^ Z.of_nat m)) (2 ^ Z.of_nat m) = Some (rfft m m f <$> seqZ 0 (2 ^ Z.of_nat m)).
Proof. apply fft_radix2_spec. Qed.

(** ** The points of a buffer *)

Context `{!FloatBits F}.
Class FloatBitsLaws : Prop := {
  f_bits (x : F) : f_of_bits (f_to_bits x) = x;
  f_bits_range (x : F) : is_u32 (f_to_bits x) }.

Definition word (be : bool) (l : list Z) : Z := if be then be_value l else le_value l.
Definition point (be : bool) (l : list Z) (i : Z) : Cf :=
  mkCf (f_of_bits (word be (slice l (Z.to_nat (8 * i)) 4))) (f_of_bits (word be (slice l (Z.to_nat (8 * i + 4)) 4))).

Lemma slice_4 (l : list Z) i : (i + 4 <= length l)%nat -> exists p0 p1 p2 p3, slice l i 4 = [p0; p1; p2; p3] /\
  l !! i = Some p0 /\ l !! (i + 1)%nat = Some p1 /\ l !! (i + 2)%nat = Some p2 /\ l !! (i + 3)%nat = Some p3.
Proof.
  intros Hl. pose proof (length_slice l i 4 Hl) as Hs.
  assert (E : forall k, (k < 4)%nat -> slice l i 4 !! k = l !! (i + k)%nat) by (intros; apply lookup_slice; assumption).
  destruct (slice l i 4) as [|p0 [|p1 [|p2 [|p3 [|]]]]]; try discriminate. exists p0, p1, p2, p3. split; [reflexivity |].
  pose proof (E 0%nat ltac:(lia)) as E0. rewrite Nat.add_0_r in E0.
  repeat split; symmetry; [exact E0 | apply (E 1%nat) | apply (E 2%nat) | apply (E 3%nat)]; lia.
Qed.

Lemma bits_value p0 p1 p2 p3 : is_u8 p0 -> is_u8 p1 -> is_u8 p2 -> is_u8 p3 ->
  Z.lor (Z.lor (Z.lor (Z.shiftl p0 24) (Z.shiftl p1 16)) (Z.shiftl p2 8)) p3 = ((p0 * 256 + p1) * 256 + p2) * 256 + p3.
Proof.
  unfold is_word. change (2 ^ 8) with 256. intros Ha Hb Hc Hd. rewrite !Z.shiftl_mul_pow2 by lia.
  rewrite (lor_add_low p0 (p1 * 2 ^ 16) 24) by (change (2 ^ 16) with 65536; change (2 ^ 24) with 16777216; lia).
  replace (p0 * 2 ^ 24 + p1 * 2 ^ 16) with ((p0 * 256 + p1) * 2 ^ 16) by ring.
  rewrite (lor_add_low _ (p2 * 2 ^ 8) 16) by (change (2 ^ 16) with 65536; change (2 ^ 8) with 256; lia).
  replace ((p0 * 256 + p1) * 2 ^ 16 + p2 * 2 ^ 8) with (((p0 * 256 + p1) * 256 + p2) * 2 ^ 8) by ring.
  apply (lor_add_low _ p3 8); [lia | exact Hd].
Qed.
Lemma le_value_4 p0 p1 p2 p3 : is_u8 p0 -> is_u8 p1 -> is_u8 p2 -> is_u8 p3 -> le_value [p0; p1; p2; p3] = ((p3 * 256 + p2) * 256 + p1) * 256 + p0.
Proof.
  assert (C : forall p l, is_u8 p -> 0 <= le_value l < 2 ^ 24 -> le_value (p :: l) = le_value l * 256 + p).
  { intros p l Hp Hl. rewrite le_value_cons by exact Hp. rewrite wrap_small by word. reflexivity. }
  intros H0 H1 H2 H3. assert (E3 : le_value [p3] = p3) by (rewrite C; [reflexivity | exact H3 | cbn; lia]).
  assert (E2 : le_value [p2; p3] = p3 * 256 + p2) by (rewrite C, E3; [reflexivity | exact H2 | rewrite E3; word]).
  assert (E1 : le_value [p1; p2; p3] = (p3 * 256 + p2) * 256 + p1) by (rewrite C, E2; [reflexivity | exact H1 | rewrite E2; word]).
  rewrite C, E1; [reflexivity | exact H0 | rewrite E1; word].
Qed.
Lemma bytes_to_f32_spec be l at_ : bytes_ok l -> 0 <= at_ -> at_ + 4 <= Z.of_nat (length l) ->
  bytes_to_f32 l at_ be = Some (f_of_bits (word be (slice l (Z.to_nat at_) 4))).
Proof.
  intros Hb H0 Hl. destruct (slice_4 l (Z.to_nat at_)) as (p0 & p1 & p2 & p3 & E & Ea & Eb & Ec & Ed); [lia |].
  unfold bytes_to_f32. rewrite !Z2Nat.inj_add, Ea by lia. change (Z.to_nat 1) with 1%nat. change (Z.to_nat 2) with 2%nat. change (Z.to_nat 3) with 3%nat.
  rewrite Eb, Ec, Ed, E. cbn [mbind option_bind]. do 2 f_equal.
  pose proof (bytes_ok_slice l (Z.to_nat at_) 4 Hb) as Hs. rewrite E in Hs. unfold bytes_ok in Hs. rewrite !Forall_cons in Hs.
  destruct Hs as (Ba & Bb & Bc & Bd & _). unfold word. rewrite be_value_reverse. destruct be; cbn [reverse rev_append].
  - rewrite bits_value by assumption. symmetry. apply le_value_4; assumption.
  - rewrite le_value_4, <- (bits_value p3 p2 p1 p0) by assumption. 
    rewrite (Z.lor_comm _ (Z.shiftl p3 24)), (Z.lor_comm _ (Z.shiftl p2 16)), (Z.lor_comm p0), !Z.lor_assoc. reflexivity.
Qed.

Lemma slice_splice_same (l xs : list Z) i : (i + length xs <= length l)%nat -> slice (splice l i xs) i (length xs) = xs.
Proof.
  intros Hl. apply list_eq. intros k. destruct (decide (k < length xs)%nat).
  - rewrite lookup_slice, lookup_splice_in by lia. f_equal. lia.
  - rewrite !lookup_ge_None_2; [reflexivity | lia | rewrite length_slice; [lia | rewrite length_splice; lia]].
Qed.
Lemma slice_splice_other (l xs : list Z) i k n : (i + length xs <= length l)%nat -> (k + n <= i \/ i + length xs <= k)%nat -> (k + n <= length l)%nat ->
  slice (splice l i xs) k n = slice l k n.
Proof.
  intros Hl Hd Hk. apply list_eq. intros j. destruct (decide (j < n)%nat).
  - rewrite !lookup_slice, lookup_splice_out by lia. reflexivity.
  - rewrite !lookup_ge_None_2; [reflexivity | rewrite length_slice; lia | rewrite length_slice; [lia | rewrite length_splice; lia]].
Qed.

Lemma f32_bytes_eq (x : F) be : f32_bytes x be = if be : bool then be_bytes 4 (f_to_bits x) else le_bytes 4 (f_to_bits x).
Proof.
  unfold f32_bytes, be_bytes. cbn [le_bytes]. rewrite !land_255, !Z.shiftr_shiftr by lia. unfold wrap. change (2 ^ 8) with 256.
  destruct be; reflexivity.
Qed.
Lemma f32_word `{!FloatBitsLaws} (x : F) be : f_of_bits (word be (f32_bytes x be)) = x.
Proof.
  rewrite f32_bytes_eq. unfold word. pose proof (f_bits_range x) as Hr. unfold is_word in Hr. change (2 ^ 32) with (256 ^ Z.of_nat 4) in Hr.
  destruct be; [rewrite be_value_bytes by lia | rewrite le_value_bytes by lia]; rewrite Z.mod_small by exact Hr; apply f_bits.
Qed.
Lemma f32_bytes_ok (x : F) be : length (f32_bytes x be) = 4%nat /\ bytes_ok (f32_bytes x be).
Proof. rewrite f32_bytes_eq. destruct be; split; auto using length_be_bytes, length_le_bytes, be_bytes_ok, le_bytes_ok. Qed.

Lemma read_points_spec be l n : bytes_ok l -> 0 <= n -> Z.of_nat (length l) = 8 * n -> read_points be l n = Some (point be l <$> seqZ 0 n).
Proof.
  intros Hb Hn Hl. unfold read_points.
  destruct (for_each_inv (fun t (a : list Cf) => a = point be l <$> seqZ 0 t) (fun i a =>
    x ← bytes_to_f32 l (i * 8 + 0) be; y ← bytes_to_f32 l (i * 8 + 4) be; Some (a ++ [mkCf x y])) (Z.to_nat n) 0 []) as (a & E & Ea).
  - reflexivity.
  - intros i a Hi ->. rewrite !bytes_to_f32_spec by (assumption || lia). cbn [mbind option_bind]. eexists. split; [reflexivity |].
    rewrite seqZ_app, fmap_app by lia. f_equal. change (seqZ (0 + i) 1) with [0 + i]. cbn. unfold point. do 2 f_equal; do 2 f_equal; f_equal; lia.
  - rewrite E, Ea. do 2 f_equal. f_equal. lia.
Qed.

Lemma f32_to_bytes_spec (x : F) be l at_ : bytes_ok l -> 0 <= at_ -> at_ + 4 <= Z.of_nat (length l) ->
  exists l', f32_to_bytes x l at_ be = Some l' /\ length l' = length l /\ bytes_ok l' /\ slice l' (Z.to_nat at_) 4 = f32_bytes x be /\
    forall k, (k + 4 <= Z.to_nat at_ \/ Z.to_nat at_ + 4 <= k)%nat -> (k + 4 <= length l)%nat -> slice l' k 4 = slice l k 4.
Proof.
  intros Hb H0 Hl. unfold f32_to_bytes. rewrite bool_decide_true by lia. destruct (f32_bytes_ok x be) as [Hx Ho]. eexists. split; [reflexivity |].
  repeat split.
  - apply length_splice. lia.
  - apply bytes_ok_splice; assumption.
  - pose proof (slice_splice_same l (f32_bytes x be) (Z.to_nat at_)) as S. rewrite Hx in S. apply S. lia.
  - intros k Hk Hkl. apply slice_splice_other; lia.
Qed.

Lemma write_points_spec `{!FloatBitsLaws} be f n l : bytes_ok l -> 0 <= n -> Z.of_nat (length l) = 8 * n ->
  exists out, write_points be (f <$> seqZ 0 n) n l = Some out /\ length out = length l /\ bytes_ok out /\ forall i, 0 <= i < n -> point be out i = f i.
Proof.
  intros Hb Hn Hl. unfold write_points.
  destruct (for_each_inv (fun t out => length out = length l /\ bytes_ok out /\ forall i, 0 <= i < t -> point be out i = f i) (fun i out =>
    p ← (f <$> seqZ 0 n) !! Z.to_nat i; out ← f32_to_bytes (re p) out (i * 8 + 0) be; f32_to_bytes (im p) out (i * 8 + 4) be) (Z.to_nat n) 0 l)
    as (out & E & R); [| | exists out; split; [exact E |]; destruct R as (R1 & R2 & R3); repeat split; auto; intros; apply R3; lia].
  - split; [reflexivity | split; [exact Hb | lia]].
  - intros i out Hi (Ho & Hbo & Hp). rewrite (proj2 (rep_map n f Hn)) by lia. cbn [mbind option_bind].
    destruct (f32_to_bytes_spec (re (f i)) be out (i * 8 + 0)) as (o1 & -> & L1 & B1 & S1 & D1); [assumption | lia | lia |]. cbn [mbind option_bind].
    destruct (f32_to_bytes_spec (im (f i)) be o1 (i * 8 + 4)) as (o2 & -> & L2 & B2 & S2 & D2); [assumption | lia | lia |].
    exists o2. split; [reflexivity |]. repeat split; [lia | assumption |]. intros k Hk. unfold point.
    destruct (decide (k = i)) as [->|N].
    + rewrite (D2 (Z.to_nat (8 * i))) by lia. replace (Z.to_nat (8 * i)) with (Z.to_nat (i * 8 + 0)) by lia.
      replace (Z.to_nat (8 * i + 4)) with (Z.to_nat (i * 8 + 4)) by lia. rewrite S1, S2, !f32_word. destruct (f i); reflexivity.
    + rewrite !D2, !D1 by lia. apply Hp. lia.
Qed.

(** ** The kernel *)

Lemma pow2_land n : 0 < n -> (Z.land n (n - 1) = 0 <-> n = 2 ^ Z.log2 n).
Proof.
  intros Hn. pose proof (Z.log2_spec n Hn) as [L U]. pose proof (Z.log2_nonneg n) as Hk. set (k := Z.log2 n) in *.
  assert (Hp : 0 < 2 ^ k) by (apply Z.pow_pos_nonneg; lia). rewrite Z.pow_succ_r in U by lia. split.
  - intros E. destruct (Z.eq_dec n (2 ^ k)) as [|Ne]; [assumption |]. exfalso.
    assert (B : forall x, 2 ^ k <= x < 2 * 2 ^ k -> Z.testbit x k = true).
    { intros x Hx. rewrite Z.testbit_true by lia. replace (x / 2 ^ k) with 1; [reflexivity |].
      apply Z.div_unique with (r := x - 2 ^ k); lia. }
    assert (T : Z.testbit (Z.land n (n - 1)) k = true) by (rewrite Z.land_spec, !B by lia; reflexivity). rewrite E, Z.bits_0 in T. discriminate.
  - intros E. clearbody k. subst n. replace (2 ^ k - 1) with (Z.ones k) by (rewrite Z.ones_equiv; lia). rewrite Z.land_ones, Z.mod_same by lia. reflexivity.
Qed.

Lemma fft_input_spec args : is_u64 (arg2 args) ->
  (fst (fft_inputBytes args) <> 0 <-> exists k, 0 <= k <= 25 /\ arg2 args = 2 ^ k) /\
  (fst (fft_inputBytes args) <> 0 -> fst (fft_inputBytes args) = 8 * arg2 args /\ 8 * arg2 args <= kMaxKernelInputBytes /\ u32 (arg2 args) = arg2 args).
Proof.
  intros [H0 H64]. unfold fft_inputBytes, sizeof_Cf. set (n := arg2 args) in *. change (kMaxKernelInputBytes / 8) with 33554432. change kMaxKernelInputBytes with 268435456.
  assert (K : n <> 0 -> (Z.land n (n - 1) = 0 <-> n = 2 ^ Z.log2 n)) by (intros; apply pow2_land; lia).
  assert (G : n <= 33554432 -> u64 (n * 8) = 8 * n /\ u32 n = n).
  { intros Hm. split; [rewrite wrap_small by word; lia | apply wrap_small; word]. }
  destruct (Z.eqb_spec n 0) as [->|Nz]; cbn [orb].
  { cbn [fst]. split; [| tauto]. split; [tauto |]. intros (k & Hk & E). pose proof (Z.pow_pos_nonneg 2 k). lia. }
  destruct (Z.eqb_spec (Z.land n (n - 1)) 0) as [P|P]; cbn [negb].
  - apply K in P; [| exact Nz]. destruct (Z.ltb_spec 33554432 n) as [L|L]; cbn [fst].
    + split; [| tauto]. split; [tauto |]. intros (k & Hk & E). assert (2 ^ k <= 2 ^ 25) by (apply Z.pow_le_mono_r; lia). change (2 ^ 25) with 33554432 in *. lia.
    + destruct (G L) as [-> ->]. split; [| lia]. split; [| lia]. intros _. exists (Z.log2 n). split; [| exact P]. split; [apply Z.log2_nonneg |].
      apply Z.log2_le_mono in L. exact L.
  - cbn [fst]. split; [| tauto]. split; [tauto |]. intros (k & Hk & E). destruct P. apply K; [exact Nz |]. rewrite E at 2. rewrite Z.log2_pow2 by lia. exact E.
Qed.

(** An operation is accepted exactly if its point count is a power of two up to
    2^25; its input then has eight bytes a point, within the kernels' ceiling. *)
Lemma fft_input_bounds args : is_u64 (arg2 args) ->
  (fst (fft_inputBytes args) <> 0 <-> exists k, 0 <= k <= 25 /\ arg2 args = 2 ^ k) /\
  (fst (fft_inputBytes args) <> 0 -> fst (fft_inputBytes args) = 8 * arg2 args /\ 8 * arg2 args <= kMaxKernelInputBytes /\ u32 (arg2 args) = arg2 args).
Proof. apply fft_input_spec. Qed.

(** An accepted operation: every access of the kernel is within its buffers,
    the output has the size of the input, its points are the transform of the
    input's points, and the time is the coefficient times N log2 N. *)
Lemma fft_kernel_transforms `{!FloatBitsLaws} c be args in_ k : (k <= 25)%nat -> arg2 args = 2 ^ Z.of_nat k -> bytes_ok in_ ->
  Z.of_nat (length in_) = fst (fft_inputBytes args) ->
  exists out, fft_compute c be args in_ = Some (out, u64 (c * 2 ^ Z.of_nat k * Z.max 1 (Z.of_nat k))) /\ length out = length in_ /\ bytes_ok out /\
    forall i, 0 <= i < 2 ^ Z.of_nat k -> point be out i = rfft k k (point be in_) i.
Proof.
  intros Hk Ha Hb Hl. set (n := 2 ^ Z.of_nat k) in *.
  assert (Hn : 0 < n <= 2 ^ 25) by (split; [apply pow2_pos | apply Z.pow_le_mono_r; lia]). change (2 ^ 25) with 33554432 in Hn.
  destruct (fft_input_spec args) as [I1 I2]; [rewrite Ha; split; [lia | word] |].
  destruct I2 as (E8 & _ & E32); [apply I1; exists (Z.of_nat k); split; [lia | exact Ha] |].
  assert (El : ceil_log2 n = Z.of_nat k) by (apply ceil_log2_pow2; lia).
  assert (Ef : quetz_fft_radix2 (point be in_ <$> seqZ 0 n) n = Some (rfft k k (point be in_) <$> seqZ 0 n)) by (apply fft_radix2_spec; lia).
  unfold fft_compute. rewrite E32, Ha, El. rewrite Ha in E8.
  rewrite (read_points_spec be in_ n Hb) by lia. cbn [mbind option_bind]. rewrite Ef. cbn [mbind option_bind].
  destruct (write_points_spec be (rfft k k (point be in_)) n (replicate (length in_) 0)) as (out & -> & L & B & Pt).
  - apply Forall_replicate. word.
  - lia.
  - rewrite length_replicate. lia.
  - cbn [mbind option_bind]. exists out. rewrite length_replicate in L. repeat split; auto. do 2 f_equal. unfold fft_latency.
    destruct (Z.eqb_spec (Z.of_nat k) 0) as [->|Nz]; [change (Z.max 1 0) with 1 | rewrite Z.max_r by lia]; unfold wrap; apply Z.mul_mod_idemp_l; discriminate.
Qed.
End Loops.

(** ** The theorems at concrete inputs *)

(** 32-bit words, and angles in quarter turns: exact for four points. *)
#[export] Instance demo_arith : Arith (bits 32) Z := {|
  fadd := Zmod.add; fsub := Zmod.sub; fmul := Zmod.mul; dmul := Z.mul; ddiv := Z.div; d_of_int := id; kFftPi := 2;
  std_cos q := match q mod 4 with 0 => 1 | 2 => -1 | _ => 0 end;
  std_sin q := match q mod 4 with 1 => 1 | 3 => -1 | _ => 0 end;
  d_to_f := Zmod.of_Z (2 ^ 32) |}.
#[export] Instance demo_bits : FloatBits (bits 32) := {| f_of_bits := Zmod.of_Z (2 ^ 32); f_to_bits := Zmod.unsigned |}.
#[export] Instance demo_bits_laws : FloatBitsLaws.
Proof. split; intros x; [apply Zmod.of_Z_to_Z | apply Zmod.unsigned_pos_bound; lia]. Qed.

Definition demo_points (i : Z) : QuetzCf (bits 32) := mkCf (Zmod.of_Z (2 ^ 32) (i + 1)) (Zmod.of_Z (2 ^ 32) 0).
Definition to_Zs (a : list (QuetzCf (bits 32))) : list (Z * Z) := map (fun p => (Zmod.signed (re p), Zmod.signed (im p))) a.

Lemma fft_equiv_witness : to_Zs (default [] (quetz_fft_radix2 (demo_points <$> seqZ 0 4) 4)) = [(10, 0); (-2, 2); (-2, 0); (-2, -2)].
Proof. rewrite (fft_equiv 2 demo_points) by lia. vm_compute. reflexivity. Defined.

Lemma fft_input_bounds_witness : fst (fft_inputBytes (mkArgs 0 0 1024 0)) = 8192 /\ fst (fft_inputBytes (mkArgs 0 0 1000 0)) = 0.
Proof.
  split; [| vm_compute; reflexivity].
  apply (fft_input_bounds (mkArgs 0 0 1024 0)); [split; vm_compute; congruence | vm_compute; congruence].
Defined.

(** 1, 2, 3, 4 in big-endian words, through the kernel. *)
Definition demo_input : list Z := [0;0;0;1; 0;0;0;0; 0;0;0;2; 0;0;0;0; 0;0;0;3; 0;0;0;0; 0;0;0;4; 0;0;0;0].
Lemma fft_kernel_transforms_witness : exists out, fft_compute 20 true (mkArgs 0 0 4 0) demo_input = Some (out, 160) /\
  point true out 0 = mkCf (Zmod.of_Z (2 ^ 32) 10) (Zmod.of_Z (2 ^ 32) 0).
Proof.
  destruct (fft_kernel_transforms 20 true (mkArgs 0 0 4 0) demo_input 2) as (out & E & _ & _ & P).
  - lia.
  - reflexivity.
  - unfold demo_input, bytes_ok, is_word. repeat constructor; lia.
  - reflexivity.
  - exists out. split; [exact E |]. rewrite P by (cbn; lia). vm_compute. reflexivity.
Defined.
