(* ===== verification/FftDft.v ===== *)
(** * The FFT kernel: the discrete Fourier transform

    In exact arithmetic - a commutative ring whose factors are powers of a root
    of unity - the transform is the discrete Fourier transform; over the real
    numbers with their cosine and sine it is so for every length. *)
From Stdlib Require Import Reals Lra.
From S2P Require Import Prelude.
From S2P Require Import Fft.
From S2P Require Import FftThm.

(** ** Exact arithmetic *)

Section Exact.
Context {F D : Type} `{Arith F D} (zero one : F) (fopp : F -> F).
Hypothesis F_ring : ring_theory zero one fadd fmul fsub fopp eq.
Add Ring F_ring : F_ring.
#[local] Abbreviation Cf := (QuetzCf F).

Definition c0 : Cf := mkCf zero zero.
Definition c1 : Cf := mkCf one zero.
Definition cadd (u v : Cf) : Cf := mkCf (fadd (re u) (re v)) (fadd (im u) (im v)).
Definition cmul (u v : Cf) : Cf := mkCf (fsub (fmul (re u) (re v)) (fmul (im u) (im v))) (fadd (fmul (re u) (im v)) (fmul (im u) (re v))).
Definition copp (u : Cf) : Cf := mkCf (fopp (re u)) (fopp (im u)).
Definition csub (u v : Cf) : Cf := mkCf (fsub (re u) (re v)) (fsub (im u) (im v)).

Lemma C_ring : ring_theory c0 c1 cadd cmul csub copp eq.
Proof.
  split; intros; repeat match goal with x : QuetzCf _ |- _ => destruct x end; unfold c0, c1, cadd, cmul, csub, copp; cbn; f_equal; ring.
Qed.
Add Ring C_ring : C_ring.

Lemma butterfly_eq w u v : butterfly w u v = (cadd u (cmul w v), csub u (cmul w v)).
Proof. reflexivity. Qed.

(** [f 0 + ... + f (n - 1)] *)
Fixpoint csum (n : nat) (f : Z -> Cf) : Cf :=
  match n with O => c0 | S n => cadd (csum n f) (f (Z.of_nat n)) end.

Lemma csum_ext n f g : (forall j, 0 <= j < Z.of_nat n -> f j = g j) -> csum n f = csum n g.
Proof. induction n as [|n IH]; intros E; [reflexivity |]. cbn [csum]. rewrite IH, E by (intros; apply E || idtac; lia). reflexivity. Qed.
Lemma csum_even_odd n f : csum (2 * n) f = cadd (csum n (fun j => f (2 * j))) (csum n (fun j => f (2 * j + 1))).
Proof.
  induction n as [|n IH]; [cbn; ring |]. replace (2 * S n)%nat with (S (S (2 * n))) by lia. cbn [csum]. rewrite IH.
  replace (Z.of_nat (2 * n)) with (2 * Z.of_nat n) by lia. replace (Z.of_nat (S (2 * n))) with (2 * Z.of_nat n + 1) by lia. ring.
Qed.
Lemma csum_mul_l n c f : csum n (fun j => cmul c (f j)) = cmul c (csum n f).
Proof. induction n as [|n IH]; cbn [csum]; [ring | rewrite IH; ring]. Qed.

(** ** The transform *)

Variable m : nat.
#[local] Abbreviation n := (2 ^ Z.of_nat m).
#[local] Abbreviation tw x := (twiddle x n).
Hypothesis tw_0 : tw 0 = c1.
Hypothesis tw_add : forall x y, 0 <= x -> 0 <= y -> tw (x + y) = cmul (tw x) (tw y).
Hypothesis tw_half : (0 < m)%nat -> tw (n / 2) = copp c1.

(** The transform of the first [2^s] values of [g]. *)
Definition dft (s : nat) (g : Z -> Cf) (k : Z) : Cf :=
  csum (2 ^ s) (fun j => cmul (g j) (tw (j * k * 2 ^ (Z.of_nat m - Z.of_nat s)))).

Lemma tw_period x c : (0 < m)%nat -> 0 <= x -> 0 <= c -> tw (x + c * n) = tw x.
Proof.
  intros Hm Hx Hc. assert (E : tw n = c1).
  { assert (E2 : n = n / 2 + n / 2).
    { replace m with (S (m - 1)) by lia. rewrite pow2_S. rewrite (Z.mul_comm 2), Z.div_mul by lia. lia. }
    rewrite E2 at 1. assert (0 <= n / 2) by (apply Z.div_pos; pose proof (pow2_pos m); lia).
    rewrite tw_add, tw_half by assumption. ring. }
  revert c Hc. apply natlike_ind.
  - rewrite Z.mul_0_l, Z.add_0_r. reflexivity.
  - intros c Hc IH. pose proof (pow2_pos m). replace (x + Z.succ c * n) with (x + c * n + n) by ring.
    rewrite tw_add, IH, E by nia. ring.
Qed.

(** One level of decimation. *)
Lemma dft_step s g k : (s < m)%nat -> 0 <= k < 2 * 2 ^ Z.of_nat s ->
  let h := 2 ^ Z.of_nat s in
  let w := tw (k mod h * 2 ^ (Z.of_nat m - Z.of_nat s - 1)) in
  let e := dft s (fun j => g (2 * j)) (k mod h) in
  let o := dft s (fun j => g (2 * j + 1)) (k mod h) in
  dft (S s) g k = if k <? h then cadd e (cmul w o) else csub e (cmul w o).
Proof.
  intros Hs Hk h w e o. assert (Hh : 0 < h) by apply pow2_pos. fold h in Hk. set (kk := k mod h) in *. set (c := k / h).
  assert (Hkk : 0 <= kk < h) by (apply Z.mod_pos_bound; lia).
  assert (Hc : (k <? h) = (c =? 0) /\ (c = 0 \/ c = 1) /\ k = kk + c * h).
  { unfold c, kk. pose proof (Z.div_mod k h ltac:(lia)). assert (k / h < 2) by (apply Z.div_lt_upper_bound; lia). pose proof (Z.div_pos k h).
    repeat split; [| lia | lia]. destruct (Z.ltb_spec k h), (Z.eqb_spec (k / h) 0); (reflexivity || nia). }
  destruct Hc as (-> & Hc & Ek). set (q := 2 ^ (Z.of_nat m - Z.of_nat s - 1)) in *. assert (Hq : 0 < q) by (apply Z.pow_pos_nonneg; lia).
  assert (En : n = h * q * 2) by (unfold h, q; rewrite <- Z.pow_add_r, Z.mul_comm, <- Z.pow_succ_r by lia; f_equal; lia).
  assert (E2q : 2 ^ (Z.of_nat m - Z.of_nat s) = 2 * q) by (unfold q; rewrite <- Z.pow_succ_r by lia; f_equal; lia).
  assert (Eq : 2 ^ (Z.of_nat m - Z.of_nat (S s)) = q) by (unfold q; f_equal; lia).
  unfold dft. change (2 ^ S s)%nat with (2 ^ s + (2 ^ s + 0))%nat. replace (2 ^ s + (2 ^ s + 0))%nat with (2 * 2 ^ s)%nat by lia. rewrite csum_even_odd, Eq.
  assert (Ew : tw (k * q) = cmul w (if c =? 0 then c1 else copp c1)).
  { rewrite Ek. unfold w. destruct Hc as [-> | ->]; cbn [Z.eqb]; [rewrite Z.mul_0_l, Z.add_0_r; ring |].
    rewrite Z.mul_add_distr_r, tw_add by nia. f_equal. rewrite <- tw_half by lia. rewrite En, Z.div_mul by lia. f_equal. ring. }
  assert (Ee : forall j, 0 <= j -> tw (j * k * (2 * q)) = tw (j * kk * (2 * q))).
  { intros j Hj. rewrite Ek. replace (j * (kk + c * h) * (2 * q)) with (j * kk * (2 * q) + j * c * n) by (rewrite En; ring). apply tw_period; [lia | nia | nia]. }
  rewrite (csum_ext _ _ (fun j => cmul (g (2 * j)) (tw (j * kk * (2 * q))))).
  2: { intros j Hj. rewrite <- Ee by lia. do 2 f_equal. ring. }
  rewrite (csum_ext _ (fun j => cmul (g (2 * j + 1)) _) (fun j => cmul (tw (k * q)) (cmul (g (2 * j + 1)) (tw (j * kk * (2 * q)))))).
  2: { intros j Hj. rewrite <- Ee by lia. replace ((2 * j + 1) * k * q) with (k * q + j * k * (2 * q)) by ring. rewrite tw_add by nia. ring. }
  rewrite csum_mul_l, Ew. unfold e, o, dft. rewrite E2q. destruct Hc as [-> | ->]; cbn [Z.eqb]; ring.
Qed.

Lemma rfft_dft s : (s <= m)%nat -> forall g k, 0 <= k < 2 ^ Z.of_nat s -> rfft m s g k = dft s g k.
Proof.
  induction s as [|s IH]; intros Hs g k Hk.
  - unfold dft. cbn [rfft Nat.pow csum]. change (Z.of_nat 0) with 0. rewrite !Z.mul_0_l. rewrite tw_0. ring.
  - rewrite pow2_S in Hk. assert (Hkk : 0 <= k mod 2 ^ Z.of_nat s < 2 ^ Z.of_nat s) by (apply Z.mod_pos_bound, pow2_pos).
    rewrite (dft_step s g k) by (lia || exact Hk). cbn [rfft]. rewrite !IH by (lia || exact Hkk). rewrite butterfly_eq. reflexivity.
Qed.

Lemma fft_exact g : (m <= 31)%nat -> quetz_fft_radix2 (g <$> seqZ 0 n) n = Some (dft m g <$> seqZ 0 n).
Proof.
  intros Hm. rewrite fft_radix2_spec by exact Hm. f_equal. apply list_fmap_ext. intros i k Hk. apply lookup_seqZ in Hk. apply rfft_dft; lia.
Qed.
End Exact.

(** ** Real numbers *)

Section Real.
Open Scope R_scope.

#[export] Instance R_arith : Arith R R := {|
  fadd := Rplus; fsub := Rminus; fmul := Rmult; dmul := Rmult; ddiv := Rdiv; d_of_int := IZR; kFftPi := PI;
  std_cos := cos; std_sin := sin; d_to_f := id |}.

(** The value at angle [- 2 pi x / n]. *)
Definition root (x n : Z) : QuetzCf R := mkCf (cos (2 * PI * IZR x / IZR n)) (- sin (2 * PI * IZR x / IZR n)).

Lemma twiddle_root x n : twiddle x n = root x n.
Proof.
  unfold twiddle, root. cbn. unfold id. replace (-2 * PI * IZR x / IZR n) with (- (2 * PI * IZR x / IZR n)) by (unfold Rdiv; ring).
  rewrite cos_neg, sin_neg. reflexivity.
Qed.
Lemma root_add x y n : root (x + y) n = cmul (root x n) (root y n).
Proof.
  unfold root, cmul. cbn. rewrite plus_IZR. replace (2 * PI * (IZR x + IZR y) / IZR n) with (2 * PI * IZR x / IZR n + 2 * PI * IZR y / IZR n) by (unfold Rdiv; ring).
  rewrite cos_plus, sin_plus. f_equal; ring.
Qed.
Lemma root_half h : (0 < h)%Z -> root h (2 * h) = mkCf (-1) 0.
Proof.
  intros Hh. unfold root. rewrite mult_IZR. apply IZR_lt in Hh. replace (2 * PI * IZR h / (2 * IZR h)) with PI by (field; lra).
  rewrite cos_PI, sin_PI. f_equal. ring.
Qed.
Lemma root_0 n : root 0 n = mkCf 1 0.
Proof. unfold root. replace (2 * PI * 0 / IZR n) with 0 by (unfold Rdiv; ring). rewrite cos_0, sin_0. f_equal. ring. Qed.

(** The discrete Fourier transform of [n] values:
    [X k = sum_j f j * exp (- 2 pi i j k / n)]. *)
Definition DFT (n : Z) (f : Z -> QuetzCf R) (k : Z) : QuetzCf R := csum 0 (Z.to_nat n) (fun j => cmul (f j) (root (j * k) n)).

(** C28. Over the real numbers the transform in place of [2^m] points is the
    discrete Fourier transform. *)
Theorem fft_is_dft m f : (m <= 31)%nat ->
  quetz_fft_radix2 (f <$> seqZ 0 (2 ^ Z.of_nat m)) (2 ^ Z.of_nat m) = Some (DFT (2 ^ Z.of_nat m) f <$> seqZ 0 (2 ^ Z.of_nat m)).
Proof.
  intros Hm. rewrite (@fft_exact R R R_arith 0 1 Ropp RTheory m); try exact Hm.
  - f_equal. apply list_fmap_ext. intros i k Hk. unfold dft, DFT. replace (Z.to_nat (2 ^ Z.of_nat m)) with (2 ^ m)%nat by (rewrite <- (Nat2Z.id (2 ^ m)), Nat2Z.inj_pow; reflexivity).
    apply csum_ext. intros j Hj. rewrite twiddle_root, Z.sub_diag, Z.mul_1_r. reflexivity.
  - rewrite twiddle_root. apply root_0.
  - intros x y _ _. rewrite !twiddle_root. apply root_add.
  - intros H0. rewrite twiddle_root. replace m with (S (m - 1)) by lia. rewrite pow2_S. rewrite (Z.mul_comm 2 (2 ^ Z.of_nat (m - 1))) at 1. rewrite Z.div_mul by lia.
    rewrite root_half by apply pow2_pos. unfold copp, c1. cbn. f_equal; ring.
Qed.
End Real.

(** Four points on a line. *)
Definition demo_line (k : Z) : QuetzCf R := mkCf (IZR k) 0%R.
Lemma fft_is_dft_witness : (2 <= 31)%nat /\
  quetz_fft_radix2 [demo_line 0; demo_line 1; demo_line 2; demo_line 3] 4 = Some (DFT 4 demo_line <$> [0; 1; 2; 3]).
Proof. split; [lia |]. apply (fft_is_dft 2 demo_line). lia. Defined.
